(* ===== verification/_CoqProject ===== *)
-Q . S2P
Prelude.v
GoStrings.v
GoIO.v
Protocol.v
Subject.v
Router.v
OptimizedRouter.v
Session.v
SendQueue.v
Server.v
Broker.v
SessionLoop.v
RingBuffer.v
Reconnect.v
Client.v
ClientLaws.v
ClientSteps.v
Crypto.v
ClientAPI.v
System.v
ClientFrames.v
BrokerFrames.v
BrokerInput.v
Network.v
NetworkInv.v
NetworkProject.v
NetworkLive.v
Relay.v
Pool.v
GoFloat.v
Interleaved.v
InterleavedInv.v
InterleavedBytes.v
InterleavedLive.v
InterleavedRuns.v
Config.v
PerfStats.v
PerfTest.v
PingPong.v
Programs.v
Reports.v
Scripts.v
ScriptLaws.v
Examples.v
ExampleTests.v
ServerProgram.v
ChannelMode.v
Echo.v
