(* ===== verification/Prelude.v ===== *)
(** * KCPQ: verification of the publish/subscribe broker

    KCPQ is a publish/subscribe message queue in Go. Clients connect to a broker over KCP
    (reliable UDP), subscribe to subjects with wildcard patterns, and publish; the broker
    sends every publication to the sessions that hold a matching pattern. This development
    models the protocol, the broker, the client, and the programs built on them, and proves
    what makes them correct, or exactly where they are not.

    ** The parts and how they interact

    A frame is [len | command | subject length | subject | payload] (src/protocol). On the
    broker (src/server) each accepted connection is a [Session] with a read loop and a write
    loop. The read loop parses frames and calls the handlers: SUB and UNSUB change the
    [Router] (pattern -> sessions) and answer OK, PUB looks the subject up and queues a MSG
    frame on every session found, PING answers PONG. The queue of a session is a bounded
    channel with a byte counter that many publishers update by compare-and-swap; its
    overflow closes the session. The [Server] owns the sessions and the router and closes
    them. The client (src/client) has one connection with a receive loop and a heartbeat, a
    list of subscriptions each with a queue and a goroutine that runs the callback, a table
    of pending acknowledgements, and a supervisor that reconnects with exponential back-off
    and subscribes again. Of the example programs two relay video frames from UDP through the
    broker to NATS, one measures throughput and latency, a pair plays ping-pong, one is the
    server, and the others are short scripts that publish, subscribe, or exercise the client.

    ** Files

    - [Prelude]: bytes, lengths and machine integers, the outcomes of Go code (return,
      panic, block), notations, tactics, list lemmas, invariants of transition systems.
    - [GoStrings], [GoIO]: what the program uses of Go's strings, unicode/utf8, fmt,
      encoding/binary and io, slices with their spare capacity included.
    - [Protocol] (src/protocol/protocol.go): messages, [Encode], the buffer parser
      [ParseWithRemaining] and the stream parser [ParseFromReader].
    - [Subject]: the three matchers of subjects: [Match] (router.go), the compiled patterns
      (router_optimized.go), [matchSubject] (client.go).
    - [Router] (src/server/router.go): the class [SubscriptionStore] of operations the server
      uses, its laws [SubscriptionStoreLaws] in terms of an abstract set of (pattern,
      session) pairs, and the router as an instance.
    - [OptimizedRouter] (src/server/router_optimized.go): the alternative table with its
      pattern cache. The server does not use it.
    - [Session] (src/server/session.go): the state of a session, [enqueueEncoded] and the
      senders, [truncateUTF8].
    - [SendQueue] (the same file): [enqueueEncoded] and the write loop with one step per
      atomic access, any number of senders interleaved.
    - [Server] (src/server/server.go and the handlers of session.go): the broker's [World]
      (router, live sessions, heap of sessions, held mutexes, goroutines started but not yet
      run) and every handler in the monad [M]; [step], the transition relation whose steps
      are the turns of the goroutines ([step_accept], [step_read], [step_write], [step_turn]).
    - [Broker]: the theorems about [Server]. [BrokerFrames]: what each turn does to the output
      queues. [BrokerInput]: what it does not depend on, the bytes connections will still
      deliver. [SessionLoop]: the read loop [Start] run to its
      end. Both are proved against the interface of [Router], for any table.
    - [Interleaved] (session.go and server.go again): every goroutine of the broker, read and
      write loops, [go s.Close()], [GetStats] and [Server.Close], at the grain of its accesses
      to what is shared (the atomic accesses of [enqueueEncoded] one by one), with [Server.mu]
      as a read-write lock and [sync.Once] with its waiters. [InterleavedInv]: the invariant
      and that every step keeps it. [InterleavedBytes]: the byte counters. [InterleavedLive]:
      the bookkeeping at every instant, no panic, no deadlock, and the deadlock of
      [Server.Close]. [InterleavedRuns]: the turns of [Server] are runs of single goroutines
      of this machine.
    - [Pool] (src/server/pool.go): the buffer pools over an abstract [sync.Pool].
    - [RingBuffer] (src/client/ringbuffer.go): the latency samples and their average.
    - [Reconnect] (src/client/client.go): supervision, back-off and the reconnect loop.
    - [Client] (client.go, subscription.go): subscriptions, dispatch, publishing, the
      subscription protocol with its retries, restoring, unsubscribing, closing; [ClientLaws]
      their theorems; [ClientSteps] the client under concurrent callers; [ClientFrames] what it
      writes; [ClientAPI] the remaining entry points and [GetStats].
    - [Crypto] (server/crypto.go, client/crypto.go): the cipher behind a mutex, and the
      construction of both ends, [NewServer] and [ConnectWithContext].
    - [System]: the frames of a client given to the broker and back. [Network]: any number of
      clients ([ClientSteps.local_step]), the broker ([Server.turn]) and the wires between
      them, with any chunking and delay, lost connections and redialling; a client's receive
      loop takes its [select] ([ns_poll]) and its read ([ns_receive]) as two steps, between
      which the client may be closed or its context end. [NetworkInv]: its
      invariant and what every callback sees. [NetworkProject]: its broker and clients are in
      states they reach by themselves, and what each wire carries. [NetworkLive]: what is on its
      way to a client whose receive loop runs and is not told to stop can always arrive.
    - [Relay] (src/examples/h264-relay, src/examples/kcpq-to-nats): the loops of the two
      relay programs and channel mode.
      [Config]: how they and src/examples/server arrive at their configuration. [Programs]:
      [Start] and [Stop] of both.
    - [PerfStats], [PerfTest] (src/examples/perf_test): the statistics shared by concurrent
      callbacks; scenarios, frames, publisher and callback. [PingPong]
      (src/examples/ping_pong, src/examples/ping_server): the loop of the client as a step
      relation, the server's replies, the printed statistics.
    - [GoFloat]: [float64] by the standard specification of binary64. [Reports]: the figures
      that the programs and [GetStats] compute in it.
    - [Scripts]: the language of the programs that only call the client: [defer], waiting,
      [log.Fatal] and errors; [ScriptLaws]: its predicate [wp] and the rule of every call.
      [Examples] (publisher, subscriber, debug_sub, context_usage), [ExampleTests]
      (comprehensive_test, robustness_test, h264_subscriber, the main of ping_server, [Run] of
      ping_pong, test-udp-receiver), [ServerProgram] (src/examples/server): the programs.
    - [Echo] (src/test_simple): the two programs on the bare transport.
    - [ChannelMode] (client.go): [SubscribeChanWithContext] with the closing of its channel,
      in a client that has other channels and subscriptions with callbacks of their own.

    ** How the code is translated

    Structs are records, mutable objects live in a heap (sessions, subscriptions and
    acknowledgement channels are addresses), maps are [gmap]s and the iteration order of a Go
    map is an argument ([order]) that theorems quantify over. Strings are byte lists,
    integers are [Z] with the wrap-around of their width written out. A call that would
    panic or wait for a mutex its own goroutine holds is a value ([Panic], [Block]), so
    that returning is something theorems prove. A script is a function on the state of its
    process; it ends running, by [log.Fatal], which skips the deferred calls, or by returning an
    error, which runs them, and [wp] says that it ends and how. A [float64] is the specified
    [spec_float], NaN and infinities included. Concurrency comes in three grains, chosen
    by what is shared: single atomic accesses ([SendQueue], [Crypto], [Interleaved],
    [PerfStats]), turns of goroutines ([Server.step], which [InterleavedRuns] justifies), and
    calls that wait in the middle, split at the wait ([ClientSteps.client_step], [Reconnect],
    [PingPong]). A frame is written to a connection in one go. The environment (the network's chunks and
    errors, outcomes of writes and dials, the case a [select] picks, clocks) is an argument.

    ** What the theorems show

    - The wire: both parsers accept exactly the encodings, are total, agree, and round-trip
      a sequence of messages under every chunking.
    - Matching: each matcher characterised by segments; where they agree and where not.
    - The tables: the router refines a set of pairs under every history; the optimised one
      does for callers that never register a pair twice.
    - The broker: a global invariant in every reachable state; publications reach exactly
      the sessions concerned, once; effects of SUB, UNSUB and closing; every turn returns;
      the read loop ends and cleans up.
    - The queue: bytes are accounted for under every interleaving, down to those reserved but
      not yet queued and taken but not yet subtracted; frames are written in order, the compare-and-swap loop refines its sequential reading.
    - The client: invariant under concurrent callers with no channel closed twice; only
      well-formed frames of its four commands on its connection; dispatch, queues, subscribing on every branch, unsubscribing, closing; reconnecting.
    - End to end: over the network, what a callback has seen and what is queued for it was
      published by some client, matches the pattern, and comes at most once and in the order
      of publication on each connection; from every reachable state, everything on its way to a
      client that listens, and a publication the broker is about to handle, can still reach its
      callback, in order and without loss (a statement about what can happen next, not about a
      fair scheduler); a client listens while its receive loop runs, neither it nor its context
      is closed, and the session at the other end is open; every state of the network is one
      that the broker and each client reach by themselves, with every frame written and not yet
      read on a wire. Publication to callback, subscription to acknowledgement,
      datagram to NATS; the shared cipher.
    - The programs: where every configured value and the key come from; starting and stopping;
      counters that are exact under interleaving; statistics that are what they are called;
      which printed figures are finite and which NaN or infinite; the exact traffic of the
      scripts, which messages they take, and that they end; the server's program from its
      configuration to its shutdown.
    - Defects found, each a theorem about the model: [Server.Close] waits for itself, a
      subscription can outlive its session, acknowledgements are lost to truncation or
      taken from each other, subscriptions starve or leak, reconnecting can stop for
      good, a successful reconnection is not counted, a callback sends on a closed channel
      after subscribing failed, a minimum is lost to a race, a late reply is taken for the
      next one, a negative interval ends a program, a program closes its client before it
      unsubscribes, figures are printed as NaN.

    ** Bounds

    [SubscribeWithOptions] and [restoreOneSubscription] are fuelled with their own limit of
    three attempts. [Start] takes fuel; more fuel than bytes on the connection is enough, as
    every message takes at least seven. The configured byte limit of a
    session, and the size of a frame given to [enqueueEncoded], are at most 2^62, so that
    the counter plus one more frame does not wrap. Counters in reports are of 64 bits, so
    that their quotients are finite when the divisor is not zero; the jitter of the ping test
    is for up to 300 round trips. The loops of the scripts are bounded by their own counts or
    by the number of events their environment provides.

    ** Not modelled

    The KCP transport and AES (parameters); timers, deadlines and sleeping (choices of the
    environment); logging and what is only printed; jitter of the back-off (a function with
    bounds); RemoteAddr and Addr; YAML, the file system and the NATS client (parameters);
    binding of sockets, signals, the look-up of the local address. In a script, re-dialling
    while it waits, and the goroutine [testChannelSubscription] leaves behind. The unit tests,
    benchmarks and the soak test. Go's memory model is not: accesses are sequentially consistent, as for the
    mutexes and atomics used. *)

From Stdlib Require Import Strings.Byte.
From stdpp Require Export prelude gmap strings list fin_maps fin_sets pretty.

Declare Scope kcpq_scope.
Delimit Scope kcpq_scope with kcpq.
Open Scope kcpq_scope.

(** ** Bytes and Go strings

    A Go [byte] is an unsigned 8-bit integer, a Go [string] is an immutable byte
    sequence; both are modelled exactly, by [Byte.byte] and [list Byte.byte]. *)

Abbreviation byte := Byte.byte.
Abbreviation gostring := (list Byte.byte).

(** A string literal of the source. *)
Definition str (s : string) : gostring := String.list_byte_of_string s.
Arguments str s%_string.

#[global] Instance byte_eq_dec : EqDecision byte := Byte.byte_eq_dec.

#[global] Program Instance byte_countable : Countable byte :=
  inj_countable Byte.to_N Byte.of_N _.
Next Obligation. intros x. apply Byte.of_to_N. Qed.

(** [uint8(v)] and back: conversion keeps the low eight bits. *)
Definition byte_val (b : byte) : Z := Z.of_N (Byte.to_N b).
Definition byte_of (v : Z) : byte :=
  match Byte.of_N (Z.to_N (v mod 256)) with Some b => b | None => Byte.x00 end.

Lemma byte_val_range b : (0 <= byte_val b < 256)%Z.
Proof. unfold byte_val. pose proof (Byte.to_N_bounded b). lia. Qed.

Lemma byte_of_val b : byte_of (byte_val b) = b.
Proof.
  unfold byte_of. pose proof (byte_val_range b).
  rewrite Z.mod_small by lia. unfold byte_val. rewrite N2Z.id.
  by rewrite Byte.of_to_N.
Qed.

Lemma byte_val_of v : byte_val (byte_of v) = (v mod 256)%Z.
Proof.
  unfold byte_of. pose proof (Z.mod_pos_bound v 256 eq_refl) as Hb.
  destruct (Byte.of_N _) as [b|] eqn:E.
  - apply Byte.to_of_N in E. unfold byte_val. rewrite E. lia.
  - apply Byte.of_N_None_iff in E. lia.
Qed.

Lemma byte_val_inj b1 b2 : byte_val b1 = byte_val b2 → b1 = b2.
Proof. intros H. by rewrite <-(byte_of_val b1), <-(byte_of_val b2), H. Qed.

(** ** Lengths

    Go's [len] is an [int]; it is kept in [Z], so that the large constants of the
    protocol never become unary numbers. *)

Definition len {A} (l : list A) : Z := Z.of_nat (length l).

Lemma len_nil {A} : len (@nil A) = 0%Z.
Proof. done. Qed.
Lemma len_cons {A} (x : A) l : len (x :: l) = (1 + len l)%Z.
Proof. unfold len. simpl. lia. Qed.
Lemma len_app {A} (l1 l2 : list A) : len (l1 ++ l2) = (len l1 + len l2)%Z.
Proof. unfold len. rewrite length_app. lia. Qed.
Lemma len_nonneg {A} (l : list A) : (0 <= len l)%Z.
Proof. unfold len. lia. Qed.
Lemma len_replicate {A} n (x : A) : len (replicate n x) = Z.of_nat n.
Proof. unfold len. by rewrite length_replicate. Qed.
Lemma len_take {A} n (l : list A) : len (take n l) = Z.min (Z.of_nat n) (len l).
Proof. unfold len. rewrite length_take. lia. Qed.
Lemma len_drop {A} n (l : list A) : len (drop n l) = Z.max 0 (len l - Z.of_nat n).
Proof. unfold len. rewrite length_drop. lia. Qed.
Lemma len_zero_nil {A} (l : list A) : len l = 0%Z → l = [].
Proof. unfold len. destruct l; simpl; [done|lia]. Qed.

Create Rewrite HintDb len.
#[export] Hint Rewrite @len_nil @len_cons @len_app @len_replicate @len_take @len_drop : len.

(** Arithmetic about lengths of lists. *)
Ltac len_simpl := autorewrite with len in *.
Ltac len_lia :=
  len_simpl;
  repeat match goal with
  | |- context [len ?l] =>
      lazymatch goal with
      | H : (0 <= len l)%Z |- _ => fail
      | _ => pose proof (len_nonneg l)
      end
  | _ : context [len ?l] |- _ =>
      lazymatch goal with
      | H : (0 <= len l)%Z |- _ => fail
      | _ => pose proof (len_nonneg l)
      end
  end; lia.

(** ** Machine integers *)

Definition uint16 (v : Z) : Z := (v mod 2 ^ 16)%Z.
Definition uint32 (v : Z) : Z := (v mod 2 ^ 32)%Z.
(** Two's complement wrap-around of Go's [int64], [int] and [time.Duration]. *)
Definition int64 (v : Z) : Z := ((v + 2 ^ 63) mod 2 ^ 64 - 2 ^ 63)%Z.
Definition int64_max : Z := (2 ^ 63 - 1)%Z.

Lemma uint16_small v : (0 <= v < 2 ^ 16)%Z → uint16 v = v.
Proof. apply Z.mod_small. Qed.
Lemma uint32_small v : (0 <= v < 2 ^ 32)%Z → uint32 v = v.
Proof. apply Z.mod_small. Qed.
Lemma int64_small v : (- 2 ^ 63 <= v < 2 ^ 63)%Z → int64 v = v.
Proof. intros H. unfold int64. rewrite Z.mod_small by lia. lia. Qed.
Lemma int64_range v : (- 2 ^ 63 <= int64 v < 2 ^ 63)%Z.
Proof. unfold int64. pose proof (Z.mod_pos_bound (v + 2 ^ 63) (2 ^ 64) eq_refl). lia. Qed.

(** ** Outcomes of Go code

    A call returns, panics (index or slice out of range, close of a closed channel, nil
    dereference, division by zero) or blocks forever (a mutex never released). *)
Inductive outcome (A : Type) : Type :=
| Ret (a : A)
| Panic
| Block.
Arguments Ret {A} a.
Arguments Panic {A}.
Arguments Block {A}.

Definition obind {A B} (m : outcome A) (f : A → outcome B) : outcome B :=
  match m with Ret a => f a | Panic => Panic | Block => Block end.

Notation "'do' x ← m ; k" := (obind m (λ x, k))
  (at level 100, x binder, m at level 99, k at level 200, right associativity) : kcpq_scope.
Notation "'guard!' b ; k" := (if b then k else Panic)
  (at level 100, b at level 99, k at level 200, right associativity) : kcpq_scope.

(** ** Generic list lemmas *)

Lemma take_app_len {A} (l1 l2 : list A) n : n = length l1 → take n (l1 ++ l2) = l1.
Proof. intros ->. apply take_app_length. Qed.
Lemma drop_app_len {A} (l1 l2 : list A) n : n = length l1 → drop n (l1 ++ l2) = l2.
Proof. intros ->. apply drop_app_length. Qed.

Lemma filter_all {A} (P : A → Prop) `{∀ x, Decision (P x)} (l : list A) :
  (∀ x, x ∈ l → P x) → filter P l = l.
Proof.
  induction l as [|x l IH]; intros Hall; [done|].
  rewrite filter_cons_True by (apply Hall; left).
  f_equal. apply IH. intros y Hy. apply Hall. by right.
Qed.

Lemma NoDup_snoc {A} (l : list A) x : NoDup l → x ∉ l → NoDup (l ++ [x]).
Proof.
  intros Hl Hx. apply NoDup_app. split_and!; [done| |apply NoDup_singleton].
  intros y Hy ->%list_elem_of_singleton. done.
Qed.

(** Sum of the lengths of a list of byte strings. *)
Definition total_len (ls : list (list byte)) : Z := foldr (λ l acc, (len l + acc)%Z) 0%Z ls.
Lemma total_len_app l1 l2 : total_len (l1 ++ l2) = (total_len l1 + total_len l2)%Z.
Proof. induction l1 as [|x l1 IH]; simpl; lia. Qed.
Lemma total_len_nonneg ls : (0 <= total_len ls)%Z.
Proof. induction ls as [|x ls IH]; simpl; [lia|]. len_lia. Qed.

(** ** Sums over finite maps *)

Section map_total.
Context `{Countable K} {A : Type} (f : A → Z).

Definition map_total (m : gmap K A) : Z := map_fold (λ _ a n, (f a + n)%Z) 0%Z m.

Lemma map_total_new m i a : m !! i = None → map_total (<[i := a]> m) = (f a + map_total m)%Z.
Proof. intros Hi. unfold map_total. rewrite map_fold_insert_L; [done|lia|done]. Qed.
Lemma map_total_delete m i a : m !! i = Some a → map_total m = (f a + map_total (delete i m))%Z.
Proof. intros Hi. unfold map_total at 1. by rewrite (map_fold_delete_L _ _ i a) by (lia || done). Qed.
Lemma map_total_insert m i a b : m !! i = Some a → map_total (<[i := b]> m) = (map_total m - f a + f b)%Z.
Proof.
  intros Hi. rewrite (map_total_delete m i a) by done.
  rewrite <-insert_delete_eq, map_total_new by apply lookup_delete_eq. lia.
Qed.

Lemma map_total_nonneg m : (∀ a, 0 <= f a)%Z → (0 <= map_total m)%Z.
Proof.
  intros Hf. induction m as [|i a m Hi IH] using map_ind; [done|].
  rewrite map_total_new by done. specialize (Hf a). lia.
Qed.
Lemma map_total_lookup m i a : (∀ a, 0 <= f a)%Z → m !! i = Some a → (f a <= map_total m)%Z.
Proof.
  intros Hf Hi. rewrite (map_total_delete m i a) by done.
  pose proof (map_total_nonneg (delete i m) Hf). lia.
Qed.
Lemma map_total_zero m : (∀ i a, m !! i = Some a → f a = 0%Z) → map_total m = 0%Z.
Proof.
  induction m as [|i a m Hi IH] using map_ind; [done|]. intros Hf.
  rewrite map_total_new, (Hf i a) by (done || apply lookup_insert_eq). apply IH.
  intros j b Hj. apply (Hf j b). rewrite lookup_insert_ne; [done|congruence].
Qed.
End map_total.

(** ** Transition systems *)

Section Star.
Context {A : Type} (R : A → A → Prop).

(** An invariant of the initial states that every step preserves holds in every
    reachable state. *)
Lemma rtc_invariant (P : A → Prop) x y :
  (∀ a b, P a → R a b → P b) → P x → rtc R x y → P y.
Proof. intros Hstep Hx Hxy. induction Hxy; eauto. Qed.
End Star.
