(* ===== verification/GoStrings.v ===== *)
(** * The parts of Go's [strings], [unicode/utf8] and [fmt] packages the program uses

    Executable definitions on byte strings with their characterisations: prefix and
    suffix tests, [Split] and its inverse, [Contains], the UTF-8 validity test, and the
    decimal rendering of integers. *)

From S2P Require Import Prelude.

(** ** Prefixes and suffixes *)

(** [strings.HasPrefix(s, p)]: [len(s) >= len(p) && s[:len(p)] == p]. *)
Definition HasPrefix (s p : gostring) : bool :=
  (len p <=? len s)%Z && bool_decide (take (length p) s = p).

(** [strings.HasSuffix(s, p)]: [len(s) >= len(p) && s[len(s)-len(p):] == p]. *)
Definition HasSuffix (s p : gostring) : bool :=
  (len p <=? len s)%Z && bool_decide (drop (length s - length p) s = p).

Definition TrimPrefix (s p : gostring) : gostring :=
  if HasPrefix s p then drop (length p) s else s.
Definition TrimSuffix (s p : gostring) : gostring :=
  if HasSuffix s p then take (length s - length p) s else s.

(** [strings.Contains]: a match at the current position or further on. *)
Fixpoint Contains (s sub : gostring) : bool :=
  HasPrefix s sub || match s with [] => false | _ :: s' => Contains s' sub end.

Lemma HasPrefix_spec s p : HasPrefix s p = true ↔ ∃ t, s = p ++ t.
Proof.
  unfold HasPrefix. rewrite andb_true_iff, Z.leb_le, bool_decide_eq_true. split.
  - intros [_ H]. exists (drop (length p) s). rewrite <-H at 1. by rewrite take_drop.
  - intros [t ->]. split; [len_lia|]. by apply take_app_len.
Qed.

Lemma HasPrefix_app p t : HasPrefix (p ++ t) p = true.
Proof. apply HasPrefix_spec. eauto. Qed.

Lemma HasSuffix_spec s p : HasSuffix s p = true ↔ ∃ t, s = t ++ p.
Proof.
  unfold HasSuffix. rewrite andb_true_iff, Z.leb_le, bool_decide_eq_true. split.
  - intros [_ H]. exists (take (length s - length p) s). by rewrite <-H at 2; rewrite take_drop.
  - intros [t ->]. split; [len_lia|]. apply drop_app_len. rewrite length_app. lia.
Qed.

Lemma TrimSuffix_app t p : TrimSuffix (t ++ p) p = t.
Proof.
  unfold TrimSuffix. assert (HasSuffix (t ++ p) p = true) as -> by (apply HasSuffix_spec; eauto).
  apply take_app_len. rewrite length_app. lia.
Qed.

Lemma TrimPrefix_app p t : TrimPrefix (p ++ t) p = t.
Proof. unfold TrimPrefix. rewrite HasPrefix_app. by apply drop_app_len. Qed.

Lemma TrimPrefix_no s p : HasPrefix s p = false → TrimPrefix s p = s.
Proof. unfold TrimPrefix. by intros ->. Qed.

Lemma Contains_spec s sub : Contains s sub = true ↔ ∃ a b, s = a ++ sub ++ b.
Proof.
  induction s as [|c s IH]; simpl; rewrite orb_true_iff, HasPrefix_spec.
  - split.
    + intros [[t Ht]|[=]]. by exists [], t.
    + intros (a & b & Heq). left. exists b. by destruct a.
  - rewrite IH. split.
    + intros [[t ->]|(a & b & ->)]; [by exists [], t|]. by exists (c :: a), b.
    + intros (a & b & Heq). destruct a as [|c' a]; simplify_eq/=; eauto.
Qed.

Lemma HasPrefix_Contains s p : HasPrefix s p = true → Contains s p = true.
Proof. destruct s; simpl; by intros ->. Qed.

(** ** [strings.Split] by a one-byte separator *)

Fixpoint Split (s : gostring) (sep : byte) : list gostring :=
  match s with
  | [] => [[]]
  | c :: s' =>
      if decide (c = sep) then [] :: Split s' sep
      else match Split s' sep with
           | [] => [[c]]
           | p :: ps => (c :: p) :: ps
           end
  end.

(** Inverse of [Split]: [strings.Join]. *)
Fixpoint Join (ps : list gostring) (sep : byte) : gostring :=
  match ps with
  | [] => []
  | [p] => p
  | p :: ps' => p ++ sep :: Join ps' sep
  end.

Section split.
Context (sep : byte).

Lemma Split_not_nil s : Split s sep ≠ [].
Proof.
  destruct s as [|c s]; simpl; [done|].
  case_decide; [done|]. by destruct (Split s sep).
Qed.

Lemma Join_cons p ps : ps ≠ [] → Join (p :: ps) sep = p ++ sep :: Join ps sep.
Proof. by destruct ps. Qed.

Lemma Join_app ps qs :
  ps ≠ [] → qs ≠ [] → Join (ps ++ qs) sep = Join ps sep ++ sep :: Join qs sep.
Proof.
  intros Hp Hq. induction ps as [|p ps IH]; [done|].
  destruct ps as [|p' ps]; [by apply Join_cons|].
  change ((p :: p' :: ps) ++ qs) with (p :: ((p' :: ps) ++ qs)).
  rewrite !Join_cons, IH by done. by rewrite <-app_assoc.
Qed.

Lemma Join_Split s : Join (Split s sep) sep = s.
Proof.
  induction s as [|c s IH]; simpl; [done|]. case_decide as Hc.
  - subst. rewrite Join_cons by apply Split_not_nil. by rewrite IH.
  - destruct (Split s sep) as [|p ps] eqn:E; [by destruct (Split_not_nil s)|].
    destruct ps; simpl in *; by rewrite <-IH.
Qed.

Lemma Split_inj s1 s2 : Split s1 sep = Split s2 sep → s1 = s2.
Proof. intros H. by rewrite <-(Join_Split s1), <-(Join_Split s2), H. Qed.

Lemma Split_app s1 s2 : Split (s1 ++ sep :: s2) sep = Split s1 sep ++ Split s2 sep.
Proof.
  induction s1 as [|c s1 IH]; simpl.
  - by rewrite decide_True.
  - case_decide; rewrite IH; [done|].
    destruct (Split s1 sep) as [|p ps] eqn:E; [by destruct (Split_not_nil s1)|done].
Qed.

Lemma Split_nosep s : sep ∉ s → Split s sep = [s].
Proof.
  induction s as [|c s IH]; simpl; [done|]. intros Hs.
  apply not_elem_of_cons in Hs as [Hc Hs].
  rewrite decide_False by congruence. by rewrite IH.
Qed.

Lemma Split_parts s p : p ∈ Split s sep → sep ∉ p.
Proof.
  revert p. induction s as [|c s IH]; simpl; intros p.
  - rewrite list_elem_of_singleton. intros ->. apply not_elem_of_nil.
  - case_decide as Hc.
    * rewrite elem_of_cons. intros [->|Hp]; [apply not_elem_of_nil|by apply IH].
    * destruct (Split s sep) as [|q qs] eqn:E; [by destruct (Split_not_nil s)|].
      rewrite elem_of_cons. intros [->|Hp]; [|apply IH; by right].
      apply not_elem_of_cons. split; [congruence|]. apply IH. left.
Qed.
End split.

(** ** UTF-8 *)

Definition in_range (lo hi : Z) (b : byte) : bool := (lo <=? byte_val b)%Z && (byte_val b <=? hi)%Z.

(** The well-formed encodings of one code point, as tabulated by [utf8.first] and
    [utf8.acceptRanges]: no overlong form, no surrogate, nothing above U+10FFFF. *)
Definition rune_ok (c : list byte) : bool :=
  match c with
  | [b0] => in_range 0 0x7F b0
  | [b0; b1] => in_range 0xC2 0xDF b0 && in_range 0x80 0xBF b1
  | [b0; b1; b2] =>
      (in_range 0xE0 0xE0 b0 && in_range 0xA0 0xBF b1
       || in_range 0xE1 0xEC b0 && in_range 0x80 0xBF b1
       || in_range 0xED 0xED b0 && in_range 0x80 0x9F b1
       || in_range 0xEE 0xEF b0 && in_range 0x80 0xBF b1) && in_range 0x80 0xBF b2
  | [b0; b1; b2; b3] =>
      (in_range 0xF0 0xF0 b0 && in_range 0x90 0xBF b1
       || in_range 0xF1 0xF3 b0 && in_range 0x80 0xBF b1
       || in_range 0xF4 0xF4 b0 && in_range 0x80 0x8F b1)
      && in_range 0x80 0xBF b2 && in_range 0x80 0xBF b3
  | _ => false
  end.

(** [utf8.ValidString]: decode code points until the string is used up. *)
Fixpoint ValidString (s : gostring) : bool :=
  match s with
  | [] => true
  | b0 :: r0 =>
      (rune_ok [b0] && ValidString r0) ||
      match r0 with
      | [] => false
      | b1 :: r1 =>
          (rune_ok [b0; b1] && ValidString r1) ||
          match r1 with
          | [] => false
          | b2 :: r2 =>
              (rune_ok [b0; b1; b2] && ValidString r2) ||
              match r2 with
              | [] => false
              | b3 :: r3 => rune_ok [b0; b1; b2; b3] && ValidString r3
              end
          end
      end
  end.

Lemma ValidString_spec s :
  ValidString s = true ↔ ∃ cs, Forall (λ c, rune_ok c = true) cs ∧ s = concat cs.
Proof.
  split.
  - induction s as [s IH] using (induction_ltof1 _ length); unfold ltof in IH.
    destruct s as [|b0 r0]; [by exists []|].
    assert (Hone : ∀ c r, b0 :: r0 = c ++ r → (length r < length (b0 :: r0))%nat →
      rune_ok c && ValidString r = true →
      ∃ cs, Forall (λ c, rune_ok c = true) cs ∧ b0 :: r0 = concat cs).
    { intros c r Heq Hlt [Hc Hr]%andb_true_iff.
      destruct (IH r Hlt Hr) as (cs & Hcs & ->). exists (c :: cs). by split; [constructor|]. }
    cbn [ValidString]. rewrite orb_true_iff. intros [H|H]; [apply (Hone [b0] r0); simpl; eauto with lia|].
    destruct r0 as [|b1 r1]; [done|]. apply orb_true_iff in H as [H|H];
      [apply (Hone [b0; b1] r1); simpl; eauto with lia|].
    destruct r1 as [|b2 r2]; [done|]. apply orb_true_iff in H as [H|H];
      [apply (Hone [b0; b1; b2] r2); simpl; eauto with lia|].
    destruct r2 as [|b3 r3]; [done|]. apply (Hone [b0; b1; b2; b3] r3); simpl; eauto with lia.
  - intros (cs & Hcs & ->). induction Hcs as [|c cs Hc _ IH]; [done|].
    destruct c as [|b0 [|b1 [|b2 [|b3 [|b4 c]]]]]; [done|..|done];
      cbn [concat app ValidString]; rewrite Hc, IH, ?orb_true_r; done.
Qed.

Lemma ValidString_app s1 s2 :
  ValidString s1 = true → ValidString s2 = true → ValidString (s1 ++ s2) = true.
Proof.
  rewrite !ValidString_spec. intros (c1 & ? & ->) (c2 & ? & ->).
  exists (c1 ++ c2). by rewrite Forall_app, concat_app.
Qed.

(** Every seven-bit string is valid. *)
Lemma ValidString_ascii s : Forall (λ b, byte_val b < 128)%Z s → ValidString s = true.
Proof.
  induction 1 as [|b s Hb _ IH]; [done|]. cbn [ValidString]. rewrite IH. cbn [rune_ok].
  unfold in_range. pose proof (byte_val_range b).
  rewrite (proj2 (Z.leb_le 0 _)), (proj2 (Z.leb_le _ 127)) by lia. done.
Qed.

Lemma rune_ok_length c : rune_ok c = true → (1 <= length c <= 4)%nat.
Proof. destruct c as [|b0 [|b1 [|b2 [|b3 [|b4 c]]]]]; simpl; try done; lia. Qed.

(** ** [fmt] *)

(** The [%d] verb. *)
Definition itoa (z : Z) : gostring := str (pretty z).

Lemma str_length s : length (str s) = String.length s.
Proof. induction s as [|a s IH]; [done|]. cbn. by rewrite <-IH. Qed.

Lemma pretty_N_go_length k x s :
  (x < 2 ^ N.of_nat k)%N → (String.length (pretty_N_go x s) <= k + String.length s)%nat.
Proof.
  revert x s. induction k as [|k IH]; intros x s Hx.
  - assert (x = 0%N) as -> by (change (2 ^ N.of_nat 0)%N with 1%N in Hx; lia). by rewrite pretty_N_go_0.
  - destruct (decide (0 < x)%N) as [H0|H0]; [|assert (x = 0%N) as -> by lia; rewrite pretty_N_go_0; lia].
    rewrite pretty_N_go_step by done. etrans; [apply IH|cbn; lia].
    apply N.Div0.div_lt_upper_bound. rewrite Nat2N.inj_succ, N.pow_succ_r' in Hx. lia.
Qed.

(** A number of [k] bits has at most [k] digits and a sign. *)
Lemma itoa_length k z : (1 <= k)%nat → (Z.abs z < 2 ^ Z.of_nat k)%Z → (length (itoa z) <= S k)%nat.
Proof.
  intros Hk Hz. unfold itoa. rewrite str_length.
  assert (∀ p, (Zpos p < 2 ^ Z.of_nat k)%Z → (String.length (pretty (Npos p)) <= k)%nat) as Hp.
  { intros p Hp. unfold pretty, pretty_N. rewrite decide_False by done.
    etrans; [apply (pretty_N_go_length k)|cbn; lia]. apply N2Z.inj_lt. rewrite N2Z.inj_pow, nat_N_Z. exact Hp. }
  destruct z as [|p|p]; cbn [pretty pretty_Z]; [cbn; lia|..]; specialize (Hp p Hz).
  - change (pretty p) with (pretty (Npos p)). lia.
  - change (S (String.length (pretty (Npos p))) <= S k)%nat. lia.
Qed.
