(* ===== verification/GoIO.v ===== *)
(** * Go slices, [encoding/binary] and [io.ReadFull]

    Byte slices with their capacity (slicing beyond the length but within the capacity
    is legal in Go and the parser does it), big-endian integers, and a reader that
    delivers its bytes in arbitrary pieces, with [io.ReadFull] over it. *)

From S2P Require Import Prelude.

(** ** Slices *)

(** [elems] are the [len(s)] visible bytes, [spare] the [cap(s) - len(s)] bytes of the
    backing array that follow them. *)
Record slice := mk_slice { elems : list byte; spare : list byte }.

Definition backing (s : slice) : list byte := elems s ++ spare s.

(** [s[i]] *)
Definition sindex (s : slice) (i : Z) : outcome byte :=
  if decide (0 <= i)%Z then
    match elems s !! Z.to_nat i with Some b => Ret b | None => Panic end
  else Panic.

(** [s[lo:hi]]: the bound is the capacity. *)
Definition sslice (s : slice) (lo hi : Z) : outcome slice :=
  if decide (0 <= lo ∧ lo <= hi ∧ hi <= len (backing s))%Z then
    Ret {| elems := take (Z.to_nat (hi - lo)) (drop (Z.to_nat lo) (backing s));
           spare := drop (Z.to_nat hi) (backing s) |}
  else Panic.

(** [s[lo:]] is [s[lo:len(s)]]. *)
Definition sfrom (s : slice) (lo : Z) : outcome slice := sslice s lo (len (elems s)).

(** [make([]byte, n)] filled by the caller: no spare capacity. *)
Definition fresh_slice (bs : list byte) : slice := {| elems := bs; spare := [] |}.

(** Go's [copy(dst[off:], src)] for [off <= len(dst)]: as many bytes as fit. *)
Definition copy_at (dst : list byte) (off : Z) (src : list byte) : list byte :=
  take (Z.to_nat off) dst
    ++ take (length dst - Z.to_nat off) src
    ++ drop (Z.to_nat off + length src) dst.

(** ** Big-endian integers ([encoding/binary]) *)

Definition PutUint16 (v : Z) : list byte := [byte_of (Z.shiftr v 8); byte_of v].
Definition PutUint32 (v : Z) : list byte :=
  [byte_of (Z.shiftr v 24); byte_of (Z.shiftr v 16); byte_of (Z.shiftr v 8); byte_of v].
Definition PutUint64 (v : Z) : list byte :=
  [byte_of (Z.shiftr v 56); byte_of (Z.shiftr v 48); byte_of (Z.shiftr v 40);
   byte_of (Z.shiftr v 32); byte_of (Z.shiftr v 24); byte_of (Z.shiftr v 16);
   byte_of (Z.shiftr v 8); byte_of v].

Definition be16 (b0 b1 : byte) : Z := Z.lor (byte_val b1) (Z.shiftl (byte_val b0) 8).
Definition be32 (b0 b1 b2 b3 : byte) : Z :=
  Z.lor (byte_val b3)
    (Z.lor (Z.shiftl (byte_val b2) 8)
       (Z.lor (Z.shiftl (byte_val b1) 16) (Z.shiftl (byte_val b0) 24))).

(** The eight bytes as two words of four. *)
Definition be64 (b0 b1 b2 b3 b4 b5 b6 b7 : byte) : Z :=
  Z.lor (be32 b4 b5 b6 b7) (Z.shiftl (be32 b0 b1 b2 b3) 32).

(** Reading panics on a slice that is too short, as the bounds-check hint of the library
    does. *)
Definition Uint16 (b : slice) : outcome Z :=
  match elems b with b0 :: b1 :: _ => Ret (be16 b0 b1) | _ => Panic end.
Definition Uint32 (b : slice) : outcome Z :=
  match elems b with b0 :: b1 :: b2 :: b3 :: _ => Ret (be32 b0 b1 b2 b3) | _ => Panic end.
Definition Uint64 (b : slice) : outcome Z :=
  match elems b with
  | b0 :: b1 :: b2 :: b3 :: b4 :: b5 :: b6 :: b7 :: _ => Ret (be64 b0 b1 b2 b3 b4 b5 b6 b7)
  | _ => Panic
  end.

Lemma lor_shiftl_add a b n :
  (0 <= n)%Z → (0 <= a < 2 ^ n)%Z → Z.lor a (Z.shiftl b n) = (a + b * 2 ^ n)%Z.
Proof.
  intros Hn Ha. rewrite <-Z.shiftl_mul_pow2 by lia.
  enough (Z.land a (Z.shiftl b n) = 0)%Z as H0
    by (pose proof (Z.add_lor_land a (Z.shiftl b n)); lia).
  rewrite <-(Z.mod_small a (2 ^ n)), <-Z.land_ones, <-Z.land_assoc by lia.
  replace (Z.land (Z.ones n) (Z.shiftl b n)) with 0%Z; [apply Z.land_0_r|].
  rewrite Z.land_comm, Z.land_ones, Z.shiftl_mul_pow2 by lia. symmetry. apply Z.mod_mul. lia.
Qed.

Lemma be16_arith b0 b1 : be16 b0 b1 = (byte_val b0 * 256 + byte_val b1)%Z.
Proof. unfold be16. pose proof (byte_val_range b1). rewrite lor_shiftl_add; lia. Qed.

Lemma be32_arith b0 b1 b2 b3 :
  be32 b0 b1 b2 b3 =
  (byte_val b0 * 2 ^ 24 + byte_val b1 * 2 ^ 16 + byte_val b2 * 2 ^ 8 + byte_val b3)%Z.
Proof.
  unfold be32. pose proof (byte_val_range b0). pose proof (byte_val_range b1).
  pose proof (byte_val_range b2). pose proof (byte_val_range b3).
  rewrite !Z.lor_assoc.
  rewrite (lor_shiftl_add (byte_val b3)) by lia.
  rewrite (lor_shiftl_add (byte_val b3 + _)) by lia.
  rewrite lor_shiftl_add by lia. lia.
Qed.

Lemma be16_range b0 b1 : (0 <= be16 b0 b1 < 2 ^ 16)%Z.
Proof. rewrite be16_arith. pose proof (byte_val_range b0). pose proof (byte_val_range b1). lia. Qed.

Lemma be32_range b0 b1 b2 b3 : (0 <= be32 b0 b1 b2 b3 < 2 ^ 32)%Z.
Proof.
  rewrite be32_arith. pose proof (byte_val_range b0). pose proof (byte_val_range b1).
  pose proof (byte_val_range b2). pose proof (byte_val_range b3). lia.
Qed.

(** Encoding then decoding keeps the low 16 or 32 bits. *)
Lemma be16_Put v : be16 (byte_of (Z.shiftr v 8)) (byte_of v) = uint16 v.
Proof.
  rewrite be16_arith, !byte_val_of, Z.shiftr_div_pow2 by lia. unfold uint16.
  change (2 ^ 16)%Z with (256 * 256)%Z. change (2 ^ 8)%Z with 256%Z.
  rewrite Z.rem_mul_r by lia. ring.
Qed.

Lemma be32_Put v :
  be32 (byte_of (Z.shiftr v 24)) (byte_of (Z.shiftr v 16)) (byte_of (Z.shiftr v 8)) (byte_of v)
  = uint32 v.
Proof.
  rewrite be32_arith, !byte_val_of, !Z.shiftr_div_pow2 by lia. unfold uint32.
  pose proof (Z.rem_mul_r v (2 ^ 8) (2 ^ 24) ltac:(lia) ltac:(lia)) as H1.
  pose proof (Z.rem_mul_r (v / 2 ^ 8) (2 ^ 8) (2 ^ 16) ltac:(lia) ltac:(lia)) as H2.
  pose proof (Z.rem_mul_r (v / 2 ^ 8 / 2 ^ 8) (2 ^ 8) (2 ^ 8) ltac:(lia) ltac:(lia)) as H3.
  rewrite !Z.div_div in * by lia.
  change (2 ^ 8 * 2 ^ 24)%Z with (2 ^ 32)%Z in H1.
  change (2 ^ 8 * 2 ^ 16)%Z with (2 ^ 24)%Z in *.
  change (2 ^ 8 * 2 ^ 8 * 2 ^ 8)%Z with (2 ^ 24)%Z in *.
  change (2 ^ 8 * (2 ^ 8 * 2 ^ 8))%Z with (2 ^ 24)%Z in *.
  change (2 ^ 8 * 2 ^ 8)%Z with (2 ^ 16)%Z in *.
  change 256%Z with (2 ^ 8)%Z. lia.
Qed.

Lemma be64_Put v :
  be64 (byte_of (Z.shiftr v 56)) (byte_of (Z.shiftr v 48)) (byte_of (Z.shiftr v 40)) (byte_of (Z.shiftr v 32))
    (byte_of (Z.shiftr v 24)) (byte_of (Z.shiftr v 16)) (byte_of (Z.shiftr v 8)) (byte_of v)
  = (v mod 2 ^ 64)%Z.
Proof.
  unfold be64. rewrite be32_Put.
  replace (Z.shiftr v 56) with (Z.shiftr (Z.shiftr v 32) 24) by (by rewrite Z.shiftr_shiftr).
  replace (Z.shiftr v 48) with (Z.shiftr (Z.shiftr v 32) 16) by (by rewrite Z.shiftr_shiftr).
  replace (Z.shiftr v 40) with (Z.shiftr (Z.shiftr v 32) 8) by (by rewrite Z.shiftr_shiftr).
  rewrite be32_Put. unfold uint32. rewrite lor_shiftl_add by (lia || by apply Z.mod_pos_bound).
  rewrite Z.shiftr_div_pow2 by lia. change (2 ^ 64)%Z with (2 ^ 32 * 2 ^ 32)%Z.
  rewrite Z.rem_mul_r by lia. ring.
Qed.

(** A stamp in front of anything reads back. *)
Lemma Uint64_Put v rest sp : Uint64 (mk_slice (PutUint64 v ++ rest) sp) = Ret (v mod 2 ^ 64)%Z.
Proof. unfold Uint64, PutUint64. cbn [elems app]. by rewrite be64_Put. Qed.

(** Decoding then encoding is the identity. *)
Lemma Put_be16 b0 b1 : PutUint16 (be16 b0 b1) = [b0; b1].
Proof.
  unfold PutUint16. rewrite be16_arith. pose proof (byte_val_range b1).
  f_equal; [|f_equal].
  - apply byte_val_inj. rewrite byte_val_of, Z.shiftr_div_pow2 by lia.
    pose proof (byte_val_range b0). Z.to_euclidean_division_equations. lia.
  - apply byte_val_inj. rewrite byte_val_of. Z.to_euclidean_division_equations. lia.
Qed.

Lemma Put_be32 b0 b1 b2 b3 : PutUint32 (be32 b0 b1 b2 b3) = [b0; b1; b2; b3].
Proof.
  unfold PutUint32. rewrite be32_arith. pose proof (byte_val_range b0).
  pose proof (byte_val_range b1). pose proof (byte_val_range b2). pose proof (byte_val_range b3).
  rewrite !Z.shiftr_div_pow2 by lia.
  f_equal; [|f_equal; [|f_equal; [|f_equal]]]; apply byte_val_inj; rewrite byte_val_of;
    Z.to_euclidean_division_equations; lia.
Qed.

(** ** Readers *)

Inductive io_error := EOF | ErrUnexpectedEOF | NetError (code : Z).

#[global] Instance io_error_eq_dec : EqDecision io_error.
Proof. solve_decision. Defined.

(** What the successive [Read] calls on a connection will deliver: a piece of data (a
    [Read] into a shorter buffer leaves the rest for the next call) or an error; when the
    script is used up, [EOF]. *)
Inductive read_event := RChunk (bs : list byte) | RErr (e : io_error).
Abbreviation reader := (list read_event).

(** [io.ReadFull]: read until [need] bytes are there; an [EOF] after some bytes is
    [ErrUnexpectedEOF]. *)
Fixpoint read_full_loop (r : reader) (need : Z) (got : list byte) : (list byte + io_error) * reader :=
  if (need <=? 0)%Z then (inl got, r)
  else match r with
  | [] => (inr (if decide (got = []) then EOF else ErrUnexpectedEOF), [])
  | RErr e :: r' =>
      (inr (if decide (e = EOF ∧ got ≠ []) then ErrUnexpectedEOF else e), r')
  | RChunk c :: r' =>
      if (need <? len c)%Z
      then (inl (got ++ take (Z.to_nat need) c), RChunk (drop (Z.to_nat need) c) :: r')
      else read_full_loop r' (need - len c) (got ++ c)
  end.

Definition ReadFull (r : reader) (n : Z) : (list byte + io_error) * reader :=
  read_full_loop r n [].

(** The bytes a reader delivers before its first error. *)
Fixpoint stream (r : reader) : list byte :=
  match r with RChunk c :: r' => c ++ stream r' | _ => [] end.
(** The error it stops with. *)
Fixpoint stream_error (r : reader) : io_error :=
  match r with [] => EOF | RErr e :: _ => e | RChunk _ :: r' => stream_error r' end.

Lemma read_full_enough r need got :
  (0 <= need <= len (stream r))%Z →
  ∃ r', read_full_loop r need got = (inl (got ++ take (Z.to_nat need) (stream r)), r') ∧
    stream r' = drop (Z.to_nat need) (stream r) ∧ stream_error r' = stream_error r.
Proof.
  revert need got. induction r as [|[c|e] r IH]; intros need got Hneed; cbn [read_full_loop stream] in *.
  1,3: assert (need = 0%Z) as -> by len_lia; eexists; simpl; rewrite app_nil_r;
    split_and!; reflexivity.
  destruct (Z.leb_spec need 0) as [E|E].
  { assert (need = 0%Z) as -> by lia. eexists. simpl. rewrite take_0, app_nil_r, drop_0.
    split_and!; reflexivity. }
  destruct (Z.ltb_spec need (len c)) as [E'|E'].
  - unfold len in *. rewrite take_app_le, drop_app_le by lia.
    eexists. split_and!; reflexivity.
  - destruct (IH (need - len c)%Z (got ++ c)) as (r' & -> & Hs & He); [len_lia|].
    exists r'. rewrite Hs, He. unfold len in *.
    replace (Z.to_nat (need - Z.of_nat (length c))) with (Z.to_nat need - length c)%nat by lia.
    rewrite take_app_ge, drop_app_ge, <-app_assoc by lia. done.
Qed.

Lemma read_full_short r need got :
  (len (stream r) < need)%Z →
  ∃ r', read_full_loop r need got =
    (inr (if decide (stream_error r = EOF ∧ got ++ stream r ≠ [])
          then ErrUnexpectedEOF else stream_error r), r').
Proof.
  revert need got. induction r as [|[c|e] r IH]; intros need got Hneed;
    cbn [read_full_loop stream stream_error] in *.
  - rewrite (proj2 (Z.leb_gt _ _)) by done. eexists. rewrite app_nil_r.
    destruct (decide (got = [])) as [->|]; [by rewrite decide_False by (intros [_ []]; done)|].
    by rewrite decide_True.
  - rewrite (proj2 (Z.leb_gt _ _)) by len_lia. rewrite (proj2 (Z.ltb_ge _ _)) by len_lia.
    destruct (IH (need - len c)%Z (got ++ c)) as (r' & ->); [len_lia|].
    exists r'. by rewrite <-app_assoc.
  - rewrite (proj2 (Z.leb_gt _ _)) by done. eexists. by rewrite app_nil_r.
Qed.

Lemma ReadFull_enough r n :
  (0 <= n <= len (stream r))%Z →
  ∃ r', ReadFull r n = (inl (take (Z.to_nat n) (stream r)), r') ∧
    stream r' = drop (Z.to_nat n) (stream r) ∧ stream_error r' = stream_error r.
Proof. apply read_full_enough. Qed.

Lemma ReadFull_short r n :
  (len (stream r) < n)%Z →
  ∃ r', ReadFull r n =
    (inr (if decide (stream_error r = EOF ∧ stream r ≠ [])
          then ErrUnexpectedEOF else stream_error r), r').
Proof. apply read_full_short. Qed.

(** ** Facts about slicing and copying *)

Lemma sslice_ok s lo hi :
  (0 <= lo ∧ lo <= hi ∧ hi <= len (backing s))%Z →
  sslice s lo hi = Ret {| elems := take (Z.to_nat (hi - lo)) (drop (Z.to_nat lo) (backing s));
                          spare := drop (Z.to_nat hi) (backing s) |}.
Proof. intros H. unfold sslice. by rewrite decide_True. Qed.

(** Within the length, slicing reads visible bytes only. *)
Lemma sslice_within s lo hi :
  (0 <= lo ∧ lo <= hi ∧ hi <= len (elems s))%Z →
  sslice s lo hi = Ret {| elems := take (Z.to_nat (hi - lo)) (drop (Z.to_nat lo) (elems s));
                          spare := drop (Z.to_nat hi) (elems s) ++ spare s |}.
Proof.
  intros (? & ? & Hhi). rewrite sslice_ok by (unfold backing; len_lia).
  unfold len, backing in *. rewrite !drop_app_le by lia.
  by rewrite take_app_le by (rewrite length_drop; lia).
Qed.

Lemma sfrom_within s lo :
  (0 <= lo <= len (elems s))%Z →
  sfrom s lo = Ret {| elems := drop (Z.to_nat lo) (elems s); spare := spare s |}.
Proof.
  intros H. unfold sfrom. rewrite sslice_within by lia. unfold len in *.
  rewrite (drop_ge _ (Z.to_nat (Z.of_nat _))) by lia.
  by rewrite take_ge by (rewrite length_drop; lia).
Qed.

Lemma sindex_at s i b : elems s !! i = Some b → sindex s (Z.of_nat i) = Ret b.
Proof. intros H. unfold sindex. rewrite decide_True by lia. by rewrite Nat2Z.id, H. Qed.

(** Filling a freshly made slice from left to right is concatenation. *)
Lemma copy_at_app a b src off :
  off = len a → (length src <= length b)%nat →
  copy_at (a ++ b) off src = a ++ src ++ drop (length src) b.
Proof.
  intros -> Hle. unfold copy_at, len. rewrite Nat2Z.id, take_app_length, length_app.
  rewrite (take_ge src) by lia. rewrite drop_app_ge by lia.
  by replace (length a + length src - length a)%nat with (length src) by lia.
Qed.
