(* ===== verification/Protocol.v ===== *)
(** * The wire protocol ([src/protocol/protocol.go])

    Frames, the encoder and the two parsers, followed statement by statement. The central
    facts: the encoder lays a frame out as length, command, subject length, subject,
    payload; both parsers accept exactly the encodings of well-sized messages, return what
    follows, never panic, and agree with each other on every chunking of the input. *)

From S2P Require Import Prelude GoStrings GoIO.

(** ** Constants and messages *)

Definition MaxSubjectLen : Z := 4 * 1024.
Definition MaxBodyLen : Z := 8 * 1024 * 1024.

Definition CmdSub : byte := Byte.x01.
Definition CmdUnsub : byte := Byte.x02.
Definition CmdPub : byte := Byte.x03.
Definition CmdMsg : byte := Byte.x04.
Definition CmdPing : byte := Byte.x05.
Definition CmdPong : byte := Byte.x06.
Definition CmdOk : byte := Byte.x07.
Definition CmdErr : byte := Byte.x08.

Record Message := mkMessage { Command : byte; Subject : gostring; Payload : list byte }.

#[global] Instance Message_eq_dec : EqDecision Message.
Proof. solve_decision. Defined.

Definition NewMessageCmd (command : byte) (subject : gostring) (payload : list byte) : Message :=
  {| Command := command; Subject := subject; Payload := payload |}.

Definition cmdStringToByte (cmdStr : gostring) : byte :=
  if decide (cmdStr = str "SUB") then CmdSub
  else if decide (cmdStr = str "UNSUB") then CmdUnsub
  else if decide (cmdStr = str "PUB") then CmdPub
  else if decide (cmdStr = str "MSG") then CmdMsg
  else if decide (cmdStr = str "PING") then CmdPing
  else if decide (cmdStr = str "PONG") then CmdPong
  else if decide (cmdStr = str "OK") then CmdOk
  else if decide (cmdStr = str "ERR") then CmdErr
  else byte_of 0.

Definition cmdByteToString (cmd : byte) : gostring :=
  if decide (cmd = CmdSub) then str "SUB"
  else if decide (cmd = CmdUnsub) then str "UNSUB"
  else if decide (cmd = CmdPub) then str "PUB"
  else if decide (cmd = CmdMsg) then str "MSG"
  else if decide (cmd = CmdPing) then str "PING"
  else if decide (cmd = CmdPong) then str "PONG"
  else if decide (cmd = CmdOk) then str "OK"
  else if decide (cmd = CmdErr) then str "ERR"
  else str "UNKNOWN(" ++ itoa (byte_val cmd) ++ str ")".

Definition NewMessage (commandStr subject : gostring) (payload : list byte) : Message :=
  NewMessageCmd (cmdStringToByte commandStr) subject payload.

(** [Message.String] *)
Definition message_String (m : Message) : gostring :=
  str "[" ++ cmdByteToString (Command m) ++ str "] " ++ Subject m
    ++ str " (" ++ itoa (len (Payload m)) ++ str " bytes)".

(** ** Encoder *)

Definition Encode (m : Message) : list byte :=
  let subjectBytes := Subject m in
  let subjectLen := len subjectBytes in
  let payloadLen := len (Payload m) in
  let bodyLen := (1 + 2 + subjectLen + payloadLen)%Z in
  let totalLen := (4 + bodyLen)%Z in
  let out := replicate (Z.to_nat totalLen) Byte.x00 in
  let out := copy_at out 0 (PutUint32 (uint32 bodyLen)) in
  let out := <[4%nat := Command m]> out in
  let out := copy_at out 5 (PutUint16 (uint16 subjectLen)) in
  let out := copy_at out 7 subjectBytes in
  copy_at out (7 + subjectLen) (Payload m).

(** ** Parsers *)

(** The errors, with the numbers they report. *)
Inductive parse_error :=
| ErrDataTooShort
| ErrInvalidBodyLen (bodyLen : Z)
| ErrIncomplete (need got : Z)
| ErrInvalidSubjectLen (subjectLen available : Z)
| ErrReadLength (e : io_error)
| ErrReadData (e : io_error)
| ErrEmptyBody
| ErrShortSubject.

#[global] Instance parse_error_eq_dec : EqDecision parse_error.
Proof. solve_decision. Defined.

Definition ParseWithRemaining (data : slice) : outcome ((Message + parse_error) * slice) :=
  if (len (elems data) <? 7)%Z then Ret (inr ErrDataTooShort, data) else
  do hdr ← sslice data 0 4;
  do bodyLen ← Uint32 hdr;
  if (bodyLen <=? 0)%Z || (MaxBodyLen <? bodyLen)%Z
  then Ret (inr (ErrInvalidBodyLen bodyLen), data) else
  let totalPacketLen := (bodyLen + 4)%Z in
  if (len (elems data) <? totalPacketLen)%Z
  then Ret (inr (ErrIncomplete totalPacketLen (len (elems data))), data) else
  do msgData ← sslice data 4 totalPacketLen;
  let offset := 0%Z in
  do cmd ← sindex msgData offset;
  let offset := (offset + 1)%Z in
  do slbytes ← sslice msgData offset (offset + 2);
  do subjectLen ← Uint16 slbytes;
  let offset := (offset + 2)%Z in
  if (subjectLen <? 0)%Z || (MaxSubjectLen <? subjectLen)%Z
     || (len (elems msgData) <? offset + subjectLen)%Z
  then Ret (inr (ErrInvalidSubjectLen subjectLen (len (elems msgData) - offset)), data) else
  do subject ← sslice msgData offset (offset + subjectLen);
  let offset := (offset + subjectLen)%Z in
  do payload ← sfrom msgData offset;
  let msg := {| Command := cmd; Subject := elems subject; Payload := elems payload |} in
  do remaining ← sfrom data totalPacketLen;
  Ret (inl msg, remaining).

Definition Parse (data : slice) : outcome (Message + parse_error) :=
  do r ← ParseWithRemaining data; Ret (fst r).

Definition ParseFromReader (r : reader) : outcome ((Message + parse_error) * reader) :=
  match ReadFull r 4 with
  | (inr e, r) => Ret (inr (ErrReadLength e), r)
  | (inl lengthBuf, r) =>
      do bodyLen ← Uint32 (fresh_slice lengthBuf);
      if (bodyLen <=? 0)%Z || (MaxBodyLen <? bodyLen)%Z
      then Ret (inr (ErrInvalidBodyLen bodyLen), r) else
      match ReadFull r bodyLen with
      | (inr e, r) => Ret (inr (ErrReadData e), r)
      | (inl body, r) =>
          let msgData := fresh_slice body in
          let offset := 0%Z in
          if (len (elems msgData) <=? offset)%Z then Ret (inr ErrEmptyBody, r) else
          do cmd ← sindex msgData offset;
          let offset := (offset + 1)%Z in
          if (len (elems msgData) <? offset + 2)%Z then Ret (inr ErrShortSubject, r) else
          do slbytes ← sslice msgData offset (offset + 2);
          do subjectLen ← Uint16 slbytes;
          let offset := (offset + 2)%Z in
          if (subjectLen <? 0)%Z || (MaxSubjectLen <? subjectLen)%Z
             || (len (elems msgData) <? offset + subjectLen)%Z
          then Ret (inr (ErrInvalidSubjectLen subjectLen (len (elems msgData) - offset)), r) else
          do subject ← sslice msgData offset (offset + subjectLen);
          let offset := (offset + subjectLen)%Z in
          do payload ← sfrom msgData offset;
          Ret (inl {| Command := cmd; Subject := elems subject; Payload := elems payload |}, r)
      end
  end.

Example encode_ping : Encode (NewMessageCmd CmdPing [] []) =
  [Byte.x00; Byte.x00; Byte.x00; Byte.x03; Byte.x05; Byte.x00; Byte.x00].
Proof. reflexivity. Qed.
Example parse_sub :
  ParseWithRemaining (fresh_slice (Encode (NewMessage (str "SUB") (str "a.b") []) ++ str "rest"))
  = Ret (inl (NewMessageCmd CmdSub (str "a.b") []), fresh_slice (str "rest")).
Proof. reflexivity. Qed.
(** A body of one or two bytes: the subject length is read beyond the body, within the
    capacity, and the frame is then rejected. *)
Example parse_short_body :
  ParseWithRemaining (fresh_slice [Byte.x00; Byte.x00; Byte.x00; Byte.x01; Byte.x01; Byte.x00; Byte.x00])
  = Ret (inr (ErrInvalidSubjectLen 0 (-2)),
         fresh_slice [Byte.x00; Byte.x00; Byte.x00; Byte.x01; Byte.x01; Byte.x00; Byte.x00]).
Proof. reflexivity. Qed.

(** ** The layout of a frame *)

Definition body_len (m : Message) : Z := 1 + 2 + len (Subject m) + len (Payload m).

(** The messages a frame can carry unharmed. *)
Definition wire_ok (m : Message) : Prop :=
  (len (Subject m) <= MaxSubjectLen)%Z ∧ (body_len m <= MaxBodyLen)%Z.

#[global] Instance wire_ok_dec m : Decision (wire_ok m).
Proof. unfold wire_ok. apply _. Defined.

Lemma body_len_pos m : (3 <= body_len m)%Z.
Proof. unfold body_len. len_lia. Qed.

Lemma Encode_layout m :
  Encode m = PutUint32 (uint32 (body_len m)) ++ Command m
               :: PutUint16 (uint16 (len (Subject m))) ++ Subject m ++ Payload m.
Proof.
  unfold Encode. fold (body_len m).
  set (h := PutUint32 _). set (k := PutUint16 _).
  assert (length h = 4%nat) as Hh by done. assert (length k = 2%nat) as Hk by done.
  assert (Z.to_nat (4 + body_len m) =
          7 + (length (Subject m) + length (Payload m)))%nat as ->
    by (unfold body_len, len; lia).
  rewrite !replicate_add. set (z := replicate (length (Subject m)) _ ++ _).
  change (replicate 7 ?x ++ z) with ([] ++ (replicate 4 x ++ [x] ++ replicate 2 x ++ z)).
  rewrite (copy_at_app [] _ h) by (done || (rewrite length_app; simpl; lia)).
  rewrite (drop_app_len (replicate 4 _)) by done. cbn [app].
  rewrite insert_app_r_alt by lia. rewrite Hh. cbn [Nat.sub list_insert insert].
  change (h ++ Command m :: ?l) with (h ++ [Command m] ++ l). rewrite !app_assoc.
  rewrite <-(app_assoc (h ++ [Command m])).
  rewrite (copy_at_app (h ++ [Command m])) by (done || (rewrite length_app; simpl; lia)).
  rewrite (drop_app_len (replicate 2 _)) by done. unfold z.
  rewrite app_assoc, (copy_at_app _ _ (Subject m))
    by (done || (rewrite length_app, !length_replicate; lia)).
  rewrite (drop_app_len (replicate (length (Subject m)) _)) by by rewrite length_replicate.
  rewrite app_assoc, (copy_at_app _ _ (Payload m))
    by (len_simpl; rewrite ?length_replicate; lia || (unfold len; rewrite Hh, Hk; simpl; lia)).
  rewrite drop_ge by (rewrite length_replicate; lia).
  by rewrite app_nil_r, <-!app_assoc.
Qed.

(** ** What the parsers compute

    [body_result c s0 s1 tl n] is the verdict on a body of [n] bytes starting with
    [c, s0, s1] and continuing with [tl]. *)
Definition body_result (c s0 s1 : byte) (tl : list byte) (n : Z) : Message + parse_error :=
  let sl := be16 s0 s1 in
  if (MaxSubjectLen <? sl)%Z || (n <? 3 + sl)%Z then inr (ErrInvalidSubjectLen sl (n - 3))
  else inl {| Command := c; Subject := take (Z.to_nat sl) tl;
              Payload := take (Z.to_nat (n - 3 - sl)) (drop (Z.to_nat sl) tl) |}.

Lemma body_result_inv c s0 s1 tl n m :
  (3 <= n)%Z → body_result c s0 s1 tl n = inl m → (n - 3 <= len tl)%Z →
  c = Command m ∧ be16 s0 s1 = len (Subject m) ∧ n = body_len m ∧
  (len (Subject m) <= MaxSubjectLen)%Z ∧
  tl = Subject m ++ Payload m ++ drop (Z.to_nat (n - 3)) tl.
Proof.
  unfold body_result. intros Hn3 Hr Hn. pose proof (be16_range s0 s1) as Hs.
  destruct (Z.ltb_spec MaxSubjectLen (be16 s0 s1)); [done|].
  destruct (Z.ltb_spec n (3 + be16 s0 s1)); simplify_eq/=. unfold body_len. simpl.
  unfold len in *. rewrite !length_take, length_drop. split_and!; [done|lia..|].
  rewrite <-(take_drop (Z.to_nat (be16 s0 s1)) tl) at 1. f_equal.
  rewrite <-(take_drop (Z.to_nat (n - 3 - be16 s0 s1)) (drop _ tl)) at 1. f_equal.
  rewrite drop_drop. f_equal. lia.
Qed.

Lemma body_result_encode m rest b0 b1 :
  wire_ok m → be16 b0 b1 = len (Subject m) →
  body_result (Command m) b0 b1 (Subject m ++ Payload m ++ rest) (body_len m) = inl m.
Proof.
  unfold body_result, wire_ok. intros [Hs Hb] ->. unfold body_len in *.
  rewrite (proj2 (Z.ltb_ge _ _)) by lia. rewrite (proj2 (Z.ltb_ge _ _)) by len_lia. simpl.
  unfold len. rewrite take_app_len by lia. rewrite drop_app_len by lia.
  rewrite take_app_len by lia. by destruct m.
Qed.

(** The body of a frame as the parser slices it out of its input, seen as a slice: the
    visible bytes are the first [n], what follows is still within the capacity. *)
Definition body_slice (body : list byte) (n : Z) (sp : list byte) : slice :=
  mk_slice (take (Z.to_nat n) body) (drop (Z.to_nat n) body ++ sp).

Lemma sslice_body h0 h1 h2 h3 body sp n :
  (0 <= n <= len body)%Z →
  sslice (mk_slice (h0 :: h1 :: h2 :: h3 :: body) sp) 4 (n + 4) = Ret (body_slice body n sp).
Proof.
  intros Hn. rewrite sslice_within by (simpl; len_lia). cbn [elems spare].
  replace (n + 4 - 4)%Z with n by lia.
  by replace (Z.to_nat (n + 4)) with (4 + Z.to_nat n)%nat by lia.
Qed.

Lemma body_slice_backing body n sp : backing (body_slice body n sp) = body ++ sp.
Proof. unfold backing, body_slice. simpl. by rewrite app_assoc, take_drop. Qed.

Lemma body_slice_len body n sp :
  (0 <= n <= len body)%Z → len (elems (body_slice body n sp)) = n.
Proof. intros. simpl. rewrite len_take. lia. Qed.

(** The command and the two bytes of the subject length. *)
Lemma body_slice_head c s0 s1 tl n sp :
  (1 <= n)%Z →
  let md := body_slice (c :: s0 :: s1 :: tl) n sp in
  sindex md 0 = Ret c ∧
  (do b ← sslice md 1 (1 + 2); Uint16 b) = Ret (be16 s0 s1).
Proof.
  intros Hn md. split.
  - apply (sindex_at md 0 c). simpl. by rewrite lookup_take_lt by lia.
  - rewrite sslice_ok by (unfold md; rewrite body_slice_backing; len_lia).
    unfold md. by rewrite body_slice_backing.
Qed.

(** The subject and the payload. *)
Lemma body_slice_tail c s0 s1 tl n sp sl :
  (0 <= sl ∧ 3 + sl <= n ∧ n <= 3 + len tl)%Z →
  let md := body_slice (c :: s0 :: s1 :: tl) n sp in
  (do b ← sslice md 3 (3 + sl); Ret (elems b)) = Ret (take (Z.to_nat sl) tl) ∧
  (do b ← sfrom md (3 + sl); Ret (elems b))
    = Ret (take (Z.to_nat (n - 3 - sl)) (drop (Z.to_nat sl) tl)).
Proof.
  intros Hn md. assert (len (elems md) = n) as Hmd by (apply body_slice_len; len_lia).
  assert (elems md = c :: s0 :: s1 :: take (Z.to_nat (n - 3)) tl) as He.
  { unfold md. simpl. by replace (Z.to_nat n) with (3 + Z.to_nat (n - 3))%nat by lia. }
  rewrite sslice_within, sfrom_within by lia. cbn [obind elems]. rewrite He.
  replace (Z.to_nat (3 + sl)) with (3 + Z.to_nat sl)%nat by lia.
  replace (3 + sl - 3)%Z with sl by lia. change (Z.to_nat 3) with 3%nat. cbn [drop Nat.add].
  rewrite drop_0, take_take, Nat.min_l, skipn_firstn_comm by lia.
  by replace (Z.to_nat (n - 3) - Z.to_nat sl)%nat with (Z.to_nat (n - 3 - sl)) by lia.
Qed.

Lemma obind_assoc {A B C} (m : outcome A) (f : A → outcome B) (g : B → outcome C) :
  (do y ← (do x ← m; f x); g y) = (do x ← m; do y ← f x; g y).
Proof. by destruct m. Qed.

(** The parser on at least seven bytes. *)
Lemma ParseWithRemaining_view b0 b1 b2 b3 c s0 s1 tl sp :
  let n := be32 b0 b1 b2 b3 in
  let data := mk_slice (b0 :: b1 :: b2 :: b3 :: c :: s0 :: s1 :: tl) sp in
  ParseWithRemaining data =
    if (n <=? 0)%Z || (MaxBodyLen <? n)%Z then Ret (inr (ErrInvalidBodyLen n), data)
    else if (7 + len tl <? n + 4)%Z then Ret (inr (ErrIncomplete (n + 4) (7 + len tl)), data)
    else match body_result c s0 s1 tl n with
         | inr e => Ret (inr e, data)
         | inl m => Ret (inl m, mk_slice (drop (Z.to_nat (n - 3)) tl) sp)
         end.
Proof.
  intros n data. assert (len (elems data) = 7 + len tl)%Z as Hlen by (simpl; len_lia).
  unfold ParseWithRemaining. rewrite Hlen, (proj2 (Z.ltb_ge _ _)) by len_lia.
  rewrite (sslice_within data 0 4) by len_lia. cbn [obind Uint32 take drop elems data].
  change (Uint32 _) with (Ret n). cbn [obind].
  destruct ((n <=? 0)%Z || (MaxBodyLen <? n)%Z) eqn:Hn; [done|].
  apply orb_false_iff in Hn as [Hn1%Z.leb_gt _].
  destruct (Z.ltb_spec (7 + len tl) (n + 4)); [done|].
  unfold data. rewrite sslice_body by len_lia. cbn [obind].
  set (md := body_slice _ n sp).
  destruct (body_slice_head c s0 s1 tl n sp) as [Hc Hsl]; [lia|].
  fold md in Hc, Hsl. rewrite Hc. cbn [obind]. change (0 + 1)%Z with 1%Z.
  rewrite <-obind_assoc, Hsl. change (1 + 2)%Z with 3%Z. cbn [obind].
  pose proof (be16_range s0 s1). unfold body_result. set (sl := be16 s0 s1) in *.
  rewrite (proj2 (Z.ltb_ge sl 0)), orb_false_l by lia.
  assert (len (elems md) = n) as -> by (apply body_slice_len; len_lia).
  destruct ((MaxSubjectLen <? sl)%Z || (n <? 3 + sl)%Z) eqn:Hs; [done|].
  apply orb_false_iff in Hs as [Hs1%Z.ltb_ge Hs2%Z.ltb_ge].
  destruct (body_slice_tail c s0 s1 tl n sp sl) as [Hsub Hpay]; [lia|]. fold md in Hsub, Hpay.
  destruct (sslice md 3 (3 + sl)) as [sub| |]; [|done..]. cbn [obind].
  destruct (sfrom md (3 + sl)) as [pay| |]; [|done..]. cbn [obind].
  injection Hsub as ->. injection Hpay as ->. fold data. rewrite sfrom_within by lia. unfold data. cbn [obind elems spare].
  by replace (Z.to_nat (n + 4)) with (7 + Z.to_nat (n - 3))%nat by lia.
Qed.

(** What reading a frame from a stream of bytes [bs] that ends with error [e] gives, and
    the bytes left: the specification of [ParseFromReader], independent of how the bytes
    are cut into pieces. *)
Definition short_read (bs : list byte) (e : io_error) : io_error :=
  if decide (e = EOF ∧ bs ≠ []) then ErrUnexpectedEOF else e.

Definition stream_result (bs : list byte) (e : io_error) : (Message + parse_error) * list byte :=
  match bs with
  | b0 :: b1 :: b2 :: b3 :: body =>
      let n := be32 b0 b1 b2 b3 in
      if (n <=? 0)%Z || (MaxBodyLen <? n)%Z then (inr (ErrInvalidBodyLen n), [])
      else if (len body <? n)%Z then (inr (ErrReadData (short_read body e)), [])
      else match take (Z.to_nat n) body with
           | c :: s0 :: s1 :: tl => (body_result c s0 s1 tl n, drop (Z.to_nat n) body)
           | _ => (inr ErrShortSubject, [])
           end
  | _ => (inr (ErrReadLength (short_read bs e)), [])
  end.

Lemma fresh_slice_body bs : fresh_slice bs = body_slice bs (len bs) [].
Proof.
  unfold fresh_slice, body_slice, len. rewrite Nat2Z.id, take_ge, drop_ge by lia. done.
Qed.

(** The part of [ParseFromReader] after the second [ReadFull]. *)
Lemma ParseFromReader_body body (r : reader) :
  (0 < len body)%Z →
  (let msgData := fresh_slice body in
   if (len (elems msgData) <=? 0)%Z then Ret (inr ErrEmptyBody, r) else
   do cmd ← sindex msgData 0;
   if (len (elems msgData) <? 1 + 2)%Z then Ret (inr ErrShortSubject, r) else
   do slbytes ← sslice msgData 1 (1 + 2);
   do subjectLen ← Uint16 slbytes;
   if (subjectLen <? 0)%Z || (MaxSubjectLen <? subjectLen)%Z
      || (len (elems msgData) <? 3 + subjectLen)%Z
   then Ret (inr (ErrInvalidSubjectLen subjectLen (len (elems msgData) - 3)), r) else
   do subject ← sslice msgData 3 (3 + subjectLen);
   do payload ← sfrom msgData (3 + subjectLen);
   Ret (inl {| Command := cmd; Subject := elems subject; Payload := elems payload |}, r))
  = Ret (match body with
         | c :: s0 :: s1 :: tl => body_result c s0 s1 tl (len body)
         | _ => inr ErrShortSubject
         end, r).
Proof.
  intros Hpos. cbn [elems fresh_slice]. rewrite (proj2 (Z.leb_gt _ _)) by done.
  destruct body as [|c [|s0 [|s1 tl]]]; [done..|].
  set (b := c :: s0 :: s1 :: tl) in *. set (n := len b).
  assert (n = 3 + len tl)%Z as Hn by (unfold n, b; len_lia). pose proof (len_nonneg tl).
  fold (fresh_slice b). rewrite fresh_slice_body. set (md := body_slice b (len b) []).
  destruct (body_slice_head c s0 s1 tl n []) as [Hc Hsl]; [lia|].
  change (body_slice _ n []) with md in Hc, Hsl.
  rewrite Hc. cbn [obind]. rewrite (proj2 (Z.ltb_ge _ _)) by lia.
  rewrite <-obind_assoc, Hsl. cbn [obind].
  pose proof (be16_range s0 s1). unfold body_result. set (sl := be16 s0 s1) in *.
  rewrite (proj2 (Z.ltb_ge sl 0)), orb_false_l by lia.
  destruct ((MaxSubjectLen <? sl)%Z || (n <? 3 + sl)%Z) eqn:Hs; [done|].
  apply orb_false_iff in Hs as [Hs1%Z.ltb_ge Hs2%Z.ltb_ge].
  destruct (body_slice_tail c s0 s1 tl n [] sl) as [Hsub Hpay]; [lia|].
  change (body_slice _ n []) with md in Hsub, Hpay.
  destruct (sslice md 3 (3 + sl)) as [sub| |]; [|done..]. cbn [obind].
  destruct (sfrom md (3 + sl)) as [pay| |]; [|done..]. cbn [obind].
  injection Hsub as ->. by injection Hpay as ->.
Qed.

Lemma ParseFromReader_view r :
  ∃ r', ParseFromReader r = Ret (fst (stream_result (stream r) (stream_error r)), r') ∧
    ∀ m, fst (stream_result (stream r) (stream_error r)) = inl m →
      stream r' = snd (stream_result (stream r) (stream_error r)) ∧
      stream_error r' = stream_error r.
Proof.
  unfold ParseFromReader. destruct (Z.lt_ge_cases (len (stream r)) 4) as [Hl|Hl].
  { destruct (ReadFull_short r 4 Hl) as (r' & ->). exists r'. unfold stream_result.
    revert Hl. destruct (stream r) as [|? [|? [|? [|? ?]]]]; [done..|len_lia]. }
  destruct (ReadFull_enough r 4) as (r1 & -> & Hs1 & He1); [lia|].
  revert Hl Hs1. destruct (stream r) as [|b0 [|b1 [|b2 [|b3 body]]]]; [done..|]. intros Hl Hs1.
  change (Z.to_nat 4) with 4%nat in *. cbn [take drop] in *. rewrite drop_0 in Hs1.
  change (Uint32 _) with (Ret (be32 b0 b1 b2 b3)). cbn [obind stream_result].
  set (n := be32 b0 b1 b2 b3).
  destruct ((n <=? 0)%Z || (MaxBodyLen <? n)%Z) eqn:Hn; [by exists r1|].
  apply orb_false_iff in Hn as [Hn1%Z.leb_gt _].
  destruct (Z.ltb_spec (len body) n) as [Hb|Hb].
  { destruct (ReadFull_short r1 n) as (r2 & ->); [by rewrite Hs1|].
    exists r2. rewrite Hs1, He1. done. }
  destruct (ReadFull_enough r1 n) as (r2 & -> & Hs2 & He2); [rewrite Hs1; lia|].
  rewrite Hs1 in *. assert (len (take (Z.to_nat n) body) = n) as Htk by (rewrite len_take; lia).
  exists r2. cbv zeta. rewrite ParseFromReader_body, Htk by lia.
  destruct (take (Z.to_nat n) body) as [|c [|s0 [|s1 tl]]] eqn:E; [done..|].
  split; [done|]. intros m _. by rewrite Hs2, He2, He1.
Qed.

(** ** Encodings of well-sized messages *)

Lemma wire_ok_ranges m :
  wire_ok m → (3 <= body_len m <= MaxBodyLen)%Z ∧ (0 <= len (Subject m) <= MaxSubjectLen)%Z.
Proof. unfold wire_ok, body_len. len_lia. Qed.

(** The seven header bytes of an encoding. *)
Lemma Encode_header m :
  wire_ok m →
  ∃ b0 b1 b2 b3 s0 s1,
    Encode m = b0 :: b1 :: b2 :: b3 :: Command m :: s0 :: s1 :: Subject m ++ Payload m ∧
    be32 b0 b1 b2 b3 = body_len m ∧ be16 s0 s1 = len (Subject m).
Proof.
  intros Hm%wire_ok_ranges. rewrite Encode_layout. unfold PutUint32, PutUint16.
  do 6 eexists. split; [reflexivity|]. rewrite be32_Put, be16_Put. unfold MaxBodyLen, MaxSubjectLen in *.
  rewrite (uint32_small (body_len m)), (uint16_small (len (Subject m))) by lia.
  by rewrite uint32_small, uint16_small by lia.
Qed.

Lemma header_Encode m b0 b1 b2 b3 s0 s1 :
  be32 b0 b1 b2 b3 = body_len m → be16 s0 s1 = len (Subject m) →
  b0 :: b1 :: b2 :: b3 :: Command m :: s0 :: s1 :: Subject m ++ Payload m = Encode m.
Proof.
  intros H4 H2. rewrite Encode_layout, <-H4, <-H2.
  pose proof (be32_range b0 b1 b2 b3). pose proof (be16_range s0 s1).
  rewrite uint32_small, uint16_small by lia. by rewrite Put_be32, Put_be16.
Qed.

Lemma Encode_length m : len (Encode m) = (4 + body_len m)%Z.
Proof. rewrite Encode_layout. unfold body_len. len_simpl. unfold PutUint32, PutUint16. len_lia. Qed.

Lemma Encode_nonempty m : (0 < length (Encode m))%nat.
Proof. pose proof (Encode_length m). pose proof (body_len_pos m). unfold len in *. lia. Qed.

(** The stream parser accepts exactly the encodings. *)
Lemma stream_result_inl bs e m rest :
  stream_result bs e = (inl m, rest) ↔ wire_ok m ∧ bs = Encode m ++ rest.
Proof.
  split.
  - destruct bs as [|b0 [|b1 [|b2 [|b3 body]]]]; cbn [stream_result]; [done..|].
    set (n := be32 b0 b1 b2 b3).
    destruct ((n <=? 0)%Z || (MaxBodyLen <? n)%Z) eqn:Hn; [done|].
    apply orb_false_iff in Hn as [Hn1%Z.leb_gt Hn2%Z.ltb_ge].
    destruct (Z.ltb_spec (len body) n) as [Hb|Hb]; [done|].
    assert (len (take (Z.to_nat n) body) = n) as Htk by (rewrite len_take; lia).
    destruct (take (Z.to_nat n) body) as [|c [|s0 [|s1 tl]]] eqn:E; [done..|].
    intros [= Hr <-]. rewrite !len_cons in Htk. pose proof (len_nonneg tl).
    apply body_result_inv in Hr as (-> & Hs & Hlen & Hmax & Htl); [|lia..].
    rewrite drop_ge in Htl by (unfold len in *; lia). rewrite app_nil_r in Htl.
    split; [split; lia|]. rewrite <-(header_Encode m b0 b1 b2 b3 s0 s1), <-Htl by done.
    cbn [app]. do 4 f_equal. rewrite <-(take_drop (Z.to_nat n) body) at 1. by rewrite E.
  - intros [Hm ->]. destruct (Encode_header m Hm) as (b0 & b1 & b2 & b3 & s0 & s1 & -> & Hn & Hs).
    pose proof (wire_ok_ranges m Hm) as [Hr1 Hr2]. cbn [app stream_result]. rewrite Hn.
    rewrite (proj2 (Z.leb_gt _ _)), (proj2 (Z.ltb_ge _ _)) by lia. cbn [orb].
    assert (len (Command m :: s0 :: s1 :: Subject m ++ Payload m) = body_len m)%Z as Hl
      by (unfold body_len; len_lia).
    change (Command m :: s0 :: s1 :: (Subject m ++ Payload m) ++ rest)
      with ((Command m :: s0 :: s1 :: Subject m ++ Payload m) ++ rest).
    rewrite (proj2 (Z.ltb_ge _ _)) by (rewrite len_app, Hl; len_lia).
    unfold len in Hl. rewrite take_app_len, drop_app_len by lia.
    f_equal. rewrite <-(app_nil_r (Payload m)). by apply body_result_encode.
Qed.

(** ** Properties *)

Lemma ParseWithRemaining_encodings data m rest :
  ParseWithRemaining data = Ret (inl m, rest) ↔
  wire_ok m ∧ elems data = Encode m ++ elems rest ∧ spare rest = spare data.
Proof.
  destruct data as [bs sp], rest as [rs rsp]. cbn [elems spare]. split.
  - destruct bs as [|b0 [|b1 [|b2 [|b3 [|c [|s0 [|s1 tl]]]]]]]; [done..|].
    rewrite ParseWithRemaining_view. set (n := be32 b0 b1 b2 b3).
    destruct ((n <=? 0)%Z || (MaxBodyLen <? n)%Z) eqn:Hn; [done|].
    apply orb_false_iff in Hn as [Hn1%Z.leb_gt Hn2%Z.ltb_ge].
    destruct (Z.ltb_spec (7 + len tl) (n + 4)) as [Hb|Hb]; [done|].
    destruct (body_result c s0 s1 tl n) as [m'|] eqn:Hr; [|done]. intros [= -> <- <-].
    assert (3 <= n)%Z as Hn3.
    { revert Hr. unfold body_result. destruct (Z.ltb_spec n (3 + be16 s0 s1)).
      - by rewrite orb_true_r.
      - pose proof (be16_range s0 s1). lia. }
    apply body_result_inv in Hr as (-> & Hs & Hlen & Hmax & Htl); [|lia..].
    split; [split; lia|]. rewrite <-(header_Encode m b0 b1 b2 b3 s0 s1) by done.
    cbn [app]. by rewrite <-app_assoc, <-Htl.
  - intros (Hm & -> & ->).
    destruct (Encode_header m Hm) as (b0 & b1 & b2 & b3 & s0 & s1 & -> & Hn & Hs).
    pose proof (wire_ok_ranges m Hm) as [Hr1 Hr2]. cbn [app].
    rewrite ParseWithRemaining_view, Hn.
    rewrite (proj2 (Z.leb_gt _ _)), (proj2 (Z.ltb_ge _ _)) by lia. cbn [orb].
    rewrite (proj2 (Z.ltb_ge _ _)) by (unfold body_len; len_lia).
    rewrite <-app_assoc, body_result_encode by done. do 3 f_equal.
    rewrite app_assoc. apply drop_app_len. unfold body_len, len. rewrite length_app. lia.
Qed.

(** C14: [ParseWithRemaining] accepts exactly the encodings of well-sized messages: it
    returns message [m] with remaining data [rest] iff the subject and body of [m] are
    within the limits and the input is [Encode m] followed by [rest] (the remaining slice
    keeping the input's spare capacity). *)
Theorem ParseWithRemaining_exact data m rest :
  ParseWithRemaining data = Ret (inl m, rest) ↔
  wire_ok m ∧ elems data = Encode m ++ elems rest ∧ spare rest = spare data.
Proof. apply ParseWithRemaining_encodings. Qed.

(** Reading [k] frames one after the other, as the receive loops do. *)
Fixpoint read_messages (k : nat) (r : reader) : outcome (list (Message + parse_error) * reader) :=
  match k with
  | O => Ret ([], r)
  | S k => do p ← ParseFromReader r;
           do q ← read_messages k (snd p);
           Ret (fst p :: fst q, snd q)
  end.

Lemma read_encodings ms r rest :
  Forall wire_ok ms →
  stream r = concat (map Encode ms) ++ rest →
  ∃ r', read_messages (length ms) r = Ret (map inl ms, r') ∧ stream r' = rest.
Proof.
  revert r. induction ms as [|m ms IH]; intros r Hms Hr; simpl in *; [by exists r|].
  apply Forall_cons in Hms as [Hm Hms]. rewrite <-app_assoc in Hr.
  destruct (ParseFromReader_view r) as (r1 & -> & Hr1). cbn [obind snd fst].
  assert (stream_result (stream r) (stream_error r) = (inl m, concat (map Encode ms) ++ rest))
    as Hres by (by apply stream_result_inl).
  rewrite Hres in *. destruct (Hr1 m) as [Hs _]; [done|].
  destruct (IH r1 Hms Hs) as (r2 & -> & Hr2). exists r2. done.
Qed.

(** C15: round trip through a connection. However the bytes of the encodings of a sequence
    of well-sized messages are cut into chunks, reading frame by frame gives back exactly
    these messages, in order, and leaves the connection at what follows. *)
Theorem read_messages_roundtrip ms r rest :
  Forall wire_ok ms →
  stream r = concat (map Encode ms) ++ rest →
  ∃ r', read_messages (length ms) r = Ret (map inl ms, r') ∧ stream r' = rest.
Proof. apply read_encodings. Qed.

Lemma read_messages_roundtrip_witness :
  ∃ r', read_messages 2
          [RChunk [Byte.x00; Byte.x00]; RChunk []; RChunk [Byte.x00; Byte.x03; Byte.x05];
           RChunk ([Byte.x00; Byte.x00] ++ Encode (NewMessageCmd CmdSub (str "a.*") []) ++ str "tail")]
        = Ret (map inl [NewMessageCmd CmdPing [] []; NewMessageCmd CmdSub (str "a.*") []], r')
        ∧ stream r' = str "tail".
Proof.
  apply (read_messages_roundtrip
           [NewMessageCmd CmdPing [] []; NewMessageCmd CmdSub (str "a.*") []]).
  - repeat constructor; vm_compute; discriminate.
  - reflexivity.
Defined.

(** [ParseWithRemaining] is total and safe: on every input, whatever its capacity, it
    returns (no slice or index of it is out of range), and when it reports an error the
    input is handed back untouched, so no byte is lost while waiting for more data. *)
Lemma ParseWithRemaining_total data :
  ∃ res rest, ParseWithRemaining data = Ret (res, rest) ∧ ∀ e, res = inr e → rest = data.
Proof.
  destruct data as [bs sp].
  destruct bs as [|b0 [|b1 [|b2 [|b3 [|c [|s0 [|s1 tl]]]]]]];
    try (eexists _, _; split; [reflexivity|done]).
  rewrite ParseWithRemaining_view. repeat case_match; by eexists _, _.
Qed.

(** A frame that has not arrived completely is never misread: every proper prefix of an
    encoding is refused with "data too short" (under seven bytes) or "incomplete message",
    the latter reporting the exact size needed and the size received. *)
Theorem ParseWithRemaining_incomplete m bs sp :
  wire_ok m → bs `prefix_of` Encode m → bs ≠ Encode m →
  ParseWithRemaining (mk_slice bs sp) =
    Ret (inr (if (len bs <? 7)%Z then ErrDataTooShort
              else ErrIncomplete (len (Encode m)) (len bs)), mk_slice bs sp).
Proof.
  intros Hm [tl Htl] Hne.
  destruct (Z.ltb_spec (len bs) 7) as [Hl|Hl].
  { unfold ParseWithRemaining. cbn [elems]. by rewrite (proj2 (Z.ltb_lt _ _)). }
  assert (0 < len tl)%Z as Htlpos.
  { destruct tl; [by rewrite app_nil_r in Htl|len_lia]. }
  pose proof (Encode_length m) as Hlen. pose proof (wire_ok_ranges m Hm) as [Hr _].
  destruct (Encode_header m Hm) as (b0 & b1 & b2 & b3 & s0 & s1 & HE & Hn & Hs).
  rewrite HE in Htl, Hlen |- *. rewrite Htl in Hlen |- *.
  destruct bs as [|? [|? [|? [|? [|? [|? [|? bs]]]]]]]; [done..|]. simplify_eq/=.
  rewrite ParseWithRemaining_view, Hn.
  rewrite (proj2 (Z.leb_gt _ _)), (proj2 (Z.ltb_ge _ _)) by lia. cbn [orb].
  len_simpl. rewrite (proj2 (Z.ltb_lt _ _)) by lia. do 4 f_equal; lia.
Qed.

Lemma ParseWithRemaining_incomplete_witness :
  ParseWithRemaining (mk_slice (take 9 (Encode (NewMessageCmd CmdPub (str "foo") (str "bar")))) [])
  = Ret (inr (ErrIncomplete 13 9), mk_slice (take 9 (Encode (NewMessageCmd CmdPub (str "foo") (str "bar")))) []).
Proof.
  apply (ParseWithRemaining_incomplete (NewMessageCmd CmdPub (str "foo") (str "bar"))).
  - split; vm_compute; discriminate.
  - exists (drop 9 (Encode (NewMessageCmd CmdPub (str "foo") (str "bar")))). reflexivity.
  - discriminate.
Defined.

Lemma ParseFromReader_spec r :
  ∃ res r', ParseFromReader r = Ret (res, r') ∧
    res = fst (stream_result (stream r) (stream_error r)) ∧
    (∀ m, res = inl m → wire_ok m ∧ stream r = Encode m ++ stream r') ∧
    (∀ m rest, wire_ok m → stream r = Encode m ++ rest → res = inl m ∧ stream r' = rest).
Proof.
  destruct (ParseFromReader_view r) as (r' & Hp & Hr').
  eexists _, r'. split_and!; [exact Hp|done|..].
  - intros m Hm. destruct (Hr' m Hm) as [Hs _]. rewrite Hs.
    apply (stream_result_inl _ (stream_error r)). by rewrite <-Hm, <-surjective_pairing.
  - intros m rest Hm Hs.
    assert (stream_result (stream r) (stream_error r) = (inl m, rest)) as E
      by (by apply stream_result_inl).
    rewrite E in Hr' |- *. split; [done|]. by apply (Hr' m).
Qed.

(** C16: the stream parser refines its specification on the flat stream: its verdict, error
    included, is [stream_result] of the bytes the connection delivers and of the error
    that ends them, however the bytes are cut into [Read] results; and a message is
    returned iff the stream starts with its encoding, the connection then standing right
    behind it. It never panics. *)
Theorem ParseFromReader_refines r :
  ∃ res r', ParseFromReader r = Ret (res, r') ∧
    res = fst (stream_result (stream r) (stream_error r)) ∧
    (∀ m, res = inl m → wire_ok m ∧ stream r = Encode m ++ stream r') ∧
    (∀ m rest, wire_ok m → stream r = Encode m ++ rest → res = inl m ∧ stream r' = rest).
Proof. apply ParseFromReader_spec. Qed.

(** C38: the two parsers agree: on the same bytes, the buffer parser and the stream parser
    (under any chunking) return the same message and leave the same bytes, or both fail. *)
Theorem parsers_agree data r :
  stream r = elems data →
  match ParseWithRemaining data, ParseFromReader r with
  | Ret (inl m1, rest), Ret (inl m2, r') => m1 = m2 ∧ stream r' = elems rest
  | Ret (inr _, _), Ret (inr _, _) => True
  | _, _ => False
  end.
Proof.
  intros Hs. destruct (ParseWithRemaining_total data) as (res & rest & Hd & _).
  destruct (ParseFromReader_view r) as (r' & Hr & Hr'). rewrite Hd, Hr.
  destruct (stream_result _ _) as [[m2|e] left] eqn:E; cbn [fst snd] in *.
  - destruct (Hr' m2) as [-> _]; [done|]. apply stream_result_inl in E as [Hm E].
    assert (ParseWithRemaining data = Ret (inl m2, mk_slice left (spare data))) as Hp
      by (apply ParseWithRemaining_encodings; split_and!; simpl; done || congruence).
    rewrite Hd in Hp. by simplify_eq.
  - destruct res as [m1|e']; [|done].
    apply ParseWithRemaining_encodings in Hd as (Hm & Hel & _).
    assert (stream_result (stream r) (stream_error r) = (inl m1, elems rest)) as Hc
      by (apply stream_result_inl; split; done || congruence).
    congruence.
Qed.

Lemma parsers_agree_witness :
  match ParseWithRemaining (fresh_slice (Encode (NewMessageCmd CmdPing [] []))),
        ParseFromReader (map (λ b, RChunk [b]) (Encode (NewMessageCmd CmdPing [] []))) with
  | Ret (inl m1, rest), Ret (inl m2, r') => m1 = m2 ∧ stream r' = elems rest
  | Ret (inr _, _), Ret (inr _, _) => True
  | _, _ => False
  end.
Proof. apply parsers_agree. reflexivity. Defined.

Definition command_names : list gostring :=
  map (λ s : string, str s) ["SUB"; "UNSUB"; "PUB"; "MSG"; "PING"; "PONG"; "OK"; "ERR"]%string.

(** The command names round-trip: the eight command strings map to distinct command
    bytes and back, and every other string is mapped to no command (byte 0). *)
Lemma command_names_roundtrip name :
  (name ∈ command_names → cmdByteToString (cmdStringToByte name) = name) ∧
  (name ∉ command_names → cmdStringToByte name = Byte.x00).
Proof.
  split.
  - unfold command_names. cbn [map]. rewrite !elem_of_cons, elem_of_nil.
    intros Hn. repeat (destruct Hn as [->|Hn]; [vm_compute; reflexivity|]). destruct Hn.
  - intros Hn. unfold cmdStringToByte.
    repeat (rewrite decide_False; [|intros ->; apply Hn; by apply (bool_decide_unpack _)]).
    reflexivity.
Qed.
