(* ===== verification/Subject.v ===== *)
(** * Subject matching

    The three matchers of the program, on dot-separated subjects with [*] and [>]:
    [Router.Match] ([src/server/router.go]), the client's [matchSubject]
    ([src/client/client.go]) and the compiled patterns of the optimised router
    ([src/server/router_optimized.go]); what each accepts in terms of segments, and how
    they relate to each other. *)

From S2P Require Import Prelude GoStrings.

Definition dot : byte := Byte.x2e.
Definition star : gostring := str "*".
Definition gt : gostring := str ">".
Definition dot_gt : gostring := str ".>".

(** Segments of a subject or pattern. *)
Abbreviation segments_of s := (Split s dot).

(** ** [Router.Match] *)

(** The loop over the parts; the two lists have the same length when it runs. *)
Fixpoint match_parts (patternParts subjectParts : list gostring) : bool :=
  match patternParts, subjectParts with
  | p :: pp, s :: sp =>
      if decide (p = star) then match_parts pp sp
      else if decide (p ≠ s) then false
      else match_parts pp sp
  | _, _ => true
  end.

Definition Match (pattern subject : gostring) : bool :=
  if decide (pattern = subject) then true
  else if HasSuffix pattern dot_gt then
    let prefix := TrimSuffix pattern dot_gt in
    if HasPrefix subject (prefix ++ [dot]) || bool_decide (subject = prefix) then true else false
  else
    let patternParts := segments_of pattern in
    let subjectParts := segments_of subject in
    if negb (len patternParts =? len subjectParts)%Z then false
    else
      let hasWildcard := existsb (λ part, bool_decide (part = star)) patternParts in
      if negb hasWildcard then false
      else match_parts patternParts subjectParts.

(** ** The client's [matchSubject] *)

Definition matchSubject (pattern subject : gostring) : bool :=
  if decide (pattern = subject) then true
  else if HasSuffix pattern dot_gt
          && (let prefix := TrimSuffix pattern dot_gt in
              HasPrefix subject (prefix ++ [dot]) || bool_decide (subject = prefix))
  then true
  else if Contains pattern star then
    let patternParts := segments_of pattern in
    let subjectParts := segments_of subject in
    if negb (len patternParts =? len subjectParts)%Z then false
    else match_parts patternParts subjectParts
  else false.

(** ** Compiled patterns of the optimised router *)

Record CompiledPattern := mkCompiled {
  segments : list gostring;
  hasWildcard : bool;
  hasMultiWildcard : bool;
}.

(** What [compilePattern] builds on a cache miss. *)
Definition compile (pattern : gostring) : CompiledPattern :=
  foldl (λ compiled seg,
           if decide (seg = star)
           then mkCompiled (segments compiled) true (hasMultiWildcard compiled)
           else if decide (seg = gt)
           then mkCompiled (segments compiled) (hasWildcard compiled) true
           else compiled)
        (mkCompiled (segments_of pattern) false false) (segments_of pattern).

Definition isWildcardPattern (pattern : gostring) : bool :=
  Contains pattern star || Contains pattern gt.

(** [matchesSegments], from pattern index [pi] of [n] segments on; the subject segments
    not yet consumed (from index [si]) are the second list. *)
Fixpoint matches_from (segs : list gostring) (pi n : nat) (subjectSegments : list gostring) : bool :=
  match segs with
  | [] => bool_decide (subjectSegments = [])
  | patternSeg :: segs' =>
      if decide (patternSeg = gt) then
        if decide (pi ≠ n - 1) then false else bool_decide (subjectSegments ≠ [])
      else match subjectSegments with
           | [] => false
           | s :: rest =>
               if decide (patternSeg = star) then matches_from segs' (S pi) n rest
               else if decide (patternSeg ≠ s) then false
               else matches_from segs' (S pi) n rest
           end
  end.

Definition matchesSegments (cp : CompiledPattern) (subjectSegments : list gostring) : bool :=
  matches_from (segments cp) 0 (length (segments cp)) subjectSegments.

(** [cp.segments[0]] always exists: [strings.Split] never returns an empty slice. *)
Definition matches (cp : CompiledPattern) (subject : gostring) : bool :=
  if negb (hasWildcard cp) && negb (hasMultiWildcard cp)
  then match segments cp with seg0 :: _ => bool_decide (subject = seg0) | [] => false end
  else matchesSegments cp (segments_of subject).

Example match_star : Match (str "foo.*") (str "foo.bar") = true. Proof. reflexivity. Qed.
Example match_gt_self : Match (str "foo.>") (str "foo") = true. Proof. reflexivity. Qed.
Example opt_gt_self : matches (compile (str "foo.>")) (str "foo") = false. Proof. reflexivity. Qed.
Example match_mixed : Match (str "*.>") (str "a.b") = false. Proof. reflexivity. Qed.
Example client_mixed : matchSubject (str "*.>") (str "a.>") = true. Proof. reflexivity. Qed.
Example server_mixed : Match (str "*.>") (str "a.>") = false. Proof. reflexivity. Qed.

(** ** Specification on segments *)

(** A pattern segment accepts a subject segment. *)
Definition seg_ok (p s : gostring) : Prop := p = star ∨ p = s.
#[global] Instance seg_ok_dec p s : Decision (seg_ok p s).
Proof. unfold seg_ok. apply _. Defined.

(** The matching relation of the NATS subject language: [*] stands for one segment, a
    final [>] for one or more. *)
Inductive nats_match : list gostring → list gostring → Prop :=
| nats_nil : nats_match [] []
| nats_seg p s ps ss : p ≠ gt → seg_ok p s → nats_match ps ss → nats_match (p :: ps) (s :: ss)
| nats_gt s ss : nats_match [gt] (s :: ss).

Lemma match_parts_spec pp sp :
  length pp = length sp → match_parts pp sp = true ↔ Forall2 seg_ok pp sp.
Proof.
  revert sp. induction pp as [|p pp IH]; intros [|s sp] Hl; try done; cbn [match_parts].
  injection Hl as Hl. rewrite Forall2_cons, <-IH by done. unfold seg_ok.
  repeat case_decide; naive_solver.
Qed.

Lemma len_eqb_length {A} (l1 l2 : list A) : (len l1 =? len l2)%Z = bool_decide (length l1 = length l2).
Proof. unfold len. destruct (Z.eqb_spec (Z.of_nat (length l1)) (Z.of_nat (length l2)));
  [rewrite bool_decide_true by lia | rewrite bool_decide_false by lia]; done. Qed.

Lemma match_parts_guarded pp sp :
  (if negb (len pp =? len sp)%Z then false else match_parts pp sp) = bool_decide (Forall2 seg_ok pp sp).
Proof.
  rewrite len_eqb_length. destruct (decide (length pp = length sp)) as [Hl|Hl].
  - rewrite bool_decide_true by done. simpl.
    apply eq_bool_prop_intro. rewrite bool_decide_spec, Is_true_true. by apply match_parts_spec.
  - rewrite bool_decide_false by done. simpl. symmetry. apply bool_decide_false.
    intros Hf. by apply Forall2_length in Hf.
Qed.

Lemma has_star_segment pp :
  existsb (λ part, bool_decide (part = star)) pp = bool_decide (star ∈ pp).
Proof.
  induction pp as [|p pp IH]; [done|]. cbn [existsb]. rewrite IH.
  apply eq_bool_prop_intro. rewrite orb_True, !bool_decide_spec, elem_of_cons. naive_solver.
Qed.

(** Without a [*] segment, only equal segment lists match. *)
Lemma seg_ok_literal pp sp : star ∉ pp → Forall2 seg_ok pp sp → pp = sp.
Proof.
  intros Hn. induction 1 as [|p s pp sp Hps _ IH]; [done|].
  apply not_elem_of_cons in Hn as [Hp Hn]. destruct Hps as [->| ->]; [done|].
  f_equal. by apply IH.
Qed.

(** The [>] branch: the subject is the prefix or extends it by whole segments. *)
Lemma prefix_segments prefix subject :
  HasPrefix subject (prefix ++ [dot]) || bool_decide (subject = prefix) = true ↔
  segments_of prefix `prefix_of` segments_of subject.
Proof.
  rewrite orb_true_iff, HasPrefix_spec, bool_decide_eq_true. split.
  - intros [[t ->]| ->]; [|done]. rewrite <-app_assoc. simpl. rewrite Split_app. by eexists.
  - intros [k Hk]. destruct k as [|q qs].
    + right. rewrite app_nil_r in Hk. by apply Split_inj in Hk.
    + left. exists (Join (q :: qs) dot). rewrite <-app_assoc. simpl app.
      rewrite <-(Join_Split dot subject), Hk, Join_app by (done || apply Split_not_nil).
      by rewrite Join_Split.
Qed.

(** Segments of a pattern ending in [.>]. *)
Lemma segments_dot_gt pre : segments_of (pre ++ dot_gt) = segments_of pre ++ [gt].
Proof. change dot_gt with (dot :: gt). rewrite Split_app. f_equal. Qed.

Lemma HasSuffix_dot_gt p : HasSuffix p dot_gt = true → gt ∈ segments_of p.
Proof. intros [t ->]%HasSuffix_spec. rewrite segments_dot_gt, elem_of_app. right. left. Qed.

(** A [*] segment is a [*] in the string. *)
Lemma star_segment_Contains p : star ∈ segments_of p → Contains p star = true.
Proof.
  intros (l1 & l2 & Hl)%list_elem_of_split. rewrite Contains_spec.
  rewrite <-(Join_Split dot p), Hl.
  assert (∀ t, ∃ a b, Join (star :: t) dot = a ++ star ++ b) as Ht.
  { intros [|q qs]; [by exists [], []|]. exists [], (dot :: Join (q :: qs) dot). done. }
  destruct (Ht l2) as (a & b & Hab). destruct l1 as [|q qs]; [eauto|].
  rewrite Join_app, Hab by done. exists (Join (q :: qs) dot ++ dot :: a), b.
  by rewrite <-!app_assoc.
Qed.

(** The segment-wise branch shared by the two string matchers. *)
Definition wildcard_branch (p s : gostring) : bool :=
  bool_decide (Forall2 seg_ok (segments_of p) (segments_of s)).

Lemma wildcard_branch_literal p s :
  star ∉ segments_of p → wildcard_branch p s = true → p = s.
Proof.
  intros Hn Hw%bool_decide_eq_true. apply seg_ok_literal in Hw; [|done]. by apply Split_inj in Hw.
Qed.

Lemma wildcard_branch_refl p : wildcard_branch p p = true.
Proof. apply bool_decide_eq_true. induction (segments_of p); constructor; [by right|done]. Qed.

(** ** The string matchers in closed form *)

Definition gt_branch (p s : gostring) : bool :=
  HasSuffix p dot_gt &&
  bool_decide (segments_of (TrimSuffix p dot_gt) `prefix_of` segments_of s).

Lemma gt_test p s :
  (HasPrefix s (p ++ [dot]) || bool_decide (s = p)) =
  bool_decide (segments_of p `prefix_of` segments_of s).
Proof.
  apply eq_bool_prop_intro. rewrite bool_decide_spec, Is_true_true. apply prefix_segments.
Qed.

Lemma Match_closed p s :
  Match p s = bool_decide (p = s) || gt_branch p s
              || (negb (HasSuffix p dot_gt) && bool_decide (star ∈ segments_of p) && wildcard_branch p s).
Proof.
  unfold Match, gt_branch. rewrite gt_test, has_star_segment.
  destruct (decide (p = s)) as [->|Hne]; [by rewrite bool_decide_true|].
  rewrite (bool_decide_false (p = s)) by done. simpl.
  destruct (HasSuffix p dot_gt); simpl; [by destruct (bool_decide _)|].
  pose proof (match_parts_guarded (segments_of p) (segments_of s)) as Hg.
  fold (wildcard_branch p s) in Hg. rewrite <-Hg.
  destruct (negb _) eqn:E; [by rewrite andb_false_r|]. by destruct (bool_decide (star ∈ _)).
Qed.

Lemma matchSubject_closed p s :
  matchSubject p s = bool_decide (p = s) || gt_branch p s
                     || (bool_decide (star ∈ segments_of p) && wildcard_branch p s).
Proof.
  unfold matchSubject. cbv zeta. rewrite gt_test. fold (gt_branch p s).
  rewrite match_parts_guarded. fold (wildcard_branch p s).
  destruct (decide (p = s)) as [->|Hne]; [by rewrite bool_decide_true|].
  rewrite (bool_decide_false (p = s)) by done. cbn [orb].
  destruct (gt_branch p s); [done|]. cbn [orb].
  destruct (decide (star ∈ segments_of p)) as [Hs|Hs].
  - rewrite bool_decide_true by done. by rewrite star_segment_Contains.
  - rewrite bool_decide_false by done. destruct (wildcard_branch p s) eqn:Hw.
    + by apply wildcard_branch_literal in Hw.
    + by destruct (Contains p star).
Qed.

Lemma gt_branch_spec p s :
  gt_branch p s = true ↔
  ∃ pre, p = pre ++ dot_gt ∧ segments_of pre `prefix_of` segments_of s.
Proof.
  unfold gt_branch. rewrite andb_true_iff, bool_decide_eq_true. split.
  - intros [[t ->]%HasSuffix_spec Hp]. rewrite TrimSuffix_app in Hp. eauto.
  - intros (pre & -> & Hp). rewrite TrimSuffix_app. split; [apply HasSuffix_spec; eauto|done].
Qed.

(** ** Properties *)

Lemma Match_segments p s :
  Match p s = true ↔
  p = s ∨ (∃ pre, p = pre ++ dot_gt ∧ segments_of pre `prefix_of` segments_of s)
  ∨ (¬ (∃ pre, p = pre ++ dot_gt) ∧ star ∈ segments_of p
     ∧ Forall2 seg_ok (segments_of p) (segments_of s)).
Proof.
  rewrite Match_closed, !orb_true_iff, !andb_true_iff, negb_true_iff, gt_branch_spec.
  unfold wildcard_branch. rewrite !bool_decide_eq_true, <-HasSuffix_spec, not_true_iff_false.
  tauto.
Qed.

(** C34: what the broker's [Router.Match] accepts, in terms of segments: the pattern itself;
    for a pattern [pre.>], every subject whose segments start with those of [pre] ([pre]
    included, wildcards in [pre] taken literally); for any other pattern with a [*]
    segment, the subjects with the same number of segments that agree segment by segment
    except under [*]; nothing else. *)
Theorem Match_spec p s :
  Match p s = true ↔
  p = s ∨ (∃ pre, p = pre ++ dot_gt ∧ segments_of pre `prefix_of` segments_of s)
  ∨ (¬ (∃ pre, p = pre ++ dot_gt) ∧ star ∈ segments_of p
     ∧ Forall2 seg_ok (segments_of p) (segments_of s)).
Proof. apply Match_segments. Qed.

(** Every subject the broker matches, the client matches. *)
Lemma matchSubject_of_Match p s : Match p s = true → matchSubject p s = true.
Proof.
  rewrite Match_closed, matchSubject_closed, !orb_true_iff, !andb_true_iff. tauto.
Qed.

(** The client's matcher is the broker's, except on patterns that end in [.>] and have a
    [*] segment, where the client also tries the segment-wise match; so every message the
    broker routes because of a pattern is accepted by the client subscription that
    registered this pattern. *)
Lemma matchSubject_covers_Match p s :
  matchSubject p s =
    Match p s || (HasSuffix p dot_gt && bool_decide (star ∈ segments_of p) && wildcard_branch p s).
Proof.
  rewrite matchSubject_closed, Match_closed.
  destruct (HasSuffix p dot_gt); simpl; [|by rewrite orb_false_r].
  by rewrite orb_false_r.
Qed.

(** ** Compiled patterns *)

Lemma compile_spec p :
  compile p = mkCompiled (segments_of p) (bool_decide (star ∈ segments_of p))
                         (bool_decide (gt ∈ segments_of p)).
Proof.
  unfold compile. generalize (segments_of p) at 1 3 as all.
  intros all. change (bool_decide (star ∈ segments_of p)) with (false || bool_decide (star ∈ segments_of p)).
  change (bool_decide (gt ∈ segments_of p)) with (false || bool_decide (gt ∈ segments_of p)).
  generalize false at 1 3 as w. generalize false as g. 
  induction (segments_of p) as [|q qs IH]; intros g w; cbn [foldl].
  - by rewrite !bool_decide_false, !orb_false_r by apply not_elem_of_nil.
  - assert (∀ x : gostring, bool_decide (x ∈ q :: qs) = bool_decide (q = x) || bool_decide (x ∈ qs)) as Hc.
    { intros x. apply eq_bool_prop_intro. rewrite orb_True, !bool_decide_spec, elem_of_cons. naive_solver. }
    rewrite !Hc. cbn [segments hasWildcard hasMultiWildcard].
    destruct (decide (q = star)) as [->|]; [|destruct (decide (q = gt)) as [->|]]; rewrite IH.
    + rewrite (bool_decide_true (star = star)), (bool_decide_false (star = gt)) by done.
      by rewrite orb_true_r.
    + rewrite (bool_decide_true (gt = gt)), (bool_decide_false (gt = star)) by done.
      by rewrite orb_true_r.
    + by rewrite (bool_decide_false (q = star)), (bool_decide_false (q = gt)).
Qed.

Lemma nats_match_inv p ps ss :
  nats_match (p :: ps) ss ↔
  (p = gt ∧ ps = [] ∧ ss ≠ []) ∨
  (p ≠ gt ∧ ∃ s ss', ss = s :: ss' ∧ seg_ok p s ∧ nats_match ps ss').
Proof.
  split.
  - inversion 1; simplify_eq; [right; split; [done|by eexists _, _]|by left].
  - intros [(-> & -> & Hss)|(Hp & s & ss' & -> & ? & ?)]; [|by constructor].
    destruct ss; [done|apply nats_gt].
Qed.

Lemma matches_from_spec segs pi n ss :
  n = (pi + length segs)%nat → matches_from segs pi n ss = true ↔ nats_match segs ss.
Proof.
  revert pi ss. induction segs as [|p segs IH]; intros pi ss Hn; cbn [matches_from].
  - rewrite bool_decide_eq_true. split; [intros ->; constructor|by inversion 1].
  - simpl in Hn. rewrite nats_match_inv. destruct (decide (p = gt)) as [->|Hp].
    + destruct (decide (pi ≠ n - 1)) as [Hpi|Hpi].
      * split; [done|]. intros [(_ & -> & _)|[? _]]; [simpl in Hn; lia|done].
      * assert (segs = []) as -> by (apply nil_length_inv; lia).
        rewrite bool_decide_eq_true. naive_solver.
    + destruct ss as [|s ss]; [split; [done|naive_solver]|].
      unfold seg_ok. repeat case_decide; rewrite ?IH by lia; naive_solver.
Qed.

Lemma matches_compiled p s :
  star ∈ segments_of p ∨ gt ∈ segments_of p →
  matches (compile p) s = true ↔ nats_match (segments_of p) (segments_of s).
Proof.
  intros Hw. rewrite compile_spec. unfold matches, matchesSegments. cbn [segments hasWildcard hasMultiWildcard].
  rewrite <-(matches_from_spec _ 0 (length (segments_of p))) by lia.
  destruct Hw as [Hw|Hw]; rewrite (bool_decide_true _ Hw); [done|]. by rewrite andb_false_r.
Qed.

(** The compiled form of a pattern with a wildcard segment decides the NATS matching
    relation on segments: [*] for exactly one segment, a final [>] for one or more, a [>]
    elsewhere for nothing. *)
Theorem matches_nats p s :
  star ∈ segments_of p ∨ gt ∈ segments_of p →
  matches (compile p) s = true ↔ nats_match (segments_of p) (segments_of s).
Proof. apply matches_compiled. Qed.

Lemma matches_nats_witness :
  matches (compile (str "a.*.>")) (str "a.b.c.d") = true ↔
  nats_match (segments_of (str "a.*.>")) (segments_of (str "a.b.c.d")).
Proof. apply matches_nats. left. by apply (bool_decide_unpack _). Defined.

Lemma nats_match_no_gt ps ss : gt ∉ ps → nats_match ps ss ↔ Forall2 seg_ok ps ss.
Proof.
  revert ss. induction ps as [|p ps IH]; intros ss Hn.
  - split; [inversion 1; constructor|]. intros H%Forall2_nil_inv_l. subst. constructor.
  - apply not_elem_of_cons in Hn as [Hp Hn]. rewrite nats_match_inv. split.
    + intros [[? _]|(_ & s & ss' & -> & ? & ?)]; [done|]. constructor; [done|]. by apply IH.
    + intros (s & ss' & ? & ? & ->)%Forall2_cons_inv_l. right. split; [done|].
      eexists _, _. split_and!; [done..|]. by apply IH.
Qed.

Lemma nats_match_literal_gt pre ss :
  star ∉ pre → gt ∉ pre →
  nats_match (pre ++ [gt]) ss ↔ ∃ k, k ≠ [] ∧ ss = pre ++ k.
Proof.
  revert ss. induction pre as [|p pre IH]; intros ss Hs Hg; cbn [app].
  - rewrite nats_match_inv. split; [intros [(_ & _ & ?)|[? _]]; [by exists ss|done]|].
    intros (k & ? & ->). by left.
  - apply not_elem_of_cons in Hs as [Hs1 Hs], Hg as [Hg1 Hg]. rewrite nats_match_inv. split.
    + intros [[? _]|(_ & s & ss' & -> & [->| ->] & Hm)]; [done..|].
      apply IH in Hm as (k & ? & ->); [|done..]. by exists k.
    + intros (k & ? & ->). right. split; [done|]. eexists _, _.
      split_and!; [done|by right|]. apply IH; eauto.
Qed.

Lemma compiled_literal p s q r rest :
  segments_of p = q :: r :: rest → star ∉ segments_of p → gt ∉ segments_of p →
  matches (compile p) p = false ∧ Match p p = true ∧ (matches (compile p) s = true ↔ s = q).
Proof.
  intros Hseg Hs Hg. rewrite compile_spec, (bool_decide_false _ Hs), (bool_decide_false _ Hg).
  unfold matches. cbn [segments hasWildcard hasMultiWildcard negb andb]. rewrite Hseg.
  split_and!.
  - apply bool_decide_false. intros ->. assert (segments_of q = [q]) as Hq.
    { apply Split_nosep. eapply (Split_parts dot q). rewrite Hseg. left. }
    rewrite Hq in Hseg. done.
  - unfold Match. by rewrite decide_True.
  - apply bool_decide_eq_true.
Qed.

(** The optimised router's compiled patterns against the router the server uses, on
    the patterns both understand: they agree when the pattern has [*] segments and no [>];
    on [pre.>] with a literal [pre] they agree except on the subject [pre] itself, which
    the server's router accepts and the compiled pattern refuses. A pattern of two or more
    literal segments compiles to a matcher that refuses the very subject it names and
    accepts only its first segment: the exact branch of [CompiledPattern.matches] compares
    the whole subject with [segments[0]]. *)
Theorem compiled_vs_router p s :
  (star ∈ segments_of p → gt ∉ segments_of p → matches (compile p) s = Match p s) ∧
  (∀ pre, p = pre ++ dot_gt → star ∉ segments_of pre → gt ∉ segments_of pre →
     matches (compile p) s = Match p s && bool_decide (s ≠ pre)) ∧
  (∀ q r rest, segments_of p = q :: r :: rest → star ∉ segments_of p → gt ∉ segments_of p →
     matches (compile p) p = false ∧ Match p p = true ∧ (matches (compile p) s = true ↔ s = q)).
Proof.
  split_and!.
  - intros Hs Hg. apply eq_true_iff_eq. rewrite matches_compiled, nats_match_no_gt by eauto.
    rewrite Match_segments. split; [|intros [->|[(pre & -> & _)|(_ & _ & ?)]]; [| |done]].
    + intros HF. right. right. split_and!; [|done..]. intros [pre ->].
      apply Hg. rewrite segments_dot_gt, elem_of_app. right. left.
    + apply (proj1 (bool_decide_eq_true _)), (wildcard_branch_refl s).
    + destruct Hg. rewrite segments_dot_gt, elem_of_app. right. left.
  - intros pre -> Hs Hg. apply eq_true_iff_eq.
    rewrite matches_compiled, andb_true_iff, bool_decide_eq_true, segments_dot_gt
      by (right; rewrite segments_dot_gt, elem_of_app; right; left).
    rewrite nats_match_literal_gt by done. rewrite Match_segments. split.
    + intros (k & Hk & Hseg). split.
      * right. left. exists pre. split; [done|]. rewrite Hseg. by eexists.
      * intros ->. apply Hk. apply (app_inv_head (segments_of pre)). by rewrite app_nil_r.
    + intros [[<-|[(pre' & Heq%app_inv_tail & k & Hk)|[[] _]]] Hne]; [| |eauto].
      * exists [gt]. by rewrite segments_dot_gt.
      * subst. exists k. split; [|done]. intros ->. rewrite app_nil_r in Hk.
        by apply Split_inj in Hk.
  - intros q r rest. apply compiled_literal.
Qed.
