(* ===== verification/Router.v ===== *)
(** * The subscription table

    The interface the server relies on ([SubscriptionStore], with its laws), and the
    broker's [Router] ([src/server/router.go]), which implements it. *)

From S2P Require Import Prelude GoStrings Subject.

(** ** Sessions and iteration orders *)

(** The identity of a [*Session]: pointers are only compared. *)
Abbreviation sid := nat.

(** The order in which a [range] over a map visits its entries is unspecified; every
    operation that ranges over a map takes the order of this run. *)
Record order := {
  visit : ∀ {A : Type}, list A → list A;
  visit_perm : ∀ (A : Type) (l : list A), visit l ≡ₚ l;
}.

Program Definition in_order : order := {| visit := λ A l, l |}.
Next Obligation. done. Qed.
Program Definition reversed : order := {| visit := λ A l, reverse l |}.
Next Obligation. intros A l. by rewrite reverse_Permutation. Qed.

(** ** Interface *)

(** What the server uses of a router. *)
Class SubscriptionStore (R : Type) := {
  store_new : R;
  store_subscribe : gostring → sid → R → R;
  store_unsubscribe : gostring → sid → R → R;
  store_remove_session : order → sid → R → R;
  store_find : order → gostring → R → list sid * R;
  store_subject_count : R → Z;
  store_total : order → R → Z;
}.

(** What it promises: the table is a set of (pattern, session) pairs. A pair is registered
    at most once by a caller that does not register it twice, lookups return each matching
    session once. *)
Class SubscriptionStoreLaws (R : Type) `{SubscriptionStore R} := {
  store_ok : R → Prop;
  store_pairs : R → gset (gostring * sid);
  store_match : gostring → gostring → bool;
  store_new_ok : store_ok store_new;
  store_new_pairs : store_pairs store_new = ∅;
  store_subscribe_ok p s r :
    store_ok r → (p, s) ∉ store_pairs r →
    store_ok (store_subscribe p s r) ∧
    store_pairs (store_subscribe p s r) = {[(p, s)]} ∪ store_pairs r;
  store_unsubscribe_ok p s r :
    store_ok r →
    store_ok (store_unsubscribe p s r) ∧
    store_pairs (store_unsubscribe p s r) = store_pairs r ∖ {[(p, s)]};
  store_remove_session_ok o s r :
    store_ok r →
    store_ok (store_remove_session o s r) ∧
    store_pairs (store_remove_session o s r) = filter (λ ps, ps.2 ≠ s) (store_pairs r);
  store_find_ok o subject r :
    store_ok r →
    store_ok (store_find o subject r).2 ∧
    store_pairs (store_find o subject r).2 = store_pairs r ∧
    NoDup (store_find o subject r).1 ∧
    ∀ s, s ∈ (store_find o subject r).1 ↔
         ∃ p, (p, s) ∈ store_pairs r ∧ store_match p subject = true;
  store_total_ok o r : store_ok r → store_total o r = Z.of_nat (size (store_pairs r));
}.

(** ** Tables from subjects to session lists *)

Abbreviation table := (gmap gostring (list sid)).

Definition sessions_of (m : table) (p : gostring) : list sid := default [] (m !! p).

(** The pairs of a table. *)
Definition table_pairs (m : table) : gset (gostring * sid) :=
  list_to_set (map_to_list m ≫= λ '(p, l), map (pair p) l).

(** Every list is non-empty and without repetition. *)
Definition table_ok (m : table) : Prop := map_Forall (λ _ l, l ≠ [] ∧ NoDup l) m.

Lemma table_pairs_spec m p s : (p, s) ∈ table_pairs m ↔ s ∈ sessions_of m p.
Proof.
  unfold table_pairs, sessions_of. rewrite elem_of_list_to_set, list_elem_of_bind. split.
  - intros ([q l] & Hin & Hm). apply elem_of_map_to_list in Hm.
    apply list_elem_of_fmap in Hin as (s' & [= <- <-] & Hin). by rewrite Hm.
  - destruct (m !! p) as [l|] eqn:E; simpl; [|by intros ?%elem_of_nil]. intros Hs.
    exists (p, l). split; [by apply list_elem_of_fmap; eauto|by apply elem_of_map_to_list].
Qed.

Lemma sessions_of_insert m p l q :
  sessions_of (<[p := l]> m) q = if decide (p = q) then l else sessions_of m q.
Proof. unfold sessions_of. rewrite lookup_insert. by case_decide. Qed.

Lemma sessions_of_delete m p q :
  sessions_of (delete p m) q = if decide (p = q) then [] else sessions_of m q.
Proof. unfold sessions_of. rewrite lookup_delete. by case_decide. Qed.

Lemma table_ok_NoDup m p : table_ok m → NoDup (sessions_of m p).
Proof.
  intros Hm. unfold sessions_of. destruct (m !! p) as [l|] eqn:E; simpl; [|constructor].
  apply (Hm _ _ E).
Qed.

Lemma table_ok_lookup m p l : table_ok m → m !! p = Some l → l ≠ [] ∧ NoDup l.
Proof. intros Hm E. apply (Hm _ _ E). Qed.

(** Setting an entry, or deleting it when the list has become empty. *)
Definition set_or_delete (m : table) (p : gostring) (l : list sid) : table :=
  let m := <[p := l]> m in
  if decide (len (sessions_of m p) = 0%Z) then delete p m else m.

Lemma set_or_delete_sessions m p l q :
  sessions_of (set_or_delete m p l) q = if decide (p = q) then l else sessions_of m q.
Proof.
  unfold set_or_delete. rewrite (sessions_of_insert m p l p), (decide_True (P := p = p)) by done.
  destruct (decide (len l = 0%Z)) as [Hl|Hl].
  - rewrite sessions_of_delete, sessions_of_insert. case_decide; [|done].
    symmetry. by apply len_zero_nil.
  - apply sessions_of_insert.
Qed.

Lemma set_or_delete_ok m p l : table_ok m → NoDup l → table_ok (set_or_delete m p l).
Proof.
  intros Hm Hl. unfold set_or_delete. rewrite sessions_of_insert, (decide_True (P := p = p)) by done.
  case_decide as Hlen.
  - rewrite delete_insert_eq. by apply map_Forall_delete.
  - apply map_Forall_insert_2; [|done]. split; [by intros ->|done].
Qed.

(** ** [Router] *)

Record Router := mkRouter { subscriptions : table }.

Definition NewRouter : Router := {| subscriptions := ∅ |}.

Definition Subscribe (subject : gostring) (session : sid) (r : Router) : Router :=
  let sessions := sessions_of (subscriptions r) subject in
  if existsb (λ s, bool_decide (s = session)) sessions then r
  else {| subscriptions := <[subject := sessions ++ [session]]> (subscriptions r) |}.

(** The in-place [filtered := sessions[:0]] loop of [Unsubscribe] and [RemoveSession]: the
    backing array belongs to this entry of the map only. *)
Definition without (session : sid) (sessions : list sid) : list sid :=
  filter (λ s, s ≠ session) sessions.

Definition Unsubscribe (subject : gostring) (session : sid) (r : Router) : Router :=
  match subscriptions r !! subject with
  | None => r
  | Some sessions =>
      {| subscriptions := set_or_delete (subscriptions r) subject (without session sessions) |}
  end.

Definition RemoveSession (o : order) (session : sid) (r : Router) : Router :=
  {| subscriptions :=
       foldl (λ m '(subject, sessions), set_or_delete m subject (without session sessions))
             (subscriptions r) (visit o (map_to_list (subscriptions r))) |}.

Definition FindSubscribers (o : order) (subject : gostring) (r : Router) : list sid :=
  let uniqueSessions : gset sid :=
    foldl (λ u '(pattern, sessions),
             if Match pattern subject then foldl (λ u session, {[session]} ∪ u) u sessions else u)
          ∅ (visit o (map_to_list (subscriptions r))) in
  visit o (elements uniqueSessions).

Definition GetSubjectCount (r : Router) : Z := Z.of_nat (size (subscriptions r)).

Definition GetTotalSubscriptions (o : order) (r : Router) : Z :=
  foldl (λ count '(_, sessions), (count + len sessions)%Z) 0%Z
        (visit o (map_to_list (subscriptions r))).

#[export] Instance Router_store : SubscriptionStore Router := {|
  store_new := NewRouter;
  store_subscribe := Subscribe;
  store_unsubscribe := Unsubscribe;
  store_remove_session := RemoveSession;
  store_find := λ o subject r, (FindSubscribers o subject r, r);
  store_subject_count := GetSubjectCount;
  store_total := GetTotalSubscriptions;
|}.

(** The scenario of [TestRouterFindSubscribers]. *)
Definition test_router : Router :=
  Subscribe (str "foo.>") 1 (Subscribe (str "test.>") 3
    (Subscribe (str "foo.*") 2 (Subscribe (str "foo.bar") 1 NewRouter))).
Example find_exact : length (FindSubscribers in_order (str "foo.bar") test_router) = 2%nat.
Proof. reflexivity. Qed.
Example find_multi : FindSubscribers in_order (str "test.a.b.c") test_router = [3%nat].
Proof. reflexivity. Qed.
Example find_none : FindSubscribers reversed (str "unknown.subject") test_router = [].
Proof. reflexivity. Qed.

(** ** Facts about the table *)

Lemma not_existsb_elem (s : sid) l :
  existsb (λ x, bool_decide (x = s)) l = bool_decide (s ∈ l).
Proof.
  induction l as [|x l IH]; [done|]. cbn [existsb]. rewrite IH. apply eq_bool_prop_intro.
  rewrite orb_True, !bool_decide_spec, elem_of_cons. naive_solver.
Qed.

Lemma elem_of_without s x l : x ∈ without s l ↔ x ≠ s ∧ x ∈ l.
Proof. unfold without. by rewrite list_elem_of_filter. Qed.

Lemma NoDup_without s l : NoDup l → NoDup (without s l).
Proof. apply NoDup_filter. Qed.

(** [filtered] when it is stored: an entry that became empty disappears. *)
Definition nonempty (l : list sid) : option (list sid) := if decide (l = []) then None else Some l.

Lemma set_or_delete_lookup m p l q :
  set_or_delete m p l !! q = if decide (p = q) then nonempty l else m !! q.
Proof.
  unfold set_or_delete, nonempty. rewrite sessions_of_insert, (decide_True (P := p = p)) by done.
  destruct (decide (len l = 0%Z)) as [Hl|Hl].
  - rewrite (decide_True (P := l = [])) by (by apply len_zero_nil).
    rewrite lookup_delete. case_decide; [done|]. by rewrite lookup_insert_ne.
  - rewrite (decide_False (P := l = [])) by (by intros ->). apply lookup_insert.
Qed.

(** [RemoveSession]'s loop, over any list of entries with distinct keys. *)
Lemma remove_loop_lookup s (L : list (gostring * list sid)) m q :
  NoDup L.*1 →
  foldl (λ m '(subject, sessions), set_or_delete m subject (without s sessions)) m L !! q =
  match (list_to_map L : table) !! q with
  | Some l => nonempty (without s l)
  | None => m !! q
  end.
Proof.
  revert m. induction L as [|[k l] L IH]; intros m Hnd; [done|].
  cbn [foldl fmap list_fmap fst] in *. apply NoDup_cons in Hnd as [Hk Hnd].
  rewrite IH, set_or_delete_lookup by done. cbn [list_to_map foldr uncurry].
  destruct (decide (k = q)) as [->|Hne].
  - rewrite not_elem_of_list_to_map_1 by done. by rewrite lookup_insert_eq.
  - by rewrite lookup_insert_ne.
Qed.

Lemma list_to_map_visit (o : order) (m : table) :
  list_to_map (visit o (map_to_list m)) = m ∧ NoDup (visit o (map_to_list m)).*1.
Proof.
  pose proof (visit_perm o _ (map_to_list m)) as Hp. split.
  - rewrite <-(list_to_map_to_list m) at 2. symmetry.
    apply list_to_map_proper; [apply NoDup_fst_map_to_list|done].
  - rewrite Hp. apply NoDup_fst_map_to_list.
Qed.

(** The outcome of [RemoveSession] does not depend on the iteration order. *)
Lemma RemoveSession_closed o s r :
  RemoveSession o s r = {| subscriptions := omap (λ l, nonempty (without s l)) (subscriptions r) |}.
Proof.
  unfold RemoveSession. f_equal. apply map_eq. intros q.
  destruct (list_to_map_visit o (subscriptions r)) as [HL Hnd].
  rewrite remove_loop_lookup, HL, lookup_omap by done. by destruct (subscriptions r !! q).
Qed.

Lemma RemoveSession_sessions o s r p :
  sessions_of (subscriptions (RemoveSession o s r)) p = without s (sessions_of (subscriptions r) p).
Proof.
  rewrite RemoveSession_closed. unfold sessions_of. cbn [subscriptions]. rewrite lookup_omap.
  destruct (subscriptions r !! p) as [l|]; simpl; [|done].
  unfold nonempty. case_decide as E; simpl; by rewrite ?E.
Qed.

(** *** Invariant *)

Definition router_ok (r : Router) : Prop := table_ok (subscriptions r).
Definition router_pairs (r : Router) : gset (gostring * sid) := table_pairs (subscriptions r).

Lemma router_pairs_ext (r : Router) (X : gset (gostring * sid)) :
  (∀ p s, (p, s) ∈ X ↔ s ∈ sessions_of (subscriptions r) p) → router_pairs r = X.
Proof.
  intros H. apply set_eq. intros [p s]. unfold router_pairs. by rewrite table_pairs_spec, H.
Qed.

Lemma Subscribe_ok p s r : router_ok r → router_ok (Subscribe p s r).
Proof.
  unfold router_ok, Subscribe. intros Hr. rewrite not_existsb_elem. case_bool_decide as Hin; [done|].
  cbn [subscriptions]. apply map_Forall_insert_2; [|done].
  split; [by destruct (sessions_of _ _)|]. apply NoDup_snoc; [by apply table_ok_NoDup|done].
Qed.

Lemma Subscribe_pairs p s r : router_pairs (Subscribe p s r) = {[(p, s)]} ∪ router_pairs r.
Proof.
  apply router_pairs_ext. intros q x. rewrite elem_of_union, elem_of_singleton.
  unfold router_pairs. rewrite table_pairs_spec.
  unfold Subscribe. rewrite not_existsb_elem. case_bool_decide as Hin.
  { split; [intros [[= -> ->]|?]; done|by right]. }
  cbn [subscriptions]. rewrite sessions_of_insert. destruct (decide (p = q)) as [->|Hq].
  - rewrite elem_of_app, list_elem_of_singleton. rewrite pair_equal_spec. tauto.
  - rewrite pair_equal_spec. split; [intros [[-> _]|?]; done|by right].
Qed.

Lemma Unsubscribe_ok p s r : router_ok r → router_ok (Unsubscribe p s r).
Proof.
  unfold router_ok, Unsubscribe. intros Hr. destruct (subscriptions r !! p) as [l|] eqn:E; [|done].
  apply set_or_delete_ok; [done|]. apply NoDup_without. by apply (table_ok_lookup _ _ _ Hr E).
Qed.

Lemma Unsubscribe_pairs p s r : router_pairs (Unsubscribe p s r) = router_pairs r ∖ {[(p, s)]}.
Proof.
  apply router_pairs_ext. intros q x. rewrite elem_of_difference, elem_of_singleton.
  unfold router_pairs. rewrite table_pairs_spec. unfold Unsubscribe.
  destruct (subscriptions r !! p) as [l|] eqn:E.
  - cbn [subscriptions]. rewrite set_or_delete_sessions, pair_equal_spec.
    destruct (decide (p = q)) as [->|Hq].
    + rewrite elem_of_without. unfold sessions_of. rewrite E. simpl. tauto.
    + split; [by intros [? _]|]. intros Hx. split; [done|]. by intros [-> _].
  - split; [by intros [? _]|]. intros Hx. split; [done|]. intros [= -> ->].
    unfold sessions_of in Hx. rewrite E in Hx. by apply elem_of_nil in Hx.
Qed.

Lemma RemoveSession_ok o s r : router_ok r → router_ok (RemoveSession o s r).
Proof.
  intros Hr. rewrite RemoveSession_closed. intros p l. cbn [subscriptions]. rewrite lookup_omap.
  destruct (subscriptions r !! p) as [l'|] eqn:E; [|done]. simpl. unfold nonempty.
  case_decide as Hl; [done|]. intros [= <-]. split; [done|].
  apply NoDup_without. by apply (table_ok_lookup _ _ _ Hr E).
Qed.

Lemma RemoveSession_pairs o s r :
  router_pairs (RemoveSession o s r) = filter (λ ps, ps.2 ≠ s) (router_pairs r).
Proof.
  apply router_pairs_ext. intros q x. rewrite elem_of_filter. unfold router_pairs.
  by rewrite table_pairs_spec, RemoveSession_sessions, elem_of_without.
Qed.

(** *** Lookups *)

Lemma collect_sessions l (u : gset sid) s :
  s ∈ foldl (λ u session, {[session]} ∪ u) u l ↔ s ∈ u ∨ s ∈ l.
Proof.
  revert u. induction l as [|x l IH]; intros u; cbn [foldl]; [set_solver|].
  rewrite IH, elem_of_cons, elem_of_union, elem_of_singleton. tauto.
Qed.

Lemma collect_matching subject (L : list (gostring * list sid)) (u : gset sid) s :
  s ∈ foldl (λ u '(pattern, sessions),
       if Match pattern subject then foldl (λ u session, {[session]} ∪ u) u sessions else u) u L ↔
  s ∈ u ∨ ∃ p l, (p, l) ∈ L ∧ Match p subject = true ∧ s ∈ l.
Proof.
  revert u. induction L as [|[p l] L IH]; intros u; cbn [foldl].
  - split; [by left|]. intros [?|(? & ? & []%elem_of_nil & _)]. done.
  - assert ((∃ p' l', (p', l') ∈ (p, l) :: L ∧ Match p' subject = true ∧ s ∈ l') ↔
            (Match p subject = true ∧ s ∈ l) ∨
            ∃ p' l', (p', l') ∈ L ∧ Match p' subject = true ∧ s ∈ l') as ->.
    { setoid_rewrite elem_of_cons. setoid_rewrite pair_equal_spec. split.
      - intros (p' & l' & [[-> ->]|?] & ? & ?); eauto 10.
      - intros [[? ?]|(p' & l' & ? & ? & ?)]; eauto 10. }
    rewrite IH. destruct (Match p subject); rewrite ?collect_sessions; naive_solver.
Qed.

Lemma FindSubscribers_elem o subject r s :
  s ∈ FindSubscribers o subject r ↔
  ∃ p, (p, s) ∈ router_pairs r ∧ Match p subject = true.
Proof.
  unfold FindSubscribers. rewrite (visit_perm o), elem_of_elements, collect_matching.
  setoid_rewrite (visit_perm o). setoid_rewrite elem_of_map_to_list.
  unfold router_pairs. setoid_rewrite table_pairs_spec. unfold sessions_of. split.
  - intros [[]%elem_of_empty|(p & l & Hl & Hm & Hs)]. exists p. by rewrite Hl.
  - intros (p & Hs & Hm). right. destruct (subscriptions r !! p) as [l|] eqn:E; [eauto|].
    by apply elem_of_nil in Hs.
Qed.

Lemma FindSubscribers_NoDup o subject r : NoDup (FindSubscribers o subject r).
Proof. unfold FindSubscribers. rewrite (visit_perm o). apply NoDup_elements. Qed.

(** *** Counting *)

(** Total number of list entries; invariant under the iteration order. *)
Definition sum_lens (L : list (gostring * list sid)) : Z :=
  foldr (λ kl acc, (len kl.2 + acc)%Z) 0%Z L.

Lemma foldl_sum_lens c L :
  foldl (λ count '(_, sessions), (count + len sessions)%Z) c L = (c + sum_lens (L : list (gostring * list sid)))%Z.
Proof.
  revert c. induction L as [|[k l] L IH]; intros c; cbn [foldl sum_lens foldr snd]; [lia|].
  rewrite IH. unfold sum_lens. lia.
Qed.

#[export] Instance sum_lens_Proper : Proper ((≡ₚ) ==> eq) sum_lens.
Proof. intros L1 L2 HL. induction HL; unfold sum_lens in *; simpl; lia. Qed.

Lemma NoDup_pairs (L : list (gostring * list sid)) :
  NoDup L.*1 → Forall (λ kl, NoDup kl.2) L → NoDup (L ≫= λ '(p, l), map (pair p) l).
Proof.
  induction L as [|[k l] L IH]; cbn [fmap list_fmap fst mbind list_bind]; [constructor|].
  intros [Hk Hnd]%NoDup_cons [Hl HL]%Forall_cons. apply NoDup_app. split_and!.
  - by apply (NoDup_fmap_2 (pair k)).
  - intros [p s] (s' & [= -> ->] & _)%list_elem_of_fmap.
    intros ([q l'] & (s'' & [= -> ->] & _)%list_elem_of_fmap & Hin)%list_elem_of_bind.
    apply Hk. apply list_elem_of_fmap. by exists (q, l').
  - by apply IH.
Qed.

Lemma length_pairs (L : list (gostring * list sid)) :
  len (L ≫= λ '(p, l), map (pair p) l) = sum_lens L.
Proof.
  induction L as [|[k l] L IH]; cbn [mbind list_bind]; [done|].
  rewrite len_app, IH. unfold len. rewrite length_map. done.
Qed.

Lemma size_table_pairs m :
  table_ok m → Z.of_nat (size (table_pairs m)) = sum_lens (map_to_list m).
Proof.
  intros Hm. unfold table_pairs. rewrite size_list_to_set; [apply length_pairs|].
  apply NoDup_pairs; [apply NoDup_fst_map_to_list|].
  apply Forall_forall. intros [k l] Hin%elem_of_map_to_list. by apply (table_ok_lookup _ _ _ Hm Hin).
Qed.

Lemma GetTotalSubscriptions_pairs o r :
  router_ok r → GetTotalSubscriptions o r = Z.of_nat (size (router_pairs r)).
Proof.
  intros Hr. unfold GetTotalSubscriptions, router_pairs.
  by rewrite foldl_sum_lens, (visit_perm o), size_table_pairs.
Qed.

(** ** The router implements the interface *)

#[export] Program Instance Router_laws : SubscriptionStoreLaws Router := {|
  store_ok := router_ok;
  store_pairs := router_pairs;
  store_match := Match;
|}.
Next Obligation. apply map_Forall_empty. Qed.
Next Obligation. apply router_pairs_ext. intros p s. set_solver. Qed.
Next Obligation. intros p s r Hr _. split; [by apply Subscribe_ok|apply Subscribe_pairs]. Qed.
Next Obligation. intros p s r Hr. split; [by apply Unsubscribe_ok|apply Unsubscribe_pairs]. Qed.
Next Obligation. intros o s r Hr. split; [by apply RemoveSession_ok|apply RemoveSession_pairs]. Qed.
Next Obligation.
  intros o subject r Hr. split_and!; [done..|apply FindSubscribers_NoDup|].
  apply FindSubscribers_elem.
Qed.
Next Obligation. apply GetTotalSubscriptions_pairs. Qed.

(** ** Properties *)

Inductive router_op :=
| OpSubscribe (subject : gostring) (session : sid)
| OpUnsubscribe (subject : gostring) (session : sid)
| OpRemoveSession (o : order) (session : sid).

Definition router_run (ops : list router_op) : Router :=
  foldl (λ r op, match op with
                 | OpSubscribe p s => Subscribe p s r
                 | OpUnsubscribe p s => Unsubscribe p s r
                 | OpRemoveSession o s => RemoveSession o s r
                 end) NewRouter ops.

(** The abstract table: the set of pairs registered by a history of operations. *)
Definition pairs_run (ops : list router_op) : gset (gostring * sid) :=
  foldl (λ X op, match op with
                 | OpSubscribe p s => {[(p, s)]} ∪ X
                 | OpUnsubscribe p s => X ∖ {[(p, s)]}
                 | OpRemoveSession _ s => filter (λ ps, ps.2 ≠ s) X
                 end) ∅ ops.

Lemma router_run_refines ops :
  router_ok (router_run ops) ∧ router_pairs (router_run ops) = pairs_run ops.
Proof.
  induction ops as [|op ops IH] using rev_ind.
  - split; [apply map_Forall_empty|]. apply router_pairs_ext. intros p s. set_solver.
  - unfold router_run, pairs_run in *. rewrite !foldl_app. cbn [foldl].
    destruct IH as [Hok Hp]. destruct op as [p s|p s|o s].
    + split; [by apply Subscribe_ok|]. by rewrite Subscribe_pairs, Hp.
    + split; [by apply Unsubscribe_ok|]. by rewrite Unsubscribe_pairs, Hp.
    + split; [by apply RemoveSession_ok|]. by rewrite RemoveSession_pairs, Hp.
Qed.

(** C17: after any history of subscribe, unsubscribe and session removals (each ranging over
    the map in any order), the router's table is the set of registered (pattern, session)
    pairs: no empty list is kept, no session is listed twice under a pattern, lookup
    returns each session once and exactly the sessions holding a matching pattern, and the
    statistics count the patterns and the pairs. *)
Theorem Router_refines_pairs ops o subject :
  table_ok (subscriptions (router_run ops)) ∧
  router_pairs (router_run ops) = pairs_run ops ∧
  NoDup (FindSubscribers o subject (router_run ops)) ∧
  (∀ s, s ∈ FindSubscribers o subject (router_run ops) ↔
        ∃ p, (p, s) ∈ pairs_run ops ∧ Match p subject = true) ∧
  GetTotalSubscriptions o (router_run ops) = Z.of_nat (size (pairs_run ops)) ∧
  GetSubjectCount (router_run ops) =
    Z.of_nat (size (set_map fst (pairs_run ops) : gset gostring)).
Proof.
  destruct (router_run_refines ops) as [Hok Hp]. rewrite <-Hp. split_and!; [done|done|..].
  - apply FindSubscribers_NoDup.
  - apply FindSubscribers_elem.
  - by apply GetTotalSubscriptions_pairs.
  - unfold GetSubjectCount. rewrite <-size_dom. do 2 f_equal. apply set_eq. intros p.
    rewrite elem_of_dom, elem_of_map. split.
    + intros [l Hl]. destruct (table_ok_lookup _ _ _ Hok Hl) as [Hne _].
      destruct l as [|s l]; [done|]. exists (p, s). split; [done|].
      apply table_pairs_spec. unfold sessions_of. rewrite Hl. left.
    + intros ([q s] & -> & Hin). simpl in Hin. apply table_pairs_spec in Hin. cbn [fst].
      unfold sessions_of in Hin. destruct (subscriptions _ !! q); [done|by apply elem_of_nil in Hin].
Qed.
