(* ===== verification/OptimizedRouter.v ===== *)
(** * The optimised subscription table ([src/server/router_optimized.go])

    Exact subjects and wildcard patterns in separate tables, patterns matched through a
    cache of compiled patterns. It keeps the promises of [SubscriptionStore] for callers
    that never register a pair twice, with the NATS matching relation instead of the
    router's; a pair registered twice survives the removal of its session. *)

From S2P Require Import Prelude GoStrings Subject Router.

(** ** State *)

Record OptimizedRouter := mkOptimizedRouter {
  exactMatches : table;
  wildcardPatterns : table;
  compiledPatternCache : gmap gostring CompiledPattern; (** package-level variable *)
}.

Definition NewOptimizedRouter : OptimizedRouter :=
  {| exactMatches := ∅; wildcardPatterns := ∅; compiledPatternCache := ∅ |}.

Definition set_exact (m : table) (r : OptimizedRouter) : OptimizedRouter :=
  {| exactMatches := m; wildcardPatterns := wildcardPatterns r;
     compiledPatternCache := compiledPatternCache r |}.
Definition set_wildcard (m : table) (r : OptimizedRouter) : OptimizedRouter :=
  {| exactMatches := exactMatches r; wildcardPatterns := m;
     compiledPatternCache := compiledPatternCache r |}.
Definition set_cache (c : gmap gostring CompiledPattern) (r : OptimizedRouter) : OptimizedRouter :=
  {| exactMatches := exactMatches r; wildcardPatterns := wildcardPatterns r;
     compiledPatternCache := c |}.

(** ** Operations *)

Definition compilePattern (pattern : gostring) (cache : gmap gostring CompiledPattern) :
    CompiledPattern * gmap gostring CompiledPattern :=
  match cache !! pattern with
  | Some cached => (cached, cache)
  | None => let compiled := compile pattern in (compiled, <[pattern := compiled]> cache)
  end.

Definition opt_Subscribe (subject : gostring) (session : sid) (r : OptimizedRouter) : OptimizedRouter :=
  let r :=
    if isWildcardPattern subject
    then set_wildcard (<[subject := sessions_of (wildcardPatterns r) subject ++ [session]]>
                         (wildcardPatterns r)) r
    else set_exact (<[subject := sessions_of (exactMatches r) subject ++ [session]]>
                      (exactMatches r)) r in
  set_cache (compilePattern subject (compiledPatternCache r)).2 r.

(** The loop that drops the first occurrence: the index found, [append(s[:i], s[i+1:]...)]. *)
Definition remove_first (m : table) (subject : gostring) (session : sid) (sessions : list sid) : table :=
  match list_find (λ s, s = session) sessions with
  | Some (i, _) => set_or_delete m subject (take i sessions ++ drop (S i) sessions)
  | None => m
  end.

Definition opt_Unsubscribe (subject : gostring) (session : sid) (r : OptimizedRouter) : OptimizedRouter :=
  let wild := isWildcardPattern subject in
  let targetMap := if wild then wildcardPatterns r else exactMatches r in
  match targetMap !! subject with
  | None => r
  | Some sessions =>
      let m := remove_first targetMap subject session sessions in
      if wild then set_wildcard m r else set_exact m r
  end.

Definition remove_from_table (o : order) (session : sid) (m : table) : table :=
  foldl (λ m '(subject, sessions), remove_first m subject session sessions)
        m (visit o (map_to_list m)).

Definition opt_RemoveSession (o : order) (session : sid) (r : OptimizedRouter) : OptimizedRouter :=
  set_wildcard (remove_from_table o session (wildcardPatterns r))
    (set_exact (remove_from_table o session (exactMatches r)) r).

(** Appending the sessions not seen yet. *)
Definition add_unseen (acc : gset sid * list sid) (session : sid) : gset sid * list sid :=
  if decide (session ∈ acc.1) then acc else ({[session]} ∪ acc.1, acc.2 ++ [session]).

Definition opt_FindSubscribers (o : order) (subject : gostring) (r : OptimizedRouter) :
    list sid * OptimizedRouter :=
  let acc := (∅, []) in
  let acc := foldl add_unseen acc (sessions_of (exactMatches r) subject) in
  let '(acc, cache) :=
    foldl (λ '(acc, cache) '(pattern, sessions),
             let '(compiled, cache) := compilePattern pattern cache in
             if matches compiled subject then (foldl add_unseen acc sessions, cache)
             else (acc, cache))
          (acc, compiledPatternCache r) (visit o (map_to_list (wildcardPatterns r))) in
  (acc.2, set_cache cache r).

(** [OptimizedRouter.Match] *)
Definition opt_Match (pattern subject : gostring) (r : OptimizedRouter) : bool * OptimizedRouter :=
  let '(compiled, cache) := compilePattern pattern (compiledPatternCache r) in
  (matches compiled subject, set_cache cache r).

Definition opt_GetSubjectCount (r : OptimizedRouter) : Z :=
  Z.of_nat (size (exactMatches r)) + Z.of_nat (size (wildcardPatterns r)).

Definition opt_GetTotalSubscriptions (o : order) (r : OptimizedRouter) : Z :=
  let count := foldl (λ count '(_, sessions), (count + len sessions)%Z) 0%Z
                     (visit o (map_to_list (exactMatches r))) in
  foldl (λ count '(_, sessions), (count + len sessions)%Z) count
        (visit o (map_to_list (wildcardPatterns r))).

#[export] Instance OptimizedRouter_store : SubscriptionStore OptimizedRouter := {|
  store_new := NewOptimizedRouter;
  store_subscribe := opt_Subscribe;
  store_unsubscribe := opt_Unsubscribe;
  store_remove_session := opt_RemoveSession;
  store_find := opt_FindSubscribers;
  store_subject_count := opt_GetSubjectCount;
  store_total := opt_GetTotalSubscriptions;
|}.

Definition test_opt : OptimizedRouter :=
  opt_Subscribe (str "foo.>") 1 (opt_Subscribe (str "test.>") 3
    (opt_Subscribe (str "foo.*") 2 (opt_Subscribe (str "foo.bar") 1 NewOptimizedRouter))).
Example opt_find_exact : (opt_FindSubscribers in_order (str "foo.bar") test_opt).1 = [1%nat; 2%nat].
Proof. reflexivity. Qed.
Example opt_find_self : (opt_FindSubscribers in_order (str "foo") test_opt).1 = [].
Proof. reflexivity. Qed.

(** ** Invariant *)

Definition cache_ok (c : gmap gostring CompiledPattern) : Prop :=
  map_Forall (λ p cp, cp = compile p) c.

Record opt_ok (r : OptimizedRouter) : Prop := {
  opt_exact_ok : table_ok (exactMatches r);
  opt_wild_ok : table_ok (wildcardPatterns r);
  opt_exact_keys : ∀ p, is_Some (exactMatches r !! p) → isWildcardPattern p = false;
  opt_wild_keys : ∀ p, is_Some (wildcardPatterns r !! p) → isWildcardPattern p = true;
  opt_cache_ok : cache_ok (compiledPatternCache r);
}.

Definition opt_pairs (r : OptimizedRouter) : gset (gostring * sid) :=
  table_pairs (exactMatches r) ∪ table_pairs (wildcardPatterns r).

(** What a registered pattern matches. *)
Definition opt_match (p subject : gostring) : bool :=
  if isWildcardPattern p then matches (compile p) subject else bool_decide (p = subject).

Lemma compilePattern_ok p c :
  cache_ok c → (compilePattern p c).1 = compile p ∧ cache_ok (compilePattern p c).2.
Proof.
  intros Hc. unfold compilePattern. destruct (c !! p) as [cp|] eqn:E; simpl.
  - split; [apply (Hc _ _ E)|done].
  - split; [done|]. by apply map_Forall_insert_2.
Qed.

Lemma sessions_of_key m p s : s ∈ sessions_of m p → is_Some (m !! p).
Proof. unfold sessions_of. destruct (m !! p); [done|by intros ?%elem_of_nil]. Qed.

(** *** Dropping the first occurrence *)

Lemma remove_first_without s l :
  NoDup l →
  match list_find (λ x, x = s) l with
  | Some (i, _) => take i l ++ drop (S i) l = without s l
  | None => without s l = l
  end.
Proof.
  intros Hnd. destruct (list_find (λ x, x = s) l) as [[i x]|] eqn:E.
  - apply list_find_Some in E as (Hi & -> & _).
    rewrite <-(take_drop_middle l i s Hi) at 3. rewrite <-(take_drop_middle l i s Hi) in Hnd.
    apply NoDup_app in Hnd as (_ & Hdisj & [Hs _]%NoDup_cons).
    unfold without. rewrite filter_app, filter_cons_False by naive_solver.
    rewrite !filter_all; [done|..]; intros y Hy ->; [by apply Hs|].
    apply (Hdisj s Hy). left.
  - apply list_find_None in E. unfold without. apply filter_all.
    intros x Hx. by apply (proj1 (Forall_forall _ _) E).
Qed.

Lemma remove_first_lookup m p s l q :
  table_ok m → m !! p = Some l →
  remove_first m p s l !! q = if decide (p = q) then nonempty (without s l) else m !! q.
Proof.
  intros Hm E. destruct (table_ok_lookup _ _ _ Hm E) as [Hne Hnd].
  unfold remove_first. pose proof (remove_first_without s l Hnd) as Hw.
  destruct (list_find _ l) as [[i x]|].
  - by rewrite set_or_delete_lookup, Hw.
  - case_decide; [subst|done]. rewrite Hw, E. unfold nonempty. by rewrite decide_False.
Qed.

(** The loop of [RemoveSession] drops each entry's first occurrence: on a well-formed table
    it does what the other router's loop does. *)
Lemma remove_first_agrees m p s l q :
  NoDup l → l ≠ [] → (m !! p = Some l ∨ p ≠ q) →
  remove_first m p s l !! q = set_or_delete m p (without s l) !! q.
Proof.
  intros Hnd Hne Hp. rewrite set_or_delete_lookup. unfold remove_first.
  pose proof (remove_first_without s l Hnd) as Hw.
  destruct (list_find _ l) as [[i x]|]; [by rewrite set_or_delete_lookup, Hw|].
  case_decide; [|done]. subst. destruct Hp as [Hp|?]; [|done].
  rewrite Hw, Hp. unfold nonempty. by rewrite decide_False.
Qed.

Lemma remove_loop_agrees (s : sid) (L : list (gostring * list sid)) (m : table) :
  NoDup L.*1 → Forall (λ kl, m !! kl.1 = Some kl.2 ∧ NoDup kl.2 ∧ kl.2 ≠ []) L →
  foldl (λ m '(subject, sessions), remove_first m subject s sessions) m L =
  foldl (λ m '(subject, sessions), set_or_delete m subject (without s sessions)) m L.
Proof.
  revert m. induction L as [|[k l] L IH]; intros m; [done|]. cbn [foldl fmap list_fmap fst].
  intros [Hk Hnd]%NoDup_cons [(Hm & Hl & Hne) HL]%Forall_cons. cbn [fst snd] in *.
  assert (remove_first m k s l = set_or_delete m k (without s l)) as ->.
  { apply map_eq. intros q. apply remove_first_agrees; auto. }
  apply IH; [done|].
  rewrite Forall_forall in HL |- *. intros [k' l'] Hin. destruct (HL _ Hin) as (Hm' & ? & ?).
  cbn [fst snd] in *. split_and!; [|done..]. rewrite set_or_delete_lookup, decide_False; [done|].
  intros ->. apply Hk. apply list_elem_of_fmap. by exists (k', l').
Qed.

Lemma remove_from_table_closed o s m :
  table_ok m →
  Router.subscriptions (RemoveSession o s (mkRouter m)) = remove_from_table o s m.
Proof.
  intros Hm. unfold remove_from_table, RemoveSession. cbn [subscriptions]. symmetry.
  apply remove_loop_agrees; [apply list_to_map_visit|].
  apply Forall_forall. intros [k l]. rewrite (visit_perm o), elem_of_map_to_list. intros Hk.
  destruct (table_ok_lookup _ _ _ Hm Hk). done.
Qed.

(** *** The pairs, table by table *)

(** The table a pattern lives in. *)
Definition home (p : gostring) (r : OptimizedRouter) : table :=
  if isWildcardPattern p then wildcardPatterns r else exactMatches r.

Lemma opt_pairs_spec r p s :
  opt_ok r → (p, s) ∈ opt_pairs r ↔ s ∈ sessions_of (home p r) p.
Proof.
  intros Hr. unfold opt_pairs, home. rewrite elem_of_union, !table_pairs_spec.
  pose proof (opt_exact_keys r Hr p) as He. pose proof (opt_wild_keys r Hr p) as Hw.
  destruct (isWildcardPattern p).
  - split; [|by right]. intros [H%sessions_of_key|]; [|done]. by specialize (He H).
  - split; [|by left]. intros [|H%sessions_of_key]; [done|]. by specialize (Hw H).
Qed.

Lemma opt_pairs_ext (r : OptimizedRouter) (X : gset (gostring * sid)) :
  opt_ok r → (∀ p s, (p, s) ∈ X ↔ s ∈ sessions_of (home p r) p) → opt_pairs r = X.
Proof. intros Hr H. apply set_eq. intros [p s]. by rewrite opt_pairs_spec, H. Qed.

Lemma home_ok r p : opt_ok r → table_ok (home p r).
Proof. intros [? ? _ _ _]. unfold home. by destruct (isWildcardPattern p). Qed.

(** Replacing the home table of [p] by one with the same keys, or [p] added. *)
Definition set_home (p : gostring) (m : table) (r : OptimizedRouter) : OptimizedRouter :=
  if isWildcardPattern p then set_wildcard m r else set_exact m r.

Lemma set_home_ok p m r :
  opt_ok r → table_ok m → (∀ q, is_Some (m !! q) → q = p ∨ is_Some (home p r !! q)) →
  opt_ok (set_home p m r).
Proof.
  intros [He Hw Hek Hwk Hc] Hm Hkeys. unfold set_home, home in *.
  destruct (isWildcardPattern p) eqn:E; constructor; try done;
    simpl; intros q Hq; destruct (Hkeys q Hq) as [->|?]; auto.
Qed.

Lemma home_set_home p m r q :
  home q (set_home p m r) =
  if decide (isWildcardPattern q = isWildcardPattern p) then m else home q r.
Proof.
  unfold home, set_home. destruct (isWildcardPattern p), (isWildcardPattern q); done.
Qed.

Lemma set_cache_ok r c : opt_ok r → cache_ok c → opt_ok (set_cache c r).
Proof. intros [? ? ? ? _] Hc. by constructor. Qed.

Lemma home_set_cache p c r : home p (set_cache c r) = home p r.
Proof. done. Qed.

Lemma opt_Subscribe_set_home p s r :
  opt_Subscribe p s r =
  set_cache (compilePattern p (compiledPatternCache r)).2
    (set_home p (<[p := sessions_of (home p r) p ++ [s]]> (home p r)) r).
Proof. unfold opt_Subscribe, set_home, home. by destruct (isWildcardPattern p). Qed.

Lemma opt_Subscribe_ok p s r :
  opt_ok r → (p, s) ∉ opt_pairs r →
  opt_ok (opt_Subscribe p s r) ∧ opt_pairs (opt_Subscribe p s r) = {[(p, s)]} ∪ opt_pairs r.
Proof.
  intros Hr Hnew. rewrite opt_pairs_spec in Hnew by done.
  assert (opt_ok (opt_Subscribe p s r)) as Hok.
  { rewrite opt_Subscribe_set_home. apply set_cache_ok; [|by apply compilePattern_ok, opt_cache_ok].
    apply set_home_ok; [done|..].
    - apply map_Forall_insert_2; [|by apply home_ok]. split; [by destruct (sessions_of _ _)|].
      apply NoDup_snoc; [|done]. by apply table_ok_NoDup, home_ok.
    - intros q. rewrite lookup_insert. case_decide; [by left|by right]. }
  split; [done|]. apply opt_pairs_ext; [done|]. intros q x.
  rewrite elem_of_union, elem_of_singleton, opt_pairs_spec, pair_equal_spec by done.
  rewrite opt_Subscribe_set_home, home_set_cache, home_set_home.
  destruct (decide (p = q)) as [->|Hq].
  - rewrite decide_True, sessions_of_insert, decide_True by done.
    rewrite elem_of_app, list_elem_of_singleton. tauto.
  - case_decide as Hw.
    + rewrite sessions_of_insert, decide_False by done. unfold home. rewrite Hw. naive_solver.
    + naive_solver.
Qed.

Lemma opt_Unsubscribe_set_home p s r :
  opt_Unsubscribe p s r =
  match home p r !! p with
  | None => r
  | Some l => set_home p (remove_first (home p r) p s l) r
  end.
Proof. unfold opt_Unsubscribe, set_home, home. by destruct (isWildcardPattern p). Qed.

Lemma remove_first_ok m p s l : table_ok m → m !! p = Some l → table_ok (remove_first m p s l).
Proof.
  intros Hm E q k. rewrite (remove_first_lookup _ _ _ _ _ Hm E).
  destruct (table_ok_lookup _ _ _ Hm E) as [_ Hnd]. case_decide; [|apply Hm].
  unfold nonempty. case_decide; [done|]. intros [= <-]. split; [done|by apply NoDup_without].
Qed.

Lemma default_nonempty l : default [] (nonempty l) = l.
Proof. unfold nonempty. by case_decide. Qed.

Lemma opt_Unsubscribe_ok p s r :
  opt_ok r →
  opt_ok (opt_Unsubscribe p s r) ∧ opt_pairs (opt_Unsubscribe p s r) = opt_pairs r ∖ {[(p, s)]}.
Proof.
  intros Hr. rewrite opt_Unsubscribe_set_home.
  destruct (home p r !! p) as [l|] eqn:E.
  - pose proof (home_ok r p Hr) as Hm.
    assert (opt_ok (set_home p (remove_first (home p r) p s l) r)) as Hok.
    { apply set_home_ok; [done|by apply remove_first_ok|]. intros q.
      rewrite (remove_first_lookup _ _ _ _ _ Hm E). case_decide; [by left|by right]. }
    split; [done|]. apply opt_pairs_ext; [done|]. intros q x.
    rewrite elem_of_difference, elem_of_singleton, opt_pairs_spec, pair_equal_spec by done.
    rewrite home_set_home. destruct (decide (p = q)) as [->|Hq].
    + rewrite decide_True by done. unfold sessions_of.
      rewrite (remove_first_lookup _ _ _ _ _ Hm E), decide_True, default_nonempty, E by done.
      rewrite elem_of_without. simpl. tauto.
    + case_decide as Hw; [|naive_solver].
      unfold sessions_of. rewrite (remove_first_lookup _ _ _ _ _ Hm E), decide_False by done.
      unfold home. rewrite Hw. naive_solver.
  - split; [done|]. symmetry. apply set_eq. intros [q x].
    rewrite elem_of_difference, elem_of_singleton. split; [tauto|]. intros Hx. split; [done|].
    intros [= -> ->]. rewrite opt_pairs_spec in Hx by done. unfold sessions_of in Hx.
    rewrite E in Hx. by apply elem_of_nil in Hx.
Qed.

Lemma opt_RemoveSession_ok o s r :
  opt_ok r →
  opt_ok (opt_RemoveSession o s r) ∧
  opt_pairs (opt_RemoveSession o s r) = filter (λ ps, ps.2 ≠ s) (opt_pairs r).
Proof.
  intros Hr. pose proof Hr as [He Hw Hek Hwk Hc].
  unfold opt_RemoveSession. rewrite <-!remove_from_table_closed by done.
  assert (opt_ok (set_wildcard (subscriptions (RemoveSession o s (mkRouter (wildcardPatterns r))))
           (set_exact (subscriptions (RemoveSession o s (mkRouter (exactMatches r)))) r))) as Hok.
  { constructor; cbn [exactMatches wildcardPatterns compiledPatternCache set_wildcard set_exact];
      [by apply (RemoveSession_ok o s (mkRouter _))..| | |done].
    - intros p Hp. apply Hek. rewrite RemoveSession_closed in Hp. cbn [subscriptions] in Hp.
      rewrite lookup_omap in Hp. by destruct (exactMatches r !! p); [|destruct Hp].
    - intros p Hp. apply Hwk. rewrite RemoveSession_closed in Hp. cbn [subscriptions] in Hp.
      rewrite lookup_omap in Hp. by destruct (wildcardPatterns r !! p); [|destruct Hp]. }
  split; [done|]. apply opt_pairs_ext; [done|]. intros p x.
  rewrite elem_of_filter, opt_pairs_spec by done. unfold home. cbn [exactMatches wildcardPatterns set_wildcard set_exact].
  destruct (isWildcardPattern p); by rewrite RemoveSession_sessions, elem_of_without.
Qed.

(** *** Lookups *)

Definition acc_ok (acc : gset sid * list sid) : Prop := acc.1 = list_to_set acc.2 ∧ NoDup acc.2.

Lemma add_unseen_ok acc l :
  acc_ok acc →
  acc_ok (foldl add_unseen acc l) ∧ ∀ s, s ∈ (foldl add_unseen acc l).2 ↔ s ∈ acc.2 ∨ s ∈ l.
Proof.
  revert acc. induction l as [|x l IH]; intros acc Hacc; cbn [foldl]; [set_solver|].
  destruct Hacc as [Hset Hnd].
  assert (acc_ok (add_unseen acc x) ∧ ∀ s, s ∈ (add_unseen acc x).2 ↔ s ∈ acc.2 ∨ s = x) as [Hok Hel].
  { unfold add_unseen. rewrite Hset. case_decide as Hx; rewrite elem_of_list_to_set in Hx.
    - split; [done|]. intros s. split; [by left|]. by intros [?| ->].
    - split; [split|]; simpl.
      + apply set_eq. intros s. set_solver.
      + by apply NoDup_snoc.
      + intros s. by rewrite elem_of_app, list_elem_of_singleton. }
  destruct (IH _ Hok) as [Hok' Hel']. split; [done|]. intros s. rewrite Hel', Hel, elem_of_cons. tauto.
Qed.

Lemma find_loop_ok subject (L : list (gostring * list sid)) acc cache :
  acc_ok acc → cache_ok cache →
  let '(acc', cache') :=
    foldl (λ '(acc, cache) '(pattern, sessions),
             let '(compiled, cache) := compilePattern pattern cache in
             if matches compiled subject then (foldl add_unseen acc sessions, cache)
             else (acc, cache)) (acc, cache) L in
  acc_ok acc' ∧ cache_ok cache' ∧
  ∀ s, s ∈ acc'.2 ↔ s ∈ acc.2 ∨ ∃ p l, (p, l) ∈ L ∧ matches (compile p) subject = true ∧ s ∈ l.
Proof.
  revert acc cache. induction L as [|[p l] L IH]; intros acc cache Ha Hc; cbn [foldl].
  - split_and!; [done..|]. intros s. split; [by left|].
    intros [?|(? & ? & []%elem_of_nil & _)]. done.
  - destruct (compilePattern_ok p cache Hc) as [Hcp Hc'].
    destruct (compilePattern p cache) as [cp cache1]. cbn [fst snd] in *. subst cp.
    assert (∀ s, (∃ p' l', (p', l') ∈ (p, l) :: L ∧ matches (compile p') subject = true ∧ s ∈ l') ↔
            (matches (compile p) subject = true ∧ s ∈ l) ∨
            ∃ p' l', (p', l') ∈ L ∧ matches (compile p') subject = true ∧ s ∈ l') as Hcons.
    { intros s. setoid_rewrite elem_of_cons. setoid_rewrite pair_equal_spec. split.
      - intros (p' & l' & [[-> ->]|?] & ? & ?); eauto 10.
      - intros [[? ?]|(p' & l' & ? & ? & ?)]; eauto 10. }
    destruct (add_unseen_ok acc l Ha) as [Ha' Hel].
    destruct (matches (compile p) subject) eqn:E.
    + specialize (IH _ _ Ha' Hc'). destruct (foldl _ (_, cache1) L) as [acc' cache'].
      destruct IH as (? & ? & IH). split_and!; [done..|]. intros s. rewrite IH, Hcons, Hel. tauto.
    + specialize (IH _ _ Ha Hc'). destruct (foldl _ (_, cache1) L) as [acc' cache'].
      destruct IH as (? & ? & IH). split_and!; [done..|]. intros s. rewrite IH, Hcons.
      naive_solver.
Qed.

Lemma opt_FindSubscribers_ok o subject r :
  opt_ok r →
  opt_ok (opt_FindSubscribers o subject r).2 ∧
  opt_pairs (opt_FindSubscribers o subject r).2 = opt_pairs r ∧
  NoDup (opt_FindSubscribers o subject r).1 ∧
  ∀ s, s ∈ (opt_FindSubscribers o subject r).1 ↔
       ∃ p, (p, s) ∈ opt_pairs r ∧ opt_match p subject = true.
Proof.
  intros Hr. unfold opt_FindSubscribers. cbv zeta.
  destruct (add_unseen_ok (∅, []) (sessions_of (exactMatches r) subject)) as [Ha Hel].
  { split; [done|constructor]. }
  pose proof (find_loop_ok subject (visit o (map_to_list (wildcardPatterns r))) _
                (compiledPatternCache r) Ha (opt_cache_ok r Hr)) as Hloop.
  destruct (foldl _ _ (visit o _)) as [acc cache]. destruct Hloop as (Hacc & Hc & Hs).
  cbn [fst snd]. split_and!; [by apply set_cache_ok|done|apply Hacc|].
  intros s. rewrite Hs, Hel. cbn [snd]. setoid_rewrite (visit_perm o).
  setoid_rewrite elem_of_map_to_list. setoid_rewrite (opt_pairs_spec r _ s Hr).
  unfold opt_match, home. split.
  - intros [[[]%elem_of_nil|Hx]|(p & l & Hl & Hm & Hx)].
    + exists subject. pose proof (opt_exact_keys r Hr subject (sessions_of_key _ _ _ Hx)) as ->.
      by rewrite bool_decide_true.
    + exists p. pose proof (opt_wild_keys r Hr p (mk_is_Some _ _ Hl)) as ->.
      unfold sessions_of. by rewrite Hl.
  - intros (p & Hx & Hm). destruct (isWildcardPattern p) eqn:E.
    + right. unfold sessions_of in Hx. destruct (wildcardPatterns r !! p) as [l|] eqn:Hl.
      * by exists p, l.
      * by apply elem_of_nil in Hx.
    + left. right. by apply bool_decide_eq_true in Hm as ->.
Qed.

Lemma opt_pairs_size r :
  opt_ok r →
  size (opt_pairs r) = (size (table_pairs (exactMatches r)) + size (table_pairs (wildcardPatterns r)))%nat.
Proof.
  intros Hr. unfold opt_pairs. apply size_union. intros [p s].
  rewrite !table_pairs_spec. intros He%sessions_of_key Hw%sessions_of_key.
  apply (opt_exact_keys r Hr) in He. apply (opt_wild_keys r Hr) in Hw. congruence.
Qed.

Lemma opt_Total_ok o r :
  opt_ok r → opt_GetTotalSubscriptions o r = Z.of_nat (size (opt_pairs r)).
Proof.
  intros Hr. rewrite opt_pairs_size, Nat2Z.inj_add by done. destruct Hr as [He Hw _ _ _].
  unfold opt_GetTotalSubscriptions.
  by rewrite !foldl_sum_lens, !(visit_perm o), !size_table_pairs.
Qed.

(** ** The optimised router implements the interface *)

Lemma NewOptimizedRouter_ok : opt_ok NewOptimizedRouter.
Proof.
  constructor; simpl; try apply map_Forall_empty; intros p; rewrite lookup_empty; by intros [? [=]].
Qed.

#[export] Program Instance OptimizedRouter_laws : SubscriptionStoreLaws OptimizedRouter := {|
  store_ok := opt_ok;
  store_pairs := opt_pairs;
  store_match := opt_match;
|}.
Next Obligation. apply NewOptimizedRouter_ok. Qed.
Next Obligation.
  apply opt_pairs_ext; [apply NewOptimizedRouter_ok|]. intros p s.
  unfold home, sessions_of. simpl. destruct (isWildcardPattern p); set_solver.
Qed.
Next Obligation. intros p s r Hr Hnew. by apply opt_Subscribe_ok. Qed.
Next Obligation. intros p s r Hr. by apply opt_Unsubscribe_ok. Qed.
Next Obligation. intros o s r Hr. by apply opt_RemoveSession_ok. Qed.
Next Obligation. intros o subject r Hr. by apply opt_FindSubscribers_ok. Qed.
Next Obligation. intros o r Hr. by apply opt_Total_ok. Qed.

(** ** Properties *)

Definition opt_run (ops : list router_op) : OptimizedRouter :=
  foldl (λ r op, match op with
                 | OpSubscribe p s => opt_Subscribe p s r
                 | OpUnsubscribe p s => opt_Unsubscribe p s r
                 | OpRemoveSession o s => opt_RemoveSession o s r
                 end) NewOptimizedRouter ops.

(** No pair is subscribed while it is registered, as the server's sessions ensure. *)
Fixpoint no_double (X : gset (gostring * sid)) (ops : list router_op) : Prop :=
  match ops with
  | [] => True
  | OpSubscribe p s :: ops => ((p, s) ∉ X) ∧ no_double ({[(p, s)]} ∪ X) ops
  | OpUnsubscribe p s :: ops => no_double (X ∖ {[(p, s)]}) ops
  | OpRemoveSession _ s :: ops => no_double (filter (λ ps, ps.2 ≠ s) X) ops
  end.

Lemma opt_run_refines_from r ops :
  opt_ok r → no_double (opt_pairs r) ops →
  let r' := foldl (λ r op, match op with
                 | OpSubscribe p s => opt_Subscribe p s r
                 | OpUnsubscribe p s => opt_Unsubscribe p s r
                 | OpRemoveSession o s => opt_RemoveSession o s r
                 end) r ops in
  opt_ok r' ∧
  opt_pairs r' = foldl (λ X op, match op with
                 | OpSubscribe p s => {[(p, s)]} ∪ X
                 | OpUnsubscribe p s => X ∖ {[(p, s)]}
                 | OpRemoveSession _ s => filter (λ ps, ps.2 ≠ s) X
                 end) (opt_pairs r) ops.
Proof.
  revert r. induction ops as [|op ops IH]; intros r Hr Hnd; [done|]. cbn [foldl].
  destruct op as [p s|p s|o s]; cbn [no_double] in Hnd.
  - destruct Hnd as [Hnew Hnd]. destruct (opt_Subscribe_ok p s r Hr Hnew) as [Hok Hp].
    rewrite <-Hp in Hnd. rewrite <-Hp. by apply IH.
  - destruct (opt_Unsubscribe_ok p s r Hr) as [Hok Hp]. rewrite <-Hp in Hnd. rewrite <-Hp. by apply IH.
  - destruct (opt_RemoveSession_ok o s r Hr) as [Hok Hp]. rewrite <-Hp in Hnd. rewrite <-Hp. by apply IH.
Qed.

(** C35: for callers that never subscribe a registered pair again, the optimised router is
    the same set of pairs as the broker's router, whatever the iteration orders and the
    state of the pattern cache; lookup returns each session once, for the literal subjects
    by equality and for the patterns by their compiled form. *)
Theorem OptimizedRouter_refines_pairs ops o subject :
  no_double ∅ ops →
  opt_pairs (opt_run ops) = pairs_run ops ∧
  cache_ok (compiledPatternCache (opt_run ops)) ∧
  NoDup (opt_FindSubscribers o subject (opt_run ops)).1 ∧
  (∀ s, s ∈ (opt_FindSubscribers o subject (opt_run ops)).1 ↔
        ∃ p, (p, s) ∈ pairs_run ops ∧
             (if isWildcardPattern p then matches (compile p) subject = true else p = subject)) ∧
  opt_GetTotalSubscriptions o (opt_run ops) = Z.of_nat (size (pairs_run ops)).
Proof.
  intros Hnd. pose proof (store_new_pairs (R := OptimizedRouter)) as H0. cbn in H0.
  rewrite <-H0 in Hnd. apply opt_run_refines_from in Hnd as [Hok Hp]; [|apply NewOptimizedRouter_ok].
  fold (opt_run ops) in Hok, Hp. rewrite H0 in Hp. fold (pairs_run ops) in Hp.
  destruct (opt_FindSubscribers_ok o subject (opt_run ops) Hok) as (_ & _ & Hnd & Hel).
  rewrite <-Hp. split_and!; [done|by apply opt_cache_ok|done| |by apply opt_Total_ok].
  intros s. rewrite Hel. unfold opt_match.
  assert (∀ p, (if isWildcardPattern p then matches (compile p) subject else bool_decide (p = subject)) = true
    ↔ (if isWildcardPattern p then matches (compile p) subject = true else p = subject)) as Hm.
  { intros p. destruct (isWildcardPattern p); [done|apply bool_decide_eq_true]. }
  by setoid_rewrite Hm.
Qed.

Lemma OptimizedRouter_refines_pairs_witness :
  let ops := [OpSubscribe (str "foo.*") 1; OpSubscribe (str "foo.bar") 2; OpRemoveSession in_order 1] in
  no_double ∅ ops ∧
  opt_pairs (opt_run ops) = pairs_run ops.
Proof.
  intros ops. assert (no_double ∅ ops) as H by (vm_compute; intuition discriminate).
  split; [exact H|]. apply (OptimizedRouter_refines_pairs ops in_order (str "foo.bar") H).
Defined.

(** The state after one, and after two, subscriptions of the same pair. *)
Definition single (p : gostring) (l : list sid) : OptimizedRouter :=
  set_cache {[p := compile p]} (set_home p {[p := l]} NewOptimizedRouter).

Lemma opt_Subscribe_once p s : opt_Subscribe p s NewOptimizedRouter = single p [s].
Proof.
  rewrite opt_Subscribe_set_home. unfold single, home, sessions_of.
  destruct (isWildcardPattern p); done.
Qed.

Lemma home_single p l : home p (single p l) = {[p := l]}.
Proof. unfold single. by rewrite home_set_cache, home_set_home, decide_True. Qed.

Lemma opt_Subscribe_twice p s : opt_Subscribe p s (single p [s]) = single p [s; s].
Proof.
  rewrite opt_Subscribe_set_home, home_single. unfold compilePattern. simpl.
  unfold sessions_of. rewrite !lookup_singleton_eq. simpl. rewrite insert_singleton_eq.
  unfold single, set_home. by destruct (isWildcardPattern p).
Qed.

Lemma remove_first_twice (p : gostring) (s : sid) :
  remove_first {[p := [s; s]]} p s [s; s] = {[p := [s]]}.
Proof.
  unfold remove_first. simpl. rewrite decide_True by done. simpl.
  apply map_eq. intros q. rewrite set_or_delete_lookup. destruct (decide (p = q)) as [->|Hq].
  - by rewrite lookup_singleton_eq.
  - by rewrite !lookup_singleton_ne.
Qed.

Lemma remove_from_twice o (p : gostring) (s : sid) :
  remove_from_table o s {[p := [s; s]]} = {[p := [s]]}.
Proof.
  unfold remove_from_table. rewrite map_to_list_singleton.
  assert (visit o [(p, [s; s])] = [(p, [s; s])]) as -> by (apply Permutation_singleton_r, visit_perm).
  apply remove_first_twice.
Qed.

Lemma remove_from_empty o s : remove_from_table o s ∅ = ∅.
Proof.
  unfold remove_from_table. rewrite map_to_list_empty.
  assert (visit o ([] : list (gostring * list sid)) = []) as -> by (apply Permutation_nil_r, visit_perm).
  done.
Qed.

Lemma opt_RemoveSession_twice o p s : opt_RemoveSession o s (single p [s; s]) = single p [s].
Proof.
  unfold opt_RemoveSession, single, set_home.
  destruct (isWildcardPattern p); cbn [exactMatches wildcardPatterns set_cache set_wildcard set_exact
    NewOptimizedRouter]; by rewrite remove_from_twice, remove_from_empty.
Qed.

Lemma opt_Unsubscribe_twice p s : opt_Unsubscribe p s (single p [s; s]) = single p [s].
Proof.
  rewrite opt_Unsubscribe_set_home, home_single, lookup_singleton_eq, remove_first_twice.
  unfold single, set_home. by destruct (isWildcardPattern p).
Qed.

(** Without that discipline the optimised router is wrong: it does not look for an
    existing entry, and removing a session drops only its first entry, so a session that
    subscribed a pattern twice is still returned for every matching subject after
    [RemoveSession] (and after one [Unsubscribe]). *)
Theorem double_subscribe_survives_removal p s o o' subject :
  opt_match p subject = true →
  let r := opt_Subscribe p s (opt_Subscribe p s NewOptimizedRouter) in
  s ∈ (opt_FindSubscribers o subject (opt_RemoveSession o' s r)).1 ∧
  s ∈ (opt_FindSubscribers o subject (opt_Unsubscribe p s r)).1.
Proof.
  intros Hm r. unfold r. rewrite opt_Subscribe_once, opt_Subscribe_twice.
  rewrite opt_RemoveSession_twice, opt_Unsubscribe_twice.
  assert (s ∈ (opt_FindSubscribers o subject (single p [s])).1) as Hs; [|done].
  rewrite <-opt_Subscribe_once.
  destruct (opt_Subscribe_ok p s NewOptimizedRouter) as [Hok Hp].
  - apply NewOptimizedRouter_ok.
  - rewrite opt_pairs_spec by apply NewOptimizedRouter_ok. unfold home, sessions_of.
    destruct (isWildcardPattern p); apply not_elem_of_nil.
  - apply opt_FindSubscribers_ok; [done|]. exists p. rewrite Hp. set_solver.
Qed.

Lemma double_subscribe_survives_removal_witness :
  let r := opt_Subscribe (str "a.*") 7 (opt_Subscribe (str "a.*") 7 NewOptimizedRouter) in
  7%nat ∈ (opt_FindSubscribers in_order (str "a.b") (opt_RemoveSession reversed 7 r)).1 ∧
  7%nat ∈ (opt_FindSubscribers in_order (str "a.b") (opt_Unsubscribe (str "a.*") 7 r)).1.
Proof. apply double_subscribe_survives_removal. reflexivity. Defined.
