(* ===== verification/Session.v ===== *)
(** * One session of the broker ([src/server/session.go])

    The session's own state and the operations that touch nothing else: construction, the
    bounded output queue with its byte accounting, the typed senders, and the UTF-8-aware
    truncation of response texts. *)

From S2P Require Import Prelude GoStrings GoIO Protocol.

(** ** State *)

(** Where the goroutine of [Session.Start] stands: at the top of its loop, holding a parsed
    message, or returned. *)
Inductive reader_pc := AtTop | Holding (msg : Message) | Returned.

Record Session := mkSession {
  conn_input : reader;             (** what reading from [conn] will deliver *)
  conn_sent : list (list byte);    (** what has been written to [conn] *)
  conn_closed : bool;
  subjects : list gostring;
  lastPing : Z;
  outChan : list (list byte);      (** buffered channel of capacity [outCap] *)
  outCap : Z;
  queuedBytes : Z;                 (** [atomic.Int64] *)
  maxQueuedBytes : Z;
  writeTimeout : Z;
  done : bool;                     (** [close(s.done)] has happened *)
  closed : bool;
  closeOnce : bool;                (** the [sync.Once] has fired *)
  pc : reader_pc;
}.

Definition set_subjects (l : list gostring) (s : Session) : Session :=
  mkSession (conn_input s) (conn_sent s) (conn_closed s) l (lastPing s) (outChan s) (outCap s)
    (queuedBytes s) (maxQueuedBytes s) (writeTimeout s) (done s) (closed s) (closeOnce s) (pc s).
Definition set_queue (q : list (list byte)) (n : Z) (s : Session) : Session :=
  mkSession (conn_input s) (conn_sent s) (conn_closed s) (subjects s) (lastPing s) q (outCap s)
    n (maxQueuedBytes s) (writeTimeout s) (done s) (closed s) (closeOnce s) (pc s).
Definition set_lastPing (t : Z) (s : Session) : Session :=
  mkSession (conn_input s) (conn_sent s) (conn_closed s) (subjects s) t (outChan s) (outCap s)
    (queuedBytes s) (maxQueuedBytes s) (writeTimeout s) (done s) (closed s) (closeOnce s) (pc s).
Definition set_input (r : reader) (p : reader_pc) (s : Session) : Session :=
  mkSession r (conn_sent s) (conn_closed s) (subjects s) (lastPing s) (outChan s) (outCap s)
    (queuedBytes s) (maxQueuedBytes s) (writeTimeout s) (done s) (closed s) (closeOnce s) p.
Definition set_pc (p : reader_pc) (s : Session) : Session := set_input (conn_input s) p s.
Definition set_sent (l : list (list byte)) (s : Session) : Session :=
  mkSession (conn_input s) l (conn_closed s) (subjects s) (lastPing s) (outChan s) (outCap s)
    (queuedBytes s) (maxQueuedBytes s) (writeTimeout s) (done s) (closed s) (closeOnce s) (pc s).
(** [closeOnce] fires: [closed.Store(true); close(done)]. *)
Definition set_closed (s : Session) : Session :=
  mkSession (conn_input s) (conn_sent s) (conn_closed s) (subjects s) (lastPing s) (outChan s)
    (outCap s) (queuedBytes s) (maxQueuedBytes s) (writeTimeout s) true true true (pc s).
Definition set_conn_closed (s : Session) : Session :=
  mkSession (conn_input s) (conn_sent s) true (subjects s) (lastPing s) (outChan s)
    (outCap s) (queuedBytes s) (maxQueuedBytes s) (writeTimeout s) (done s) (closed s)
    (closeOnce s) (pc s).

(** ** Construction *)

Definition second : Z := 1000000000.

(** [NewSession] on a connection that will deliver [input]; the three limits come from the
    server's configuration when positive. *)
Definition NewSession (input : reader) (now sessionOutChanCap maxSessionQueuedBytes
    sessionWriteTimeout : Z) : Session :=
  let outCap := 1024%Z in
  let maxQueued := (32 * 1024 * 1024)%Z in
  let timeout := (5 * second)%Z in
  let outCap := if (0 <? sessionOutChanCap)%Z then sessionOutChanCap else outCap in
  let maxQueued := if (0 <? maxSessionQueuedBytes)%Z then maxSessionQueuedBytes else maxQueued in
  let timeout := if (0 <? sessionWriteTimeout)%Z then sessionWriteTimeout else timeout in
  {| conn_input := input; conn_sent := []; conn_closed := false; subjects := [];
     lastPing := now; outChan := []; outCap := outCap; queuedBytes := 0;
     maxQueuedBytes := maxQueued; writeTimeout := timeout; done := false; closed := false;
     closeOnce := false; pc := AtTop |}.

(** ** Truncation of response texts *)

(** The loop of [truncateUTF8], from the prefix of length [k]: drop the last byte while the
    prefix is not valid UTF-8 and not empty. *)
Fixpoint trim_invalid (s : gostring) (k : nat) : gostring :=
  let out := take k s in
  if negb (ValidString out) && (0 <? len out)%Z
  then match k with S k => trim_invalid s k | O => out end
  else out.

Definition truncateUTF8 (s : gostring) (maxBytes : Z) : gostring :=
  if (len s <=? maxBytes)%Z then s
  else
    let out := trim_invalid s (Z.to_nat maxBytes) in
    if (len out =? 0)%Z then [] else out.

(** ** The output queue *)

Inductive send_error :=
| ErrSessionClosed
| ErrSubjectTooLong (n : Z)
| ErrMessageTooLarge
| ErrEncodedTooLarge
| ErrBackpressure
| ErrQueueFull.

#[global] Instance send_error_eq_dec : EqDecision send_error.
Proof. solve_decision. Defined.

(** The result of a send: the error, the session afterwards, and whether [go s.Close()] was
    started. *)
Record sent := mkSent { sent_err : option send_error; sent_session : Session; sent_close : bool }.

Definition refuse (e : send_error) (s : Session) : sent := mkSent (Some e) s false.

(** [enqueueEncoded], run without interference: the compare-and-swap then succeeds the first
    time (the interleaved loop is in [SendQueue]). *)
Definition enqueueEncoded (encoded : list byte) (s : Session) : sent :=
  if closed s then refuse ErrSessionClosed s
  else
    let n := len encoded in
    let current := queuedBytes s in
    let next := int64 (current + n) in
    if (0 <? maxQueuedBytes s)%Z && (maxQueuedBytes s <? next)%Z
    then mkSent (Some ErrBackpressure) s true
    else
      let s := set_queue (outChan s) next s in
      if (len (outChan s) <? outCap s)%Z
      then mkSent None (set_queue (outChan s ++ [encoded]) (queuedBytes s) s) false
      else mkSent (Some ErrQueueFull)
             (set_queue (outChan s) (int64 (queuedBytes s + int64 (- n))) s) true.

Definition SendMessage (subject : gostring) (payload : list byte) (s : Session) : sent :=
  if closed s then refuse ErrSessionClosed s
  else if (MaxSubjectLen <? len subject)%Z then refuse (ErrSubjectTooLong (len subject)) s
  else if (MaxBodyLen <? 1 + 2 + len subject + len payload)%Z then refuse ErrMessageTooLarge s
  else enqueueEncoded (Encode (NewMessageCmd CmdMsg subject payload)) s.

Definition SendEncoded (encoded : list byte) (s : Session) : sent :=
  if closed s then refuse ErrSessionClosed s
  else if (MaxBodyLen + 4 <? len encoded)%Z then refuse ErrEncodedTooLarge s
  else enqueueEncoded encoded s.

Definition SendOK (text : gostring) (s : Session) : sent :=
  if closed s then refuse ErrSessionClosed s
  else enqueueEncoded (Encode (NewMessageCmd CmdOk (truncateUTF8 text MaxSubjectLen) [])) s.

Definition SendError (text : gostring) (s : Session) : sent :=
  if closed s then refuse ErrSessionClosed s
  else enqueueEncoded (Encode (NewMessageCmd CmdErr (truncateUTF8 text MaxSubjectLen) [])) s.

Definition SendPong (s : Session) : sent :=
  if closed s then refuse ErrSessionClosed s
  else enqueueEncoded (Encode (NewMessageCmd CmdPong [] [])) s.

(** The receive of the write loop: [data := <-s.outChan; s.queuedBytes.Add(-len(data))]. *)
Definition dequeue (s : Session) : option (list byte * Session) :=
  match outChan s with
  | [] => None
  | data :: rest => Some (data, set_queue rest (int64 (queuedBytes s + int64 (- len data))) s)
  end.

(** [GetSubjects] returns a copy. *)
Definition GetSubjects (s : Session) : list gostring := subjects s.

(** The scenario of [TestSessionBackpressureCloses]. *)
Definition test_frame : list byte := Encode (NewMessageCmd CmdMsg (str "a") (replicate 900 Byte.x00)).
Example backpressure_second :
  let s := NewSession [] 0 1 1024 (10 * second) in
  sent_err (SendEncoded test_frame s) = None ∧
  sent_err (SendEncoded test_frame (sent_session (SendEncoded test_frame s))) = Some ErrBackpressure.
Proof. by vm_compute. Qed.

(** ** Invariant of the queue *)

(** The byte counter is the total size of the queued frames, within the limits. *)
Record queue_ok (s : Session) : Prop := {
  queue_bytes : queuedBytes s = total_len (outChan s);
  queue_cap : (len (outChan s) <= outCap s)%Z;
  queue_limit : (0 < maxQueuedBytes s)%Z → (queuedBytes s <= maxQueuedBytes s)%Z;
  queue_width : (queuedBytes s <= 2 ^ 62)%Z ∧ (maxQueuedBytes s <= 2 ^ 62)%Z;
  queue_positive : (0 < maxQueuedBytes s)%Z;
}.

Lemma NewSession_queue_ok input now c m t :
  (m <= 2 ^ 62)%Z → queue_ok (NewSession input now c m t).
Proof.
  intros Hm. unfold NewSession. constructor; simpl;
    repeat match goal with |- context [(0 <? ?x)%Z] => destruct (Z.ltb_spec 0 x) end;
    unfold len; simpl; lia.
Qed.

Lemma int64_add_sub q n :
  (0 <= n <= q)%Z → (q <= 2 ^ 63 - 1)%Z → int64 (q + int64 (- n)) = (q - n)%Z.
Proof. intros. rewrite (int64_small (- n)), int64_small by lia. lia. Qed.

(** What [enqueueEncoded] does in a well-formed session, branch by branch; the counter
    never wraps. *)
Lemma enqueueEncoded_cases encoded s :
  queue_ok s → (len encoded < 2 ^ 62)%Z →
  enqueueEncoded encoded s =
    if closed s then refuse ErrSessionClosed s
    else if (maxQueuedBytes s <? queuedBytes s + len encoded)%Z
    then mkSent (Some ErrBackpressure) s true
    else if (len (outChan s) <? outCap s)%Z
    then mkSent None (set_queue (outChan s ++ [encoded]) (queuedBytes s + len encoded) s) false
    else mkSent (Some ErrQueueFull) s true.
Proof.
  intros [Hb Hc Hl [Hw1 Hw2] Hp] Hn. unfold enqueueEncoded. destruct (closed s) eqn:Ecl; [done|].
  pose proof (len_nonneg encoded). pose proof (total_len_nonneg (outChan s)).
  rewrite int64_small by lia. rewrite (proj2 (Z.ltb_lt 0 _)) by done. cbn [andb].
  destruct (Z.ltb_spec (maxQueuedBytes s) (queuedBytes s + len encoded)); [done|]. simpl.
  destruct (len (outChan s) <? outCap s)%Z; [done|].
  rewrite int64_add_sub by lia. f_equal. destruct s; unfold set_queue; simpl. f_equal. lia.
Qed.

Lemma enqueueEncoded_ok encoded s :
  queue_ok s → (len encoded < 2 ^ 62)%Z → queue_ok (sent_session (enqueueEncoded encoded s)).
Proof.
  intros Hs Hn. rewrite enqueueEncoded_cases by done. pose proof Hs as [Hb Hc Hl [Hw1 Hw2] Hp].
  destruct (closed s); [done|]. destruct (Z.ltb_spec (maxQueuedBytes s) (queuedBytes s + len encoded)); [done|].
  destruct (Z.ltb_spec (len (outChan s)) (outCap s)); [|done].
  constructor; simpl; rewrite ?total_len_app; simpl; [lia|len_lia|lia..].
Qed.

Lemma dequeue_ok s data s' : queue_ok s → dequeue s = Some (data, s') → queue_ok s'.
Proof.
  intros [Hb Hc Hl [Hw1 Hw2] Hp]. unfold dequeue. destruct (outChan s) as [|d q] eqn:E; [done|].
  intros [= -> <-]. simpl in Hb. pose proof (len_nonneg data). pose proof (total_len_nonneg q).
  constructor; simpl; rewrite ?int64_add_sub by lia; len_simpl; lia.
Qed.

(** ** Truncation *)

Lemma trim_invalid_spec s k :
  (k <= length s)%nat →
  ∃ j, (j <= k)%nat ∧ trim_invalid s k = take j s ∧ ValidString (take j s) = true ∧
    ∀ i, (j < i <= k)%nat → ValidString (take i s) = false.
Proof.
  induction k as [|k IH]; intros Hk; cbn [trim_invalid].
  - exists 0%nat. rewrite take_0. cbn. split_and!; [done..|lia].
  - destruct (ValidString (take (S k) s)) eqn:E; cbn [negb andb].
    + exists (S k). split_and!; [lia|done|done|lia].
    + rewrite (proj2 (Z.ltb_lt 0 _)) by (rewrite len_take; unfold len; lia).
      destruct IH as (j & Hj & -> & Hv & Hmax); [lia|].
      exists j. split_and!; [lia|done|done|]. intros i Hi.
      destruct (decide (i = S k)) as [->|]; [done|]. apply Hmax. lia.
Qed.

(** A valid string has a code-point boundary within three bytes below any position. *)
Lemma boundary_near cs n :
  Forall (λ c, rune_ok c = true) cs → (n <= length (concat cs))%nat →
  ∃ j, (j <= n <= j + 3)%nat ∧ ValidString (take j (concat cs)) = true.
Proof.
  intros Hcs. revert n. induction Hcs as [|c cs Hc Hcs IH]; intros n Hn; simpl in Hn.
  - exists 0%nat. split; [lia|done].
  - rewrite length_app in Hn. pose proof (rune_ok_length c Hc) as Hlen.
    destruct (decide (n < length c)%nat) as [Hlt|Hge].
    + exists 0%nat. split; [lia|done].
    + destruct (IH (n - length c)%nat) as (j & Hj & Hv); [lia|].
      exists (length c + j)%nat. split; [lia|]. simpl. rewrite take_app_add.
      apply ValidString_app; [|done]. apply ValidString_spec. exists [c].
      split; [by repeat constructor|]. simpl. by rewrite app_nil_r.
Qed.

Lemma truncateUTF8_len s n : (0 <= n)%Z → (len (truncateUTF8 s n) <= n)%Z.
Proof.
  intros Hn. unfold truncateUTF8. destruct (Z.leb_spec (len s) n) as [|Hlt]; [done|].
  destruct (trim_invalid_spec s (Z.to_nat n)) as (j & Hj & -> & _); [unfold len in Hlt; lia|].
  destruct (_ =? 0)%Z; rewrite ?len_take; len_lia.
Qed.

(** [truncateUTF8] leaves a string that fits alone; a longer one is cut to its longest
    prefix within the limit that is valid UTF-8, and when the string itself is valid at
    most three bytes below the limit are lost. The loop always ends. *)
Theorem truncateUTF8_spec s n :
  (0 <= n)%Z →
  ((len s <= n)%Z → truncateUTF8 s n = s) ∧
  ((n < len s)%Z →
   truncateUTF8 s n `prefix_of` s ∧ (len (truncateUTF8 s n) <= n)%Z ∧
   ValidString (truncateUTF8 s n) = true ∧
   (∀ p, p `prefix_of` s → (len p <= n)%Z → ValidString p = true →
      (len p <= len (truncateUTF8 s n))%Z) ∧
   (ValidString s = true → (n - 3 <= len (truncateUTF8 s n))%Z)).
Proof.
  intros Hn. unfold truncateUTF8. destruct (Z.leb_spec (len s) n) as [|Hlt]; split; try done; try lia.
  intros _. unfold len in Hlt.
  destruct (trim_invalid_spec s (Z.to_nat n)) as (j & Hj & -> & Hv & Hmax); [lia|].
  assert ((if (len (take j s) =? 0)%Z then [] else take j s) = take j s) as ->.
  { destruct (Z.eqb_spec (len (take j s)) 0) as [E|]; [|done]. by rewrite (len_zero_nil _ E). }
  assert (∀ i, (i <= Z.to_nat n)%nat → ValidString (take i s) = true → (i <= j)%nat) as Hbest.
  { intros i Hi Hvi. destruct (decide (i <= j)%nat); [done|].
    rewrite Hmax in Hvi by lia. done. }
  unfold len. rewrite length_take. split_and!.
  - apply prefix_take.
  - lia.
  - done.
  - intros p [t ->] Hp Hvp. rewrite length_app in Hlt |- *. specialize (Hbest (length p)).
    rewrite take_app_length in Hbest. specialize (Hbest ltac:(lia) Hvp). lia.
  - intros (cs & Hcs & ->)%ValidString_spec.
    destruct (boundary_near cs (Z.to_nat n)) as (i & Hi & Hvi); [done|lia|].
    specialize (Hbest i ltac:(lia) Hvi). lia.
Qed.

Lemma truncateUTF8_spec_witness :
  (0 <= 5)%Z ∧ truncateUTF8 (str "日本") 5 = str "日".
Proof.
  split; [lia|]. destruct (truncateUTF8_spec (str "日本") 5) as [_ H]; [lia|].
  destruct H as [_ _]; reflexivity.
Defined.

(** ** Frames *)

(** A frame that the peer's parser accepts. *)
Definition good_frame (bs : list byte) : Prop := ∃ m, wire_ok m ∧ bs = Encode m.

Lemma good_frame_len bs : good_frame bs → (len bs <= MaxBodyLen + 4)%Z.
Proof. intros (m & Hm & ->). rewrite Encode_length. apply wire_ok_ranges in Hm. lia. Qed.

Lemma good_frame_width bs : good_frame bs → (len bs < 2 ^ 62)%Z.
Proof. intros H%good_frame_len. unfold MaxBodyLen in H. lia. Qed.

Lemma response_frame c text : good_frame (Encode (NewMessageCmd c (truncateUTF8 text MaxSubjectLen) [])).
Proof.
  eexists. split; [|done]. unfold wire_ok, body_len. cbn [Subject Payload NewMessageCmd].
  pose proof (truncateUTF8_len text MaxSubjectLen ltac:(done)). rewrite len_nil.
  unfold MaxSubjectLen, MaxBodyLen in *. lia.
Qed.

Lemma pong_frame : good_frame (Encode (NewMessageCmd CmdPong [] [])).
Proof. eexists. split; [|done]. split; vm_compute; discriminate. Qed.

(** Replacing the command of a message that came off the wire keeps it well-sized. *)
Lemma relay_frame m : wire_ok m → good_frame (Encode (NewMessageCmd CmdMsg (Subject m) (Payload m))).
Proof. intros Hm. by exists (NewMessageCmd CmdMsg (Subject m) (Payload m)). Qed.
