(* ===== verification/SendQueue.v ===== *)
(** * The output queue under interleaving ([Session.enqueueEncoded] and the write loop)

    [Session.enqueueEncoded] is called by many goroutines at once (every publisher whose
    message the session receives), against the session's write loop. Here each atomic
    access of the source is one step: the load of [closed], the load of [queuedBytes], the
    compare-and-swap, the non-blocking send on the buffered channel, the roll-back, and on
    the other side the receive, the subtraction and the write. *)

From S2P Require Import Prelude GoStrings GoIO Protocol Session.

(** ** Program counters *)

(** A call of [enqueueEncoded]. *)
Inductive producer :=
| PStart (encoded : list byte)
| PLoad (encoded : list byte)
| PCas (encoded : list byte) (current next : Z)
| PSend (encoded : list byte)
| PUndo (encoded : list byte)
| PDone (result : option send_error).

(** The write loop: waiting, holding a frame just received, about to write it, returned
    (with the frame whose write failed, if any). *)
Inductive writer :=
| WIdle
| WTaken (data : list byte)
| WReady (data : list byte)
| WStopped (data : option (list byte)).

(** One atomic access of a producer: its next state, the session, and whether it started
    [go s.Close()]. *)
Definition producer_step (p : producer) (s : Session) : producer * Session * bool :=
  match p with
  | PStart encoded =>
      if closed s then (PDone (Some ErrSessionClosed), s, false) else (PLoad encoded, s, false)
  | PLoad encoded =>
      let n := len encoded in
      let current := queuedBytes s in
      let next := int64 (current + n) in
      if (0 <? maxQueuedBytes s)%Z && (maxQueuedBytes s <? next)%Z
      then (PDone (Some ErrBackpressure), s, true)
      else (PCas encoded current next, s, false)
  | PCas encoded current next =>
      if (queuedBytes s =? current)%Z
      then (PSend encoded, set_queue (outChan s) next s, false)
      else (PLoad encoded, s, false)
  | PSend encoded =>
      if (len (outChan s) <? outCap s)%Z
      then (PDone None, set_queue (outChan s ++ [encoded]) (queuedBytes s) s, false)
      else (PUndo encoded, s, false)
  | PUndo encoded =>
      (PDone (Some ErrQueueFull),
       set_queue (outChan s) (int64 (queuedBytes s + int64 (- len encoded))) s, true)
  | PDone r => (PDone r, s, false)
  end.

(** One step of the write loop; [ok] is the outcome of [conn.Write], [pick_done] the choice
    of [select] when [done] is closed and a frame is available. *)
Definition writer_step (pick_done ok : bool) (c : writer) (s : Session) : writer * Session * bool :=
  match c with
  | WIdle =>
      if done s && (pick_done || bool_decide (outChan s = [])) then (WStopped None, s, false)
      else match outChan s with
           | [] => (WIdle, s, false)
           | data :: rest => (WTaken data, set_queue rest (queuedBytes s) s, false)
           end
  | WTaken data =>
      (WReady data, set_queue (outChan s) (int64 (queuedBytes s + int64 (- len data))) s, false)
  | WReady data =>
      if ok then (WIdle, set_sent (conn_sent s ++ [data]) s, false)
      else (WStopped (Some data), s, true)
  | WStopped d => (WStopped d, s, false)
  end.

(** ** The machine *)

(** The log of the frames accepted so far is kept beside the program's state. *)
Record machine := mkMachine {
  shared : Session;
  producers : list producer;
  consumer : writer;
  accepted : list (list byte);
}.

(** The frame a producer's step pushes on the channel. *)
Definition pushed (p : producer) (s : Session) : list (list byte) :=
  match p with
  | PSend encoded => if (len (outChan s) <? outCap s)%Z then [encoded] else []
  | _ => []
  end.

Inductive machine_step : machine → machine → Prop :=
| ms_call encoded m :
    (len encoded < 2 ^ 62)%Z →
    machine_step m (mkMachine (shared m) (producers m ++ [PStart encoded]) (consumer m) (accepted m))
| ms_producer i p m p' s' c :
    producers m !! i = Some p → producer_step p (shared m) = (p', s', c) →
    machine_step m (mkMachine s' (<[i := p']> (producers m)) (consumer m)
                      (accepted m ++ pushed p (shared m)))
| ms_writer pick_done ok m w' s' c :
    writer_step pick_done ok (consumer m) (shared m) = (w', s', c) →
    machine_step m (mkMachine s' (producers m) w' (accepted m))
| ms_close m :
    machine_step m (mkMachine (set_closed (shared m)) (producers m) (consumer m) (accepted m)).

(** A fresh session without callers. *)
Definition fresh_machine (input : reader) (now c maxq t : Z) : machine :=
  mkMachine (NewSession input now c maxq t) [] WIdle [].

(** ** Invariant *)

(** Bytes reserved in the counter by a producer between its compare-and-swap and the end
    of its call; bytes of a frame received but not yet subtracted. *)
Definition reserved (p : producer) : Z :=
  match p with PSend e | PUndo e => len e | _ => 0 end.
Definition owed (c : writer) : Z := match c with WTaken d => len d | _ => 0 end.
Definition total_reserved (ps : list producer) : Z := foldr (λ p acc, (reserved p + acc)%Z) 0%Z ps.

(** Frames received and not yet written. *)
Definition in_flight (c : writer) : list (list byte) :=
  match c with
  | WTaken d | WReady d | WStopped (Some d) => [d]
  | WIdle | WStopped None => []
  end.

Definition producer_ok (maxq : Z) (p : producer) : Prop :=
  match p with
  | PStart e | PLoad e | PSend e | PUndo e => (len e < 2 ^ 62)%Z
  | PCas e current next => (len e < 2 ^ 62)%Z ∧ next = (current + len e)%Z ∧ (next <= maxq)%Z
  | PDone _ => True
  end.

(** The counter is the size of the queue and of what is [pending]: reserved by senders or not
    yet subtracted by the write loop. *)
Record accounted (s : Session) (pending : Z) : Prop := {
  ac_bytes : queuedBytes s = (total_len (outChan s) + pending)%Z;
  ac_limit : (0 < maxQueuedBytes s <= 2 ^ 62)%Z;
  ac_max : (queuedBytes s <= maxQueuedBytes s)%Z;
  ac_cap : (len (outChan s) <= outCap s)%Z;
}.

Record machine_ok (m : machine) : Prop := {
  mo_queue : accounted (shared m) (total_reserved (producers m) + owed (consumer m));
  mo_producers : Forall (producer_ok (maxQueuedBytes (shared m))) (producers m);
  mo_log : accepted m =
    conn_sent (shared m) ++ in_flight (consumer m) ++ outChan (shared m);
}.

Lemma reserved_nonneg p : (0 <= reserved p)%Z.
Proof. destruct p; simpl; len_lia. Qed.
Lemma owed_nonneg c : (0 <= owed c)%Z.
Proof. destruct c; simpl; len_lia. Qed.
Lemma total_reserved_nonneg ps : (0 <= total_reserved ps)%Z.
Proof. induction ps as [|p ps IH]; simpl; [lia|]. pose proof (reserved_nonneg p). lia. Qed.
Lemma total_reserved_app ps qs : total_reserved (ps ++ qs) = (total_reserved ps + total_reserved qs)%Z.
Proof. induction ps as [|p ps IH]; simpl; lia. Qed.

Lemma total_reserved_insert ps i p p' :
  ps !! i = Some p →
  total_reserved (<[i := p']> ps) = (total_reserved ps - reserved p + reserved p')%Z.
Proof.
  revert i. induction ps as [|q ps IH]; intros [|i]; simpl; [done..| |].
  - intros [= ->]. lia.
  - intros Hi. rewrite (IH i Hi). lia.
Qed.

Lemma total_reserved_lookup ps i p : ps !! i = Some p → (reserved p <= total_reserved ps)%Z.
Proof.
  intros Hi. pose proof (total_reserved_insert ps i p (PDone None) Hi) as E. simpl in E.
  pose proof (total_reserved_nonneg (<[i := PDone None]> ps)). lia.
Qed.

Lemma accounted_new input now c maxq t : (maxq <= 2 ^ 62)%Z → accounted (NewSession input now c maxq t) 0.
Proof.
  intros Hm. destruct (NewSession_queue_ok input now c maxq t Hm) as [Hb Hc Hl [_ Hw] Hp].
  constructor; try done. by apply Hl.
Qed.

(** An access of a sender, when [rest] bytes are pending for others. *)
Lemma producer_accounted p s p' s' c rest :
  producer_step p s = (p', s', c) → (0 <= rest)%Z →
  accounted s (reserved p + rest) → producer_ok (maxQueuedBytes s) p →
  accounted s' (reserved p' + rest) ∧ producer_ok (maxQueuedBytes s') p' ∧
  maxQueuedBytes s' = maxQueuedBytes s ∧ conn_sent s' = conn_sent s ∧ outChan s' = outChan s ++ pushed p s.
Proof.
  intros Hstep Hrest [Hb Hl Hmax Hcap] Hp. pose proof (total_len_nonneg (outChan s)) as Htl.
  destruct p as [e|e|e cur next|e|e|r]; cbn [producer_step pushed reserved producer_ok] in *;
    try (pose proof (len_nonneg e)); rewrite ?app_nil_r.
  - destruct (closed s); simplify_eq; split_and!; try done; constructor; simpl; try done; lia.
  - destruct (_ && _) eqn:E; simplify_eq; split_and!; try done; try (constructor; simpl; try done; lia).
    rewrite int64_small in * by lia. apply andb_false_iff in E as [E%Z.ltb_ge|E%Z.ltb_ge]; simpl; lia.
  - destruct Hp as (He & Hn & Hnm).
    destruct (Z.eqb_spec (queuedBytes s) cur) as [Hq|Hq]; simplify_eq;
      split_and!; try done; constructor; simpl; try done; lia.
  - destruct (Z.ltb_spec (len (outChan s)) (outCap s)); simplify_eq;
      rewrite ?app_nil_r; split_and!; try done; constructor; simpl; rewrite ?total_len_app; simpl; try done; len_lia.
  - simplify_eq. split_and!; try done. constructor; simpl; rewrite ?int64_add_sub by lia; try done; lia.
  - simplify_eq. split_and!; try done.
Qed.

(** The receive, and the subtraction, of the write loop. *)
Lemma receive_accounted s (data : list byte) q rest :
  outChan s = data :: q → accounted s rest → accounted (set_queue q (queuedBytes s) s) (len data + rest).
Proof. intros E [Hb Hl Hmax Hcap]. rewrite E in *. constructor; simpl in *; try done; len_lia. Qed.
Lemma release_accounted s (data : list byte) rest :
  (0 <= rest)%Z → accounted s (len data + rest) →
  accounted (set_queue (outChan s) (int64 (queuedBytes s + int64 (- len data))) s) rest.
Proof.
  intros Hrest [Hb Hl Hmax Hcap]. pose proof (total_len_nonneg (outChan s)). pose proof (len_nonneg data).
  constructor; simpl; rewrite ?int64_add_sub by lia; try done; lia.
Qed.

Lemma fresh_machine_ok input now c maxq t :
  (maxq <= 2 ^ 62)%Z → machine_ok (fresh_machine input now c maxq t).
Proof. intros Hm. constructor; try done. by apply accounted_new. Qed.

Lemma machine_ok_producer m i p p' s' c :
  machine_ok m → producers m !! i = Some p → producer_step p (shared m) = (p', s', c) →
  machine_ok (mkMachine s' (<[i := p']> (producers m)) (consumer m) (accepted m ++ pushed p (shared m))).
Proof.
  intros [Hq Hps Hlog] Hi Hstep. pose proof (Forall_lookup_1 _ _ _ _ Hps Hi) as Hp.
  pose proof (total_reserved_lookup _ _ _ Hi) as Hri. pose proof (owed_nonneg (consumer m)).
  set (rest := (total_reserved (producers m) - reserved p + owed (consumer m))%Z).
  destruct (producer_accounted p (shared m) p' s' c rest Hstep) as (Hq' & Hp' & Emax & Esent & Eout);
    [unfold rest; lia| |done|].
  { by replace (reserved p + rest)%Z with (total_reserved (producers m) + owed (consumer m))%Z by (unfold rest; lia). }
  constructor; cbn [shared producers consumer accepted].
  - rewrite (total_reserved_insert _ _ _ _ Hi). unfold rest in Hq'.
    by match goal with |- accounted _ ?x => match type of Hq' with accounted _ ?y => replace x with y by lia end end.
  - apply Forall_insert; [by rewrite Emax|done].
  - by rewrite Hlog, Esent, Eout, !app_assoc.
Qed.

Lemma machine_ok_writer pick_done ok m w' s' c :
  machine_ok m → writer_step pick_done ok (consumer m) (shared m) = (w', s', c) →
  machine_ok (mkMachine s' (producers m) w' (accepted m)).
Proof.
  intros [Hq Hps Hlog] Hstep. pose proof (total_reserved_nonneg (producers m)).
  set (s := shared m) in *. clearbody s.
  destruct (consumer m) as [|d|d|d]; cbn [writer_step owed in_flight] in *.
  - destruct (done s && _); [simplify_eq; by constructor|].
    destruct (outChan s) as [|d rest] eqn:E; simplify_eq; [by constructor; simpl in *; rewrite ?E|].
    pose proof (receive_accounted s d rest _ E Hq) as Hq'. rewrite Z.add_comm, <-Z.add_assoc, Z.add_0_l in Hq'.
    by constructor; simpl in *; rewrite ?E.
  - simplify_eq. constructor; simpl in *; try done. rewrite Z.add_0_r. apply release_accounted; [done|].
    by rewrite Z.add_comm.
  - destruct ok; simplify_eq; constructor; simpl in *; try done; try by destruct Hq.
    by rewrite Hlog, <-app_assoc.
  - by simplify_eq; constructor.
Qed.

Lemma machine_step_ok m m' : machine_ok m → machine_step m m' → machine_ok m'.
Proof.
  intros Hm Hstep. destruct Hstep as [e m He|i p m p' s' c Hi Hp|pd ok m w' s' c Hw|m].
  - destruct Hm as [Hq Hps Hlog]. constructor; cbn [shared producers consumer accepted]; try done.
    + rewrite total_reserved_app. simpl. by rewrite Z.add_0_r.
    + rewrite Forall_app, Forall_singleton. done.
  - by eapply machine_ok_producer.
  - by eapply machine_ok_writer.
  - destruct Hm as [[] ? ?]. by constructor.
Qed.

Lemma reachable_machine_ok input now c maxq t m :
  (maxq <= 2 ^ 62)%Z → rtc machine_step (fresh_machine input now c maxq t) m → machine_ok m.
Proof. intros Hm. apply rtc_invariant; [apply machine_step_ok|by apply fresh_machine_ok]. Qed.

(** ** What an access of a sender leaves alone *)

(** The frame a call carries. *)
Definition frame_of (p : producer) : option (list byte) :=
  match p with PStart e | PLoad e | PCas e _ _ | PSend e | PUndo e => Some e | PDone _ => None end.

Lemma set_queue_same s : set_queue (outChan s) (queuedBytes s) s = s.
Proof. by destruct s. Qed.

Lemma producer_step_queue p s p' s' c :
  producer_step p s = (p', s', c) → ∃ n, s' = set_queue (outChan s ++ pushed p s) n s.
Proof.
  unfold producer_step, pushed. intros Hstep. destruct p; repeat case_match; simplify_eq; rewrite ?app_nil_r;
    first [by eexists | exists (queuedBytes s'); by rewrite set_queue_same].
Qed.

Lemma producer_step_frame p s p' s' c d :
  producer_step p s = (p', s', c) → frame_of p' = Some d → frame_of p = Some d.
Proof. unfold producer_step. intros Hstep. destruct p; repeat case_match; by simplify_eq. Qed.

Lemma pushed_frame p s : Forall (λ d, frame_of p = Some d) (pushed p s).
Proof. destruct p; cbn; repeat case_match; by repeat constructor. Qed.

(** [go s.Close()] is started on the way out. *)
Lemma producer_step_closes p s p' s' : producer_step p s = (p', s', true) → ∃ r, p' = PDone r.
Proof. unfold producer_step. intros Hstep. destruct p; repeat case_match; simplify_eq; by eexists. Qed.

(** ** A producer running alone *)

Fixpoint solo (fuel : nat) (p : producer) (s : Session) (c : bool) : producer * Session * bool :=
  match fuel with
  | O => (p, s, c)
  | S fuel =>
      match p with
      | PDone _ => (p, s, c)
      | _ => let '(p', s', c') := producer_step p s in solo fuel p' s' (c || c')
      end
  end.

Lemma solo_enqueue e s :
  solo 5 (PStart e) s false =
    (PDone (sent_err (enqueueEncoded e s)), sent_session (enqueueEncoded e s), sent_close (enqueueEncoded e s)).
Proof.
  unfold enqueueEncoded. cbn [solo producer_step]. destruct (closed s); [done|]. cbn [producer_step].
  destruct ((0 <? maxQueuedBytes s)%Z && _); [done|]. cbn [producer_step].
  rewrite Z.eqb_refl. cbn [producer_step outChan outCap set_queue queuedBytes].
  by destruct (len (outChan s) <? outCap s)%Z.
Qed.

(** ** Properties *)

(** C13: the queue's accounting under any interleaving of any number of senders, the write
    loop and a closing of the session: the atomic counter is never negative nor above the
    limit (so no addition wraps), it is at least the size of what is queued, the channel
    stays within its capacity; and every accepted frame is written exactly once and in
    acceptance order: the accepted frames are those written, the one the write loop holds,
    and those queued. When no call is in progress the counter is exactly the queue's size. *)
Theorem queue_accounting input now c maxq t m :
  (maxq <= 2 ^ 62)%Z → rtc machine_step (fresh_machine input now c maxq t) m →
  let s := shared m in
  (0 <= queuedBytes s <= maxQueuedBytes s)%Z ∧
  (total_len (outChan s) <= queuedBytes s)%Z ∧ (len (outChan s) <= outCap s)%Z ∧
  accepted m = conn_sent s ++ in_flight (consumer m) ++ outChan s ∧
  (Forall (λ p, ∃ r, p = PDone r) (producers m) → (∀ d, consumer m ≠ WTaken d) →
   queuedBytes s = total_len (outChan s)).
Proof.
  intros Hm Hr. destruct (reachable_machine_ok input now c maxq t m Hm Hr) as [[Hb Hl Hmax Hcap] Hps Hlog].
  pose proof (total_len_nonneg (outChan (shared m))). pose proof (total_reserved_nonneg (producers m)).
  pose proof (owed_nonneg (consumer m)). cbv zeta. split_and!; [lia..|done|].
  intros Hdone Hc. assert (total_reserved (producers m) = 0%Z) as E.
  { clear -Hdone. induction Hdone as [|p ps [r ->] _ IH]; simpl; lia. }
  assert (owed (consumer m) = 0%Z) by (destruct (consumer m); try done; by destruct (Hc data)).
  lia.
Qed.

Definition two_senders : machine :=
  mkMachine (NewSession [] 0 1 10 0) [PStart (str "hello"); PStart (str "world!")] WIdle [].

Lemma queue_accounting_witness :
  rtc machine_step (fresh_machine [] 0 1 10 0) two_senders ∧
  (0 <= queuedBytes (shared two_senders) <= maxQueuedBytes (shared two_senders))%Z.
Proof.
  assert (rtc machine_step (fresh_machine [] 0 1 10 0) two_senders) as Hr.
  { apply (rtc_l _ _ (mkMachine (NewSession [] 0 1 10 0) [PStart (str "hello")] WIdle [])).
    - apply (ms_call (str "hello") (fresh_machine [] 0 1 10 0)). reflexivity.
    - apply rtc_once.
      apply (ms_call (str "world!") (mkMachine (NewSession [] 0 1 10 0) [PStart (str "hello")] WIdle [])).
      reflexivity. }
  split; [exact Hr|]. apply (queue_accounting [] 0 1 10 0 two_senders); [|exact Hr]. lia.
Defined.

(** the lock-free loop refines its sequential description: a call that runs without
    interference ends after at most five atomic accesses with exactly the result, the
    session and the closing of [enqueueEncoded]; and from any point of a call, in any
    state, it ends within six accesses when the others pause (the loop retries only
    because of someone else's progress). *)
Theorem enqueue_lock_free e s :
  solo 5 (PStart e) s false =
    (PDone (sent_err (enqueueEncoded e s)), sent_session (enqueueEncoded e s), sent_close (enqueueEncoded e s)) ∧
  (∀ p, ∃ r s' c, solo 6 p s false = (PDone r, s', c)).
Proof.
  split; [apply solo_enqueue|]. intros p.
  destruct p; cbn [solo producer_step];
    repeat (case_match; try discriminate; simplify_eq; cbn [producer_step] in *; rewrite ?Z.eqb_refl in * );
    try (by do 3 eexists).
Qed.
