(* ===== verification/Server.v ===== *)
(** * The broker ([src/server/server.go] and the handlers of [src/server/session.go])

    The server's state with its sessions, mutexes and pending goroutines; every handler as a
    program in a state monad in which a call can return, panic or block on a mutex its own
    goroutine holds; the steps the goroutines of the broker take. The router is used
    through the [SubscriptionStore] interface. *)

From S2P Require Import Prelude GoStrings GoIO Protocol Subject Router Session.

(** ** State *)

Inductive lock := LServer | LRouter | LSession (s : sid).
#[global] Instance lock_eq_dec : EqDecision lock.
Proof. solve_decision. Defined.

Record World (R : Type) := mkWorld {
  router : R;
  sessions : gset sid;             (** keys of [Server.sessions] *)
  heap : gmap sid Session;         (** every session ever allocated *)
  held : list lock;                (** mutexes held by the running goroutine *)
  spawned : list sid;              (** [go s.Close()] goroutines not yet run *)
  srv_done : bool;
  srv_closeOnce : bool;
  listening : bool;
  sessionOutChanCap : Z;
  maxSessionQueuedBytes : Z;
  sessionWriteTimeout : Z;
  now : Z;
}.
Arguments mkWorld {R}.
Arguments router {R}. Arguments sessions {R}. Arguments heap {R}. Arguments held {R}.
Arguments spawned {R}. Arguments srv_done {R}. Arguments srv_closeOnce {R}.
Arguments listening {R}. Arguments sessionOutChanCap {R}. Arguments maxSessionQueuedBytes {R}.
Arguments sessionWriteTimeout {R}. Arguments now {R}.

Section world.
Context {R : Type}.
Implicit Types w : World R.

Definition set_router (r : R) w : World R :=
  mkWorld r (sessions w) (heap w) (held w) (spawned w) (srv_done w) (srv_closeOnce w)
    (listening w) (sessionOutChanCap w) (maxSessionQueuedBytes w) (sessionWriteTimeout w) (now w).
Definition set_sessions (x : gset sid) w : World R :=
  mkWorld (router w) x (heap w) (held w) (spawned w) (srv_done w) (srv_closeOnce w)
    (listening w) (sessionOutChanCap w) (maxSessionQueuedBytes w) (sessionWriteTimeout w) (now w).
Definition set_heap (h : gmap sid Session) w : World R :=
  mkWorld (router w) (sessions w) h (held w) (spawned w) (srv_done w) (srv_closeOnce w)
    (listening w) (sessionOutChanCap w) (maxSessionQueuedBytes w) (sessionWriteTimeout w) (now w).
Definition set_held (l : list lock) w : World R :=
  mkWorld (router w) (sessions w) (heap w) l (spawned w) (srv_done w) (srv_closeOnce w)
    (listening w) (sessionOutChanCap w) (maxSessionQueuedBytes w) (sessionWriteTimeout w) (now w).
Definition set_spawned (l : list sid) w : World R :=
  mkWorld (router w) (sessions w) (heap w) (held w) l (srv_done w) (srv_closeOnce w)
    (listening w) (sessionOutChanCap w) (maxSessionQueuedBytes w) (sessionWriteTimeout w) (now w).
(** [closeOnce] of the server fires and [close(s.done)]. *)
Definition set_srv_closed w : World R :=
  mkWorld (router w) (sessions w) (heap w) (held w) (spawned w) true true
    (listening w) (sessionOutChanCap w) (maxSessionQueuedBytes w) (sessionWriteTimeout w) (now w).
Definition set_listening (b : bool) w : World R :=
  mkWorld (router w) (sessions w) (heap w) (held w) (spawned w) (srv_done w) (srv_closeOnce w)
    b (sessionOutChanCap w) (maxSessionQueuedBytes w) (sessionWriteTimeout w) (now w).
Definition set_limits (cap maxq timeout : Z) w : World R :=
  mkWorld (router w) (sessions w) (heap w) (held w) (spawned w) (srv_done w) (srv_closeOnce w)
    (listening w) cap maxq timeout (now w).
Definition set_now (t : Z) w : World R :=
  mkWorld (router w) (sessions w) (heap w) (held w) (spawned w) (srv_done w) (srv_closeOnce w)
    (listening w) (sessionOutChanCap w) (maxSessionQueuedBytes w) (sessionWriteTimeout w) t.
End world.

(** ** The monad *)

Definition M (R A : Type) : Type := World R → outcome (A * World R).

#[export] Instance M_ret R : MRet (M R) := λ A a w, Ret (a, w).
#[export] Instance M_bind R : MBind (M R) := λ A B f m w,
  match m w with Ret (a, w') => f a w' | Panic => Panic | Block => Block end.

Section monad.
Context {R : Type}.

Definition get_world : M R (World R) := λ w, Ret (w, w).
Definition modify (f : World R → World R) : M R unit := λ w, Ret (tt, f w).
Definition lift {A} (m : outcome A) : M R A := λ w, do a ← m; Ret (a, w).

(** A Go mutex is not reentrant: locking one that this goroutine holds blocks forever. *)
Definition with_lock {A} (l : lock) (body : M R A) : M R A := λ w,
  if decide (l ∈ held w) then Block
  else match body (set_held (l :: held w) w) with
       | Ret (a, w') => Ret (a, set_held (filter (λ l', l' ≠ l) (held w')) w')
       | Panic => Panic
       | Block => Block
       end.

(** Dereferencing a session pointer, and writing to its fields. *)
Definition get_session (s : sid) : M R Session := λ w,
  match heap w !! s with Some sess => Ret (sess, w) | None => Panic end.
Definition put_session (s : sid) (sess : Session) : M R unit :=
  modify (λ w, set_heap (<[s := sess]> (heap w)) w).
Definition modify_session (s : sid) (f : Session → Session) : M R unit :=
  sess ← get_session s; put_session s (f sess).
Definition modify_router (f : R → R) : M R unit := modify (λ w, set_router (f (router w)) w).

(** [go s.Close()] *)
Definition spawn_close (s : sid) : M R unit := modify (λ w, set_spawned (spawned w ++ [s]) w).

Fixpoint for_each {A} (l : list A) (f : A → M R unit) : M R unit :=
  match l with [] => mret tt | x :: l => f x;; for_each l f end.
End monad.

(** ** Errors and their texts *)

Inductive handle_error := ErrUnknownCommand (c : byte) | ErrSend (e : send_error).

Definition send_error_text (e : send_error) : gostring :=
  match e with
  | ErrSessionClosed => str "session closed"
  | ErrSubjectTooLong n => str "subject too long: " ++ itoa n
  | ErrMessageTooLarge => str "message too large"
  | ErrEncodedTooLarge => str "encoded message too large"
  | ErrBackpressure => str "backpressure limit exceeded"
  | ErrQueueFull => str "send queue full"
  end.

Definition handle_error_text (e : handle_error) : gostring :=
  match e with
  | ErrUnknownCommand c => str "unknown command: " ++ itoa (byte_val c)
  | ErrSend e => send_error_text e
  end.

(** ** Handlers *)

Section handlers.
Context {R : Type} `{SubscriptionStore R}.

(** Calling one of the send operations of session [s]. *)
Definition send (s : sid) (f : Session → sent) : M R (option send_error) :=
  sess ← get_session s;
  let r := f sess in
  put_session s (sent_session r);;
  (if sent_close r then spawn_close s else mret tt);;
  mret (sent_err r).

Definition handleSubscribe (s : sid) (msg : Message) : M R (option handle_error) :=
  let subject := Subject msg in
  with_lock (LSession s)
    (sess ← get_session s;
     let exists_ := existsb (λ sub, bool_decide (sub = subject)) (subjects sess) in
     if negb exists_ then
       modify_session s (set_subjects (subjects sess ++ [subject]));;
       with_lock LRouter (modify_router (store_subscribe subject s))
     else mret tt);;
  send s (SendOK (str "subscribed to " ++ subject));;
  mret None.

Definition handleUnsubscribe (s : sid) (msg : Message) : M R (option handle_error) :=
  let subject := Subject msg in
  with_lock (LSession s)
    (sess ← get_session s;
     modify_session s (set_subjects (filter (λ sub, sub ≠ subject) (subjects sess))));;
  with_lock LRouter (modify_router (store_unsubscribe subject s));;
  send s (SendOK (str "unsubscribed from " ++ subject));;
  mret None.

Definition handlePublish (o : order) (msg : Message) : M R (option handle_error) :=
  let subject := Subject msg in
  subscribers ← with_lock LRouter
    (w ← get_world;
     let res := store_find o subject (router w) in
     modify (set_router res.2);;
     mret res.1);
  let encoded := Encode (NewMessageCmd CmdMsg (Subject msg) (Payload msg)) in
  for_each subscribers (λ sub, send sub (SendEncoded encoded);; mret tt);;
  mret None.

Definition handlePing (s : sid) : M R (option handle_error) :=
  err ← send s SendPong;
  mret (ErrSend <$> err).

Definition HandleMessage (o : order) (s : sid) (msg : Message) : M R (option handle_error) :=
  if decide (Command msg = CmdSub) then handleSubscribe s msg
  else if decide (Command msg = CmdUnsub) then handleUnsubscribe s msg
  else if decide (Command msg = CmdPub) then handlePublish o msg
  else if decide (Command msg = CmdPing) then handlePing s
  else mret (Some (ErrUnknownCommand (Command msg))).

(** [Server.removeSession] *)
Definition removeSession (s : sid) : M R unit :=
  with_lock LServer (modify (λ w, set_sessions (sessions w ∖ {[s]}) w)).

(** [Session.Close] *)
Definition Close (o : order) (s : sid) : M R unit :=
  sess ← get_session s;
  if closeOnce sess then mret tt
  else
    put_session s (set_closed sess);;
    with_lock LRouter (modify_router (store_remove_session o s));;
    removeSession s;;
    modify_session s set_conn_closed.

(** One turn of the read loop of [Session.Start]: the test of [done] and the read, the
    deferred [Close] and the [removeSession] of the accept goroutine on the way out. *)
Definition reader_poll (o : order) (s : sid) : M R unit :=
  sess ← get_session s;
  if done sess then Close o s;; modify_session s (set_pc Returned);; removeSession s
  else
    p ← lift (ParseFromReader (conn_input sess));
    match p with
    | (inr _, r) => Close o s;; modify_session s (set_input r Returned);; removeSession s
    | (inl msg, r) => modify_session s (set_input r (Holding msg))
    end.

(** The rest of the turn, once a message has been read. *)
Definition reader_handle (o : order) (s : sid) (msg : Message) : M R unit :=
  err ← HandleMessage o s msg;
  (match err with
   | Some e => send s (SendError (str "handle error: " ++ handle_error_text e));; mret tt
   | None => mret tt
   end);;
  with_lock (LSession s)
    (w ← get_world; modify_session s (set_lastPing (now w)));;
  modify_session s (set_pc AtTop).

(** [Session.Start], for at most [fuel] messages. *)
Fixpoint Start (fuel : nat) (o : order) (s : sid) : M R unit :=
  match fuel with
  | O => mret tt
  | S fuel =>
      reader_poll o s;;
      sess ← get_session s;
      match pc sess with
      | Holding msg => reader_handle o s msg;; Start fuel o s
      | _ => mret tt
      end
  end.

(** One turn of the write loop, when a frame is available; [ok] is the outcome of
    [conn.Write]. *)
Definition writer_turn (o : order) (s : sid) (ok : bool) : M R unit :=
  sess ← get_session s;
  match dequeue sess with
  | None => mret tt
  | Some (data, sess') =>
      put_session s sess';;
      if ok then modify_session s (λ sess, set_sent (conn_sent sess ++ [data]) sess)
      else Close o s
  end.

(** ** The server *)

Definition new_world : World R :=
  mkWorld store_new ∅ ∅ [] [] false false false 1024 (32 * 1024 * 1024) (5 * second) 0.

Definition SetSessionBackpressure (maxQueued outChanCap : Z) : M R unit :=
  with_lock LServer (modify (λ w,
    set_limits (if (0 <? outChanCap)%Z then outChanCap else sessionOutChanCap w)
               (if (0 <? maxQueued)%Z then maxQueued else maxSessionQueuedBytes w)
               (sessionWriteTimeout w) w)).

Definition SetSessionWriteTimeout (timeout : Z) : M R unit :=
  with_lock LServer (modify (λ w,
    set_limits (sessionOutChanCap w) (maxSessionQueuedBytes w) timeout w)).

(** One connection accepted by [acceptLoop]: [s] is the address of the new session. *)
Definition accept_one (s : sid) (input : reader) : M R unit :=
  w ← get_world;
  put_session s (NewSession input (now w) (sessionOutChanCap w) (maxSessionQueuedBytes w)
                   (sessionWriteTimeout w));;
  with_lock LServer (modify (λ w, set_sessions ({[s]} ∪ sessions w) w)).

(** [Server.Start]: whether listening succeeded. The goroutine it starts is [acceptLoop]. *)
Definition server_Start (listen_ok : bool) : M R bool :=
  if listen_ok then modify (set_listening true);; mret true else mret false.

(** [Server.Close] *)
Definition server_Close (o : order) : M R unit :=
  w ← get_world;
  if srv_closeOnce w then mret tt
  else
    modify set_srv_closed;;
    with_lock LServer
      (w ← get_world;
       for_each (visit o (elements (sessions w)))
         (λ s, Close o s;; modify (λ w, set_sessions (sessions w ∖ {[s]}) w));;
       modify (set_listening false)).

Record ServerStats := mkStats { Connections : Z; Subjects : Z; TotalSubscriptions : Z }.

Definition GetStats (o : order) : M R ServerStats :=
  with_lock LServer
    (w ← get_world;
     subj ← with_lock LRouter (w ← get_world; mret (store_subject_count (router w)));
     tot ← with_lock LRouter (w ← get_world; mret (store_total o (router w)));
     mret (mkStats (Z.of_nat (size (sessions w))) subj tot)).
End handlers.

(** ** Running handlers *)

Section running.
Context {R : Type} `{SubscriptionStore R}.
Implicit Types w : World R.

Lemma bind_run {A B} (m : M R A) (f : A → M R B) w a w' :
  m w = Ret (a, w') → (x ← m; f x) w = f a w'.
Proof. intros Hm. unfold mbind, M_bind. by rewrite Hm. Qed.

Lemma get_session_run s w sess : heap w !! s = Some sess → get_session s w = Ret (sess, w).
Proof. intros Hs. unfold get_session. by rewrite Hs. Qed.

(** Writing session [s]. *)
Definition upd (s : sid) (sess : Session) w : World R := set_heap (<[s := sess]> (heap w)) w.

Lemma put_session_run s sess w : put_session s sess w = Ret (tt, upd s sess w).
Proof. done. Qed.

Lemma modify_session_run s f w sess :
  heap w !! s = Some sess → modify_session s f w = Ret (tt, upd s (f sess) w).
Proof. intros Hs. unfold modify_session. by rewrite (bind_run _ _ _ _ _ (get_session_run _ _ _ Hs)). Qed.

Lemma heap_upd s sess w : heap (upd s sess w) !! s = Some sess.
Proof. apply lookup_insert_eq. Qed.
Lemma heap_upd_ne s s' sess w : s ≠ s' → heap (upd s sess w) !! s' = heap w !! s'.
Proof. apply lookup_insert_ne. Qed.
Lemma upd_upd s x y w : upd s x (upd s y w) = upd s x w.
Proof. unfold upd, set_heap. simpl. by rewrite insert_insert_eq. Qed.
Lemma upd_id s x w : heap w !! s = Some x → upd s x w = w.
Proof. intros Hs. unfold upd. rewrite insert_id by done. by destruct w. Qed.

Lemma unlock_one (l : lock) : filter (λ l', l' ≠ l) [l] = [].
Proof. by rewrite filter_cons_False by (intros E; by apply E). Qed.

Lemma set_held_nil l w : held w = [] → set_held [] (set_held l w) = w.
Proof. destruct w; simpl. by intros ->. Qed.

Lemma with_lock_run {A} l (body : M R A) w a w' :
  held w = [] → body (set_held [l] w) = Ret (a, set_held [l] w') → held w' = [] →
  with_lock l body w = Ret (a, w').
Proof.
  intros Hh Hb Hh'. unfold with_lock. rewrite Hh, decide_False by apply not_elem_of_nil.
  rewrite Hb. cbn [held set_held]. by rewrite unlock_one, set_held_nil.
Qed.

Lemma locked_modify_run l (f : World R → World R) w :
  held w = [] → f (set_held [l] w) = set_held [l] (f w) → held (f w) = [] →
  with_lock l (modify f) w = Ret (tt, f w).
Proof. intros Hh Hf Hh'. apply with_lock_run; [done| |done]. unfold modify. by rewrite Hf. Qed.

Lemma with_lock_run2 {A} l l' (body : M R A) w a w' :
  held w = [l'] → l ≠ l' → body (set_held [l; l'] w) = Ret (a, w') → held w' = [l; l'] →
  with_lock l body w = Ret (a, set_held [l'] w').
Proof.
  intros Hh Hne Hb Hh'. unfold with_lock. rewrite Hh, decide_False by (by intros ?%list_elem_of_singleton).
  rewrite Hb, Hh'. rewrite filter_cons_False by (intros E; by apply E).
  by rewrite filter_cons_True by (by intros ->).
Qed.

(** The world after a send operation that returned [r]. *)
Definition send_world (s : sid) (r : sent) w : World R :=
  let w := upd s (sent_session r) w in
  if sent_close r then set_spawned (spawned w ++ [s]) w else w.

Lemma send_run s f w sess :
  heap w !! s = Some sess → send s f w = Ret (sent_err (f sess), send_world s (f sess) w).
Proof.
  intros Hs. unfold send. rewrite (bind_run _ _ _ _ _ (get_session_run _ _ _ Hs)).
  unfold send_world. by destruct (sent_close (f sess)).
Qed.

Lemma send_world_held s r w : held (send_world s r w) = held w.
Proof. unfold send_world. by destruct (sent_close r). Qed.
Lemma send_world_router s r w : router (send_world s r w) = router w.
Proof. unfold send_world. by destruct (sent_close r). Qed.
Lemma send_world_heap s r w : heap (send_world s r w) = <[s := sent_session r]> (heap w).
Proof. unfold send_world. by destruct (sent_close r). Qed.

(** [handleSubscribe] in closed form. *)
Definition subscribed (s : sid) (subject : gostring) (sess : Session) : Session :=
  if decide (subject ∈ subjects sess) then sess
  else set_subjects (subjects sess ++ [subject]) sess.
Definition subscribe_world (s : sid) (subject : gostring) (sess : Session) w : World R :=
  if decide (subject ∈ subjects sess) then w
  else set_router (store_subscribe subject s (router w)) (upd s (subscribed s subject sess) w).

Lemma exists_subject (x : gostring) l :
  existsb (λ sub, bool_decide (sub = x)) l = bool_decide (x ∈ l).
Proof.
  induction l as [|y l IH]; [done|]. cbn [existsb]. rewrite IH. apply eq_bool_prop_intro.
  rewrite orb_True, !bool_decide_spec, elem_of_cons. naive_solver.
Qed.

Lemma handleSubscribe_run s msg w sess :
  held w = [] → heap w !! s = Some sess →
  let text := str "subscribed to " ++ Subject msg in
  let sess1 := subscribed s (Subject msg) sess in
  handleSubscribe s msg w =
    Ret (None, send_world s (SendOK text sess1) (subscribe_world s (Subject msg) sess w)).
Proof.
  intros Hh Hs text sess1. unfold handleSubscribe.
  erewrite (bind_run (with_lock _ _) _ _ tt (subscribe_world s (Subject msg) sess w)).
  - erewrite bind_run; [reflexivity|]. apply send_run.
    unfold subscribe_world, sess1, subscribed. case_decide; [done|apply heap_upd].
  - apply with_lock_run; [done| |].
    + erewrite bind_run by (by apply get_session_run). rewrite exists_subject.
      unfold subscribe_world, subscribed. case_bool_decide as Hin; cbn [negb]; [by rewrite decide_True|].
      rewrite decide_False by done. erewrite bind_run by (by apply modify_session_run).
      erewrite with_lock_run2; [|reflexivity|done|reflexivity|reflexivity].
      by rewrite decide_False.
    + unfold subscribe_world. by case_decide.
Qed.

Lemma handleUnsubscribe_run s msg w sess :
  held w = [] → heap w !! s = Some sess →
  let text := str "unsubscribed from " ++ Subject msg in
  let sess1 := set_subjects (filter (λ sub, sub ≠ Subject msg) (subjects sess)) sess in
  handleUnsubscribe s msg w =
    Ret (None, send_world s (SendOK text sess1)
                 (set_router (store_unsubscribe (Subject msg) s (router w)) (upd s sess1 w))).
Proof.
  intros Hh Hs text sess1. unfold handleUnsubscribe.
  erewrite (bind_run (with_lock _ _) _ _ tt (upd s sess1 w)).
  - erewrite (bind_run (with_lock _ _) _ _ tt (set_router (store_unsubscribe (Subject msg) s (router w)) (upd s sess1 w))).
    + erewrite bind_run; [reflexivity|]. apply send_run. apply heap_upd.
    + by apply with_lock_run.
  - apply with_lock_run; [done| |done].
    erewrite bind_run by (by apply get_session_run). by erewrite modify_session_run.
Qed.

Lemma modify_router_locked (f : R → R) w :
  held w = [] → with_lock LRouter (modify_router f) w = Ret (tt, set_router (f (router w)) w).
Proof. intros Hh. by apply with_lock_run. Qed.

Lemma removeSession_run s w :
  held w = [] → removeSession s w = Ret (tt, set_sessions (sessions w ∖ {[s]}) w).
Proof. intros Hh. by apply with_lock_run. Qed.

(** [Session.Close] in closed form. *)
Definition close_world (o : order) (s : sid) (sess : Session) w : World R :=
  if closeOnce sess then w
  else upd s (set_conn_closed (set_closed sess))
         (set_sessions (sessions w ∖ {[s]}) (set_router (store_remove_session o s (router w)) w)).

Lemma Close_run o s w sess :
  held w = [] → heap w !! s = Some sess → Close o s w = Ret (tt, close_world o s sess w).
Proof.
  intros Hh Hs. unfold Close, close_world. erewrite bind_run by (by apply get_session_run).
  destruct (closeOnce sess); [done|].
  erewrite bind_run by apply put_session_run.
  erewrite bind_run by (by apply modify_router_locked).
  erewrite bind_run by (by apply removeSession_run).
  erewrite modify_session_run by apply heap_upd.
  unfold upd, set_heap. cbn. by rewrite insert_insert_eq.
Qed.

Lemma close_world_held o s sess w : held (close_world o s sess w) = held w.
Proof. unfold close_world. by destruct (closeOnce sess). Qed.

Lemma close_world_heap o s sess w :
  heap w !! s = Some sess →
  heap (close_world o s sess w) !! s =
    Some (if closeOnce sess then sess else set_conn_closed (set_closed sess)).
Proof. intros Hs. unfold close_world. destruct (closeOnce sess); [done|apply heap_upd]. Qed.

(** Delivering one frame to a list of sessions. *)
Definition deliver_one (encoded : list byte) (w : World R) (sub : sid) : World R :=
  match heap w !! sub with
  | Some sess => send_world sub (SendEncoded encoded sess) w
  | None => w
  end.
Definition deliver (encoded : list byte) (subs : list sid) w : World R :=
  foldl (deliver_one encoded) w subs.

Lemma deliver_one_heap_is_Some encoded w sub s :
  is_Some (heap w !! s) → is_Some (heap (deliver_one encoded w sub) !! s).
Proof.
  intros Hs. unfold deliver_one. destruct (heap w !! sub) eqn:E; [|done].
  rewrite send_world_heap, lookup_insert. by case_decide.
Qed.

Lemma for_each_deliver encoded subs w :
  Forall (λ s, is_Some (heap w !! s)) subs →
  for_each subs (λ sub, send sub (SendEncoded encoded);; mret tt) w
    = Ret (tt, deliver encoded subs w).
Proof.
  revert w. induction subs as [|s subs IH]; intros w Hall; [done|].
  apply Forall_cons in Hall as [[sess Hs] Hall]. cbn [for_each].
  erewrite bind_run; [|erewrite bind_run by (by apply send_run); reflexivity].
  assert (send_world s (SendEncoded encoded sess) w = deliver_one encoded w s) as ->
    by (unfold deliver_one; by rewrite Hs).
  apply IH. eapply Forall_impl; [exact Hall|]. intros x. apply deliver_one_heap_is_Some.
Qed.

Lemma handlePublish_run o msg w :
  held w = [] →
  let res := store_find o (Subject msg) (router w) in
  Forall (λ s, is_Some (heap w !! s)) res.1 →
  handlePublish o msg w =
    Ret (None, deliver (Encode (NewMessageCmd CmdMsg (Subject msg) (Payload msg))) res.1
                 (set_router res.2 w)).
Proof.
  intros Hh res Hall. unfold handlePublish.
  erewrite (bind_run (with_lock _ _) _ _ res.1 (set_router res.2 w))
    by (by apply with_lock_run).
  erewrite bind_run; [reflexivity|]. by apply for_each_deliver.
Qed.

Lemma handlePing_run s w sess :
  heap w !! s = Some sess →
  handlePing s w = Ret (ErrSend <$> sent_err (SendPong sess), send_world s (SendPong sess) w).
Proof. intros Hs. unfold handlePing. by erewrite bind_run by (by apply send_run). Qed.

Lemma set_lastPing_run s w sess :
  held w = [] → heap w !! s = Some sess →
  with_lock (LSession s) (w ← get_world; modify_session s (set_lastPing (now w))) w
    = Ret (tt, upd s (set_lastPing (now w) sess) w).
Proof.
  intros Hh Hs. apply with_lock_run; [done| |done].
  unfold mbind, M_bind, get_world. by erewrite modify_session_run.
Qed.
End running.

(** ** The broker's invariant *)

(** A session in good order: queue accounting, the three closing flags in step, no subject
    listed twice, only parseable frames queued or written, only well-sized messages in the
    hands of the read loop, whose return closes the session. *)
Record session_ok (sess : Session) : Prop := {
  so_queue : queue_ok sess;
  so_flags : closed sess = closeOnce sess ∧ done sess = closeOnce sess;
  so_subjects : NoDup (subjects sess);
  so_frames : Forall good_frame (outChan sess ++ conn_sent sess);
  so_pc : ∀ m, pc sess = Holding m → wire_ok m;
  so_returned : pc sess = Returned → closed sess = true;
}.

Section invariant.
Context {R : Type} `{SubscriptionStoreLaws R}.
Implicit Types w : World R.

Record world_ok w : Prop := {
  wo_held : held w = [];
  wo_router : store_ok (router w);
  wo_sessions : map_Forall (λ _ sess, session_ok sess) (heap w);
  wo_pairs : ∀ p s, (p, s) ∈ store_pairs (router w) →
    ∃ sess, heap w !! s = Some sess ∧ p ∈ subjects sess;
  wo_subjects : ∀ p s sess, heap w !! s = Some sess → closed sess = false →
    p ∈ subjects sess → (p, s) ∈ store_pairs (router w);
  wo_live : ∀ s, s ∈ sessions w ↔ ∃ sess, heap w !! s = Some sess ∧ closed sess = false;
  wo_limits : (maxSessionQueuedBytes w <= 2 ^ 62)%Z;
  wo_spawned : Forall (λ s, is_Some (heap w !! s)) (spawned w);
}.

Lemma new_world_ok : world_ok new_world.
Proof.
  constructor; simpl; try done.
  - apply store_new_ok.
  - intros p s. rewrite store_new_pairs. by intros ?%elem_of_empty.
  - intros s. split; [by intros ?%elem_of_empty|]. intros (sess & Hs & _). by rewrite lookup_empty in Hs.
Qed.

(** *** Updating one session *)

Lemma is_Some_upd s s' x w : is_Some (heap w !! s') → is_Some (heap (upd s x w) !! s').
Proof. intros Hs. unfold upd. simpl. rewrite lookup_insert. by case_decide. Qed.

Lemma world_ok_upd s sess sess' w :
  world_ok w → heap w !! s = Some sess → session_ok sess' →
  subjects sess' = subjects sess → closed sess' = closed sess → world_ok (upd s sess' w).
Proof.
  intros [Hh Hr Hs Hp Hsub Hl Hlim Hsp] Hsess Hok Hsubj Hcl. constructor; try done.
  - by apply map_Forall_insert_2.
  - intros p x Hx. destruct (Hp p x Hx) as (y & Hy & Hin).
    destruct (decide (s = x)) as [->|Hne].
    + exists sess'. rewrite heap_upd, Hsubj. split; [done|]. by simplify_eq.
    + exists y. by rewrite heap_upd_ne.
  - intros p x y. destruct (decide (s = x)) as [->|Hne].
    + rewrite heap_upd. intros [= <-]. rewrite Hcl, Hsubj. by apply Hsub.
    + rewrite heap_upd_ne by done. by apply Hsub.
  - intros x. simpl. rewrite Hl. destruct (decide (s = x)) as [->|Hne].
    + rewrite lookup_insert_eq. split.
      * intros (y & Hy & ?). exists sess'. split; [done|]. congruence.
      * intros (y & [= <-] & ?). exists sess. split; [done|]. congruence.
    + by rewrite lookup_insert_ne.
  - eapply Forall_impl; [exact Hsp|]. intros x. apply is_Some_upd.
Qed.

Lemma world_ok_spawn s w : world_ok w → is_Some (heap w !! s) → world_ok (set_spawned (spawned w ++ [s]) w).
Proof. intros [] Hs. constructor; try done. simpl. rewrite Forall_app, Forall_singleton. done. Qed.

(** *** Sending *)

(** A send leaves the session alone or appends one good frame within the limits. *)
Definition sends (sess : Session) (r : sent) : Prop :=
  sent_session r = sess ∨
  ∃ fr, good_frame fr ∧ queue_ok (sent_session r) ∧
        sent_session r = set_queue (outChan sess ++ [fr]) (queuedBytes sess + len fr) sess.

Lemma enqueue_sends fr sess : good_frame fr → queue_ok sess → sends sess (enqueueEncoded fr sess).
Proof.
  intros Hfr Hq. pose proof (enqueueEncoded_ok fr sess Hq (good_frame_width _ Hfr)) as Hok.
  revert Hok. unfold sends. rewrite enqueueEncoded_cases by (done || by apply good_frame_width).
  intros Hok. repeat case_match; try (by left). right. by exists fr.
Qed.

Lemma SendEncoded_sends fr sess : good_frame fr → queue_ok sess → sends sess (SendEncoded fr sess).
Proof.
  intros Hfr Hq. unfold SendEncoded. repeat case_match; try (by left). by apply enqueue_sends.
Qed.
Lemma SendOK_sends text sess : queue_ok sess → sends sess (SendOK text sess).
Proof.
  intros Hq. unfold SendOK. case_match; [by left|]. apply enqueue_sends; [apply response_frame|done].
Qed.
Lemma SendError_sends text sess : queue_ok sess → sends sess (SendError text sess).
Proof.
  intros Hq. unfold SendError. case_match; [by left|]. apply enqueue_sends; [apply response_frame|done].
Qed.
Lemma SendPong_sends sess : queue_ok sess → sends sess (SendPong sess).
Proof.
  intros Hq. unfold SendPong. case_match; [by left|]. apply enqueue_sends; [apply pong_frame|done].
Qed.

Lemma sends_session_ok sess r : session_ok sess → sends sess r → session_ok (sent_session r).
Proof.
  intros Hok [->|(fr & Hfr & Hq & E)]; [done|]. destruct Hok as [_ Hfl Hsub Hfrm Hpc Hret].
  constructor; [done|rewrite E; try done..]. cbn [outChan conn_sent set_queue].
  rewrite Forall_app in Hfrm |- *. rewrite Forall_app, Forall_singleton. tauto.
Qed.

Lemma sends_same sess r :
  sends sess r → subjects (sent_session r) = subjects sess ∧ closed (sent_session r) = closed sess.
Proof. by intros [->|(fr & _ & _ & ->)]. Qed.

Lemma world_ok_send s sess r w :
  world_ok w → heap w !! s = Some sess → sends sess r → world_ok (send_world s r w).
Proof.
  intros Hw Hs Hr. destruct (sends_same sess r Hr) as [Hsub Hcl].
  assert (world_ok (upd s (sent_session r) w)) as Hupd.
  { eapply world_ok_upd; [done..| |done|done]. eapply sends_session_ok; [|done].
    apply (wo_sessions w Hw _ _ Hs). }
  unfold send_world. destruct (sent_close r); [|done].
  change (spawned w) with (spawned (upd s (sent_session r) w)).
  apply world_ok_spawn; [done|]. rewrite heap_upd. eauto.
Qed.

Lemma world_ok_session w s sess : world_ok w → heap w !! s = Some sess → session_ok sess.
Proof. intros Hw Hs. apply (wo_sessions w Hw _ _ Hs). Qed.
Lemma world_ok_queue w s sess : world_ok w → heap w !! s = Some sess → queue_ok sess.
Proof. intros Hw Hs. by eapply so_queue, world_ok_session. Qed.

Lemma world_ok_deliver encoded subs w :
  good_frame encoded → world_ok w → world_ok (deliver encoded subs w).
Proof.
  intros Hfr. revert w. induction subs as [|s subs IH]; intros w Hw; [done|].
  cbn [deliver foldl]. apply IH. unfold deliver_one.
  destruct (heap w !! s) as [sess|] eqn:Hs; [|done].
  eapply world_ok_send; [done..|]. apply SendEncoded_sends; [done|]. by eapply world_ok_queue.
Qed.

(** *** Subscriptions *)

Lemma set_subjects_ok sess l : session_ok sess → NoDup l → session_ok (set_subjects l sess).
Proof. intros [[] ? ? ? ? ?] Hl. by constructor. Qed.

Lemma world_ok_subscribe s subject sess w :
  world_ok w → heap w !! s = Some sess → world_ok (subscribe_world s subject sess w).
Proof.
  intros Hw Hs. unfold subscribe_world, subscribed. case_decide as Hin; [done|].
  pose proof (world_ok_session _ _ _ Hw Hs) as Hok.
  destruct Hw as [Hh Hr Hsess Hp Hsub Hl Hlim Hsp].
  assert ((subject, s) ∉ store_pairs (router w)) as Hnew.
  { intros Hx. destruct (Hp _ _ Hx) as (y & Hy & ?). by simplify_eq. }
  destruct (store_subscribe_ok subject s (router w) Hr Hnew) as [Hr' Hpairs].
  constructor; cbn [router held sessions spawned maxSessionQueuedBytes set_router upd set_heap];
    rewrite ?Hpairs; try done.
  - apply map_Forall_insert_2; [|done]. apply set_subjects_ok; [done|].
    apply NoDup_snoc; [by apply so_subjects|done].
  - intros p x. rewrite elem_of_union, elem_of_singleton. intros [[= -> ->]|Hx].
    + eexists. split; [apply heap_upd|]. simpl. apply elem_of_app. right. left.
    + destruct (Hp p x Hx) as (y & Hy & Hiny). destruct (decide (s = x)) as [->|Hne].
      * eexists. split; [apply heap_upd|]. simpl. apply elem_of_app. left. by simplify_eq.
      * exists y. cbn [heap set_router]. by rewrite heap_upd_ne.
  - intros p x y. cbn [heap set_router]. destruct (decide (s = x)) as [->|Hne].
    + rewrite heap_upd. intros [= <-]. simpl. intros Hcl.
      rewrite elem_of_app, list_elem_of_singleton, elem_of_union, elem_of_singleton.
      intros [Hy| ->]; [right; by eapply Hsub|by left].
    + rewrite heap_upd_ne by done. rewrite elem_of_union. right. by eapply Hsub.
  - intros x. rewrite Hl. cbn [heap set_router]. destruct (decide (s = x)) as [->|Hne].
    + rewrite heap_upd. split; intros (y & Hy & ?); simplify_eq/=; eauto.
    + by rewrite heap_upd_ne.
  - eapply Forall_impl; [exact Hsp|]. intros x. apply is_Some_upd.
Qed.

Lemma world_ok_unsubscribe s subject sess w :
  world_ok w → heap w !! s = Some sess →
  world_ok (set_router (store_unsubscribe subject s (router w))
              (upd s (set_subjects (filter (λ sub, sub ≠ subject) (subjects sess)) sess) w)).
Proof.
  intros Hw Hs. pose proof (world_ok_session _ _ _ Hw Hs) as Hok.
  destruct Hw as [Hh Hr Hsess Hp Hsub Hl Hlim Hsp].
  destruct (store_unsubscribe_ok subject s (router w) Hr) as [Hr' Hpairs].
  constructor; cbn [router held sessions spawned maxSessionQueuedBytes set_router upd set_heap];
    rewrite ?Hpairs; try done.
  - apply map_Forall_insert_2; [|done]. apply set_subjects_ok; [done|].
    apply NoDup_filter. by apply so_subjects.
  - intros p x. rewrite elem_of_difference, elem_of_singleton. intros [Hx Hne].
    destruct (Hp p x Hx) as (y & Hy & Hiny). cbn [heap set_router].
    destruct (decide (s = x)) as [->|Hsx].
    + eexists. split; [apply heap_upd|]. simpl. apply list_elem_of_filter. simplify_eq.
      split; [by intros ->|done].
    + exists y. by rewrite heap_upd_ne.
  - intros p x y. cbn [heap set_router]. rewrite elem_of_difference, elem_of_singleton.
    destruct (decide (s = x)) as [->|Hne].
    + rewrite heap_upd. intros [= <-]. simpl. intros Hcl [Hp1 Hp2]%list_elem_of_filter.
      split; [by eapply Hsub|]. by intros [= ->].
    + rewrite heap_upd_ne by done. intros. split; [by eapply Hsub|]. by intros [= -> ->].
  - intros x. rewrite Hl. cbn [heap set_router]. destruct (decide (s = x)) as [->|Hne].
    + rewrite heap_upd. split; intros (y & Hy & ?); simplify_eq/=; eauto.
    + by rewrite heap_upd_ne.
  - eapply Forall_impl; [exact Hsp|]. intros x. apply is_Some_upd.
Qed.

Lemma world_ok_set_router w r :
  world_ok w → store_ok r → store_pairs r = store_pairs (router w) → world_ok (set_router r w).
Proof.
  intros [] Hr Hp. constructor; cbn [router set_router]; rewrite ?Hp; done.
Qed.

(** *** Closing *)

Lemma set_closed_ok sess : session_ok sess → session_ok (set_conn_closed (set_closed sess)).
Proof. intros [[] [? ?] ? ? ? ?]. by constructor. Qed.

Lemma world_ok_close o s sess w :
  world_ok w → heap w !! s = Some sess → world_ok (close_world o s sess w).
Proof.
  intros Hw Hs. unfold close_world. destruct (closeOnce sess) eqn:Eonce; [done|].
  pose proof (world_ok_session _ _ _ Hw Hs) as Hok.
  destruct Hw as [Hh Hr Hsess Hp Hsub Hl Hlim Hsp].
  destruct (store_remove_session_ok o s (router w) Hr) as [Hr' Hpairs].
  constructor; cbn [router held sessions spawned maxSessionQueuedBytes set_router set_sessions upd set_heap];
    rewrite ?Hpairs; try done.
  - apply map_Forall_insert_2; [by apply set_closed_ok|done].
  - intros p x. rewrite elem_of_filter. simpl. intros [Hne Hx].
    destruct (Hp p x Hx) as (y & Hy & Hiny). exists y.
    by rewrite lookup_insert_ne.
  - intros p x y. cbn [heap upd set_heap]. rewrite elem_of_filter. simpl.
    destruct (decide (s = x)) as [->|Hne].
    + rewrite lookup_insert_eq. by intros [= <-].
    + rewrite lookup_insert_ne by done. intros. split; [done|by eapply Hsub].
  - intros x. cbn [heap upd set_heap]. rewrite elem_of_difference, elem_of_singleton, Hl.
    destruct (decide (s = x)) as [->|Hne].
    + rewrite lookup_insert_eq. split; [tauto|]. by intros (y & [= <-] & [=]).
    + rewrite lookup_insert_ne by done. naive_solver.
  - eapply Forall_impl; [exact Hsp|]. intros x Hx.
    cbn [heap upd set_heap set_sessions set_router]. rewrite lookup_insert. by case_decide.
Qed.

(** Removing a closed session from [Server.sessions] again changes nothing. *)
Lemma removeSession_closed s sess w :
  world_ok w → heap w !! s = Some sess → closed sess = true →
  removeSession s w = Ret (tt, w).
Proof.
  intros Hw Hs Hcl. rewrite removeSession_run by apply Hw. do 2 f_equal.
  replace (sessions w ∖ {[s]}) with (sessions w); [by destruct w|].
  apply set_eq. intros x. rewrite elem_of_difference, elem_of_singleton. split; [|tauto].
  intros Hx. split; [done|]. intros ->. apply (wo_live w Hw) in Hx as (y & ? & ?). congruence.
Qed.

(** *** Accepting *)

Lemma NewSession_ok input t c m tmo :
  (m <= 2 ^ 62)%Z → session_ok (NewSession input t c m tmo).
Proof. intros Hm. constructor; simpl; try done; [by apply NewSession_queue_ok|constructor]. Qed.

Definition accept_world (s : sid) (input : reader) w : World R :=
  set_sessions ({[s]} ∪ sessions w)
    (upd s (NewSession input (now w) (sessionOutChanCap w) (maxSessionQueuedBytes w)
              (sessionWriteTimeout w)) w).

Lemma accept_one_run s input w :
  held w = [] → accept_one s input w = Ret (tt, accept_world s input w).
Proof.
  intros Hh. unfold accept_one. erewrite bind_run by reflexivity.
  erewrite bind_run by apply put_session_run. by apply with_lock_run.
Qed.

Lemma world_ok_accept s input w :
  world_ok w → heap w !! s = None → world_ok (accept_world s input w).
Proof.
  intros [Hh Hr Hsess Hp Hsub Hl Hlim Hsp] Hs. unfold accept_world.
  constructor; cbn [router held sessions spawned maxSessionQueuedBytes set_sessions upd set_heap heap];
    try done.
  - apply map_Forall_insert_2; [by apply NewSession_ok|done].
  - intros p x Hx. destruct (Hp p x Hx) as (y & Hy & ?). exists y.
    by rewrite lookup_insert_ne by congruence.
  - intros p x y. rewrite lookup_insert. case_decide; [|by apply Hsub].
    intros [= <-] _. simpl. by intros ?%elem_of_nil.
  - intros x. rewrite elem_of_union, elem_of_singleton, lookup_insert.
    case_decide as Hx; [subst; split; [eauto|by left]|]. rewrite Hl. naive_solver.
  - eapply Forall_impl; [exact Hsp|]. intros x Hx. rewrite lookup_insert. by case_decide.
Qed.

(** *** The handlers return, and keep the invariant *)

(** No session is ever deallocated. *)
Definition grows w w' : Prop := ∀ s, is_Some (heap w !! s) → is_Some (heap w' !! s).

Lemma grows_upd s x w : grows w (upd s x w).
Proof. intros y. apply is_Some_upd. Qed.
Lemma grows_send s r w : grows w (send_world s r w).
Proof. intros x Hx. rewrite send_world_heap, lookup_insert. by case_decide. Qed.
Lemma grows_trans w1 w2 w3 : grows w1 w2 → grows w2 w3 → grows w1 w3.
Proof. unfold grows. eauto. Qed.
Lemma grows_deliver fr subs w : grows w (deliver fr subs w).
Proof.
  revert w. induction subs as [|x subs IH]; intros w; [by intros y|].
  eapply grows_trans; [|apply IH]. intros y. apply deliver_one_heap_is_Some.
Qed.

Lemma find_sessions_exist o subject w :
  world_ok w → Forall (λ s, is_Some (heap w !! s)) (store_find o subject (router w)).1.
Proof.
  intros Hw. apply Forall_forall. intros s Hs.
  destruct (store_find_ok o subject (router w) (wo_router w Hw)) as (_ & _ & _ & Hel).
  apply Hel in Hs as (p & Hp & _). destruct (wo_pairs w Hw p s Hp) as (y & ? & _). eauto.
Qed.

Lemma HandleMessage_ok o s msg w sess :
  world_ok w → heap w !! s = Some sess → wire_ok msg →
  ∃ err w', HandleMessage o s msg w = Ret (err, w') ∧ world_ok w' ∧ grows w w'.
Proof.
  intros Hw Hs Hm. pose proof (world_ok_session _ _ _ Hw Hs) as Hok.
  pose proof (wo_held w Hw) as Hh. unfold HandleMessage.
  destruct (decide (Command msg = CmdSub)); [|destruct (decide (Command msg = CmdUnsub));
    [|destruct (decide (Command msg = CmdPub)); [|destruct (decide (Command msg = CmdPing))]]].
  - rewrite (handleSubscribe_run s msg w sess) by done. eexists _, _. split; [reflexivity|].
    assert (heap (subscribe_world s (Subject msg) sess w) !! s = Some (subscribed s (Subject msg) sess)) as Hs1.
    { unfold subscribe_world, subscribed. case_decide; [done|apply heap_upd]. }
    pose proof (world_ok_subscribe s (Subject msg) sess w Hw Hs) as Hw1. split.
    + eapply world_ok_send; [done..|]. apply SendOK_sends. by eapply world_ok_queue.
    + eapply grows_trans; [|apply grows_send]. unfold subscribe_world.
      case_decide; [by intros x|]. intros x. apply is_Some_upd.
  - rewrite (handleUnsubscribe_run s msg w sess) by done. eexists _, _. split; [reflexivity|].
    pose proof (world_ok_unsubscribe s (Subject msg) sess w Hw Hs) as Hw1. split.
    + eapply world_ok_send; [done|apply heap_upd|]. apply SendOK_sends.
      eapply (world_ok_queue _ s); [done|apply heap_upd].
    + eapply grows_trans; [|apply grows_send]. intros x. apply is_Some_upd.
  - rewrite handlePublish_run by (done || by apply find_sessions_exist).
    eexists _, _. split; [reflexivity|].
    destruct (store_find_ok o (Subject msg) (router w) (wo_router w Hw)) as (Hr & Hp & _).
    split; [|apply (grows_deliver _ _ (set_router _ w))]. apply world_ok_deliver; [by apply relay_frame|].
    by apply world_ok_set_router.
  - rewrite (handlePing_run s w sess) by done. eexists _, _. split; [reflexivity|].
    split; [|apply grows_send]. eapply world_ok_send; [done..|]. apply SendPong_sends, Hok.
  - eexists _, _. split; [reflexivity|]. split; [done|by intros x].
Qed.

Lemma Close_ok o s w sess :
  world_ok w → heap w !! s = Some sess →
  ∃ w' sess', Close o s w = Ret (tt, w') ∧ world_ok w' ∧ grows w w' ∧
    heap w' !! s = Some sess' ∧ closed sess' = true ∧
    (closed sess = false → ∀ p, (p, s) ∉ store_pairs (router w')).
Proof.
  intros Hw Hs. rewrite (Close_run o s w sess) by (done || apply Hw).
  eexists _, _. split_and!; [reflexivity|by apply world_ok_close| |by apply close_world_heap|..].
  - unfold close_world. destruct (closeOnce sess); [by intros x|].
    intros x. apply (is_Some_upd _ _ _ (set_sessions _ (set_router _ w))).
  - destruct (closeOnce sess) eqn:E; [|done].
    destruct (so_flags _ (world_ok_session _ _ _ Hw Hs)) as [-> _]. done.
  - intros Hcl p. destruct (so_flags _ (world_ok_session _ _ _ Hw Hs)) as [Hfl _].
    unfold close_world. rewrite <-Hfl, Hcl. cbn [router upd set_heap set_sessions set_router].
    destruct (store_remove_session_ok o s (router w) (wo_router w Hw)) as [_ ->].
    rewrite elem_of_filter. by intros [? _].
Qed.

Lemma set_input_ok r p sess :
  session_ok sess → (∀ m, p = Holding m → wire_ok m) → (p = Returned → closed sess = true) →
  session_ok (set_input r p sess).
Proof. intros [[] ? ? ? ? ?] Hp Hr. by constructor. Qed.

Lemma reader_handle_ok o s msg w sess :
  world_ok w → heap w !! s = Some sess → wire_ok msg →
  ∃ w', reader_handle o s msg w = Ret (tt, w') ∧ world_ok w' ∧ grows w w'.
Proof.
  intros Hw Hs Hm. unfold reader_handle.
  destruct (HandleMessage_ok o s msg w sess Hw Hs Hm) as (err & w1 & HH & Hw1 & Hg1).
  erewrite bind_run by exact HH. destruct (Hg1 s) as [sess1 Hs1]; [eauto|].
  set (w2 := match err with
             | Some e => send_world s (SendError (str "handle error: " ++ handle_error_text e) sess1) w1
             | None => w1 end).
  assert (world_ok w2 ∧ grows w1 w2) as [Hw2 Hg2].
  { unfold w2. destruct err; [|split; [done|by intros x]]. split; [|apply grows_send].
    eapply world_ok_send; [done..|]. apply SendError_sends. by eapply world_ok_queue. }
  erewrite (bind_run _ _ _ tt w2).
  2: { unfold w2. destruct err; [|done]. by erewrite bind_run by (by apply send_run). }
  destruct (Hg2 s) as [sess2 Hs2]; [eauto|].
  erewrite bind_run by (apply set_lastPing_run; [apply Hw2|exact Hs2]).
  erewrite modify_session_run by apply heap_upd. rewrite upd_upd.
  eexists. split; [reflexivity|]. split.
  - eapply world_ok_upd; [done..| |done|done].
    pose proof (world_ok_session _ _ _ Hw2 Hs2) as Hok2.
    apply (set_input_ok _ AtTop (set_lastPing (now w2) sess2)); [|done..].
    destruct Hok2 as [[] ? ? ? ? ?]. by constructor.
  - eapply grows_trans; [done|]. eapply grows_trans; [done|]. apply grows_upd.
Qed.

Lemma reader_leave_ok o s w sess r :
  world_ok w → heap w !! s = Some sess →
  ∃ w' sess', (Close o s;; modify_session s (set_input r Returned);; removeSession s) w = Ret (tt, w') ∧
    world_ok w' ∧ grows w w' ∧ heap w' !! s = Some sess' ∧ pc sess' = Returned ∧
    (closed sess = false → ∀ p, (p, s) ∉ store_pairs (router w')).
Proof.
  intros Hw Hs. destruct (Close_ok o s w sess Hw Hs) as (w1 & sess1 & HC & Hw1 & Hg1 & Hs1 & Hcl & Hgone).
  erewrite bind_run by exact HC. erewrite bind_run by (by apply modify_session_run).
  assert (world_ok (upd s (set_input r Returned sess1) w1)) as Hw2.
  { eapply world_ok_upd; [done..| |done|done]. apply set_input_ok; [|done..].
    by eapply world_ok_session. }
  rewrite (removeSession_closed s (set_input r Returned sess1)); [|done|apply heap_upd|done].
  eexists _, _. split; [reflexivity|]. split; [done|].
  split; [|split; [apply heap_upd|by split]]. eapply grows_trans; [done|]. apply grows_upd.
Qed.

(** What one turn of polling leaves: the goroutine has returned, or holds the message
    that stood at the front of its input. *)
Definition polled (s : sid) (sess sess' : Session) (w' : World R) : Prop :=
  (pc sess' = Returned ∧ (closed sess = false → ∀ p, (p, s) ∉ store_pairs (router w'))) ∨
  ∃ m, pc sess' = Holding m ∧ wire_ok m ∧ closed sess' = closed sess ∧
       stream (conn_input sess) = Encode m ++ stream (conn_input sess').

Lemma reader_poll_ok o s w sess :
  world_ok w → heap w !! s = Some sess →
  ∃ w', reader_poll o s w = Ret (tt, w') ∧ world_ok w' ∧ grows w w' ∧
    ∃ sess', heap w' !! s = Some sess' ∧ polled s sess sess' w'.
Proof.
  intros Hw Hs. unfold reader_poll. erewrite bind_run by (by apply get_session_run).
  destruct (done sess).
  { destruct (Close_ok o s w sess Hw Hs) as (w1 & sess1 & HC & Hw1 & Hg1 & Hs1 & Hcl & Hgone).
    destruct (reader_leave_ok o s w sess (conn_input sess1) Hw Hs) as (w' & sess' & Hrun & ? & ? & ? & ? & ?).
    exists w'. split_and!; [|done|done|exists sess'; split; [done|by left]]. rewrite <-Hrun, !(bind_run _ _ _ _ _ HC).
    by rewrite !(bind_run _ _ _ _ _ (modify_session_run _ _ _ _ Hs1)). }
  destruct (ParseFromReader_spec (conn_input sess)) as (res & r & HP & _ & Hmsg & _).
  erewrite (bind_run (lift _) _ _ (res, r)) by (unfold lift; by rewrite HP).
  destruct res as [m|e].
  2: { destruct (reader_leave_ok o s w sess r Hw Hs) as (w' & sess' & Hrun & ? & ? & ? & ? & ?).
       exists w'. split_and!; [done..|]. exists sess'. split; [done|by left]. }
  destruct (Hmsg m) as [Hm Hst]; [done|].
  erewrite modify_session_run by done. eexists. split; [reflexivity|]. split_and!; [|apply grows_upd|].
  - eapply world_ok_upd; [done..| |done|done]. apply set_input_ok; [by eapply world_ok_session| |done].
    by intros m' [= <-].
  - eexists. split; [apply heap_upd|]. right. by exists m.
Qed.

Lemma writer_turn_ok o s ok w sess :
  world_ok w → heap w !! s = Some sess →
  ∃ w', writer_turn o s ok w = Ret (tt, w') ∧ world_ok w' ∧ grows w w'.
Proof.
  intros Hw Hs. unfold writer_turn. erewrite bind_run by (by apply get_session_run).
  pose proof (world_ok_session _ _ _ Hw Hs) as Hok.
  destruct (dequeue sess) as [[data sess']|] eqn:Hd; [|by eexists; split; [|split; [|intros x]]].
  pose proof (dequeue_ok _ _ _ (so_queue _ Hok) Hd) as Hq. unfold dequeue in Hd.
  destruct (outChan sess) as [|d q] eqn:Eq; [done|]. injection Hd as -> <-.
  pose proof (so_frames _ Hok) as Hfr. rewrite Eq in Hfr. apply Forall_cons in Hfr as [Hfd Hfr].
  erewrite bind_run by apply put_session_run. destruct ok.
  - erewrite modify_session_run by apply heap_upd. rewrite upd_upd.
    eexists. split; [reflexivity|]. split; [|apply grows_upd].
    eapply world_ok_upd; [done..| |done|done]. destruct Hok as [_ ? ? _ ? ?].
    destruct Hq. constructor; try done. cbn [outChan conn_sent set_sent set_queue].
    rewrite !Forall_app, Forall_singleton in *. tauto.
  - set (sess1 := set_queue q _ sess).
    assert (world_ok (upd s sess1 w)) as Hw1.
    { eapply world_ok_upd; [done..| |done|done]. destruct Hok as [_ ? ? _ ? ?]. by constructor. }
    destruct (Close_ok o s _ sess1 Hw1) as (w' & _ & HC & Hw' & Hg & _); [apply heap_upd|].
    eexists. split; [exact HC|]. split; [done|]. eapply grows_trans; [apply grows_upd|exact Hg].
Qed.
End invariant.

(** ** Steps of the broker's goroutines

    One step is one turn of a loop or one call of the public interface, run to completion;
    turns of different goroutines interleave freely. The write loop may still take a frame
    after [done] is closed, and one more connection may be accepted after [Server.Close]
    began, as [select] and the blocking accept allow. *)
Section steps.
Context {R : Type} `{SubscriptionStore R}.

(** The turns that touch neither the input of a session nor what has been written to it:
    handling a message, a pending [Close], the public interface and the clock. *)
Inductive turn : World R → World R → Prop :=
| turn_handle o s sess msg w w' :
    heap w !! s = Some sess → pc sess = Holding msg →
    reader_handle o s msg w = Ret (tt, w') → turn w w'
| turn_spawned o s l1 l2 w w' :
    spawned w = l1 ++ s :: l2 → Close o s (set_spawned (l1 ++ l2) w) = Ret (tt, w') → turn w w'
| turn_backpressure maxq cap w w' :
    (maxq <= 2 ^ 62)%Z → SetSessionBackpressure maxq cap w = Ret (tt, w') → turn w w'
| turn_write_timeout t w w' : SetSessionWriteTimeout t w = Ret (tt, w') → turn w w'
| turn_clock t w : turn w (set_now t w)
| turn_server_start ok b w w' : server_Start ok w = Ret (b, w') → turn w w'
| turn_server_close o w w' : server_Close o w = Ret (tt, w') → turn w w'.

Inductive step : World R → World R → Prop :=
| step_accept s input w w' :
    heap w !! s = None → accept_one s input w = Ret (tt, w') → step w w'
| step_read o s sess w w' :
    heap w !! s = Some sess → pc sess = AtTop → reader_poll o s w = Ret (tt, w') → step w w'
| step_write o s sess ok w w' :
    heap w !! s = Some sess → outChan sess ≠ [] → writer_turn o s ok w = Ret (tt, w') → step w w'
| step_turn w w' : turn w w' → step w w'.

Definition reachable (w : World R) : Prop := rtc step new_world w.
End steps.

Section reachable.
Context {R : Type} `{SubscriptionStoreLaws R}.
Implicit Types w : World R.

(** [Server.Close] on a server without live sessions. *)
Lemma server_Close_idle o w :
  held w = [] → srv_closeOnce w = false → sessions w = ∅ →
  server_Close o w = Ret (tt, set_listening false (set_srv_closed w)).
Proof.
  intros Hh Ho He. unfold server_Close. erewrite bind_run by reflexivity. rewrite Ho.
  erewrite bind_run by reflexivity. apply with_lock_run; [done| |done].
  erewrite bind_run by reflexivity. cbn [sessions set_held set_srv_closed]. rewrite He, elements_empty.
  assert (visit o ([] : list sid) = []) as -> by (apply Permutation_nil_r, visit_perm). done.
Qed.

Lemma bind_block {A B} (m : M R A) (f : A → M R B) w : m w = Block → (x ← m; f x) w = Block.
Proof. intros Hm. unfold mbind, M_bind. by rewrite Hm. Qed.

(** [Session.Close] called by a goroutine that holds [Server.mu] never returns. *)
Lemma Close_holding_server o s sess w :
  held w = [LServer] → heap w !! s = Some sess → closeOnce sess = false → Close o s w = Block.
Proof.
  intros Hh Hs Ho. unfold Close. erewrite bind_run by (by apply get_session_run). rewrite Ho.
  erewrite bind_run by apply put_session_run.
  erewrite bind_run; [|eapply with_lock_run2; [done|done|reflexivity|by rewrite <-Hh]].
  apply bind_block. unfold removeSession, with_lock. cbn [held set_held].
  by rewrite decide_True by (left || done).
Qed.

(** With a live session it locks [Server.mu] and then waits for it in [removeSession]. *)
Lemma server_Close_live o w :
  world_ok w → srv_closeOnce w = false → sessions w ≠ ∅ → server_Close o w = Block.
Proof.
  intros Hw Ho Hne. pose proof (wo_held w Hw) as Hh.
  unfold server_Close. erewrite bind_run by reflexivity. rewrite Ho.
  erewrite bind_run by reflexivity. unfold with_lock at 1. cbn [held set_srv_closed].
  rewrite Hh, decide_False by apply not_elem_of_nil.
  erewrite bind_run by reflexivity. cbn [sessions set_held set_srv_closed].
  destruct (visit o (elements (sessions w))) as [|s l] eqn:E.
  { destruct Hne. apply leibniz_equiv, elements_empty_inv, Permutation_nil_r. by rewrite <-E, (visit_perm o). }
  assert (s ∈ sessions w) as Hs.
  { apply elem_of_elements. rewrite <-(visit_perm o), E. left. }
  apply (wo_live w Hw) in Hs as (sess & Hs & Hcl).
  destruct (so_flags _ (world_ok_session _ _ _ Hw Hs)) as [Hfl _]. rewrite Hcl in Hfl.
  cbn [for_each]. rewrite bind_block; [done|]. apply bind_block, bind_block.
  by apply (Close_holding_server o s sess).
Qed.

Lemma turn_ok w w' : world_ok w → turn w w' → world_ok w'.
Proof.
  intros Hw Hstep. destruct Hstep as [o s sess msg w w' Hs Hpc Hrun|o s l1 l2 w w' Hsp Hrun
    |maxq cap w w' Hm Hrun|t w w' Hrun|t w|ok b w w' Hrun|o w w' Hrun].
  - destruct (reader_handle_ok o s msg w sess Hw Hs) as (w2 & E & ? & _).
    + by apply (so_pc sess (world_ok_session _ _ _ Hw Hs)).
    + rewrite E in Hrun. by simplify_eq.
  - assert (world_ok (set_spawned (l1 ++ l2) w)) as Hw1.
    { destruct Hw as [? ? ? ? ? ? ? Hf]. constructor; try done. simpl.
      rewrite Hsp in Hf. rewrite Forall_app, Forall_cons in Hf. rewrite Forall_app. tauto. }
    assert (is_Some (heap w !! s)) as [sess Hs].
    { pose proof (wo_spawned w Hw) as Hf. rewrite Hsp, Forall_app, Forall_cons in Hf. tauto. }
    destruct (Close_ok o s _ sess Hw1 Hs) as (w2 & _ & E & ? & _).
    rewrite E in Hrun. by simplify_eq.
  - unfold SetSessionBackpressure in Hrun.
    rewrite locked_modify_run in Hrun by (apply Hw || done). simplify_eq.
    destruct Hw. constructor; try done. simpl. by destruct (0 <? maxq)%Z.
  - unfold SetSessionWriteTimeout in Hrun.
    rewrite locked_modify_run in Hrun by (apply Hw || done). simplify_eq. destruct Hw; by constructor.
  - destruct Hw; by constructor.
  - unfold server_Start in Hrun. destruct ok; [|by injection Hrun as <- <-].
    erewrite bind_run in Hrun by reflexivity. injection Hrun as <- <-. destruct Hw; by constructor.
  - destruct (srv_closeOnce w) eqn:Ho.
    + unfold server_Close in Hrun. erewrite bind_run in Hrun by reflexivity.
      rewrite Ho in Hrun. by injection Hrun as <-.
    + destruct (decide (sessions w = ∅)) as [He|He].
      * rewrite server_Close_idle in Hrun by (done || apply Hw). simplify_eq. destruct Hw; by constructor.
      * by rewrite server_Close_live in Hrun.
Qed.

Lemma step_ok w w' : world_ok w → step w w' → world_ok w'.
Proof.
  intros Hw Hstep. destruct Hstep as [s input w w' Hs Hrun|o s sess w w' Hs Hpc Hrun
    |o s sess ok w w' Hs Hq Hrun|w w' Ht].
  - rewrite accept_one_run in Hrun by apply Hw. simplify_eq. by apply world_ok_accept.
  - destruct (reader_poll_ok o s w sess Hw Hs) as (w2 & E & ? & _).
    rewrite E in Hrun. by simplify_eq.
  - destruct (writer_turn_ok o s ok w sess Hw Hs) as (w2 & E & ? & _).
    rewrite E in Hrun. by simplify_eq.
  - by eapply turn_ok.
Qed.

Lemma reachable_ok w : reachable w → world_ok w.
Proof. apply rtc_invariant; [apply step_ok|apply new_world_ok]. Qed.
End reachable.
