(* ===== verification/Broker.v ===== *)
(** * What the broker guarantees

    The theorems about the broker of [Server]: the invariant of every reachable state,
    exact delivery of a publication, the effect of subscribing and closing, and the two
    states from which it does not recover: closing a server with live sessions, and a
    subscription that arrives while its session is being closed. *)

From S2P Require Import Prelude GoStrings GoIO Protocol Subject Router Session Server.

Section broker.
Context {R : Type} `{SubscriptionStoreLaws R}.
Implicit Types w : World R.

(** Sessions that a publication on [subject] concerns. *)
Definition concerned (w : World R) (subject : gostring) (x : sid) : Prop :=
  ∃ p, (p, x) ∈ store_pairs (router w) ∧ store_match p subject = true.

Lemma deliver_lookup fr subs w x :
  NoDup subs →
  heap (deliver fr subs w) !! x =
    if decide (x ∈ subs) then (λ sess, sent_session (SendEncoded fr sess)) <$> heap w !! x
    else heap w !! x.
Proof.
  revert w. induction subs as [|s subs IH]; intros w Hnd; cbn [deliver foldl].
  { by rewrite decide_False by apply not_elem_of_nil. }
  apply NoDup_cons in Hnd as [Hs Hnd]. fold (deliver fr subs (deliver_one fr w s)).
  rewrite IH by done. unfold deliver_one. destruct (decide (x = s)) as [->|Hne].
  - rewrite decide_False, decide_True by (done || left).
    destruct (heap w !! s) as [sess|] eqn:E; [|done].
    by rewrite send_world_heap, lookup_insert_eq.
  - assert (heap (match heap w !! s with
            | Some sess => send_world s (SendEncoded fr sess) w | None => w end) !! x = heap w !! x) as ->.
    { destruct (heap w !! s); [|done]. by rewrite send_world_heap, lookup_insert_ne. }
    destruct (decide (x ∈ subs)).
    + by rewrite decide_True by by right.
    + rewrite decide_False; [done|]. by rewrite not_elem_of_cons.
Qed.

Lemma deliver_router fr subs w : router (deliver fr subs w) = router w.
Proof.
  revert w. induction subs as [|s subs IH]; intros w; [done|]. cbn [deliver foldl].
  fold (deliver fr subs (deliver_one fr w s)). rewrite IH. unfold deliver_one. destruct (heap w !! s); [apply send_world_router|done].
Qed.

(** A frame the parser could have produced is never refused for its size. *)
Lemma SendEncoded_good fr sess : good_frame fr → SendEncoded fr sess = enqueueEncoded fr sess.
Proof.
  intros Hfr%good_frame_len. unfold SendEncoded, enqueueEncoded. destruct (closed sess); [done|].
  by rewrite (proj2 (Z.ltb_ge _ _)).
Qed.
(** [GetStats] takes the locks one inside the other and reports the open sessions, the
    router's subject count and the number of registered pairs. *)
Lemma GetStats_run w o :
  world_ok w →
  GetStats o w = Ret (mkStats (Z.of_nat (size (sessions w))) (store_subject_count (router w))
                        (Z.of_nat (size (store_pairs (router w)))), w).
Proof.
  intros Hw. unfold GetStats. apply with_lock_run; [apply Hw| |apply Hw].
  erewrite bind_run by reflexivity.
  erewrite bind_run by (eapply with_lock_run2; [reflexivity|done|reflexivity|reflexivity]).
  erewrite bind_run by (eapply with_lock_run2; [reflexivity|done|reflexivity|reflexivity]).
  cbn [router set_held sessions]. rewrite store_total_ok by apply Hw. done.
Qed.

(** Room in the output queue of a session for frame [fr]. *)
Definition has_room (fr : list byte) (sess : Session) : Prop :=
  closed sess = false ∧ (queuedBytes sess + len fr <= maxQueuedBytes sess)%Z ∧
  (len (outChan sess) < outCap sess)%Z.

Lemma enqueue_room fr sess :
  queue_ok sess → good_frame fr → has_room fr sess →
  enqueueEncoded fr sess =
    mkSent None (set_queue (outChan sess ++ [fr]) (queuedBytes sess + len fr) sess) false.
Proof.
  intros Hq Hfr (Hcl & Hmax & Hcap). rewrite enqueueEncoded_cases by (done || by apply good_frame_width).
  by rewrite Hcl, (proj2 (Z.ltb_ge _ _)), (proj2 (Z.ltb_lt _ _)) by done.
Qed.

(** Without room nothing is queued, and an open session is told to close. *)
Lemma enqueue_no_room fr sess :
  queue_ok sess → good_frame fr → ¬ has_room fr sess →
  sent_session (enqueueEncoded fr sess) = sess ∧
  sent_err (enqueueEncoded fr sess) ≠ None ∧
  sent_close (enqueueEncoded fr sess) = negb (closed sess).
Proof.
  intros Hq Hfr Hno. rewrite enqueueEncoded_cases by (done || by apply good_frame_width).
  destruct (closed sess) eqn:Hcl; [done|].
  destruct (Z.ltb_spec (maxQueuedBytes sess) (queuedBytes sess + len fr)); [done|].
  destruct (Z.ltb_spec (len (outChan sess)) (outCap sess)); [|done].
  destruct Hno. by split_and!.
Qed.

(** The OK frame that answers a command. *)
Definition ok_frame (text : gostring) : list byte :=
  Encode (NewMessageCmd CmdOk (truncateUTF8 text MaxSubjectLen) []).

Lemma SendOK_open text sess : closed sess = false → SendOK text sess = enqueueEncoded (ok_frame text) sess.
Proof. intros Hcl. unfold SendOK. by rewrite Hcl. Qed.

(** In a well-formed world an open session's list and the router agree. *)
Lemma open_pairs w s sess p :
  world_ok w → heap w !! s = Some sess → closed sess = false →
  p ∈ subjects sess ↔ (p, s) ∈ store_pairs (router w).
Proof.
  intros Hw Hs Hcl. split; [by eapply wo_subjects|].
  intros Hp. destruct (wo_pairs w Hw p s Hp) as (y & Hy & ?). congruence.
Qed.

Lemma subscribe_world_heap s p sess w :
  heap w !! s = Some sess → heap (subscribe_world s p sess w) !! s = Some (subscribed s p sess).
Proof.
  intros Hs. unfold subscribe_world, subscribed. case_decide; [done|apply heap_upd].
Qed.
Lemma subscribe_world_heap_ne s x p sess w :
  x ≠ s → heap (subscribe_world s p sess w) !! x = heap w !! x.
Proof. intros Hne. unfold subscribe_world. case_decide; [done|]. by apply heap_upd_ne. Qed.

Lemma subscribe_world_pairs s p sess w :
  world_ok w → heap w !! s = Some sess → closed sess = false →
  store_pairs (router (subscribe_world s p sess w)) = {[(p, s)]} ∪ store_pairs (router w).
Proof.
  intros Hw Hs Hcl. pose proof (open_pairs w s sess p Hw Hs Hcl) as Hp. unfold subscribe_world.
  case_decide as Hin.
  - apply Hp in Hin. set_solver.
  - apply store_subscribe_ok; [apply Hw|]. by rewrite <-Hp.
Qed.

Lemma subscribed_same s p sess :
  closed (subscribed s p sess) = closed sess ∧ outChan (subscribed s p sess) = outChan sess ∧
  ∀ fr, has_room fr (subscribed s p sess) ↔ has_room fr sess.
Proof. unfold subscribed. by case_decide. Qed.

(** Publishing in terms of single sessions. *)
Lemma handlePublish_effect w o msg :
  world_ok w → wire_ok msg →
  let fr := Encode (NewMessageCmd CmdMsg (Subject msg) (Payload msg)) in
  ∃ w', handlePublish o msg w = Ret (None, w') ∧
    store_pairs (router w') = store_pairs (router w) ∧
    ∀ x sess, heap w !! x = Some sess →
      (concerned w (Subject msg) x → heap w' !! x = Some (sent_session (enqueueEncoded fr sess))) ∧
      (¬ concerned w (Subject msg) x → heap w' !! x = Some sess).
Proof.
  intros Hw Hm fr. rewrite handlePublish_run by (apply Hw || by apply find_sessions_exist).
  eexists. split; [reflexivity|]. fold fr. rewrite deliver_router. cbn [router set_router].
  destruct (store_find_ok o (Subject msg) (router w) (wo_router w Hw)) as (_ & Hp & Hnd & Hel).
  split; [done|]. intros x sess Hx. rewrite deliver_lookup by done. cbn [heap set_router].
  rewrite Hx. cbn [fmap option_fmap option_map]. rewrite SendEncoded_good by by apply relay_frame. split.
  - intros Hc. by rewrite decide_True by by apply Hel.
  - intros Hc. rewrite decide_False; [done|]. by rewrite Hel.
Qed.

(** [UNSUB] on any session. *)
Lemma handleUnsubscribe_result w s sess msg :
  world_ok w → heap w !! s = Some sess →
  ∃ w' sess', handleUnsubscribe s msg w = Ret (None, w') ∧ world_ok w' ∧ heap w' !! s = Some sess' ∧
    (∀ x, x ≠ s → heap w' !! x = heap w !! x) ∧
    store_pairs (router w') = store_pairs (router w) ∖ {[(Subject msg, s)]} ∧
    subjects sess' = filter (λ p, p ≠ Subject msg) (subjects sess).
Proof.
  intros Hw Hs. rewrite (handleUnsubscribe_run s msg w sess) by (done || apply Hw).
  pose proof (world_ok_unsubscribe s (Subject msg) sess w Hw Hs) as Hw1. revert Hw1.
  set (sess1 := set_subjects _ sess). intros Hw1.
  assert (queue_ok sess1) as Hok by (eapply world_ok_queue; [exact Hw1|apply heap_upd]).
  pose proof (SendOK_sends (str "unsubscribed from " ++ Subject msg) sess1 Hok) as Hsend.
  destruct (sends_same _ _ Hsend) as [Hsub _].
  eexists _, _. split_and!; [reflexivity| |by rewrite send_world_heap, lookup_insert_eq| | |by rewrite Hsub].
  - eapply world_ok_send; [exact Hw1|apply heap_upd|done].
  - intros x Hx. rewrite send_world_heap, lookup_insert_ne by done. by apply heap_upd_ne.
  - rewrite send_world_router. apply store_unsubscribe_ok, Hw.
Qed.

(** An accepted subscription, with room for the acknowledgement. *)
Lemma handleSubscribe_ack w s sess msg :
  world_ok w → heap w !! s = Some sess → closed sess = false →
  has_room (ok_frame (str "subscribed to " ++ Subject msg)) sess →
  ∃ w' sess', handleSubscribe s msg w = Ret (None, w') ∧ heap w' !! s = Some sess' ∧
    store_pairs (router w') = {[(Subject msg, s)]} ∪ store_pairs (router w) ∧
    outChan sess' = outChan sess ++ [ok_frame (str "subscribed to " ++ Subject msg)].
Proof.
  intros Hw Hs Hcl Hr. rewrite (handleSubscribe_run s msg w sess) by (done || apply Hw).
  destruct (subscribed_same s (Subject msg) sess) as (Hcl1 & Hq1 & Hroom).
  assert (queue_ok (subscribed s (Subject msg) sess)) as Hok.
  { eapply world_ok_queue; [by apply (world_ok_subscribe s (Subject msg) sess w)|by apply subscribe_world_heap]. }
  eexists _, _. split_and!; [reflexivity|by rewrite send_world_heap, lookup_insert_eq| |].
  - rewrite send_world_router. by apply subscribe_world_pairs.
  - rewrite SendOK_open by congruence.
    rewrite enqueue_room by (done || apply response_frame || by apply Hroom).
    cbn [sent_session outChan set_queue]. by rewrite Hq1.
Qed.

Lemma handleSubscribe_result w w1 s sess msg :
  world_ok w → heap w !! s = Some sess → closed sess = false →
  handleSubscribe s msg w = Ret (None, w1) →
  world_ok w1 ∧ is_Some (heap w1 !! s) ∧
  store_pairs (router w1) = {[(Subject msg, s)]} ∪ store_pairs (router w).
Proof.
  intros Hw Hs Hcl. rewrite (handleSubscribe_run s msg w sess) by (done || apply Hw).
  intros [= <-]. split_and!.
  - eapply world_ok_send; [by apply world_ok_subscribe|by apply subscribe_world_heap|].
    apply SendOK_sends. eapply world_ok_queue; [by apply world_ok_subscribe|by apply subscribe_world_heap].
  - rewrite send_world_heap, lookup_insert_eq. eauto.
  - rewrite send_world_router. by apply subscribe_world_pairs.
Qed.
End broker.

(** C5: in every state the broker can reach, under any interleaving of connections,
    messages, write results, closings and reconfigurations and any map iteration order: no
    mutex is left locked; a pattern is registered for an open session iff the session's own
    list has it, and no pair is registered for an unknown session; [Server.sessions] is
    exactly the set of open sessions; every session's byte counter is the size of its queue
    and within its limits; every frame queued or written is one the peer's parser
    accepts. It holds for any router that keeps the [SubscriptionStore] promises. *)
Theorem reachable_world_ok {R} `{SubscriptionStoreLaws R} (w : World R) :
  reachable w → world_ok w.
Proof. apply reachable_ok. Qed.

(** A broker with two connections, and the subscription of the second. *)
Definition sub_msg (p : gostring) : Message := NewMessageCmd CmdSub p [].
Definition one_connection : World Router := accept_world 1 [RChunk (Encode (sub_msg (str "a.>")))] new_world.

Lemma one_connection_reachable : reachable one_connection.
Proof.
  apply rtc_once, (step_accept 1 [RChunk (Encode (sub_msg (str "a.>")))]); [done|].
  by apply accept_one_run.
Qed.

Lemma reachable_world_ok_witness : reachable one_connection ∧ world_ok one_connection.
Proof. split; [apply one_connection_reachable|]. apply (reachable_world_ok one_connection), one_connection_reachable. Defined.

(** No handler gets stuck: in every reachable state, the turn of a read loop (reading,
    or handling the message it holds), of a write loop and any pending [Close] run to
    their end, without panic and without waiting for a mutex held by their own goroutine,
    into a state that satisfies the invariant again. *)
Theorem broker_turns_return {R} `{SubscriptionStoreLaws R} (w : World R) o s sess :
  reachable w → heap w !! s = Some sess →
  (∃ w', reader_poll o s w = Ret (tt, w') ∧ world_ok w') ∧
  (∀ msg, pc sess = Holding msg → ∃ w', reader_handle o s msg w = Ret (tt, w') ∧ world_ok w') ∧
  (∀ ok, ∃ w', writer_turn o s ok w = Ret (tt, w') ∧ world_ok w') ∧
  (∃ w', Close o s w = Ret (tt, w') ∧ world_ok w' ∧ s ∉ sessions w').
Proof.
  intros Hw%reachable_ok Hs. split_and!.
  - destruct (reader_poll_ok o s w sess Hw Hs) as (w' & ? & ? & _). eauto.
  - intros msg Hpc. destruct (reader_handle_ok o s msg w sess Hw Hs) as (w' & ? & ? & _); [|eauto].
    by apply (so_pc sess (world_ok_session _ _ _ Hw Hs)).
  - intros ok. destruct (writer_turn_ok o s ok w sess Hw Hs) as (w' & ? & ? & _). eauto.
  - destruct (Close_ok o s w sess Hw Hs) as (w' & sess' & ? & Hw' & _ & Hs' & Hcl & _).
    exists w'. split_and!; [done..|]. rewrite (wo_live w' Hw'). intros (y & ? & ?). congruence.
Qed.

Lemma broker_turns_return_witness :
  ∃ sess, heap one_connection !! 1%nat = Some sess ∧
    ∃ w', reader_poll in_order 1 one_connection = Ret (tt, w') ∧ world_ok w'.
Proof.
  eexists. split; [apply heap_upd|].
  refine (proj1 (broker_turns_return one_connection in_order 1 _ _ _)).
  - apply one_connection_reachable.
  - apply heap_upd.
Defined.

(** C12: exact delivery. Publishing a message read from a connection enqueues the frame
    [MSG subject payload] exactly once on every session that holds a matching pattern,
    however many of its patterns match, and on no other session; the frame is the encoding
    of the published subject and payload, is never too large to send, and an open session
    with room for it has it appended to its queue with the counter raised by its size. *)
Theorem handlePublish_delivers {R} `{SubscriptionStoreLaws R} (w : World R) o msg :
  world_ok w → wire_ok msg →
  let fr := Encode (NewMessageCmd CmdMsg (Subject msg) (Payload msg)) in
  ∃ w', handlePublish o msg w = Ret (None, w') ∧
    store_pairs (router w') = store_pairs (router w) ∧
    ∀ x sess, heap w !! x = Some sess →
      (concerned w (Subject msg) x → heap w' !! x = Some (sent_session (enqueueEncoded fr sess))) ∧
      (¬ concerned w (Subject msg) x → heap w' !! x = Some sess) ∧
      (closed sess = false → (queuedBytes sess + len fr <= maxQueuedBytes sess)%Z →
       (len (outChan sess) < outCap sess)%Z →
       outChan (sent_session (enqueueEncoded fr sess)) = outChan sess ++ [fr] ∧
       queuedBytes (sent_session (enqueueEncoded fr sess)) = (queuedBytes sess + len fr)%Z).
Proof.
  intros Hw Hm fr. destruct (handlePublish_effect w o msg Hw Hm) as (w' & Hrun & Hp & Hx).
  exists w'. split_and!; [done..|]. intros x sess Hs. destruct (Hx x sess Hs) as [H1 H2].
  split_and!; [done..|]. intros Hcl Hmax Hcap.
  by rewrite enqueue_room by (done || by eapply world_ok_queue || by apply relay_frame).
Qed.

(** The session of [one_connection], subscribed to two patterns. *)
Definition lone_session : Session := default (NewSession [] 0 0 0 0) (heap one_connection !! 1%nat).
Definition one_subscribed : World Router := subscribe_world 1 (str "a.>") lone_session one_connection.
Definition twice_subscribed : World Router :=
  subscribe_world 1 (str "a.*") (subscribed 1 (str "a.>") lone_session) one_subscribed.

(** A publication that both patterns match is queued once. *)
Lemma handlePublish_delivers_witness :
  ∃ w' sess', handlePublish in_order (NewMessageCmd CmdPub (str "a.b") (str "x")) twice_subscribed = Ret (None, w') ∧
    heap w' !! 1%nat = Some sess' ∧
    outChan sess' = [Encode (NewMessageCmd CmdMsg (str "a.b") (str "x"))].
Proof.
  assert (heap one_connection !! 1%nat = Some lone_session) as H0 by (vm_compute; reflexivity).
  assert (heap one_subscribed !! 1%nat = Some (subscribed 1 (str "a.>") lone_session)) as H1
    by (by apply subscribe_world_heap).
  assert (world_ok twice_subscribed) as Hw.
  { repeat apply world_ok_subscribe; try done. apply reachable_ok, one_connection_reachable. }
  destruct (handlePublish_delivers twice_subscribed in_order (NewMessageCmd CmdPub (str "a.b") (str "x")) Hw)
    as (w' & Hrun & _ & Hx); [split; vm_compute; discriminate|].
  destruct (Hx 1%nat _ (subscribe_world_heap 1 (str "a.*") _ one_subscribed H1)) as (Hin & _ & Hroom).
  eexists w', _. split; [exact Hrun|]. split.
  - apply Hin. exists (str "a.*"). split; [|vm_compute; reflexivity].
    unfold twice_subscribed. rewrite subscribe_world_pairs; [set_solver| |done|vm_compute; reflexivity].
    apply world_ok_subscribe; [apply reachable_ok, one_connection_reachable|done].
  - destruct Hroom as [Hq _]; [vm_compute; done..|]. rewrite Hq. vm_compute. reflexivity.
Defined.

(** C20: the effect of [SUB] on an open session: exactly the pair (pattern, session) is
    added to the router (nothing when it was there), the session lists the pattern once,
    the acknowledgement is appended to its own queue when there is room and otherwise the
    session is told to close; no other session changes. *)
Theorem handleSubscribe_registers {R} `{SubscriptionStoreLaws R} (w : World R) s sess msg :
  world_ok w → heap w !! s = Some sess → closed sess = false →
  let ack := ok_frame (str "subscribed to " ++ Subject msg) in
  ∃ w' sess', handleSubscribe s msg w = Ret (None, w') ∧ world_ok w' ∧
    heap w' !! s = Some sess' ∧ (∀ x, x ≠ s → heap w' !! x = heap w !! x) ∧
    store_pairs (router w') = {[(Subject msg, s)]} ∪ store_pairs (router w) ∧
    subjects sess' = subjects sess ++ (if decide (Subject msg ∈ subjects sess) then [] else [Subject msg]) ∧
    (has_room ack sess → outChan sess' = outChan sess ++ [ack] ∧ spawned w' = spawned w) ∧
    (¬ has_room ack sess → outChan sess' = outChan sess ∧ spawned w' = spawned w ++ [s]).
Proof.
  intros Hw Hs Hcl ack. rewrite (handleSubscribe_run s msg w sess) by (done || apply Hw).
  set (sess1 := subscribed s (Subject msg) sess). set (w1 := subscribe_world s (Subject msg) sess w).
  assert (world_ok w1) as Hw1 by (by apply world_ok_subscribe).
  assert (heap w1 !! s = Some sess1) as Hs1 by (by apply subscribe_world_heap).
  destruct (subscribed_same s (Subject msg) sess) as (Hcl1 & Hq1 & Hroom). fold sess1 in Hcl1, Hq1, Hroom.
  assert (queue_ok sess1) as Hok by (by eapply world_ok_queue).
  assert (good_frame ack) as Hack by apply response_frame.
  assert (spawned w1 = spawned w) as Hsp by (unfold w1, subscribe_world; by case_decide).
  destruct (sends_same _ _ (SendOK_sends (str "subscribed to " ++ Subject msg) sess1 Hok)) as [Hsub _].
  eexists _, _. split_and!; [reflexivity| |by rewrite send_world_heap, lookup_insert_eq|..].
  - eapply world_ok_send; [done..|]. by apply SendOK_sends.
  - intros x Hx. rewrite send_world_heap, lookup_insert_ne by done. by apply subscribe_world_heap_ne.
  - rewrite send_world_router. by apply subscribe_world_pairs.
  - rewrite Hsub. unfold sess1, subscribed. case_decide; [by rewrite app_nil_r|done].
  - intros Hr. rewrite SendOK_open, enqueue_room by (done || congruence || by apply Hroom).
    by rewrite <-Hsp, <-Hq1.
  - intros Hr. rewrite <-Hroom in Hr. rewrite SendOK_open by congruence.
    destruct (enqueue_no_room ack sess1 Hok Hack Hr) as (E & _ & Hclose). fold ack. rewrite E. split; [done|].
    unfold send_world. fold ack. rewrite Hclose, Hcl1, Hcl. cbn. by rewrite Hsp.
Qed.

Lemma handleSubscribe_registers_witness :
  ∃ sess, heap one_connection !! 1%nat = Some sess ∧
  ∃ w', handleSubscribe 1 (sub_msg (str "a.>")) one_connection = Ret (None, w') ∧
    store_pairs (router w') = {[(str "a.>", 1%nat)]} ∪ store_pairs (router one_connection).
Proof.
  eexists. split; [apply heap_upd|].
  destruct (handleSubscribe_registers one_connection 1 (NewSession [RChunk (Encode (sub_msg (str "a.>")))] 0 1024 (32 * 1024 * 1024) (5 * second)) (sub_msg (str "a.>")))
    as (w' & sess' & Hrun & _ & _ & _ & Hp & _).
  - apply reachable_ok, one_connection_reachable.
  - apply heap_upd.
  - reflexivity.
  - exists w'. split; [exact Hrun|exact Hp].
Defined.

(** the effect of [UNSUB]: the pair leaves the router and the pattern the session's
    list, every other pair and session stays; after a [SUB] of a new pattern it restores
    the table that was there before. *)
Theorem handleUnsubscribe_unregisters {R} `{SubscriptionStoreLaws R} (w : World R) s sess msg :
  world_ok w → heap w !! s = Some sess → closed sess = false →
  ∃ w' sess', handleUnsubscribe s msg w = Ret (None, w') ∧ world_ok w' ∧
    heap w' !! s = Some sess' ∧ (∀ x, x ≠ s → heap w' !! x = heap w !! x) ∧
    store_pairs (router w') = store_pairs (router w) ∖ {[(Subject msg, s)]} ∧
    subjects sess' = filter (λ p, p ≠ Subject msg) (subjects sess) ∧
    (Subject msg ∉ subjects sess → ∀ w1, handleSubscribe s msg w = Ret (None, w1) →
     ∃ w2, handleUnsubscribe s msg w1 = Ret (None, w2) ∧
       store_pairs (router w2) = store_pairs (router w)).
Proof.
  intros Hw Hs Hcl.
  destruct (handleUnsubscribe_result w s sess msg Hw Hs) as (w' & sess' & Hrun & Hw' & Hs' & Hother & Hp & Hsub).
  exists w', sess'. split_and!; [done..|]. intros Hnew v Hv.
  destruct (handleSubscribe_result w v s sess msg) as (Hok1 & [y Hy] & Hp1); [done..|].
  destruct (handleUnsubscribe_result v s y msg Hok1 Hy) as (v' & _ & Hrun2 & _ & _ & _ & Hp2 & _).
  exists v'. split; [done|]. rewrite Hp2, Hp1. rewrite (open_pairs w) in Hnew by done. set_solver.
Qed.

Lemma handleUnsubscribe_unregisters_witness :
  ∃ w', handleUnsubscribe 1 (sub_msg (str "a.>")) one_connection = Ret (None, w') ∧
    store_pairs (router w') = store_pairs (router one_connection) ∖ {[(str "a.>", 1%nat)]}.
Proof.
  destruct (handleUnsubscribe_unregisters one_connection 1 (NewSession [RChunk (Encode (sub_msg (str "a.>")))] 0 1024 (32 * 1024 * 1024) (5 * second)) (sub_msg (str "a.>")))
    as (w' & sess' & Hrun & _ & _ & _ & Hp & _).
  - apply reachable_ok, one_connection_reachable.
  - apply heap_upd.
  - reflexivity.
  - exists w'. split; [exact Hrun|exact Hp].
Defined.

(** C21: closing a session removes all its pairs from the router and nothing else, takes it
    out of [Server.sessions], closes its connection and its [done] channel, and leaves the
    other sessions as they were; closing it again changes nothing, and afterwards no send
    on it is accepted and no publication reaches it. *)
Theorem Close_session_tears_down {R} `{SubscriptionStoreLaws R} (w : World R) o o' s sess :
  world_ok w → heap w !! s = Some sess → closed sess = false →
  ∃ w' sess', Close o s w = Ret (tt, w') ∧ world_ok w' ∧ heap w' !! s = Some sess' ∧
    store_pairs (router w') = filter (λ ps, ps.2 ≠ s) (store_pairs (router w)) ∧
    sessions w' = sessions w ∖ {[s]} ∧ (∀ x, x ≠ s → heap w' !! x = heap w !! x) ∧
    closed sess' = true ∧ done sess' = true ∧ conn_closed sess' = true ∧
    outChan sess' = outChan sess ∧ Close o' s w' = Ret (tt, w') ∧
    (∀ fr, SendEncoded fr sess' = refuse ErrSessionClosed sess') ∧
    (∀ subject, s ∉ (store_find o' subject (router w')).1).
Proof.
  intros Hw Hs Hcl. destruct (so_flags _ (world_ok_session _ _ _ Hw Hs)) as [Hfl _].
  rewrite (Close_run o s w sess) by (done || apply Hw).
  pose proof (world_ok_close o s sess w Hw Hs) as Hw'. pose proof (close_world_heap o s sess w Hs) as Hs'.
  destruct (store_remove_session_ok o s (router w) (wo_router w Hw)) as [_ Hp].
  eexists _, _. split; [reflexivity|]. split; [done|]. split; [exact Hs'|].
  rewrite (Close_run o' s _ _ (wo_held _ Hw') Hs'). revert Hw' Hs'. unfold close_world.
  rewrite <-Hfl, Hcl. intros Hw' Hs'. split_and!; try done.
  - intros x Hx. by apply (heap_upd_ne _ _ _ (set_sessions _ (set_router _ w))).
  - intros subject Hin. destruct (store_find_ok o' subject _ (wo_router _ Hw')) as (_ & _ & _ & Hel).
    apply Hel in Hin as (p & Hin & _). cbn [router upd set_heap set_sessions set_router] in Hin.
    rewrite Hp in Hin. apply elem_of_filter in Hin as [Hne _]. done.
Qed.

Lemma Close_session_tears_down_witness :
  ∃ w', Close in_order 1 one_connection = Ret (tt, w') ∧ sessions w' = sessions one_connection ∖ {[1%nat]}.
Proof.
  destruct (Close_session_tears_down one_connection in_order reversed 1 (NewSession [RChunk (Encode (sub_msg (str "a.>")))] 0 1024 (32 * 1024 * 1024) (5 * second)))
    as (w' & sess' & Hrun & _ & _ & _ & Hp & _).
  - apply reachable_ok, one_connection_reachable.
  - apply heap_upd.
  - reflexivity.
  - exists w'. split; [exact Hrun|exact Hp].
Defined.

(** [Server.Close] with a live session deadlocks: it takes [Server.mu] and each
    [session.Close] then waits for it in [removeSession]. Without live sessions it stops
    the listener, and a second call returns at once. *)
Theorem server_Close_deadlocks {R} `{SubscriptionStoreLaws R} (w : World R) o :
  world_ok w → srv_closeOnce w = false →
  (sessions w ≠ ∅ → server_Close o w = Block) ∧
  (sessions w = ∅ → ∃ w', server_Close o w = Ret (tt, w') ∧ listening w' = false ∧
     srv_done w' = true ∧ ∀ o', server_Close o' w' = Ret (tt, w')).
Proof.
  intros Hw Ho. split; [by apply server_Close_live|].
  intros He. rewrite server_Close_idle by (done || apply Hw). by eexists.
Qed.

Lemma server_Close_deadlocks_witness :
  sessions one_connection ≠ ∅ ∧ server_Close in_order one_connection = Block.
Proof.
  assert (sessions one_connection ≠ ∅) as Hne by (vm_compute; discriminate).
  split; [exact Hne|].
  apply (server_Close_deadlocks one_connection in_order); [|reflexivity|exact Hne].
  apply reachable_ok, one_connection_reachable.
Defined.

(** A subscription handled after its session was closed (the read loop tests [done]
    only between messages, and a write error or a full queue closes a session from another
    goroutine) registers the closed session, and no later [Close] takes it out: the pair
    stays in the router. *)
Theorem closed_session_leaks {R} `{SubscriptionStoreLaws R} (w : World R) o o' s sess msg :
  world_ok w → heap w !! s = Some sess → closed sess = true → pc sess = Holding msg →
  Command msg = CmdSub → Subject msg ∉ subjects sess →
  ∃ w', reader_handle o s msg w = Ret (tt, w') ∧ (Subject msg, s) ∈ store_pairs (router w') ∧
    (s ∉ sessions w') ∧ Close o' s w' = Ret (tt, w').
Proof.
  intros Hw Hs Hcl Hpc Hcmd Hnew. pose proof (wo_held w Hw) as Hh.
  pose proof (world_ok_session _ _ _ Hw Hs) as Hok. destruct (so_flags _ Hok) as [Hfl _].
  unfold reader_handle, HandleMessage. rewrite decide_True by done.
  erewrite bind_run by (by apply handleSubscribe_run).
  pose proof (subscribe_world_heap s (Subject msg) sess w Hs) as Hs1.
  assert (subscribed s (Subject msg) sess = set_subjects (subjects sess ++ [Subject msg]) sess) as E
    by (unfold subscribed; by rewrite decide_False).
  assert (SendOK (str "subscribed to " ++ Subject msg) (subscribed s (Subject msg) sess)
          = refuse ErrSessionClosed (subscribed s (Subject msg) sess)) as ->.
  { unfold SendOK. by rewrite (proj1 (subscribed_same _ _ _)), Hcl. }
  set (w1 := send_world s _ _).
  assert (w1 = subscribe_world s (Subject msg) sess w) as -> by (by apply upd_id).
  assert (world_ok (subscribe_world s (Subject msg) sess w)) as Hw1 by (by apply world_ok_subscribe).
  erewrite bind_run by reflexivity.
  erewrite bind_run by (apply set_lastPing_run; [apply Hw1|exact Hs1]).
  erewrite modify_session_run by apply heap_upd. rewrite upd_upd.
  eexists. split; [reflexivity|]. split_and!.
  - cbn [router upd set_heap]. unfold subscribe_world. rewrite decide_False by done. cbn [router set_router].
    destruct (store_subscribe_ok (Subject msg) s (router w) (wo_router w Hw)) as [_ ->]; [|set_solver].
    intros Hin. destruct (wo_pairs w Hw _ _ Hin) as (y & ? & ?). congruence.
  - cbn [sessions upd set_heap]. rewrite (wo_live _ Hw1). intros (y & Hy & Hcly).
    rewrite Hs1 in Hy. injection Hy as <-. rewrite (proj1 (subscribed_same _ _ _)) in Hcly. congruence.
  - erewrite Close_run; [|apply Hw1|apply heap_upd]. unfold close_world.
    rewrite E. cbn. by rewrite <-Hfl, Hcl.
Qed.

(** A reachable instance: the second of two [SUB] messages has been read when writing the
    first acknowledgement fails. *)
Definition after {A} (m : M Router A) (w : World Router) : World Router :=
  match m w with Ret (_, w') => w' | _ => w end.
Definition two_subs : World Router :=
  accept_world 1 [RChunk (Encode (sub_msg (str "a"))); RChunk (Encode (sub_msg (str "b")))] new_world.
Definition read_one : World Router := after (reader_poll in_order 1) two_subs.
Definition handled_one : World Router := after (reader_handle in_order 1 (sub_msg (str "a"))) read_one.
Definition read_two : World Router := after (reader_poll in_order 1) handled_one.
Definition closed_while_holding : World Router := after (writer_turn in_order 1 false) read_two.

Lemma closed_while_holding_reachable : reachable closed_while_holding.
Proof.
  apply (rtc_r _ read_two); [apply (rtc_r _ handled_one); [apply (rtc_r _ read_one);
    [apply (rtc_r _ two_subs); [apply rtc_once|]|]|]|].
  - apply (step_accept 1 [RChunk (Encode (sub_msg (str "a"))); RChunk (Encode (sub_msg (str "b")))]);
      [reflexivity|by apply accept_one_run].
  - eapply (step_read in_order 1); [vm_compute; reflexivity..].
  - eapply step_turn, (turn_handle in_order 1 _ (sub_msg (str "a"))); [vm_compute; reflexivity..].
  - eapply (step_read in_order 1); [vm_compute; reflexivity..].
  - eapply (step_write in_order 1 _ false); [vm_compute; reflexivity|vm_compute; discriminate|vm_compute; reflexivity].
Qed.

Definition holding_session : Session :=
  default (NewSession [] 0 0 0 0) (heap closed_while_holding !! 1%nat).

Lemma closed_session_leaks_witness :
  ∃ w', reader_handle in_order 1 (sub_msg (str "b")) closed_while_holding = Ret (tt, w') ∧
    (str "b", 1%nat) ∈ store_pairs (router w') ∧ 1%nat ∉ sessions w'.
Proof.
  destruct (closed_session_leaks closed_while_holding in_order in_order 1 holding_session (sub_msg (str "b")))
    as (w' & Hrun & Hin & Hout & _).
  - apply reachable_ok, closed_while_holding_reachable.
  - vm_compute. reflexivity.
  - vm_compute. reflexivity.
  - vm_compute. reflexivity.
  - reflexivity.
  - assert (subjects holding_session = [str "a"]) as -> by (vm_compute; reflexivity).
    intros H%list_elem_of_singleton. discriminate.
  - exists w'. split; [exact Hrun|]. split; [exact Hin|exact Hout].
Defined.
