(* ===== verification/SessionLoop.v ===== *)
(** * The life of a connection ([Session.Start])

    Sequential behaviour of the read loop on a connection that delivers finitely many
    bytes: it handles the messages at the front of the stream and then tears the session
    down. *)

From S2P Require Import Prelude GoStrings GoIO Protocol Subject Router Session Server.

Section loop.
Context {R : Type} `{SubscriptionStoreLaws R}.
Implicit Types w : World R.

(** What handling a message does not touch: the input of every session, and whether it
    is closed. *)
Definition kept (sess : Session) : reader * bool := (conn_input sess, closed sess).
Definition inputs_kept w w' : Prop := ∀ x, kept <$> heap w' !! x = kept <$> heap w !! x.

Lemma inputs_kept_refl w : inputs_kept w w.
Proof. by intros x. Qed.
Lemma inputs_kept_trans w1 w2 w3 : inputs_kept w1 w2 → inputs_kept w2 w3 → inputs_kept w1 w3.
Proof. intros H1 H2 x. by rewrite H2, H1. Qed.

Lemma inputs_kept_upd s sess sess' w :
  heap w !! s = Some sess → kept sess' = kept sess → inputs_kept w (upd s sess' w).
Proof.
  intros Hs Hi x. destruct (decide (s = x)) as [->|Hne].
  - rewrite heap_upd, Hs. cbn [fmap option_fmap option_map]. by rewrite Hi.
  - by rewrite heap_upd_ne.
Qed.

Lemma sends_kept sess r : sends sess r → kept (sent_session r) = kept sess.
Proof. by intros [->|(fr & _ & _ & ->)]. Qed.

Lemma inputs_kept_send s sess r w :
  heap w !! s = Some sess → sends sess r → inputs_kept w (send_world s r w).
Proof.
  intros Hs Hr x. rewrite send_world_heap.
  apply (inputs_kept_upd s sess (sent_session r) w Hs). by apply sends_kept.
Qed.

Lemma inputs_kept_deliver fr subs w :
  good_frame fr → world_ok w → inputs_kept w (deliver fr subs w).
Proof.
  intros Hfr. revert w. induction subs as [|s subs IH]; intros w Hw; [apply inputs_kept_refl|].
  assert (world_ok (deliver_one fr w s)) as Hw1 by (exact (world_ok_deliver fr [s] w Hfr Hw)).
  eapply inputs_kept_trans; [|by apply IH]. unfold deliver_one.
  destruct (heap w !! s) as [sess|] eqn:Hs; [|apply inputs_kept_refl].
  eapply inputs_kept_send; [done|]. apply SendEncoded_sends; [done|]. by eapply (world_ok_queue w).
Qed.

Lemma HandleMessage_inputs o s msg w sess err w' :
  world_ok w → heap w !! s = Some sess → wire_ok msg →
  HandleMessage o s msg w = Ret (err, w') → inputs_kept w w'.
Proof.
  intros Hw Hs Hm. pose proof (wo_held w Hw) as Hh. pose proof (world_ok_queue _ _ _ Hw Hs) as Hq.
  unfold HandleMessage. repeat case_decide.
  - rewrite (handleSubscribe_run s msg w sess) by done. intros [= <- <-].
    assert (inputs_kept w (subscribe_world s (Subject msg) sess w) ∧
            heap (subscribe_world s (Subject msg) sess w) !! s = Some (subscribed s (Subject msg) sess)) as [? ?].
    { unfold subscribe_world, subscribed. case_decide; [by split; [apply inputs_kept_refl|]|].
      split; [|apply heap_upd]. by eapply (inputs_kept_upd s sess). }
    eapply inputs_kept_trans; [done|]. eapply inputs_kept_send; [done|]. apply SendOK_sends.
    eapply (world_ok_queue (subscribe_world s (Subject msg) sess w)); [by apply world_ok_subscribe|done].
  - rewrite (handleUnsubscribe_run s msg w sess) by done. intros [= <- <-].
    pose proof (world_ok_unsubscribe s (Subject msg) sess w Hw Hs) as Hw1. revert Hw1.
    set (sess1 := set_subjects _ sess). intros Hw1.
    eapply inputs_kept_trans; [exact (inputs_kept_upd s sess sess1 w Hs eq_refl)|].
    refine (inputs_kept_send s sess1 _
      (set_router (store_unsubscribe (Subject msg) s (router w)) (upd s sess1 w)) _ _); [apply heap_upd|].
    apply SendOK_sends. eapply world_ok_queue; [exact Hw1|apply heap_upd].
  - rewrite handlePublish_run by (done || by apply find_sessions_exist). intros [= <- <-].
    destruct (store_find_ok o (Subject msg) (router w) (wo_router w Hw)) as (Hr & Hp & _).
    refine (inputs_kept_deliver _ _ (set_router _ w) _ _); [by apply relay_frame|]. by apply world_ok_set_router.
  - rewrite (handlePing_run s w sess) by done. intros [= <- <-].
    eapply inputs_kept_send; [done|]. by apply SendPong_sends.
  - intros [= <- <-]. apply inputs_kept_refl.
Qed.

(** One handled message: the loop is back at its top with the same input. *)
Lemma reader_handle_result o s msg w sess :
  world_ok w → heap w !! s = Some sess → wire_ok msg →
  ∃ w' sess', reader_handle o s msg w = Ret (tt, w') ∧ world_ok w' ∧
    heap w' !! s = Some sess' ∧ pc sess' = AtTop ∧ kept sess' = kept sess.
Proof.
  intros Hw Hs Hm. destruct (reader_handle_ok o s msg w sess Hw Hs Hm) as (w' & Hrun & Hw' & _).
  destruct (HandleMessage_ok o s msg w sess Hw Hs Hm) as (err & w1 & HH & Hw1 & Hg1).
  pose proof (HandleMessage_inputs o s msg w sess err w1 Hw Hs Hm HH s) as Hin1.
  destruct (Hg1 s) as [sess1 Hs1]; [eauto|]. rewrite Hs, Hs1 in Hin1. apply (inj Some) in Hin1.
  revert Hrun. unfold reader_handle. erewrite bind_run by exact HH.
  set (w2 := match err with
             | Some e => send_world s (SendError (str "handle error: " ++ handle_error_text e) sess1) w1
             | None => w1 end).
  assert (held w2 = [] ∧ ∃ sess2, heap w2 !! s = Some sess2 ∧ kept sess2 = kept sess1)
    as [Hh2 (sess2 & Hs2 & Hin2)].
  { unfold w2. destruct err as [e|]; [|split; [apply Hw1|by exists sess1]].
    split; [rewrite send_world_held; apply Hw1|]. rewrite send_world_heap, lookup_insert_eq.
    eexists. split; [done|]. apply sends_kept, SendError_sends. by eapply world_ok_queue. }
  erewrite (bind_run _ _ _ tt w2).
  2: { unfold w2. destruct err; [|done]. by erewrite bind_run by (by apply send_run). }
  erewrite bind_run by (by apply set_lastPing_run).
  erewrite modify_session_run by apply heap_upd. intros [= <-].
  eexists _, _. split_and!; [reflexivity|exact Hw'|apply heap_upd|done|].
  transitivity (kept sess2); [done|congruence].
Qed.

Lemma Start_result fuel o s w sess :
  world_ok w → heap w !! s = Some sess → pc sess = AtTop → closed sess = false →
  (length (stream (conn_input sess)) < fuel)%nat →
  ∃ w' sess', Start fuel o s w = Ret (tt, w') ∧ world_ok w' ∧
    heap w' !! s = Some sess' ∧ pc sess' = Returned ∧ ∀ p, (p, s) ∉ store_pairs (router w').
Proof.
  revert w sess. induction fuel as [|fuel IH]; intros w sess Hw Hs Hpc Hcl Hfuel; [lia|].
  destruct (reader_poll_ok o s w sess Hw Hs) as (w1 & Hrun1 & Hw1 & _ & sess1 & Hs1 & Hpoll).
  cbn [Start]. erewrite bind_run by exact Hrun1. erewrite bind_run by (by apply get_session_run).
  destruct Hpoll as [[Hret Hgone]|(m & Hhold & Hm & Hcl1 & Hst)].
  { rewrite Hret. exists w1, sess1. split_and!; auto. }
  rewrite Hhold. destruct (reader_handle_result o s m w1 sess1 Hw1 Hs1 Hm)
    as (w2 & sess2 & Hrun2 & Hw2 & Hs2 & Hpc2 & Hin2). injection Hin2 as Hin2 Hcl2.
  erewrite bind_run by exact Hrun2. apply (IH w2 sess2); [done..|congruence|].
  rewrite Hst, length_app in Hfuel. rewrite Hin2. pose proof (Encode_nonempty m). lia.
Qed.
End loop.

(** C19: a connection that delivers finitely many bytes is served and torn down: whatever
    the bytes are, the read loop makes no more turns than there are bytes, never panics or
    blocks, and at the end the session is closed, off [Server.sessions] and without any
    registration in the router. *)
Theorem Start_terminates {R} `{SubscriptionStoreLaws R} (w : World R) fuel o s sess :
  world_ok w → heap w !! s = Some sess → pc sess = AtTop → closed sess = false →
  (length (stream (conn_input sess)) < fuel)%nat →
  ∃ w' sess', Start fuel o s w = Ret (tt, w') ∧ world_ok w' ∧
    heap w' !! s = Some sess' ∧ pc sess' = Returned ∧ closed sess' = true ∧
    (s ∉ sessions w') ∧ ∀ p, (p, s) ∉ store_pairs (router w').
Proof.
  intros Hw Hs Hpc Hop Hfuel.
  destruct (Start_result fuel o s w sess Hw Hs Hpc Hop Hfuel) as (w' & sess' & Hrun & Hw' & Hs' & Hret & Hgone).
  pose proof (so_returned _ (world_ok_session _ _ _ Hw' Hs') Hret) as Hcl.
  exists w', sess'. split_and!; [done..| |done]. rewrite (wo_live w' Hw'). intros (y & Hy & ?). congruence.
Qed.

(** A connection that subscribes, pings and hangs up in the middle of a frame. *)
Definition short_life : reader :=
  [RChunk (Encode (NewMessageCmd CmdSub (str "a.*") [])); RChunk (Encode (NewMessageCmd CmdPing [] []) ++ [Byte.x00])].

Lemma Start_terminates_witness :
  ∃ w' sess', Start 30 in_order 1 (accept_world 1 short_life (new_world (R := Router))) = Ret (tt, w') ∧
    heap w' !! 1%nat = Some sess' ∧ closed sess' = true ∧ ∀ p, (p, 1%nat) ∉ store_pairs (router w').
Proof.
  destruct (Start_terminates (accept_world 1 short_life (new_world (R := Router))) 30 in_order 1
              (NewSession short_life 0 1024 (32 * 1024 * 1024) (5 * second)))
    as (w' & sess' & Hrun & _ & Hs & _ & Hcl & _ & Hgone).
  - apply world_ok_accept; [apply new_world_ok|reflexivity].
  - apply heap_upd.
  - reflexivity.
  - reflexivity.
  - vm_compute. lia.
  - exists w', sess'. split; [exact Hrun|]. split; [exact Hs|]. split; [exact Hcl|exact Hgone].
Defined.
