(* ===== verification/RingBuffer.v ===== *)
(** * Latency samples ([src/client/ringbuffer.go]) and their average

    The circular buffer with its indices, and its specification: the last [size] samples in
    order of arrival. *)

From S2P Require Import Prelude.

(** ** The buffer *)

(** [time.Duration]s and [int]s are 64-bit integers, kept in [Z]. *)
Record ringBuffer := mkRing { data : list Z; size : Z; head : Z; tail : Z; count : Z }.

(** [make] with a negative length panics. *)
Definition newRingBuffer (size : Z) : outcome ringBuffer :=
  guard! (0 <=? size)%Z;
  Ret {| data := replicate (Z.to_nat size) 0%Z; size := size; head := 0; tail := 0; count := 0 |}.

(** Go's [%] truncates towards zero and panics on a zero divisor. *)
Definition go_rem (a b : Z) : outcome Z := guard! (negb (b =? 0)%Z); Ret (Z.rem a b).

(** [rb.data[i] = x] *)
Definition store_at (l : list Z) (i x : Z) : outcome (list Z) :=
  guard! (0 <=? i)%Z && (i <? len l)%Z; Ret (<[Z.to_nat i := x]> l).

Definition Add (item : Z) (rb : ringBuffer) : outcome ringBuffer :=
  do rb ← (if (count rb =? size rb)%Z
           then do t ← go_rem (tail rb + 1) (size rb);
                Ret (mkRing (data rb) (size rb) (head rb) t (count rb))
           else Ret (mkRing (data rb) (size rb) (head rb) (tail rb) (count rb + 1)));
  do d ← store_at (data rb) (head rb) item;
  do h ← go_rem (head rb + 1) (size rb);
  Ret (mkRing d (size rb) h (tail rb) (count rb)).

(** [l[lo:hi]] of a slice whose capacity is its length. *)
Definition zslice (l : list Z) (lo hi : Z) : outcome (list Z) :=
  guard! (0 <=? lo)%Z && (lo <=? hi)%Z && (hi <=? len l)%Z;
  Ret (take (Z.to_nat (hi - lo)) (drop (Z.to_nat lo) l)).

(** [copy(dst[off:], src)]: at most as much as fits, and how much that was. *)
Definition zcopy (dst : list Z) (off : Z) (src : list Z) : list Z * Z :=
  let n := Z.min (len dst - off) (len src) in
  (take (Z.to_nat off) dst ++ take (Z.to_nat n) src ++ drop (Z.to_nat (off + n)) dst, n).

Definition ToSlice (rb : ringBuffer) : outcome (list Z) :=
  if (count rb =? 0)%Z then Ret []
  else
    let result := replicate (Z.to_nat (count rb)) 0%Z in
    if (count rb <? size rb)%Z
    then do src ← zslice (data rb) 0 (count rb); Ret (zcopy result 0 src).1
    else
      do src ← zslice (data rb) (head rb) (len (data rb));
      let '(result, n) := zcopy result 0 src in
      do src ← zslice (data rb) 0 (tail rb);
      do _ ← zslice result n (len result);
      Ret (zcopy result n src).1.

Definition Len (rb : ringBuffer) : Z := count rb.

Definition Reset (rb : ringBuffer) : ringBuffer := mkRing (data rb) (size rb) 0 0 0.

(** ** The client's statistics *)

(** [calculateAvgLatencyLocked] *)
Definition calculateAvgLatency (rb : ringBuffer) : outcome Z :=
  do latencies ← ToSlice rb;
  if (len latencies =? 0)%Z then Ret 0%Z
  else
    let sum := foldl (λ sum l, int64 (sum + l)) 0%Z latencies in
    Ret (int64 (Z.quot sum (len latencies))).

(** [recordLatency]: the buffer and [lastLatency]. *)
Definition recordLatency (latency : Z) (s : ringBuffer * Z) : outcome (ringBuffer * Z) :=
  do rb ← Add latency s.1; Ret (rb, latency).

Definition add_all (items : list Z) (rb : ringBuffer) : outcome ringBuffer :=
  foldl (λ m item, do rb ← m; Add item rb) (Ret rb) items.

Example ring_wraps :
  (do rb ← newRingBuffer 3; do rb ← add_all [1; 2; 3; 4; 5]%Z rb; ToSlice rb) = Ret [3; 4; 5]%Z.
Proof. reflexivity. Qed.
Example ring_average :
  (do rb ← newRingBuffer 3; do rb ← add_all [1; 2; 3; 4; 6]%Z rb; calculateAvgLatency rb) = Ret 4%Z.
Proof. reflexivity. Qed.
Example ring_empty_panics : (do rb ← newRingBuffer 0; Add 1 rb) = Panic.
Proof. reflexivity. Qed.

(** ** Representation *)

(** [items] are the samples the buffer holds, oldest first: the first cells while it fills
    up, the two parts around [head] once it is full. *)
Inductive holds : ringBuffer → list Z → Prop :=
| holds_filling items rest n :
    rest ≠ [] → n = (length items + length rest)%nat →
    holds (mkRing (items ++ rest) (Z.of_nat n) (len items) 0 (len items)) items
| holds_full l r n :
    r ≠ [] → n = (length l + length r)%nat →
    holds (mkRing (l ++ r) (Z.of_nat n) (len l) (len l) (Z.of_nat n)) (r ++ l).

(** The last [n] elements. *)
Definition lastn {A} (n : nat) (l : list A) : list A := drop (length l - n) l.

Lemma holds_new n : (0 < n)%nat → ∃ rb, newRingBuffer (Z.of_nat n) = Ret rb ∧ holds rb [].
Proof.
  intros Hn. unfold newRingBuffer. rewrite (proj2 (Z.leb_le _ _)) by lia.
  eexists. split; [reflexivity|]. rewrite Nat2Z.id.
  apply (holds_filling [] (replicate n 0%Z)); [destruct n; [lia|done]|]. by rewrite length_replicate.
Qed.

(** Storing at the boundary of two parts. *)
Lemma store_boundary (l r : list Z) y x :
  store_at (l ++ y :: r) (len l) x = Ret (l ++ x :: r).
Proof.
  unfold store_at. rewrite (proj2 (Z.leb_le _ _)), (proj2 (Z.ltb_lt _ _)) by len_lia.
  cbn [andb]. unfold len. rewrite Nat2Z.id. by rewrite insert_app_r_alt, Nat.sub_diag by lia.
Qed.

(** Advancing an index from the boundary. *)
Lemma advance (l r : list Z) x n :
  n = (length l + S (length r))%nat →
  go_rem (len l + 1) (Z.of_nat n) = Ret (if decide (r = []) then 0%Z else len (l ++ [x])).
Proof.
  intros ->. unfold go_rem. rewrite (proj2 (Z.eqb_neq _ _)) by lia. cbn [negb].
  destruct (decide (r = [])) as [->|Hr].
  - replace (Z.of_nat _) with (len l + 1)%Z by (unfold len; simpl; lia).
    by rewrite Z.rem_same by len_lia.
  - rewrite Z.rem_small; [by len_simpl|]. destruct r; [done|]. unfold len; simpl; lia.
Qed.

Lemma holds_Add rb items x :
  holds rb items →
  ∃ rb', Add x rb = Ret rb' ∧ size rb' = size rb ∧ holds rb' (lastn (Z.to_nat (size rb)) (items ++ [x])).
Proof.
  intros [its rest n Hrest Hn|l r n Hr Hn]; unfold Add; cbn [count size head tail data].
  - destruct rest as [|y rest]; [done|]. simpl in Hn.
    rewrite (proj2 (Z.eqb_neq _ _)) by (unfold len; lia). cbn [obind data head size tail count].
    rewrite store_boundary. cbn [obind]. rewrite (advance its rest x) by done. cbn [obind].
    eexists. split; [reflexivity|]. split; [done|]. rewrite Nat2Z.id. unfold lastn.
    replace (length (its ++ [x]) - n)%nat with 0%nat by (rewrite length_app; simpl; lia). rewrite drop_0.
    destruct (decide (rest = [])) as [->|Hr].
    + replace (len its + 1)%Z with (Z.of_nat n) by (unfold len; simpl in Hn; lia).
      rewrite <-(app_nil_r (its ++ [x])) at 2.
      apply (holds_full [] (its ++ [x])); [by destruct its|]. rewrite length_app. simpl in *; lia.
    + replace (its ++ x :: rest) with ((its ++ [x]) ++ rest) by (by rewrite <-app_assoc).
      replace (len its + 1)%Z with (len (its ++ [x])) by len_lia.
      apply holds_filling; [done|]. rewrite length_app. simpl. lia.
  - destruct r as [|y r]; [done|]. simpl in Hn. rewrite Z.eqb_refl.
    rewrite (advance l r x) by done. cbn [obind data head size tail count].
    rewrite store_boundary. cbn [obind]. rewrite (advance l r x) by done. cbn [obind].
    eexists. split; [reflexivity|]. split; [done|]. rewrite Nat2Z.id. unfold lastn.
    replace (length (((y :: r) ++ l) ++ [x]) - n)%nat with 1%nat by (rewrite !length_app; simpl; lia).
    cbn [app drop]. rewrite drop_0. replace ((r ++ l) ++ [x]) with (r ++ l ++ [x]) by apply app_assoc.
    destruct (decide (r = [])) as [->|Hr2].
    + cbn [app]. rewrite <-(app_nil_r (l ++ [x])) at 2.
      apply (holds_full [] (l ++ [x])); [by destruct l|]. rewrite length_app. simpl in *; lia.
    + replace (l ++ x :: r) with ((l ++ [x]) ++ r) by (by rewrite <-app_assoc).
      apply holds_full; [done|]. rewrite length_app. simpl. lia.
Qed.

Lemma zslice_whole (a b c : list Z) :
  zslice (a ++ b ++ c) (len a) (len a + len b) = Ret b.
Proof.
  unfold zslice. rewrite (proj2 (Z.leb_le _ _)), (proj2 (Z.leb_le _ _)), (proj2 (Z.leb_le _ _)) by len_lia.
  cbn [andb]. f_equal. unfold len. rewrite Nat2Z.id, drop_app_length.
  rewrite Z.add_simpl_l, Nat2Z.id. apply take_app_length.
Qed.

Lemma zcopy_into (a b src : list Z) :
  length src = length b → zcopy (a ++ b) (len a) src = (a ++ src, len src).
Proof.
  intros Hl. unfold zcopy. assert (Z.min (len (a ++ b) - len a) (len src) = len src) as ->.
  { rewrite len_app. unfold len. lia. }
  f_equal. rewrite take_app_len by (unfold len; lia). f_equal.
  rewrite take_ge by (unfold len; lia). rewrite drop_ge; [apply app_nil_r|].
  rewrite length_app. unfold len. lia.
Qed.

Lemma holds_ToSlice rb items : holds rb items → ToSlice rb = Ret items.
Proof.
  intros [its rest n Hrest Hn|l r n Hr Hn]; unfold ToSlice; cbn [count size head tail data].
  - destruct (Z.eqb_spec (len its) 0) as [E|E]; [by rewrite (len_zero_nil _ E)|].
    rewrite (proj2 (Z.ltb_lt _ _)) by (unfold len; destruct rest; [done|simpl in *; lia]).
    pose proof (zslice_whole [] its rest) as Hz. cbn [app] in Hz. rewrite len_nil, Z.add_0_l in Hz. rewrite Hz.
    cbn [obind]. f_equal. assert (length its = length (replicate (Z.to_nat (len its)) 0%Z)) as Hl
      by (rewrite length_replicate; unfold len; lia).
    change (zcopy ?l 0 its) with (zcopy ([] ++ l) (len (@nil Z)) its). by rewrite zcopy_into.
  - assert (0 < length r)%nat by (destruct r; [done|simpl; lia]).
    rewrite (proj2 (Z.eqb_neq _ _)), (proj2 (Z.ltb_ge _ _)) by lia.
    pose proof (zslice_whole l r []) as Hz. rewrite app_nil_r, <-len_app in Hz. rewrite Hz. cbn [obind].
    assert (replicate (Z.to_nat (Z.of_nat n)) 0%Z
            = replicate (length r) 0%Z ++ replicate (length l) 0%Z) as ->.
    { rewrite <-replicate_add. f_equal. lia. }
    assert (zcopy (replicate (length r) 0%Z ++ replicate (length l) 0%Z) 0 r
            = (r ++ replicate (length l) 0%Z, len r)) as ->.
    { unfold zcopy. assert (Z.min (len (replicate (length r) 0%Z ++ replicate (length l) 0%Z) - 0) (len r) = len r) as ->.
      { len_simpl. unfold len. lia. }
      f_equal. change (take (Z.to_nat 0) ?l) with (@nil Z). cbn [app]. unfold len. rewrite Z.add_0_l, Nat2Z.id.
      rewrite (take_ge r) by lia. f_equal. apply drop_app_len. by rewrite length_replicate. }
    pose proof (zslice_whole [] l r) as Hz2. cbn [app] in Hz2. rewrite len_nil, Z.add_0_l in Hz2. rewrite Hz2.
    cbn [obind]. pose proof (zslice_whole r (replicate (length l) 0%Z) []) as Hz3.
    rewrite app_nil_r, <-len_app in Hz3. rewrite Hz3. cbn [obind].
    by rewrite zcopy_into by (by rewrite length_replicate).
Qed.

Lemma lastn_lastn {A} n (l : list A) x : (0 < n)%nat → lastn n (lastn n l ++ [x]) = lastn n (l ++ [x]).
Proof.
  intros Hn. unfold lastn. rewrite !length_app, length_drop. simpl.
  destruct (decide (length l <= n)%nat).
  - replace (length l - n)%nat with 0%nat by lia. by rewrite drop_0, Nat.sub_0_r.
  - rewrite <-(drop_app_le l [x]) by lia. rewrite drop_drop. f_equal. lia.
Qed.

Lemma add_all_snoc items x rb : add_all (items ++ [x]) rb = (do rb ← add_all items rb; Add x rb).
Proof. unfold add_all. by rewrite foldl_app. Qed.

Lemma holds_add_all items rb :
  holds rb [] → (0 < size rb)%Z →
  ∃ rb', add_all items rb = Ret rb' ∧ size rb' = size rb ∧ holds rb' (lastn (Z.to_nat (size rb)) items).
Proof.
  intros Hrb Hpos. induction items as [|x items IH] using rev_ind; [by exists rb|].
  destruct IH as (rb1 & E & Hs1 & H1). rewrite add_all_snoc, E. cbn [obind].
  destruct (holds_Add rb1 _ x H1) as (rb2 & -> & Hs2 & H2). exists rb2.
  split; [done|]. split; [congruence|]. by rewrite Hs1, lastn_lastn in H2 by lia.
Qed.

(** the ring buffer is a sliding window: a buffer of positive size never panics, and
    after any number of samples [ToSlice] returns the last [size] of them, oldest first,
    [Len] their number; [Reset] empties it and it works again from there. *)
Theorem ring_buffer_window n items items2 :
  (0 < n)%nat →
  ∃ rb rb1 rb2, newRingBuffer (Z.of_nat n) = Ret rb ∧
    add_all items rb = Ret rb1 ∧ ToSlice rb1 = Ret (lastn n items) ∧
    Len rb1 = len (lastn n items) ∧
    add_all items2 (Reset rb1) = Ret rb2 ∧ ToSlice rb2 = Ret (lastn n items2).
Proof.
  intros Hn. destruct (holds_new n Hn) as (rb & Hnew & H0).
  assert (size rb = Z.of_nat n) as Hs.
  { unfold newRingBuffer in Hnew. rewrite (proj2 (Z.leb_le _ _)) in Hnew by lia. by injection Hnew as <-. }
  destruct (holds_add_all items rb H0) as (rb1 & E1 & Hs1 & H1); [lia|].
  rewrite Hs, Nat2Z.id in H1.
  assert (holds (Reset rb1) []) as Hr.
  { unfold Reset. rewrite Hs1, Hs. assert (length (data rb1) = n) as Hd.
    { destruct H1; cbn [data size] in *; rewrite length_app; lia. }
    rewrite <-Hd. apply (holds_filling [] (data rb1)); [|done]. intros E. rewrite E in Hd. simpl in Hd. lia. }
  destruct (holds_add_all items2 (Reset rb1) Hr) as (rb2 & E2 & _ & H2); [simpl; lia|].
  cbn [Reset size] in H2. rewrite Hs1, Hs, Nat2Z.id in H2.
  exists rb, rb1, rb2. split_and!; [done..|by apply holds_ToSlice| |done|by apply holds_ToSlice].
  unfold Len. destruct H1; cbn [count]; [done|]. unfold len. rewrite length_app. lia.
Qed.

Lemma ring_buffer_window_witness :
  ∃ rb rb1, newRingBuffer 3 = Ret rb ∧ add_all [1; 2; 3; 4; 5]%Z rb = Ret rb1 ∧
    ToSlice rb1 = Ret [3; 4; 5]%Z.
Proof.
  destruct (ring_buffer_window 3 [1; 2; 3; 4; 5]%Z []) as (rb & rb1 & rb2 & H1 & H2 & H3 & _); [lia|].
  exists rb, rb1. split; [exact H1|]. split; [exact H2|exact H3].
Defined.

(** ** The average *)

Lemma sum_bounds lo hi acc l :
  Forall (λ x, lo <= x <= hi)%Z l → (0 <= lo)%Z → (0 <= acc)%Z → (acc + len l * hi < 2 ^ 63)%Z →
  (acc + len l * lo <= foldl (λ sum x, int64 (sum + x)) acc l <= acc + len l * hi)%Z.
Proof.
  revert acc. induction l as [|x l IH]; intros acc Hl Hlo Hacc Hb; cbn [foldl]; len_simpl; [lia|].
  apply Forall_cons in Hl as [Hx Hl]. pose proof (len_nonneg l).
  assert (0 <= len l * hi)%Z by (apply Z.mul_nonneg_nonneg; lia).
  rewrite int64_small by lia. specialize (IH (acc + x)%Z Hl Hlo). lia.
Qed.

(** The average latency lies between the smallest and the largest retained sample
    when the samples are not negative and their sum fits in 64 bits (no wrap-around);
    without samples it is 0. *)
Lemma average_between rb items lo hi :
  holds rb items → (0 <= lo)%Z →
  Forall (λ x, lo <= x <= hi)%Z items → (len items * hi < 2 ^ 63)%Z →
  ∃ avg, calculateAvgLatency rb = Ret avg ∧
    (items = [] → avg = 0%Z) ∧ (items ≠ [] → (lo <= avg <= hi)%Z).
Proof.
  intros Hh Hlo Hall Hsum. unfold calculateAvgLatency. rewrite (holds_ToSlice _ _ Hh). cbn [obind].
  destruct (Z.eqb_spec (len items) 0) as [E|E].
  { exists 0%Z. apply len_zero_nil in E as ->. by split_and!. }
  pose proof (len_nonneg items). pose proof (sum_bounds lo hi 0 items Hall Hlo) as Hs.
  specialize (Hs ltac:(lia) ltac:(lia)). set (sum := foldl _ _ _) in *.
  assert (lo <= Z.quot sum (len items) <= hi)%Z as Hq.
  { assert (0 <= len items * lo)%Z by (apply Z.mul_nonneg_nonneg; lia).
    rewrite Z.quot_div_nonneg by lia. split.
    - apply Z.div_le_lower_bound; lia.
    - apply Z.div_le_upper_bound; lia. }
  eexists. split; [reflexivity|]. split; [by intros ->|]. intros _.
  assert (hi <= len items * hi)%Z by nia. rewrite int64_small; lia.
Qed.
