(* ===== verification/Reconnect.v ===== *)
(** * Supervision of the client's connection ([src/client/client.go])

    The goroutines that watch one connection (receive loop, heartbeat, monitor), the
    detection of its loss ([triggerConnectionLost]), and the reconnect loop with its
    back-off. The network is the environment: a connection can break at any time, dialling
    can fail, and the time the loops sleep is not measured. *)

From S2P Require Import Prelude.

(** ** Back-off *)

Definition second : Z := 1000000000.

(** [min] *)
Definition min (a b : Z) : Z := if (a <? b)%Z then a else b.

(** The delay before attempt number [attempt], before jitter. *)
Definition backoff (base maxBackoff attempt : Z) : Z :=
  let delay := base in
  let delay := if (0 <? attempt)%Z then int64 (base * Z.shiftl 1 (min attempt 10)) else delay in
  if (0 <? maxBackoff)%Z && (maxBackoff <? delay)%Z then maxBackoff else delay.

(** ** State *)

(** Where the goroutine of [reconnect] stands: not running; at the top of its loop;
    sleeping; in [doReconnect], waiting for the old goroutines; past a successful
    [doReconnect] but before [connectionLost.Store(false)]; restoring subscriptions; about
    to run its deferred [reconnecting.Store(false)]. *)
Inductive reconnect_pc :=
| RIdle
| RTop (attempt : Z)
| RSleep (attempt delay : Z)
| RWait (attempt : Z)
| RConnected
| RRestore
| RLeave.

Record Link := mkLink {
  done : bool;                  (** the current [c.done] is closed *)
  ctxDone : bool;
  conn_ok : bool;               (** the current connection works *)
  receiver : bool;              (** [receiveLoop] is running *)
  heart : bool;                 (** [heartbeat] is running *)
  monitor : bool;               (** [MonitorConnection] of this connection is waiting *)
  stale : nat;                  (** monitors of earlier connections that have not run yet *)
  connectionLost : bool;
  reconnecting : bool;
  autoReconnect : bool;
  reconnectInterval : Z;
  maxReconnectInterval : Z;
  connectionErrors : Z;
  reconnectCount : Z;
  lostCalls : nat;              (** how often the loss of the connection was reported *)
  dialled : nat;                (** connections made by the reconnect loop *)
  loop : reconnect_pc;
}.

(** After [ConnectWithContext]. *)
Definition connected_link : Link :=
  mkLink false false true true true true 0 false false false (5 * second) (30 * second) 0 0 0 0 RIdle.

Definition set_lost (b : bool) (l : Link) : Link :=
  mkLink (done l) (ctxDone l) (conn_ok l) (receiver l) (heart l) (monitor l) (stale l) b
    (reconnecting l) (autoReconnect l) (reconnectInterval l) (maxReconnectInterval l)
    (connectionErrors l) (reconnectCount l) (lostCalls l) (dialled l) (loop l).
Definition set_loop (r : bool) (p : reconnect_pc) (l : Link) : Link :=
  mkLink (done l) (ctxDone l) (conn_ok l) (receiver l) (heart l) (monitor l) (stale l)
    (connectionLost l) r (autoReconnect l) (reconnectInterval l) (maxReconnectInterval l)
    (connectionErrors l) (reconnectCount l) (lostCalls l) (dialled l) p.
Definition set_auto (b : bool) (interval maxInterval : Z) (l : Link) : Link :=
  mkLink (done l) (ctxDone l) (conn_ok l) (receiver l) (heart l) (monitor l) (stale l)
    (connectionLost l) (reconnecting l) b interval maxInterval
    (connectionErrors l) (reconnectCount l) (lostCalls l) (dialled l) (loop l).
Definition set_workers (rx hb mon : bool) (n : nat) (l : Link) : Link :=
  mkLink (done l) (ctxDone l) (conn_ok l) rx hb mon n (connectionLost l) (reconnecting l)
    (autoReconnect l) (reconnectInterval l) (maxReconnectInterval l) (connectionErrors l)
    (reconnectCount l) (lostCalls l) (dialled l) (loop l).
Definition set_conn (d ok : bool) (l : Link) : Link :=
  mkLink d (ctxDone l) ok (receiver l) (heart l) (monitor l) (stale l) (connectionLost l)
    (reconnecting l) (autoReconnect l) (reconnectInterval l) (maxReconnectInterval l)
    (connectionErrors l) (reconnectCount l) (lostCalls l) (dialled l) (loop l).
Definition set_cancelled (l : Link) : Link :=
  mkLink true true (conn_ok l) (receiver l) (heart l) (monitor l) (stale l) (connectionLost l)
    (reconnecting l) (autoReconnect l) (reconnectInterval l) (maxReconnectInterval l)
    (connectionErrors l) (reconnectCount l) (lostCalls l) (dialled l) (loop l).
(** The context given to [ConnectWithContext] is done. *)
Definition set_expired (l : Link) : Link :=
  mkLink (done l) true (conn_ok l) (receiver l) (heart l) (monitor l) (stale l) (connectionLost l)
    (reconnecting l) (autoReconnect l) (reconnectInterval l) (maxReconnectInterval l)
    (connectionErrors l) (reconnectCount l) (lostCalls l) (dialled l) (loop l).
Definition set_counts (errs recs : Z) (l : Link) : Link :=
  mkLink (done l) (ctxDone l) (conn_ok l) (receiver l) (heart l) (monitor l) (stale l)
    (connectionLost l) (reconnecting l) (autoReconnect l) (reconnectInterval l)
    (maxReconnectInterval l) errs recs
    (lostCalls l) (dialled l) (loop l).
Definition report_lost (l : Link) : Link :=
  mkLink (done l) (ctxDone l) (conn_ok l) (receiver l) (heart l) (monitor l) (stale l) true
    (reconnecting l) (autoReconnect l) (reconnectInterval l) (maxReconnectInterval l)
    (connectionErrors l) (reconnectCount l) (S (lostCalls l)) (dialled l) (loop l).
(** A new connection with its three goroutines. *)
Definition redialled (l : Link) : Link :=
  mkLink false (ctxDone l) true true true true (stale l) (connectionLost l) (reconnecting l)
    (autoReconnect l) (reconnectInterval l) (maxReconnectInterval l) (connectionErrors l)
    (reconnectCount l) (lostCalls l) (S (dialled l)) RConnected.

(** ** Operations *)

(** [EnableAutoReconnect] *)
Definition EnableAutoReconnect (interval : Z) (l : Link) : Link :=
  set_auto true (if (0 <? interval)%Z then interval else reconnectInterval l) (maxReconnectInterval l) l.
Definition SetMaxReconnectInterval (max : Z) (l : Link) : Link :=
  set_auto (autoReconnect l) (reconnectInterval l) max l.
Definition DisableAutoReconnect (l : Link) : Link :=
  set_auto false (reconnectInterval l) (maxReconnectInterval l) l.

(** [reconnect]: the compare-and-swap and the start of the goroutine. *)
Definition reconnect (l : Link) : Link :=
  if reconnecting l then l else set_loop true (RTop 0) l.

Definition triggerConnectionLost (l : Link) : Link :=
  if done l then l
  else if ctxDone l then l
  else if connectionLost l then l
  else
    let l := report_lost l in
    if autoReconnect l then reconnect l else l.

(** A turn of [receiveLoop] that leaves it: the read failed, or [done] or the context is
    closed. *)
Definition receiver_leaves (read_failed : bool) (l : Link) : Link :=
  let l' := set_workers false (heart l) (monitor l) (stale l) l in
  if read_failed
  then triggerConnectionLost (set_counts (int64 (connectionErrors l + 1)) (reconnectCount l) l') else l'.

(** A turn of [heartbeat] that leaves it: [done] is closed, or the write failed. *)
Definition heartbeat_leaves (l : Link) : Link :=
  let l' := set_workers (receiver l) false (monitor l) (stale l) l in
  if done l then l' else triggerConnectionLost l'.

(** [MonitorConnection] when it wakes up; [select] picks among the ready cases. *)
Definition monitor_wakes (pick_exit : bool) (l : Link) : Link :=
  let l' := set_workers (receiver l) (heart l) false (stale l) l in
  if (done l || ctxDone l) && negb pick_exit then l'
  else if negb (receiver l && heart l) then triggerConnectionLost l' else l'.

(** The monitor of an earlier connection, whose channels are all closed. *)
Definition stale_wakes (pick_exit : bool) (l : Link) : Link :=
  let l' := set_workers (receiver l) (heart l) (monitor l) (Nat.pred (stale l)) l in
  if pick_exit then triggerConnectionLost l' else l'.

(** One step of the goroutine of [reconnect]. [jitter] is the float multiplication by
    [0.5 + rand.Float64()], [dial] the outcome of connecting. *)
Definition loop_step (jitter : Z → Z) (dial : bool) (l : Link) : Link :=
  match loop l with
  | RIdle => l
  | RTop attempt =>
      if negb (autoReconnect l) then set_loop (reconnecting l) RLeave l
      else if done l then set_loop (reconnecting l) RLeave l
      else
        let delay := backoff (reconnectInterval l) (maxReconnectInterval l) attempt in
        set_loop (reconnecting l) (RSleep attempt (jitter delay)) l
  | RSleep attempt _ =>
      (* [safeClose(oldDone)], [oldConn.Close()] *)
      set_loop (reconnecting l) (RWait attempt) (set_conn true false l)
  | RWait attempt =>
      (* [c.wg.Wait()], a fresh [done], dialling *)
      if receiver l || heart l then l
      else
        let l := set_workers false false false (stale l + (if monitor l then 1 else 0)) l in
        let l := set_conn false false l in
        if dial then redialled l
        else set_loop (reconnecting l) (RTop (attempt + 1)) 
          (set_counts (int64 (connectionErrors l + 1)) (int64 (reconnectCount l + 1)) l)
  | RConnected => set_loop (reconnecting l) RRestore (set_lost false l)
  | RRestore => set_loop (reconnecting l) RLeave l
  | RLeave => set_loop false RIdle l
  end.

(** ** The steps of the client's goroutines and of its user

    A read or a write can fail on a connection that works (both have deadlines), so the
    goroutines can leave in any state. *)

Inductive link_step : Link → Link → Prop :=
| ls_break l : link_step l (set_conn (done l) false l)
| ls_receiver read_failed l :
    receiver l = true → read_failed = true ∨ done l = true ∨ ctxDone l = true →
    link_step l (receiver_leaves read_failed l)
| ls_heartbeat l : heart l = true → link_step l (heartbeat_leaves l)
| ls_monitor pick_exit l :
    monitor l = true → receiver l = false ∨ heart l = false ∨ done l = true ∨ ctxDone l = true →
    link_step l (monitor_wakes pick_exit l)
| ls_stale pick_exit l : (0 < stale l)%nat → link_step l (stale_wakes pick_exit l)
| ls_publish_failed l : link_step l (triggerConnectionLost l)
| ls_loop jitter dial l : loop l ≠ RIdle → link_step l (loop_step jitter dial l)
| ls_enable interval l : link_step l (EnableAutoReconnect interval l)
| ls_set_max max l : link_step l (SetMaxReconnectInterval max l)
| ls_disable l : link_step l (DisableAutoReconnect l)
| ls_expired l : link_step l (set_expired l)
| ls_close l : link_step l (set_cancelled l).

Definition link_reachable (l : Link) : Prop := rtc link_step connected_link l.

(** ** Facts *)

(** A disjunction of the cases of the loss detection. *)
Lemma trigger_cases l :
  triggerConnectionLost l = l ∨
  (done l = false ∧ ctxDone l = false ∧ connectionLost l = false ∧
   ((autoReconnect l = true ∧ reconnecting l = false ∧
     triggerConnectionLost l = set_loop true (RTop 0) (report_lost l)) ∨
    ((autoReconnect l = false ∨ reconnecting l = true) ∧ triggerConnectionLost l = report_lost l))).
Proof.
  unfold triggerConnectionLost, reconnect. destruct (done l); [by left|].
  destruct (ctxDone l); [by left|]. destruct (connectionLost l); [by left|]. right.
  cbn [autoReconnect reconnecting report_lost].
  destruct (autoReconnect l), (reconnecting l); split_and!; auto; right; auto.
Qed.

(** The loop is past its dialling but has not yet cleared [connectionLost]. *)
Definition uncleared (p : reconnect_pc) : nat := match p with RConnected => 1 | _ => 0 end.
(** The loop is still looking for a connection. *)
Definition searching (p : reconnect_pc) : Prop :=
  match p with RTop _ | RSleep _ _ | RWait _ | RConnected => True | _ => False end.

Record link_ok (l : Link) : Prop := {
  lk_flag : reconnecting l = true ↔ loop l ≠ RIdle;
  lk_lost : searching (loop l) → connectionLost l = true;
  lk_calls : (lostCalls l + uncleared (loop l) = dialled l + (if connectionLost l then 1 else 0))%nat;
  lk_attempt : match loop l with RTop k | RSleep k _ | RWait k => (0 <= k)%Z | _ => True end;
}.

Lemma link_ok_trigger l : link_ok l → link_ok (triggerConnectionLost l).
Proof.
  intros Hl. destruct (trigger_cases l) as [->|(_ & _ & Hlost & [(_ & Hr & ->)|(_ & ->)])]; [done|..];
    destruct Hl as [Hf Hs Hc Ha]; rewrite Hlost in Hs, Hc.
  - assert (loop l = RIdle) as E.
    { destruct (loop l); try done; assert (reconnecting l = true) by (by apply Hf); congruence. }
    rewrite E in Hc. constructor; simpl in *; try done. lia.
  - constructor; simpl in *; try done. lia.
Qed.

Lemma link_ok_workers rx hb mon n l : link_ok l → link_ok (set_workers rx hb mon n l).
Proof. intros []. by constructor. Qed.
Lemma link_ok_errors e r l : link_ok l → link_ok (set_counts e r l).
Proof. intros []. by constructor. Qed.
Lemma link_ok_conn d ok l : link_ok l → link_ok (set_conn d ok l).
Proof. intros []. by constructor. Qed.

Local Ltac solve_link :=
  constructor; simpl;
  repeat match goal with
  | H : reconnecting _ = true |- _ => rewrite H
  | H : True → connectionLost _ = true |- _ => specialize (H I)
  | H : connectionLost _ = true |- _ => rewrite H in *
  end; try done; try (by split); try lia.

Lemma link_ok_loop jitter dial l : loop l ≠ RIdle → link_ok l → link_ok (loop_step jitter dial l).
Proof.
  intros Hrun [Hf Hs Hc Ha]. pose proof (proj2 Hf Hrun) as Hr. unfold loop_step.
  destruct (loop l) as [|k|k d|k| | |] eqn:E; [done|..]; simpl in *.
  - destruct (negb (autoReconnect l)); [|destruct (done l)]; solve_link.
  - solve_link.
  - destruct (receiver l || heart l); [constructor; rewrite ?E; auto|]. destruct dial; solve_link.
  - solve_link.
  - solve_link.
  - solve_link.
Qed.

Lemma link_step_ok l l' : link_ok l → link_step l l' → link_ok l'.
Proof.
  intros Hl Hstep. destruct Hstep.
  - by apply link_ok_conn.
  - unfold receiver_leaves. case_match; [|by apply link_ok_workers].
    by apply link_ok_trigger, link_ok_errors, link_ok_workers.
  - unfold heartbeat_leaves. case_match; [by apply link_ok_workers|].
    by apply link_ok_trigger, link_ok_workers.
  - unfold monitor_wakes. repeat case_match; try by apply link_ok_workers.
    by apply link_ok_trigger, link_ok_workers.
  - unfold stale_wakes. case_match; [by apply link_ok_trigger, link_ok_workers|by apply link_ok_workers].
  - by apply link_ok_trigger.
  - by apply link_ok_loop.
  - destruct Hl. by constructor.
  - destruct Hl. by constructor.
  - destruct Hl. by constructor.
  - destruct Hl. by constructor.
  - destruct Hl. by constructor.
Qed.

Lemma link_reachable_ok l : link_reachable l → link_ok l.
Proof.
  apply rtc_invariant; [apply link_step_ok|]. by constructor.
Qed.

(** ** Undisturbed reconnection *)

(** The turns of the loop while nothing else fails: each attempt closes the old connection,
    whose goroutines leave, and dials; [slept] collects the delays. *)
Definition attempt (jitter : Z → Z) (dial : bool) (l : Link) : Link * list Z :=
  let l := loop_step jitter dial l in
  let slept := match loop l with RSleep _ d => [d] | _ => [] end in
  let l := loop_step jitter dial l in
  let l := if receiver l then receiver_leaves true l else l in
  let l := if heart l then heartbeat_leaves l else l in
  (loop_step jitter dial l, slept).

Fixpoint attempts (jitter : Z → Z) (dials : list bool) (l : Link) : Link * list Z :=
  match dials with
  | [] => (l, [])
  | dial :: dials =>
      let '(l, d) := attempt jitter dial l in
      let '(l, ds) := attempts jitter dials l in (l, d ++ ds)
  end.

(** Clearing the loss, restoring, and the deferred store. *)
Definition finish (l : Link) : Link :=
  loop_step id false (loop_step id false (loop_step id false l)).

Lemma finish_result l : loop l = RConnected → finish l = set_loop false RIdle (set_lost false l).
Proof. intros Hp. unfold finish. unfold loop_step at 3. by rewrite Hp. Qed.

Definition slept_delays (jitter : Z → Z) (l : Link) (k : Z) (n : nat) : list Z :=
  map (λ i, jitter (backoff (reconnectInterval l) (maxReconnectInterval l) (k + Z.of_nat i))) (seq 0 n).

(** What the loop relies on while it looks for a connection. *)
Definition looking (k : Z) (l : Link) : Prop :=
  loop l = RTop k ∧ autoReconnect l = true ∧ done l = false ∧ connectionLost l = true ∧ reconnecting l = true.

Lemma attempt_result jitter dial k l :
  looking k l →
  let l' := (attempt jitter dial l).1 in
  (attempt jitter dial l).2 = slept_delays jitter l k 1 ∧
  reconnectInterval l' = reconnectInterval l ∧ maxReconnectInterval l' = maxReconnectInterval l ∧
  lostCalls l' = lostCalls l ∧
  if dial then loop l' = RConnected ∧ conn_ok l' = true ∧ receiver l' = true ∧ heart l' = true ∧
               monitor l' = true ∧ done l' = false ∧ reconnectCount l' = reconnectCount l ∧ reconnecting l' = true
  else looking (k + 1) l' ∧ reconnectCount l' = int64 (reconnectCount l + 1).
Proof.
  intros (Hp & Ha & Hd & Hl & Hr). unfold attempt, slept_delays. cbn [seq map]. rewrite Z.add_0_r.
  unfold loop_step at 1 2 3 4 5 6 7. rewrite Hp, Ha, Hd. cbn [negb].
  set (d := jitter _). destruct l as [dn cx ok rx hb mon st lost rec au itv mx ce rc lc di lp].
  simpl in *. subst. destruct rx, hb, dial; unfold receiver_leaves, heartbeat_leaves; simpl;
    unfold looking; simpl; split_and!; done.
Qed.

Lemma slept_delays_S jitter l k n :
  slept_delays jitter l k (S n) = slept_delays jitter l k 1 ++ slept_delays jitter l (k + 1) n.
Proof.
  unfold slept_delays. cbn [seq map app]. f_equal. rewrite <-(seq_shift n 0), map_map. apply map_ext. intros i. do 2 f_equal. lia.
Qed.

Lemma attempts_result jitter n k l :
  looking k l →
  let l' := (attempts jitter (replicate n false ++ [true]) l).1 in
  (attempts jitter (replicate n false ++ [true]) l).2 = slept_delays jitter l k (S n) ∧
  lostCalls l' = lostCalls l ∧ loop l' = RConnected ∧ conn_ok l' = true ∧
  receiver l' = true ∧ heart l' = true ∧ monitor l' = true ∧ done l' = false ∧ reconnecting l' = true ∧
  ((0 <= reconnectCount l)%Z → (reconnectCount l + Z.of_nat n < 2 ^ 63)%Z →
   reconnectCount l' = (reconnectCount l + Z.of_nat n)%Z).
Proof.
  revert k l. induction n as [|n IH]; intros k l Hl; cbn [replicate app attempts].
  - pose proof (attempt_result jitter true k l Hl) as Ha. destruct (attempt jitter true l) as [l1 d].
    cbn [fst snd] in *. rewrite app_nil_r. destruct Ha as (? & ? & ? & ? & ? & ? & ? & ? & ? & ? & Hc & ?).
    split_and!; try done. intros _ _. rewrite Hc. lia.
  - pose proof (attempt_result jitter false k l Hl) as Ha. destruct (attempt jitter false l) as [l1 d].
    cbn [fst snd] in *. destruct Ha as (Hd & Hi & Hm & Hlc & Hl1 & Hc1).
    specialize (IH (k + 1)%Z l1 Hl1). destruct (attempts _ _ l1) as [l2 ds]. cbn [fst snd] in *.
    destruct IH as (Hds & Hlc2 & ? & ? & ? & ? & ? & ? & ? & Hc2). rewrite slept_delays_S, Hd, Hds.
    split_and!; try done.
    + f_equal. unfold slept_delays. by rewrite Hi, Hm.
    + congruence.
    + intros Hge Hlt. rewrite Hc2; rewrite Hc1, int64_small by lia; lia.
Qed.

(** ** Properties *)

(** In every interleaving of the connection's goroutines, the reconnect loop, failing
    publications and the user's settings: there is a reconnect goroutine iff the flag
    [reconnecting] is set, so never two; and the loss of a connection is reported at most
    once per connection: the reports are the losses cleared so far, plus one while
    [connectionLost] is set. *)
Theorem loss_reported_once l :
  link_reachable l →
  (reconnecting l = true ↔ loop l ≠ RIdle) ∧
  (searching (loop l) → connectionLost l = true) ∧
  (lostCalls l + uncleared (loop l) = dialled l + (if connectionLost l then 1 else 0))%nat ∧
  (lostCalls l <= S (dialled l))%nat.
Proof.
  intros [Hf Hs Hc _]%link_reachable_ok. split_and!; [done..|].
  destruct (connectionLost l); lia.
Qed.

Lemma loss_reported_once_witness :
  link_reachable (receiver_leaves true connected_link) ∧
  (lostCalls (receiver_leaves true connected_link) <= S (dialled (receiver_leaves true connected_link)))%nat.
Proof.
  assert (link_reachable (receiver_leaves true connected_link)) as Hr by (apply rtc_once, ls_receiver; [reflexivity|by left]).
  split; [exact Hr|]. apply (loss_reported_once (receiver_leaves true connected_link) Hr).
Defined.

(** C37: after [n] failed attempts and a successful one, with nothing failing in between,
    the client is connected again with its three goroutines running, the loss cleared and
    the loop gone; it slept [n + 1] times, the back-off of attempts 0 to [n]. The last
    conjunct is a defect of the program: [reconnectCount] has grown by [n], the failed
    attempts, and the reconnection itself is not counted, so that a client that reconnects at
    the first attempt still reports zero reconnections. The field is documented as the number
    of reconnections, and [reconnect_restore_test.go] waits for it to become positive after
    just such a reconnection. *)
Theorem reconnect_succeeds jitter n l :
  autoReconnect l = true → done l = false → ctxDone l = false → connectionLost l = false →
  reconnecting l = false → loop l = RIdle → conn_ok l = false →
  (0 <= reconnectCount l)%Z → (reconnectCount l + Z.of_nat n < 2 ^ 63)%Z →
  let lost := receiver_leaves true l in
  let '(l1, slept) := attempts jitter (replicate n false ++ [true]) lost in
  let l' := finish l1 in
  loop lost = RTop 0 ∧ lostCalls lost = S (lostCalls l) ∧
  slept = slept_delays jitter l 0 (S n) ∧
  conn_ok l' = true ∧ receiver l' = true ∧ heart l' = true ∧ monitor l' = true ∧
  connectionLost l' = false ∧ reconnecting l' = false ∧ loop l' = RIdle ∧
  reconnectCount l' = (reconnectCount l + Z.of_nat n)%Z.
Proof.
  intros Ha Hd Hc Hl Hr Hp Hk H0 Hb lost.
  assert (lost = set_loop true (RTop 0) (report_lost (set_counts (int64 (connectionErrors l + 1)) (reconnectCount l) (set_workers false (heart l) (monitor l) (stale l) l)))) as E.
  { unfold lost, receiver_leaves. unfold triggerConnectionLost, reconnect.
    simpl. by rewrite Hd, Hc, Hl, Ha, Hr. }
  assert (reconnectCount lost = reconnectCount l) as Hcount
    by (by rewrite E).
  pose proof (attempts_result jitter n 0 lost) as Hres.
  destruct (attempts jitter _ lost) as [l1 slept]. cbn [fst snd] in Hres. cbv zeta.
  destruct Hres as (-> & Hlc & Hp1 & Hok & Hrx & Hhb & Hmon & Hd1 & Hr1 & Hcnt).
  { rewrite E. unfold looking. simpl. by split_and!. }
  rewrite finish_result by done.
  split_and!; simpl; try done.
  - by rewrite E.
  - by rewrite E.
  - unfold slept_delays. by rewrite E.
  - rewrite Hcnt; rewrite Hcount; lia.
Qed.

Definition broken_link : Link := set_conn false false (EnableAutoReconnect 0 connected_link).

Lemma reconnect_succeeds_witness :
  let '(l1, slept) := attempts id [false; true] (receiver_leaves true broken_link) in
  slept = [5 * second; 10 * second]%Z ∧ reconnectCount (finish l1) = 1%Z.
Proof.
  pose proof (reconnect_succeeds id 1 broken_link eq_refl eq_refl eq_refl eq_refl eq_refl eq_refl eq_refl) as H.
  specialize (H ltac:(vm_compute; discriminate) ltac:(vm_compute; reflexivity)). cbv zeta in H.
  change (replicate 1 false ++ [true]) with [false; true] in H.
  destruct (attempts id [false; true] (receiver_leaves true broken_link)) as [l1 slept].
  destruct H as (_ & _ & Hs & _ & _ & _ & _ & _ & _ & _ & Hc). split; [exact Hs|exact Hc].
Defined.

(** The client has noticed that its connection is gone, and nobody is reconnecting. *)
Definition stuck (l : Link) : Prop := connectionLost l = true ∧ loop l = RIdle ∧ conn_ok l = false.

Lemma trigger_lost l : connectionLost l = true → triggerConnectionLost l = l.
Proof. intros Hl. unfold triggerConnectionLost. rewrite Hl. by repeat case_match. Qed.

Lemma stuck_step l l' : stuck l → link_step l l' → stuck l'.
Proof.
  intros (Hl & Hp & Hc) Hstep. unfold stuck. destruct Hstep; try done.
  - unfold receiver_leaves. case_match; [|done]. by rewrite trigger_lost.
  - unfold heartbeat_leaves. case_match; [done|]. by rewrite trigger_lost.
  - unfold monitor_wakes. repeat case_match; try done. by rewrite trigger_lost.
  - unfold stale_wakes. case_match; [|done]. by rewrite trigger_lost.
  - by rewrite trigger_lost.
Qed.

(** A connection lost while subscriptions are being restored after a reconnection: the
    receive loop reports it, [reconnect] finds the flag still set and does nothing, then
    the loop ends and clears the flag. *)
Definition lost_while_restoring : Link :=
  let l := (attempts id [true] (receiver_leaves true broken_link)).1 in
  let l := loop_step id false l in
  let l := receiver_leaves true (set_conn (done l) false l) in
  loop_step id false (loop_step id false l).

Lemma loop_reach (jitter : Z → Z) dial l :
  link_reachable l → link_reachable (loop_step jitter dial l).
Proof.
  intros Hl. destruct (loop l) eqn:E; try (eapply rtc_r; [exact Hl|]; apply ls_loop; by rewrite E).
  unfold loop_step. by rewrite E.
Qed.

Lemma attempt_reach jitter dial l : link_reachable l → link_reachable (attempt jitter dial l).1.
Proof.
  intros Hl. unfold attempt. cbn [fst]. apply loop_reach.
  assert (link_reachable (loop_step jitter dial (loop_step jitter dial l))) as H2 by (by do 2 apply loop_reach).
  set (l2 := loop_step jitter dial (loop_step jitter dial l)) in *. clearbody l2.
  assert (link_reachable (if receiver l2 then receiver_leaves true l2 else l2)) as H3.
  { destruct (receiver l2) eqn:E; [|done]. eapply rtc_r; [done|]. apply ls_receiver; auto. }
  set (l3 := if receiver l2 then receiver_leaves true l2 else l2) in *. clearbody l3.
  destruct (heart l3) eqn:E; [|done]. eapply rtc_r; [done|]. by apply ls_heartbeat.
Qed.

Lemma lost_while_restoring_reachable : link_reachable lost_while_restoring.
Proof.
  unfold lost_while_restoring. do 2 apply loop_reach.
  eapply rtc_r; [|apply ls_receiver; [vm_compute; reflexivity|by left]].
  eapply rtc_r; [|apply ls_break]. apply loop_reach.
  change (attempts id [true] ?l).1 with (attempt id true l).1. apply attempt_reach.
  eapply rtc_r; [|apply ls_receiver; [reflexivity|by left]].
  eapply rtc_r; [|apply (ls_break (EnableAutoReconnect 0 connected_link))].
  apply rtc_once, ls_enable.
Qed.

(** C39: automatic reconnection can give up silently. Losing the connection while the
    subscriptions of the previous reconnection are being restored leads to a state, with
    automatic reconnection enabled and the client open, in which the loss is known, no
    reconnect goroutine runs, and nothing that can happen afterwards (publishing,
    re-enabling automatic reconnection, any goroutine's step) ever starts one. *)
Theorem reconnect_stuck_forever :
  ∃ l, link_reachable l ∧ autoReconnect l = true ∧ done l = false ∧ ctxDone l = false ∧
    stuck l ∧ ∀ l', rtc link_step l l' → stuck l'.
Proof.
  exists lost_while_restoring. split; [apply lost_while_restoring_reachable|].
  assert (stuck lost_while_restoring) as Hs by (vm_compute; done).
  split_and!; [vm_compute; done..|done|].
  intros l' Hl'. revert Hs Hl'. apply rtc_invariant. apply stuck_step.
Qed.

(** ** The delays *)

Lemma backoff_power base k :
  (0 < base)%Z → (base * 1024 < 2 ^ 63)%Z → (0 <= k)%Z →
  int64 (base * Z.shiftl 1 (min k 10)) = (base * 2 ^ Z.min k 10)%Z ∧
  (base <= base * 2 ^ Z.min k 10 <= base * 1024)%Z.
Proof.
  intros Hb Hw Hk. assert (min k 10 = Z.min k 10) as ->.
  { unfold min. destruct (Z.ltb_spec k 10); lia. }
  rewrite Z.shiftl_mul_pow2, Z.mul_1_l by lia.
  assert (2 ^ 0 <= 2 ^ Z.min k 10)%Z by (apply Z.pow_le_mono_r; lia).
  assert (2 ^ Z.min k 10 <= 2 ^ 10)%Z by (apply Z.pow_le_mono_r; lia).
  change (2 ^ 0)%Z with 1%Z in *. change (2 ^ 10)%Z with 1024%Z in *.
  split; [apply int64_small; nia|nia].
Qed.

(** C40: the reconnect delay before jitter, for a positive base interval under [2^53] ns
    (104 days): exponential, [base * 2^min(attempt, 10)], capped by the positive maximum,
    never zero or negative and never decreasing with the attempts; with a jitter factor
    between a half and one and a half the sleep stays positive for delays above one
    nanosecond but can exceed the configured maximum by a half. From [2^53] ns on the
    multiplication wraps and the delay becomes negative. *)
Theorem backoff_bounds base maxBackoff k (jitter : Z → Z) :
  (0 < base)%Z → (base < 2 ^ 53)%Z → (0 < maxBackoff)%Z → (0 <= k)%Z →
  (∀ d, (0 <= d)%Z → (d ÷ 2 <= jitter d <= d + d ÷ 2)%Z) →
  backoff base maxBackoff k = Z.min maxBackoff (base * 2 ^ Z.min k 10)%Z ∧
  (0 < backoff base maxBackoff k <= maxBackoff)%Z ∧
  (backoff base maxBackoff k <= backoff base maxBackoff (k + 1))%Z ∧
  (jitter (backoff base maxBackoff k) <= maxBackoff + maxBackoff ÷ 2)%Z ∧
  (backoff (2 ^ 53) 0 10 < 0)%Z.
Proof.
  intros Hb Hw Hm Hk Hj.
  assert (∀ i, (0 <= i)%Z → backoff base maxBackoff i = Z.min maxBackoff (base * 2 ^ Z.min i 10)%Z) as Hval.
  { intros i Hi. unfold backoff. destruct (backoff_power base i Hb) as (E & Hr); [lia..|].
    rewrite (proj2 (Z.ltb_lt 0 maxBackoff)) by lia. cbn [andb]. rewrite E.
    destruct (Z.ltb_spec 0 i).
    - destruct (Z.ltb_spec maxBackoff (base * 2 ^ Z.min i 10)); lia.
    - assert (i = 0%Z) as -> by lia. change (2 ^ Z.min 0 10)%Z with 1%Z.
      destruct (Z.ltb_spec maxBackoff base); lia. }
  rewrite !Hval by lia.
  destruct (backoff_power base k Hb) as (_ & Hr); [lia..|].
  assert (2 ^ Z.min k 10 <= 2 ^ Z.min (k + 1) 10)%Z by (apply Z.pow_le_mono_r; lia).
  assert (base * 2 ^ Z.min k 10 <= base * 2 ^ Z.min (k + 1) 10)%Z by (apply Z.mul_le_mono_nonneg_l; lia).
  set (d := Z.min maxBackoff (base * 2 ^ Z.min k 10)). specialize (Hj d ltac:(lia)).
  split_and!; try lia.
  - transitivity (d + d ÷ 2)%Z; [lia|]. apply Z.add_le_mono; [lia|]. apply Z.quot_le_mono; lia.
  - vm_compute. reflexivity.
Qed.

Lemma backoff_bounds_witness :
  backoff (5 * second) (30 * second) 2 = (20 * second)%Z ∧
  (0 < backoff (5 * second) (30 * second) 7 <= 30 * second)%Z.
Proof.
  assert (∀ d, (0 <= d)%Z → (d ÷ 2 <= d + d ÷ 2 <= d + d ÷ 2)%Z) as Hj
    by (intros d Hd; pose proof (Z.quot_pos d 2 Hd ltac:(lia)); lia).
  split.
  - destruct (backoff_bounds (5 * second) (30 * second) 2 (λ d, d + d ÷ 2)%Z) as (-> & _);
      [reflexivity|reflexivity|reflexivity|lia|exact Hj|reflexivity].
  - apply (backoff_bounds (5 * second) (30 * second) 7 (λ d, d + d ÷ 2)%Z);
      [reflexivity|reflexivity|reflexivity|lia|exact Hj].
Defined.
