(* ===== verification/Client.v ===== *)
(** * The client ([src/client/client.go], [src/client/subscription.go])

    Subscriptions with their queues, the dispatch of received messages, the table of
    pending acknowledgements, the subscription protocol with its retries, publishing and
    closing. Subscription objects and acknowledgement channels are shared by pointer in the
    source; here they have addresses in one heap. *)

From S2P Require Import Prelude GoStrings GoIO Protocol Subject Reconnect.

(** ** State *)

(** [client.Message] *)
Record Delivery := mkDelivery { msgSubject : gostring; msgData : list byte }.

Record Subscription := mkSub {
  subject : gostring;
  active : bool;
  msgChan : list Delivery;       (** buffered channel of capacity [chanCap] *)
  chanCap : Z;
  chanClosed : bool;
  handled : list Delivery;       (** the arguments of the callback so far *)
  processedCount : Z;
  droppedCount : Z;
  closeOnce : bool;
}.

Abbreviation subid := nat.
Abbreviation ackid := nat.

Record Client := mkClient {
  conn : option (list (list byte));        (** [None] is nil; the frames written so far *)
  subscriptions : list subid;
  subs : gmap subid Subscription;          (** every subscription ever allocated *)
  pendingSubs : gmap gostring ackid;
  acked : gset ackid;                      (** the closed acknowledgement channels *)
  fresh : nat;                             (** the next address *)
  link : Link;
  publishErrors : Z;
  subscriptionErrors : Z;
  clientCloseOnce : bool;
}.

Definition set_sub_list (l : list subid) (c : Client) : Client :=
  mkClient (conn c) l (subs c) (pendingSubs c) (acked c) (fresh c) (link c) (publishErrors c)
    (subscriptionErrors c) (clientCloseOnce c).
Definition set_subs (m : gmap subid Subscription) (c : Client) : Client :=
  mkClient (conn c) (subscriptions c) m (pendingSubs c) (acked c) (fresh c) (link c)
    (publishErrors c) (subscriptionErrors c) (clientCloseOnce c).
Definition set_pending (p : gmap gostring ackid) (a : gset ackid) (c : Client) : Client :=
  mkClient (conn c) (subscriptions c) (subs c) p a (fresh c) (link c) (publishErrors c)
    (subscriptionErrors c) (clientCloseOnce c).
Definition set_fresh (n : nat) (c : Client) : Client :=
  mkClient (conn c) (subscriptions c) (subs c) (pendingSubs c) (acked c) n (link c)
    (publishErrors c) (subscriptionErrors c) (clientCloseOnce c).
Definition set_link (l : Link) (c : Client) : Client :=
  mkClient (conn c) (subscriptions c) (subs c) (pendingSubs c) (acked c) (fresh c) l
    (publishErrors c) (subscriptionErrors c) (clientCloseOnce c).
Definition set_written (o : option (list (list byte))) (c : Client) : Client :=
  mkClient o (subscriptions c) (subs c) (pendingSubs c) (acked c) (fresh c) (link c)
    (publishErrors c) (subscriptionErrors c) (clientCloseOnce c).
Definition set_errors (pub sub : Z) (c : Client) : Client :=
  mkClient (conn c) (subscriptions c) (subs c) (pendingSubs c) (acked c) (fresh c) (link c) pub
    sub (clientCloseOnce c).
Definition set_closeOnce (c : Client) : Client :=
  mkClient (conn c) (subscriptions c) (subs c) (pendingSubs c) (acked c) (fresh c) (link c)
    (publishErrors c) (subscriptionErrors c) true.

(** The client [ConnectWithContext] returns. *)
Definition new_client : Client :=
  mkClient (Some []) [] ∅ ∅ ∅ 0 connected_link 0 0 false.

(** ** Subscriptions *)

Definition set_active (b : bool) (s : Subscription) : Subscription :=
  mkSub (subject s) b (msgChan s) (chanCap s) (chanClosed s) (handled s) (processedCount s)
    (droppedCount s) (closeOnce s).
Definition set_chan (q : list Delivery) (s : Subscription) : Subscription :=
  mkSub (subject s) (active s) q (chanCap s) (chanClosed s) (handled s) (processedCount s)
    (droppedCount s) (closeOnce s).
Definition close_chan (s : Subscription) : Subscription :=
  mkSub (subject s) (active s) (msgChan s) (chanCap s) true (handled s) (processedCount s)
    (droppedCount s) (closeOnce s).
Definition set_dropped (n : Z) (s : Subscription) : Subscription :=
  mkSub (subject s) (active s) (msgChan s) (chanCap s) (chanClosed s) (handled s)
    (processedCount s) n (closeOnce s).
Definition set_handled (l : list Delivery) (n : Z) (s : Subscription) : Subscription :=
  mkSub (subject s) (active s) (msgChan s) (chanCap s) (chanClosed s) l n (droppedCount s) (closeOnce s).
Definition set_once (s : Subscription) : Subscription :=
  mkSub (subject s) (active s) (msgChan s) (chanCap s) (chanClosed s) (handled s)
    (processedCount s) (droppedCount s) true.

(** A send on a closed channel panics; [TryEnqueue] recovers and returns false. *)
Definition TryEnqueue (msg : Delivery) (s : Subscription) : bool * Subscription :=
  if negb (active s) then (false, s)
  else if chanClosed s then (false, s)
  else if (len (msgChan s) <? chanCap s)%Z then (true, set_chan (msgChan s ++ [msg]) s)
  else (false, set_dropped (int64 (droppedCount s + 1)) s).

(** One turn of the processing goroutine: the callback on the oldest queued message. *)
Definition process_one (s : Subscription) : Subscription :=
  match msgChan s with
  | [] => s
  | m :: q => set_handled (handled s ++ [m]) (int64 (processedCount s + 1)) (set_chan q s)
  end.

(** [close(msgChan)]; the goroutine then drains the channel and ends. *)
Definition drain (s : Subscription) : Subscription := Nat.iter (length (msgChan s)) process_one s.

Record SubscriptionStats := mkSubStats { ProcessedCount : Z; DroppedCount : Z; Active : bool }.
Definition sub_GetStats (s : Subscription) : SubscriptionStats :=
  mkSubStats (processedCount s) (droppedCount s) (active s).
Definition IsActive (s : Subscription) : bool := active s.

Definition upd_sub (id : subid) (f : Subscription → Subscription) (c : Client) : Client :=
  set_subs (alter f id (subs c)) c.

(** [removeSubscription]: the first occurrence of the pointer. *)
Fixpoint remove_id (id : subid) (l : list subid) : list subid :=
  match l with
  | [] => []
  | x :: l => if decide (x = id) then l else x :: remove_id id l
  end.
Definition removeSubscription (id : subid) (c : Client) : Client :=
  set_sub_list (remove_id id (subscriptions c)) c.

(** ** Receiving *)

(** Closing an acknowledgement channel that may be closed already, and deleting the entry. *)
Definition confirm (subj : gostring) (c : Client) : Client :=
  match pendingSubs c !! subj with
  | Some ack => set_pending (delete subj (pendingSubs c)) ({[ack]} ∪ acked c) c
  | None => c
  end.

Definition subscribed_to : gostring := str "subscribed to ".

Definition deliver_to (msg : Delivery) (c : Client) (id : subid) : Client :=
  match subs c !! id with
  | Some s =>
      if active s && matchSubject (subject s) (msgSubject msg)
      then upd_sub id (λ s, (TryEnqueue msg s).2) c else c
  | None => c
  end.

Definition handleMessage (msg : Protocol.Message) (c : Client) : Client :=
  if decide (Command msg = CmdMsg) then
    foldl (deliver_to (mkDelivery (Subject msg) (Payload msg))) c (subscriptions c)
  else if decide (Command msg = CmdOk) then
    match pendingSubs c !! Subject msg with
    | Some _ => confirm (Subject msg) c
    | None =>
        if Contains (Subject msg) subscribed_to
        then confirm (TrimPrefix (Subject msg) subscribed_to) c
        else c
    end
  else c.

(** Where [receiveLoop] stands: about to look at [c.done] and the context; in [default:],
    reading a message; or returned. *)
Inductive receive_pc := LoopTop | Reading | LoopLeft.

#[global] Instance receive_pc_eq_dec : EqDecision receive_pc.
Proof. solve_decision. Defined.

(** The [select] at the top of the loop, which never waits. The loop ends when [c.done] or
    the context is closed, and when there is no connection (reported as a loss); otherwise it
    reads. *)
Definition receive_poll (c : Client) : Client * receive_pc :=
  if done (link c) || ctxDone (link c) then (set_link (receiver_leaves false (link c)) c, LoopLeft)
  else
    match conn c with
    | None => (set_link (receiver_leaves false (triggerConnectionLost (link c))) c, LoopLeft)
    | Some _ => (c, Reading)
    end.

(** The read, on input [r]: a message is dispatched, an error ends the loop. Nothing looks at
    [c.done] or the context here. *)
Definition receive_read (r : reader) (c : Client) : outcome (Client * reader * receive_pc) :=
  do p ← ParseFromReader r;
  match p with
  | (inl msg, r) => Ret (handleMessage msg c, r, LoopTop)
  | (inr _, r) => Ret (set_link (receiver_leaves true (link c)) c, r, LoopLeft)
  end.

(** One turn of [receiveLoop] on input [r]. *)
Definition receive_turn (r : reader) (c : Client) : outcome (Client * reader * receive_pc) :=
  match receive_poll c with
  | (c, Reading) => receive_read r c
  | (c, p) => Ret (c, r, p)
  end.

(** ** Writing *)

(** [conn.Write]; [ok] is the network's outcome. *)
Definition write (frame : list byte) (ok : bool) (c : Client) : Client :=
  if ok then set_written ((λ l, l ++ [frame]) <$> conn c) c else c.

Inductive client_error :=
| ErrContext
| ErrClientSubjectTooLong (n : Z)
| ErrClientMessageTooLarge (subj payload : Z)
| ErrNoConnection
| ErrWrite
| ErrAckTimeout
| ErrConnectionClosed
| ErrAfterAttempts (n : Z) (last : client_error).

#[global] Instance client_error_eq_dec : EqDecision client_error.
Proof. solve_decision. Defined.

(** [PublishWithContext] *)
Definition Publish (ctx_done write_ok : bool) (subj : gostring) (data : list byte) (c : Client) :
    option client_error * Client :=
  let fail c := set_errors (int64 (publishErrors c + 1)) (subscriptionErrors c) c in
  let lost c := set_link (triggerConnectionLost (link c)) c in
  if ctx_done then (Some ErrContext, c)
  else if (MaxSubjectLen <? len subj)%Z then (Some (ErrClientSubjectTooLong (len subj)), fail c)
  else if (MaxBodyLen <? 1 + 2 + len subj + len data)%Z
  then (Some (ErrClientMessageTooLarge (len subj) (len data)), fail c)
  else
    match conn c with
    | None => (Some ErrNoConnection, lost (fail c))
    | Some _ =>
        let encoded := Encode (NewMessageCmd CmdPub subj data) in
        if write_ok then (None, write encoded true c) else (Some ErrWrite, lost (fail c))
    end.

(** A heartbeat tick. *)
Definition heartbeat_tick (write_ok : bool) (c : Client) : Client :=
  match conn c with
  | None => set_link (heartbeat_leaves (link c)) c
  | Some _ =>
      if write_ok then write (Encode (NewMessageCmd CmdPing [] [])) true c
      else set_link (heartbeat_leaves (link c)) c
  end.

(** ** Subscribing *)

(** Closing the acknowledgement channel a former call left behind, and its entry. *)
Definition drop_old_ack (subj : gostring) (c : Client) : Client := confirm subj c.

Definition forget_pending (subj : gostring) (c : Client) : Client :=
  set_pending (delete subj (pendingSubs c)) (acked c) c.

(** Registering a fresh acknowledgement channel for a subject; an entry another caller has
    for it is overwritten. *)
Definition register_ack (subj : gostring) (c : Client) : ackid * Client :=
  (fresh c, set_fresh (S (fresh c)) (set_pending (<[subj := fresh c]> (pendingSubs c)) (acked c) c)).

Definition new_subscription (subj : gostring) (capacity : Z) (c : Client) : subid * Client :=
  let s := mkSub subj true [] capacity false [] 0 0 false in
  let id := fresh c in
  (id, set_fresh (S id) (set_sub_list (subscriptions c ++ [id]) (set_subs (<[id := s]> (subs c)) c))).

(** What an attempt does up to its [select]: either it waits for an acknowledgement, or it
    has failed already. *)
Inductive begun := Waiting (id : subid) (ack : ackid) | Failed (e : client_error).

(** [removeSubscription], [active.Store(false)], [close(sub.msgChan)]: closing a closed
    channel panics. *)
Definition discard (id : subid) (c : Client) : outcome Client :=
  let c := upd_sub id (set_active false) (removeSubscription id c) in
  match subs c !! id with
  | Some s => if chanClosed s then Panic else Ret (upd_sub id close_chan c)
  | None => Panic
  end.

Definition subscribe_begin (attempt : Z) (subj : gostring) (capacity : Z) (write_ok : bool) (c : Client) :
    outcome (begun * Client) :=
  let c := if (0 <? attempt)%Z then drop_old_ack subj c else c in
  let '(id, c) := new_subscription subj capacity c in
  let '(ack, c) := register_ack subj c in
  match conn c with
  | None => Ret (Failed ErrNoConnection, c)
  | Some _ =>
      if write_ok
      then Ret (Waiting id ack, write (Encode (NewMessageCmd CmdSub subj [])) true c)
      else do c ← discard id (forget_pending subj c); Ret (Failed ErrWrite, c)
  end.

(** The case [select] takes while the attempt waits. *)
Inductive wake := WokenAck | WokenTimeout | WokenContext | WokenDone.

(** [inl id]: subscribed; [inr (Some e)]: give up; [inr None]: try again after a timeout. *)
Definition subscribe_end (subj : gostring) (id : subid) (w : wake) (c : Client) :
    outcome ((subid + option client_error) * Client) :=
  match w with
  | WokenAck => Ret (inl id, c)
  | WokenTimeout => do c ← discard id (forget_pending subj c); Ret (inr None, c)
  | WokenContext => do c ← discard id (forget_pending subj c); Ret (inr (Some ErrContext), c)
  | WokenDone => Ret (inr (Some ErrConnectionClosed), c)
  end.

(** What the environment does in one attempt: whether the context is cancelled at its
    start, the outcome of the write, the messages the receive loop dispatches while it
    waits, and the case it is woken by. *)
Record round := mkRound { r_ctx : bool; r_write : bool; r_received : list Protocol.Message; r_wake : wake }.

Definition receive_all (msgs : list Protocol.Message) (c : Client) : Client :=
  foldl (λ c m, handleMessage m c) c msgs.

(** The loop of [SubscribeWithOptionsContext], from attempt [attempt]. *)
Fixpoint subscribe_attempts (n : nat) (attempt : Z) (subj : gostring) (capacity : Z)
    (env : Z → round) (lastErr : client_error) (c : Client) : outcome ((subid + client_error) * Client) :=
  match n with
  | O => Ret (inr (ErrAfterAttempts 3 lastErr), c)
  | S n =>
      let r := env attempt in
      if r_ctx r then Ret (inr ErrContext, c)
      else
        do b ← subscribe_begin attempt subj capacity (r_write r) c;
        match b with
        | (Failed e, c) => subscribe_attempts n (attempt + 1) subj capacity env e c
        | (Waiting id _, c) =>
            do e ← subscribe_end subj id (r_wake r) (receive_all (r_received r) c);
            match e with
            | (inl id, c) => Ret (inl id, c)
            | (inr (Some e), c) => Ret (inr e, c)
            | (inr None, c) => subscribe_attempts n (attempt + 1) subj capacity env ErrAckTimeout c
            end
        end
  end.

(** [SubscribeWithOptionsContext]: at most three attempts. *)
Definition SubscribeWithOptions (subj : gostring) (capacity : Z) (env : Z → round) (c : Client) :
    outcome ((subid + client_error) * Client) :=
  let capacity := if (capacity <=? 0)%Z then 100%Z else capacity in
  if (MaxSubjectLen <? len subj)%Z then Ret (inr (ErrClientSubjectTooLong (len subj)), c)
  else subscribe_attempts 3 0 subj capacity env ErrNoConnection c.

(** ** Restoring after a reconnection *)

(** [sendSubWithAck] up to its [select]. *)
Definition sendSub_begin (subj : gostring) (write_ok : bool) (c : Client) : (ackid + client_error) * Client :=
  if (MaxSubjectLen <? len subj)%Z then (inr (ErrClientSubjectTooLong (len subj)), c)
  else
    let c := drop_old_ack subj c in
    let '(ack, c) := register_ack subj c in
    match conn c with
    | None => (inr ErrNoConnection, forget_pending subj c)
    | Some _ =>
        if write_ok then (inl ack, write (Encode (NewMessageCmd CmdSub subj [])) true c)
        else (inr ErrWrite, forget_pending subj c)
    end.

Definition sendSub_end (subj : gostring) (w : wake) (c : Client) : option client_error * Client :=
  match w with
  | WokenAck => (None, c)
  | WokenTimeout => (Some ErrAckTimeout, forget_pending subj c)
  | WokenContext => (Some ErrContext, forget_pending subj c)
  | WokenDone => (Some ErrConnectionClosed, c)
  end.

Definition sendSubWithAck (subj : gostring) (r : round) (c : Client) : option client_error * Client :=
  match sendSub_begin subj (r_write r) c with
  | (inr e, c) => (Some e, c)
  | (inl _, c) => sendSub_end subj (r_wake r) (receive_all (r_received r) c)
  end.

(** [restoreOneSubscription]: at most three attempts; [r_ctx] says that the client was closed
    or its context cancelled when the attempt had failed. *)
Fixpoint restore_attempts (n : nat) (attempt : Z) (subj : gostring) (env : Z → round) (c : Client) :
    option client_error * Client :=
  match n with
  | O => (Some (ErrAfterAttempts 3 ErrAckTimeout), c)
  | S n =>
      let r := env attempt in
      match sendSubWithAck subj r c with
      | (None, c) => (None, c)
      | (Some _, c) =>
          if r_ctx r then (Some ErrConnectionClosed, c)
          else restore_attempts n (attempt + 1) subj env c
      end
  end.
Definition restoreOneSubscription (subj : gostring) (env : Z → round) (c : Client) :=
  restore_attempts 3 0 subj env c.

(** [restoreSubscriptions], over the copy of the list; [envs] is the environment of each. *)
Definition restore_one (envs : subid → Z → round) (c : Client) (id : subid) : Client :=
  match subs c !! id with
  | Some s =>
      if active s then
        match restoreOneSubscription (subject s) (envs id) c with
        | (None, c) => c
        | (Some _, c) =>
            upd_sub id (set_active false)
              (set_errors (publishErrors c) (int64 (subscriptionErrors c + 1)) c)
        end
      else c
  | None => c
  end.
Definition restoreSubscriptions (envs : subid → Z → round) (c : Client) : Client :=
  foldl (restore_one envs) c (subscriptions c).

(** ** Unsubscribing and closing *)

(** [Subscription.Unsubscribe]. [from_callback] says that the caller is the subscription's
    own callback: [wg.Wait] then waits for the goroutine it runs on. *)
Definition Unsubscribe (id : subid) (from_callback write_ok : bool) (c : Client) :
    outcome (option client_error * Client) :=
  match subs c !! id with
  | None => Panic
  | Some s =>
      if closeOnce s then Ret (None, c)
      else
        let c := upd_sub id set_once c in
        if negb (active s) then Ret (None, c)
        else
          let c := upd_sub id (set_active false) c in
          if chanClosed s then Panic
          else if from_callback then Block
          else
            let c := upd_sub id (λ s, drain (close_chan s)) c in
            match conn c with
            | None => Ret (None, removeSubscription id c)
            | Some _ =>
                if write_ok
                then Ret (None, removeSubscription id
                                  (write (Encode (NewMessageCmd CmdUnsub (subject s) [])) true c))
                else Ret (Some ErrWrite, c)
            end
  end.

(** [Client.Close]: [wg.Wait] lets the receive loop and the heartbeat leave; the connection
    is closed last. *)
Definition client_Close (c : Client) : Client :=
  if clientCloseOnce c then c
  else
    let c := set_closeOnce c in
    let l := set_workers false false (monitor (link c)) (stale (link c)) (set_cancelled (link c)) in
    let c := set_link (match conn c with Some _ => set_conn (done l) false l | None => l end) c in
    let c := foldl (λ c id, upd_sub id (set_active false) c) c (subscriptions c) in
    let c := set_sub_list [] c in
    set_pending ∅ (acked c ∪ map_to_set (λ _ ack, ack) (pendingSubs c)) c.

(** The part of [GetStats] that is computed from the subscriptions. *)
Definition ActiveSubscriptions (c : Client) : Z :=
  foldl (λ n id, match subs c !! id with Some s => if active s then n + 1 else n | None => n end)%Z
    0%Z (subscriptions c).
