(* ===== verification/ClientLaws.v ===== *)
(** * What the client guarantees

    The client's invariant and its preservation; the dispatch of messages; the queue of a
    subscription; the subscription protocol on every branch; the acknowledgement table under
    concurrent callers; unsubscribing and closing. *)

From S2P Require Import Prelude GoStrings GoIO Protocol Subject Reconnect Client.

(** ** Invariant *)

(** A subscription's channel is within its capacity, and closed only after the subscription
    was made inactive. *)
Record sub_ok (s : Subscription) : Prop := {
  su_cap : (len (msgChan s) <= chanCap s)%Z;
  su_closed : chanClosed s = true → active s = false;
}.

(** Addresses are fresh, listed subscriptions exist and are listed once, and the pending
    acknowledgement channels are open and distinct. *)
Record client_ok (c : Client) : Prop := {
  cl_nodup : NoDup (subscriptions c);
  cl_listed : ∀ id, id ∈ subscriptions c → is_Some (subs c !! id);
  cl_subs : map_Forall (λ id s, (id < fresh c)%nat ∧ sub_ok s) (subs c);
  cl_pending : map_Forall (λ _ a, (a < fresh c)%nat ∧ a ∉ acked c) (pendingSubs c);
  cl_distinct : ∀ p q a, pendingSubs c !! p = Some a → pendingSubs c !! q = Some a → p = q;
  cl_acked : ∀ a, a ∈ acked c → (a < fresh c)%nat;
}.

Lemma new_client_ok : client_ok new_client.
Proof.
  constructor; simpl; try done; try (intros ? H%elem_of_nil; done); try (apply map_Forall_empty).
  constructor.
Qed.

(** Changes that touch neither the subscriptions nor the acknowledgements. *)
Lemma client_ok_write o c : client_ok c → client_ok (set_written o c).
Proof. intros []. by constructor. Qed.
Lemma client_ok_link l c : client_ok c → client_ok (set_link l c).
Proof. intros []. by constructor. Qed.
Lemma client_ok_errors p s c : client_ok c → client_ok (set_errors p s c).
Proof. intros []. by constructor. Qed.
Lemma client_ok_once c : client_ok c → client_ok (set_closeOnce c).
Proof. intros []. by constructor. Qed.

Lemma client_ok_write_frame frame ok c : client_ok c → client_ok (write frame ok c).
Proof. intros Hc. unfold write. destruct ok; [by apply client_ok_write|done]. Qed.

(** Changing one subscription. *)
Lemma client_ok_upd id f c :
  (∀ s, subs c !! id = Some s → sub_ok s → sub_ok (f s)) → client_ok c → client_ok (upd_sub id f c).
Proof.
  intros Hf [Hn Hl Hs Hp Hd Ha]. constructor; try done; cbn [subs subscriptions upd_sub set_subs].
  - intros x Hx%Hl. destruct (decide (id = x)) as [->|]; [|by rewrite lookup_alter_ne].
    rewrite lookup_alter_eq. by destruct Hx as [y ->].
  - intros x s. destruct (decide (id = x)) as [->|].
    + rewrite lookup_alter_eq. destruct (subs c !! x) as [y|] eqn:E; [|done]. intros [= <-].
      destruct (Hs x y E) as [? ?]. split; [done|]. by apply Hf.
    + rewrite lookup_alter_ne by done. apply Hs.
Qed.

Lemma remove_id_sublist id l : remove_id id l `sublist_of` l.
Proof. induction l as [|x l IH]; simpl; [constructor|]. case_decide; by constructor. Qed.

Lemma elem_of_remove_id id x l : NoDup l → x ∈ remove_id id l ↔ x ≠ id ∧ x ∈ l.
Proof.
  induction l as [|y l IH]; intros Hl; simpl.
  - rewrite elem_of_nil. tauto.
  - apply NoDup_cons in Hl as [Hy Hl]. case_decide as E.
    + subst. rewrite elem_of_cons. split; [|tauto]. intros Hx. split; [by intros ->|by right].
    + rewrite !elem_of_cons, IH by done. split; [|tauto]. intros [->|[? ?]]; tauto.
Qed.

Lemma client_ok_remove id c : client_ok c → client_ok (removeSubscription id c).
Proof.
  intros [Hn Hl Hs Hp Hd Ha]. constructor; try done; cbn [subs subscriptions removeSubscription set_sub_list].
  - by eapply sublist_NoDup; [|apply remove_id_sublist].
  - intros x Hx. apply Hl. apply elem_of_remove_id in Hx; tauto.
Qed.

Lemma client_ok_forget p c : client_ok c → client_ok (forget_pending p c).
Proof.
  intros [Hn Hl Hs Hp Hd Ha]. constructor; try done; cbn [pendingSubs acked fresh forget_pending set_pending].
  - by apply map_Forall_delete.
  - intros x y a [_ Hx]%lookup_delete_Some [_ Hy]%lookup_delete_Some. by eapply Hd.
Qed.

Lemma client_ok_confirm p c : client_ok c → client_ok (confirm p c).
Proof.
  intros Hc. unfold confirm. destruct (pendingSubs c !! p) as [a|] eqn:E; [|done].
  destruct Hc as [Hn Hl Hs Hp Hd Ha]. destruct (Hp p a E) as [Hfresh _].
  constructor; try done; cbn [pendingSubs acked fresh set_pending].
  - intros q b [Hne Hq]%lookup_delete_Some. destruct (Hp q b Hq) as [? ?]. split; [done|].
    rewrite elem_of_union, elem_of_singleton. intros [->|?]; [|done]. apply Hne. by eapply Hd.
  - intros x y b [_ Hx]%lookup_delete_Some [_ Hy]%lookup_delete_Some. by eapply Hd.
  - intros b. rewrite elem_of_union, elem_of_singleton. intros [->|?]; [done|by apply Ha].
Qed.

Lemma client_ok_register p c : client_ok c → client_ok (register_ack p c).2.
Proof.
  intros [Hn Hl Hs Hp Hd Ha]. assert (∀ q b, pendingSubs c !! q = Some b → (b < fresh c)%nat) as Hlt
    by (intros q b Hq; by destruct (Hp q b Hq)).
  constructor; try done; cbn [pendingSubs acked fresh subs subscriptions register_ack snd set_fresh set_pending].
  - intros x s Hx. destruct (Hs x s Hx). split; [lia|done].
  - apply map_Forall_insert_2.
    + split; [lia|]. intros Hin%Ha. lia.
    + intros q b Hq. destruct (Hp q b Hq). split; [lia|done].
  - intros x y b. rewrite !lookup_insert. repeat case_decide; subst; intros Hx Hy; simplify_eq; try done.
    + pose proof (Hlt _ _ Hy). lia.
    + pose proof (Hlt _ _ Hx). lia.
    + by eapply Hd.
  - intros b Hb%Ha. lia.
Qed.

Lemma client_ok_new p cap c : (0 < cap)%Z → client_ok c → client_ok (new_subscription p cap c).2.
Proof.
  intros Hcap [Hn Hl Hs Hp Hd Ha].
  constructor; cbn [pendingSubs acked fresh subs subscriptions new_subscription snd set_fresh set_sub_list set_subs];
    try done.
  - apply NoDup_snoc; [done|]. intros [s Hx]%Hl. destruct (Hs _ _ Hx). lia.
  - intros x. rewrite elem_of_app, list_elem_of_singleton, lookup_insert. intros [Hx| ->].
    + case_decide; [done|]. by apply Hl.
    + by rewrite decide_True.
  - apply map_Forall_insert_2; [split; [lia|]; constructor; simpl; [len_lia|done]|].
    intros x s Hx. destruct (Hs x s Hx). split; [lia|done].
  - intros q b Hq. destruct (Hp q b Hq). split; [lia|done].
  - intros b Hb%Ha. lia.
Qed.

Lemma active_open c id s : client_ok c → subs c !! id = Some s → active s = true → chanClosed s = false.
Proof.
  intros Hc Hs Ha. destruct (chanClosed s) eqn:E; [|done].
  destruct (cl_subs c Hc id s Hs) as [_ [_ Hx]]. rewrite Hx in Ha; done.
Qed.

(** ** Receiving *)

Lemma TryEnqueue_ok m s : sub_ok s → sub_ok (TryEnqueue m s).2.
Proof.
  intros Hs. pose proof Hs as [Hcap Hcl]. unfold TryEnqueue.
  destruct (active s) eqn:Ea; cbn [negb]; [|done]. destruct (chanClosed s) eqn:Ec; [done|].
  destruct (Z.ltb_spec (len (msgChan s)) (chanCap s)); constructor; simpl; try done; [len_lia|congruence|congruence].
Qed.

(** What one subscription becomes when message [m] is dispatched. *)
Definition offered (m : Delivery) (s : Subscription) : Subscription :=
  if active s && matchSubject (subject s) (msgSubject m) then (TryEnqueue m s).2 else s.

Lemma deliver_to_eq m c id : deliver_to m c id = upd_sub id (offered m) c.
Proof.
  unfold deliver_to, upd_sub. destruct (subs c !! id) as [s|] eqn:E.
  - unfold offered at 1. destruct (active s && matchSubject (subject s) (msgSubject m)) eqn:Em.
    + f_equal. apply map_eq. intros x. destruct (decide (id = x)) as [->|].
      * rewrite !lookup_alter_eq, E. simpl. unfold offered. by rewrite Em.
      * by rewrite !lookup_alter_ne.
    + replace (alter (offered m) id (subs c)) with (subs c); [by destruct c|].
      apply map_eq. intros x. destruct (decide (id = x)) as [->|].
      * rewrite lookup_alter_eq, E. simpl. unfold offered. by rewrite Em.
      * by rewrite lookup_alter_ne.
  - replace (alter (offered m) id (subs c)) with (subs c); [by destruct c|].
    apply map_eq. intros x. destruct (decide (id = x)) as [->|].
    + by rewrite lookup_alter_eq, E.
    + by rewrite lookup_alter_ne.
Qed.

Lemma deliver_all_spec m l c :
  NoDup l →
  let c' := foldl (deliver_to m) c l in
  (∀ id, subs c' !! id = if decide (id ∈ l) then offered m <$> subs c !! id else subs c !! id) ∧
  c' = set_subs (subs c') c.
Proof.
  revert c. induction l as [|x l IH]; intros c Hl; cbn [foldl].
  - split; [|by destruct c]. intros id. by rewrite decide_False by apply not_elem_of_nil.
  - apply NoDup_cons in Hl as [Hx Hl]. rewrite deliver_to_eq.
    destruct (IH (upd_sub x (offered m) c) Hl) as [Hs Hc]. split.
    + intros id. rewrite Hs. cbn [subs upd_sub set_subs]. destruct (decide (x = id)) as [->|Hne].
      * rewrite decide_False, decide_True by (done || left). apply lookup_alter_eq.
      * rewrite lookup_alter_ne by done. destruct (decide (id ∈ l)) as [Hin|Hin].
        -- by rewrite decide_True by by right.
        -- rewrite decide_False; [done|]. rewrite not_elem_of_cons. split; [congruence|done].
    + etransitivity; [exact Hc|]. by destruct c.
Qed.

Lemma offered_ok m s : sub_ok s → sub_ok (offered m s).
Proof. intros Hs. unfold offered. case_match; [by apply TryEnqueue_ok|done]. Qed.

Lemma client_ok_deliver m l c : client_ok c → client_ok (foldl (deliver_to m) c l).
Proof.
  revert c. induction l as [|x l IH]; intros c Hc; [done|]. cbn [foldl]. apply IH.
  rewrite deliver_to_eq. apply client_ok_upd; [|done]. intros s _. apply offered_ok.
Qed.

(** The preservation lemmas that need no side condition. *)
Create HintDb client.
#[export] Hint Resolve client_ok_write client_ok_link client_ok_errors client_ok_once
  client_ok_write_frame client_ok_remove client_ok_forget client_ok_confirm client_ok_register
  client_ok_deliver new_client_ok : client.

Lemma handleMessage_ok msg c : client_ok c → client_ok (handleMessage msg c).
Proof.
  intros Hc. unfold handleMessage. repeat case_match; try done.
  - auto with client.
  - auto with client.
  - auto with client.
Qed.

(** ** Subscribing *)

(** What receiving messages leaves as it was: the list, the connection, and of every
    subscription all but its queue and counters. *)
Definition shape (s : Subscription) : gostring * bool * bool := (subject s, active s, chanClosed s).
Record frozen (c c' : Client) : Prop := {
  fr_list : subscriptions c' = subscriptions c;
  fr_conn : conn c' = conn c;
  fr_subs : ∀ id, shape <$> subs c' !! id = shape <$> subs c !! id;
}.

Lemma frozen_refl c : frozen c c.
Proof. by constructor. Qed.
Lemma frozen_trans c1 c2 c3 : frozen c1 c2 → frozen c2 c3 → frozen c1 c3.
Proof. intros [H1 H2 H3] [H4 H5 H6]. constructor; [congruence..|]. intros id. by rewrite H6, H3. Qed.

Lemma offered_shape m s : shape (offered m s) = shape s.
Proof. unfold offered, TryEnqueue. by repeat case_match. Qed.

Lemma frozen_confirm p c : frozen c (confirm p c).
Proof. unfold confirm. by destruct (pendingSubs c !! p). Qed.

Lemma frozen_handle msg c : client_ok c → frozen c (handleMessage msg c).
Proof.
  intros Hc. unfold handleMessage. repeat case_match; try apply frozen_refl; try apply frozen_confirm.
  destruct (deliver_all_spec (mkDelivery (Protocol.Subject msg) (Payload msg)) _ c (cl_nodup c Hc)) as [Hs E].
  rewrite E. constructor; [done..|]. intros id. cbn [subs set_subs]. rewrite Hs. case_match; [|done].
  destruct (subs c !! id) as [s|]; [|done]. cbn [fmap option_fmap option_map]. by rewrite offered_shape.
Qed.

Lemma receive_all_ok msgs c : client_ok c → client_ok (receive_all msgs c) ∧ frozen c (receive_all msgs c).
Proof.
  revert c. induction msgs as [|m msgs IH]; intros c Hc; [by split; [|apply frozen_refl]|].
  unfold receive_all. cbn [foldl]. destruct (IH (handleMessage m c)) as [H1 H2]; [by apply handleMessage_ok|].
  split; [done|]. eapply frozen_trans; [by apply frozen_handle|done].
Qed.

Lemma remove_id_last id l : id ∉ l → remove_id id (l ++ [id]) = l.
Proof.
  induction l as [|x l IH]; intros Hl; simpl; [by rewrite decide_True|].
  apply not_elem_of_cons in Hl as [Hx Hl]. rewrite decide_False by congruence. by rewrite IH.
Qed.

Lemma sub_ok_inactive s : sub_ok s → sub_ok (set_active false s).
Proof. intros []. by constructor. Qed.
Lemma sub_ok_close s : active s = false → sub_ok s → sub_ok (close_chan s).
Proof. intros ? []. by constructor. Qed.

Lemma discard_run id s c :
  client_ok c → subs c !! id = Some s → chanClosed s = false →
  ∃ c', discard id c = Ret c' ∧ client_ok c' ∧ conn c' = conn c ∧
    subscriptions c' = remove_id id (subscriptions c) ∧ pendingSubs c' = pendingSubs c ∧
    subs c' !! id = Some (close_chan (set_active false s)).
Proof.
  intros Hc Hs Hcl. unfold discard.
  set (c1 := upd_sub id (set_active false) (removeSubscription id c)).
  assert (subs c1 !! id = Some (set_active false s)) as Hs1.
  { unfold c1. cbn [subs upd_sub set_subs removeSubscription set_sub_list]. by rewrite lookup_alter_eq, Hs. }
  assert (client_ok c1) as Hc1.
  { apply client_ok_upd; [|auto with client]. intros y _. apply sub_ok_inactive. }
  cbv zeta. fold c1. rewrite Hs1. cbn [chanClosed set_active]. rewrite Hcl.
  eexists. split; [reflexivity|]. split_and!; try done.
  - apply client_ok_upd; [|done]. intros y Hy. rewrite Hs1 in Hy. injection Hy as <-. by apply sub_ok_close.
  - cbn [subs upd_sub set_subs]. by rewrite lookup_alter_eq, Hs1.
Qed.

Lemma fresh_not_listed c : client_ok c → fresh c ∉ subscriptions c.
Proof. intros Hc [s Hs]%(cl_listed c Hc). destruct (cl_subs c Hc _ _ Hs). lia. Qed.

(** The state of an attempt just before it writes. *)
Definition registered (attempt : Z) (subj : gostring) (cap : Z) (c : Client) : Client :=
  let c := if (0 <? attempt)%Z then drop_old_ack subj c else c in
  (register_ack subj (new_subscription subj cap c).2).2.

Lemma registered_spec attempt subj cap c :
  (0 < cap)%Z → client_ok c →
  let c' := registered attempt subj cap c in
  client_ok c' ∧ conn c' = conn c ∧ subscriptions c' = subscriptions c ++ [fresh c] ∧
  subs c' !! fresh c = Some (mkSub subj true [] cap false [] 0 0 false) ∧
  pendingSubs c' !! subj = Some (S (fresh c)).
Proof.
  intros Hcap Hc. unfold registered.
  set (c0 := if (0 <? attempt)%Z then drop_old_ack subj c else c).
  assert (client_ok c0 ∧ conn c0 = conn c ∧ subscriptions c0 = subscriptions c ∧ fresh c0 = fresh c) as (H0 & H1 & H2 & H3).
  { unfold c0, drop_old_ack. case_match; [|done]. split; [by apply client_ok_confirm|].
    unfold confirm. by destruct (pendingSubs c !! subj). }
  cbv zeta. split_and!.
  - apply client_ok_register. by apply client_ok_new.
  - done.
  - cbn. by rewrite H2, H3.
  - cbn. rewrite <-H3. apply lookup_insert_eq.
  - cbn. rewrite H3. apply lookup_insert_eq.
Qed.

Lemma subscribe_begin_spec attempt subj cap write_ok c :
  (0 < cap)%Z → client_ok c →
  ∃ b c', subscribe_begin attempt subj cap write_ok c = Ret (b, c') ∧ client_ok c' ∧
    match b with
    | Waiting id ack =>
        write_ok = true ∧ id = fresh c ∧ ack = S (fresh c) ∧
        (∃ l, conn c = Some l ∧ conn c' = Some (l ++ [Encode (NewMessageCmd CmdSub subj [])])) ∧
        subscriptions c' = subscriptions c ++ [id] ∧
        subs c' !! id = Some (mkSub subj true [] cap false [] 0 0 false) ∧
        pendingSubs c' !! subj = Some ack
    | Failed e =>
        conn c' = conn c ∧
        ((conn c = None ∧ e = ErrNoConnection ∧ subscriptions c' = subscriptions c ++ [fresh c] ∧
          subs c' !! fresh c = Some (mkSub subj true [] cap false [] 0 0 false)) ∨
         (is_Some (conn c) ∧ write_ok = false ∧ e = ErrWrite ∧ subscriptions c' = subscriptions c ∧
          pendingSubs c' !! subj = None))
    end.
Proof.
  intros Hcap Hc. destruct (registered_spec attempt subj cap c Hcap Hc) as (Hok & Hconn & Hlist & Hsub & Hpend).
  assert (fresh (if (0 <? attempt)%Z then drop_old_ack subj c else c) = fresh c) as Hfresh.
  { unfold drop_old_ack, confirm. by repeat case_match. }
  assert (subscribe_begin attempt subj cap write_ok c =
    match conn c with
    | None => Ret (Failed ErrNoConnection, registered attempt subj cap c)
    | Some _ =>
        if write_ok
        then Ret (Waiting (fresh c) (S (fresh c)),
                  write (Encode (NewMessageCmd CmdSub subj [])) true (registered attempt subj cap c))
        else do c' ← discard (fresh c) (forget_pending subj (registered attempt subj cap c));
             Ret (Failed ErrWrite, c')
    end) as ->.
  { rewrite <-Hconn at 1. unfold subscribe_begin, registered. cbv zeta. cbn [new_subscription register_ack snd].
    by rewrite Hfresh. }
  destruct (conn c) as [l|] eqn:Ec.
  2: { eexists _, _. split; [reflexivity|]. split; [exact Hok|]. split; [exact Hconn|]. left. by split_and!. }
  destruct write_ok.
  - eexists _, _. split; [reflexivity|]. split; [auto with client|].
    cbn [write conn subs subscriptions pendingSubs set_written]. rewrite Hconn.
    split_and!; try done. by exists l.
  - destruct (discard_run (fresh c) _ _ (client_ok_forget subj _ Hok) Hsub) as (c' & -> & Hc' & H1 & H2 & H3 & H4); [done|].
    cbn [obind]. eexists _, _. split; [reflexivity|]. split; [done|]. split.
    { rewrite H1. cbn. exact Hconn. }
    right. split_and!; try done.
    + rewrite H2. cbn [subscriptions forget_pending set_pending]. rewrite Hlist.
      by apply remove_id_last, fresh_not_listed.
    + rewrite H3. apply lookup_delete_eq.
Qed.

Lemma subscribe_end_spec subj id w c s :
  client_ok c → subs c !! id = Some s → shape s = (subj, true, false) →
  ∃ e c', subscribe_end subj id w c = Ret (e, c') ∧ client_ok c' ∧ conn c' = conn c ∧
    match e with
    | inl id' => id' = id ∧ c' = c
    | inr (Some ErrConnectionClosed) => c' = c
    | inr _ => subscriptions c' = remove_id id (subscriptions c) ∧ pendingSubs c' !! subj = None
    end.
Proof.
  intros Hc Hs Hsh. injection Hsh as Hsubj Hact Hcl.
  assert (∃ c', discard id (forget_pending subj c) = Ret c' ∧ client_ok c' ∧ conn c' = conn c ∧
    subscriptions c' = remove_id id (subscriptions c) ∧ pendingSubs c' !! subj = None) as (c' & Hd & H1 & H2 & H3 & H4).
  { destruct (discard_run id s _ (client_ok_forget subj _ Hc) Hs Hcl) as (c' & Hd & H1 & H2 & H3 & H4 & _).
    exists c'. split_and!; try done. rewrite H4. apply lookup_delete_eq. }
  destruct w; cbn [subscribe_end]; rewrite ?Hd; cbn [obind]; eexists _, _; by split_and!.
Qed.

(** The outcome of the attempts on a client that has a connection. *)
Definition subscribed_result (subj : gostring) (c : Client) (res : subid + client_error) (c' : Client) : Prop :=
  match res with
  | inl id =>
      subscriptions c' = subscriptions c ++ [id] ∧
      ∃ s, subs c' !! id = Some s ∧ shape s = (subj, true, false)
  | inr ErrConnectionClosed =>
      ∃ id s, subscriptions c' = subscriptions c ++ [id] ∧ subs c' !! id = Some s ∧ active s = true
  | inr _ => subscriptions c' = subscriptions c
  end.

Lemma attempts_spec n k subj cap env e c :
  (0 < cap)%Z → client_ok c → is_Some (conn c) → e ≠ ErrConnectionClosed →
  ∃ res c', subscribe_attempts n k subj cap env e c = Ret (res, c') ∧ client_ok c' ∧
    is_Some (conn c') ∧ subscribed_result subj c res c'.
Proof.
  intros Hcap. revert k e c. induction n as [|n IH]; intros k e c Hc Hconn He; cbn [subscribe_attempts].
  { by eexists _, _. }
  destruct (r_ctx (env k)); [by eexists _, _|].
  destruct (subscribe_begin_spec k subj cap (r_write (env k)) c Hcap Hc) as (b & c1 & -> & Hc1 & Hb).
  cbn [obind]. destruct b as [id ack|e1].
  - destruct Hb as (_ & -> & _ & (l & Hl & Hl') & Hlist & Hsub & _).
    destruct (receive_all_ok (r_received (env k)) c1 Hc1) as [Hc2 [Hf1 Hf2 Hf3]].
    specialize (Hf3 (fresh c)). rewrite Hsub in Hf3. cbn [fmap option_fmap option_map] in Hf3.
    destruct (subs (receive_all _ c1) !! fresh c) as [s|] eqn:Es; [|done]. apply (inj Some) in Hf3.
    destruct (subscribe_end_spec subj (fresh c) (r_wake (env k)) _ s Hc2 Es) as (r & c3 & -> & Hc3 & Hconn3 & Hr);
      [by rewrite Hf3|]. cbn [obind].
    assert (is_Some (conn c3)) as Hsome by (rewrite Hconn3, Hf2, Hl'; eauto).
    rewrite Hf1, Hlist in Hr.
    destruct r as [id'|[e1|]].
    + destruct Hr as [-> ->]. eexists _, _. split_and!; [reflexivity|done..|]. split.
      * by rewrite Hf1, Hlist.
      * exists s. by rewrite Hf3.
    + eexists _, _. split_and!; [reflexivity|done..|]. destruct e1;
        try (apply proj1 in Hr; cbn; rewrite Hr; apply remove_id_last; by apply fresh_not_listed).
      subst c3. exists (fresh c), s. split_and!; [by rewrite Hf1, Hlist|done|]. by injection Hf3.
    + destruct Hr as [Hr _]. rewrite remove_id_last in Hr by (by apply fresh_not_listed).
      destruct (IH (k + 1)%Z ErrAckTimeout c3 Hc3 Hsome ltac:(done)) as (res & c4 & -> & Hc4 & Hs4 & Hres).
      exists res, c4. split_and!; try done. unfold subscribed_result in *. by rewrite Hr in Hres.
  - destruct Hb as (Hconn1 & [(E & _)|(_ & _ & -> & Hlist & _)]).
    { rewrite E in Hconn. by destruct Hconn. }
    destruct (IH (k + 1)%Z ErrWrite c1 Hc1) as (res & c4 & -> & Hc4 & Hs4 & Hres); [by rewrite Hconn1|done|].
    exists res, c4. split_and!; try done. unfold subscribed_result in *. by rewrite Hlist in Hres.
Qed.

Lemma attempts_without_conn n k subj cap env e c :
  (0 < cap)%Z → client_ok c → conn c = None → (∀ i, r_ctx (env i) = false) →
  ∃ c' ids, subscribe_attempts n k subj cap env e c
      = Ret (inr (ErrAfterAttempts 3 (match n with O => e | _ => ErrNoConnection end)), c') ∧
    client_ok c' ∧ subscriptions c' = subscriptions c ++ ids ∧ length ids = n ∧
    Forall (λ id, IsActive <$> subs c' !! id = Some true) ids ∧
    ∀ id s, subs c !! id = Some s → subs c' !! id = Some s.
Proof.
  intros Hcap Hc Hconn Henv. revert k e c Hc Hconn.
  induction n as [|n IH]; intros k e c Hc Hconn; cbn [subscribe_attempts].
  { exists c, []. rewrite app_nil_r. by split_and!. }
  rewrite Henv. destruct (registered_spec k subj cap c Hcap Hc) as (Hok & Hconn1 & Hlist & Hsub & _).
  assert (subscribe_begin k subj cap (r_write (env k)) c = Ret (Failed ErrNoConnection, registered k subj cap c)) as ->.
  { unfold subscribe_begin, registered. cbv zeta. cbn [new_subscription register_ack snd conn set_fresh set_pending set_sub_list set_subs].
    replace (conn (if (0 <? k)%Z then drop_old_ack subj c else c)) with (@None (list (list byte))); [done|].
    unfold drop_old_ack, confirm. by repeat case_match. }
  cbn [obind]. destruct (IH (k + 1)%Z ErrNoConnection _ Hok) as (c' & ids & -> & Hc' & Hl' & Hlen & Hall & Hkeep); [congruence|].
  exists c', (fresh c :: ids). split_and!; try done.
  - by destruct n.
  - rewrite Hl', Hlist, <-app_assoc. done.
  - simpl. lia.
  - constructor; [|done]. by rewrite (Hkeep _ _ Hsub).
  - intros id s Hs. apply Hkeep. unfold registered. cbn.
    rewrite lookup_insert_ne.
    + unfold drop_old_ack, confirm. by repeat case_match.
    + destruct (cl_subs c Hc _ _ Hs) as [Hlt _]. assert (fresh (if (0 <? k)%Z then drop_old_ack subj c else c) = fresh c) as ->.
      { unfold drop_old_ack, confirm. by repeat case_match. } lia.
Qed.

(** ** A subscription's queue *)

(** The calls on one subscription: a message offered, a turn of its processing goroutine. *)
Inductive sub_op := Offer (m : Delivery) | Process.

Definition sub_run (ops : list sub_op) (s : Subscription) : Subscription :=
  foldl (λ s op, match op with Offer m => (TryEnqueue m s).2 | Process => process_one s end) s ops.

Definition offers (ops : list sub_op) : list Delivery :=
  omap (λ op, match op with Offer m => Some m | Process => None end) ops.

Lemma process_one_keeps s :
  handled (process_one s) ++ msgChan (process_one s) = handled s ++ msgChan s ∧
  shape (process_one s) = shape s ∧ droppedCount (process_one s) = droppedCount s ∧
  chanCap (process_one s) = chanCap s.
Proof. unfold process_one. destruct (msgChan s) eqn:E; simpl; rewrite ?E; [done|]. by rewrite <-app_assoc. Qed.

Lemma TryEnqueue_open m s :
  active s = true → chanClosed s = false →
  TryEnqueue m s = if (len (msgChan s) <? chanCap s)%Z then (true, set_chan (msgChan s ++ [m]) s)
                   else (false, set_dropped (int64 (droppedCount s + 1)) s).
Proof. intros Ha Hc. unfold TryEnqueue. by rewrite Ha, Hc. Qed.

(** Accounting over a run, from any state. *)
Lemma sub_run_accounts ops s :
  active s = true → chanClosed s = false → (len (msgChan s) <= chanCap s)%Z →
  (0 <= droppedCount s)%Z → (droppedCount s + len ops < 2 ^ 63)%Z →
  let s' := sub_run ops s in
  ∃ acc, handled s' ++ msgChan s' = (handled s ++ msgChan s) ++ acc ∧ acc `sublist_of` offers ops ∧
    len (offers ops) = (len acc + (droppedCount s' - droppedCount s))%Z ∧
    (len (msgChan s') <= chanCap s')%Z ∧ chanCap s' = chanCap s ∧ shape s' = shape s.
Proof.
  revert s. induction ops as [|op ops IH]; intros s Ha Hc Hcap Hd Hb.
  { exists []. cbn. rewrite app_nil_r, Z.sub_diag. by split_and!. }
  unfold sub_run. cbn [foldl]. cbv zeta. destruct op as [m|].
  - rewrite (TryEnqueue_open m s Ha Hc).
    destruct (Z.ltb_spec (len (msgChan s)) (chanCap s)) as [Hlt|Hge]; cbn [snd].
    + destruct (IH (set_chan (msgChan s ++ [m]) s)) as (acc & H1 & H2 & H3 & H4 & H5 & H6);
        simpl; try done; [len_lia|len_lia|].
      exists (m :: acc). unfold sub_run in *. rewrite H1. cbn [handled msgChan set_chan].
      change (offers (Offer m :: ops)) with (m :: offers ops).
      split_and!; try done; [by rewrite <-!app_assoc|by constructor|]. rewrite !len_cons, H3. simpl. lia.
    + rewrite int64_small by len_lia.
      destruct (IH (set_dropped (droppedCount s + 1) s)) as (acc & H1 & H2 & H3 & H4 & H5 & H6);
        simpl; try done; [lia|len_lia|].
      exists acc. unfold sub_run in *. rewrite H1. cbn [droppedCount set_dropped] in H3.
      change (offers (Offer m :: ops)) with (m :: offers ops).
      split_and!; try done; [by constructor|]. rewrite len_cons, H3. lia.
  - destruct (process_one_keeps s) as (Hk & Hsh & Hdr & Hcp). pose proof Hsh as [= _ Ha' Hc'].
    destruct (IH (process_one s)) as (acc & H1 & H2 & H3 & H4 & H5 & H6);
      rewrite ?Ha', ?Hc', ?Hdr, ?Hcp; try done.
    { unfold process_one. destruct (msgChan s) eqn:E; simpl; rewrite ?E; len_lia. }
    { len_lia. }
    exists acc. unfold sub_run in *. rewrite H1, Hk. rewrite Hdr in H3.
    split_and!; try done; congruence.
Qed.

(** ** Acknowledgements *)

(** A channel that no pending entry holds is closed by no received message. *)
Lemma receive_all_unpending msgs c a :
  client_ok c → (∀ p, pendingSubs c !! p ≠ Some a) → a ∉ acked c → a ∉ acked (receive_all msgs c).
Proof.
  intros Hc Hp Ha.
  assert (∀ q c, (∀ p, pendingSubs c !! p ≠ Some a) → a ∉ acked c →
    (∀ p, pendingSubs (confirm q c) !! p ≠ Some a) ∧ a ∉ acked (confirm q c)) as Hconf.
  { intros q d Hpd Had. unfold confirm. destruct (pendingSubs d !! q) as [b|] eqn:E; [|done].
    cbn [pendingSubs acked set_pending]. split.
    - intros p [_ Hx]%lookup_delete_Some. by apply (Hpd p).
    - rewrite elem_of_union, elem_of_singleton. intros [->|?]; [by apply (Hpd q)|done]. }
  clear Hc. revert c Hp Ha. induction msgs as [|m msgs IH]; intros c Hp Ha; [done|].
  unfold receive_all. cbn [foldl]. assert ((∀ p, pendingSubs (handleMessage m c) !! p ≠ Some a) ∧
    a ∉ acked (handleMessage m c)) as [? ?]; [|by apply IH].
  unfold handleMessage. repeat case_match; try done; try by apply Hconf.
  assert (∀ l d, pendingSubs (foldl (deliver_to (mkDelivery (Protocol.Subject m) (Payload m))) d l) = pendingSubs d ∧
            acked (foldl (deliver_to (mkDelivery (Protocol.Subject m) (Payload m))) d l) = acked d) as Hd.
  { induction l as [|x l IHl]; intros d; [done|]. cbn [foldl]. destruct (IHl (deliver_to (mkDelivery (Protocol.Subject m) (Payload m)) d x)) as [-> ->].
    rewrite deliver_to_eq. done. }
  destruct (Hd (subscriptions c) c) as [-> ->]. done.
Qed.

(** The acknowledgement text. *)
Lemma subscribed_to_contains subj : Contains (subscribed_to ++ subj) subscribed_to = true.
Proof. apply Contains_spec. exists [], subj. done. Qed.

(** An acknowledgement for [subj] closes the channel of [subj]'s entry, unless the text itself
    is the subject of a pending subscription. *)
Lemma handle_ack subj c a :
  pendingSubs c !! (subscribed_to ++ subj) = None → pendingSubs c !! subj = Some a →
  let c' := handleMessage (NewMessageCmd CmdOk (subscribed_to ++ subj) []) c in
  acked c' = {[a]} ∪ acked c ∧ pendingSubs c' = delete subj (pendingSubs c).
Proof.
  intros Hno Hp. unfold handleMessage. cbn [Command Protocol.Subject NewMessageCmd].
  rewrite decide_False, decide_True, Hno, subscribed_to_contains, TrimPrefix_app by done.
  unfold confirm. by rewrite Hp.
Qed.

(** ** Unsubscribing and closing *)

Lemma drain_spec s :
  msgChan (drain s) = [] ∧ handled (drain s) = handled s ++ msgChan s ∧ shape (drain s) = shape s ∧
  chanCap (drain s) = chanCap s.
Proof.
  unfold drain. remember (msgChan s) as q eqn:Hq. revert s Hq.
  induction q as [|m q IH]; intros s Hq; [by rewrite app_nil_r|].
  simpl length. rewrite Nat.iter_succ_r.
  assert (process_one s = set_handled (handled s ++ [m]) (int64 (processedCount s + 1)) (set_chan q s)) as E
    by (unfold process_one; by rewrite <-Hq).
  destruct (IH (process_one s)) as (H1 & H2 & H3 & H4); [by rewrite E|].
  rewrite H1, H2, H3, H4, E. simpl. by rewrite <-app_assoc.
Qed.

Lemma drain_once s : closeOnce (drain s) = closeOnce s.
Proof.
  unfold drain. generalize (length (msgChan s)) as n. intros n.
  assert (∀ y, closeOnce (process_one y) = closeOnce y) as Hp
    by (intros y; unfold process_one; by destruct (msgChan y)).
  induction n as [|n IH]; [done|]. simpl. by rewrite Hp.
Qed.

Lemma client_close_subs l c id :
  subs (foldl (λ c id, upd_sub id (set_active false) c) c l) !! id =
    if decide (id ∈ l) then set_active false <$> subs c !! id else subs c !! id.
Proof.
  revert c. induction l as [|x l IH]; intros c; cbn [foldl].
  { by rewrite decide_False by apply not_elem_of_nil. }
  rewrite IH. cbn [subs upd_sub set_subs]. destruct (decide (x = id)) as [->|Hne].
  - rewrite lookup_alter_eq, (decide_True (P := id ∈ id :: l)) by left.
    case_decide; [|done]. by destruct (subs c !! id).
  - rewrite lookup_alter_ne by done. destruct (decide (id ∈ l)).
    + by rewrite decide_True by by right.
    + rewrite decide_False; [done|]. rewrite not_elem_of_cons. split; [congruence|done].
Qed.

Lemma client_close_rest l c :
  let c' := foldl (λ c id, upd_sub id (set_active false) c) c l in c' = set_subs (subs c') c.
Proof.
  revert c. induction l as [|x l IH]; intros c; cbn [foldl]; [by destruct c|].
  cbv zeta in *. rewrite IH at 1. by destruct c.
Qed.

(** Closing the client changes a subscription at most by making it inactive. *)
Lemma client_Close_sub c id s :
  clientCloseOnce c = false → subs c !! id = Some s →
  subs (client_Close c) !! id = Some (if decide (id ∈ subscriptions c) then set_active false s else s).
Proof.
  intros Ho Hs. unfold client_Close. rewrite Ho. cbv zeta. cbn [subs set_pending set_sub_list].
  rewrite client_close_subs. cbn [subs set_link set_closeOnce subscriptions]. by case_decide; rewrite Hs.
Qed.

Lemma client_Close_conn c : conn (client_Close c) = conn c.
Proof.
  unfold client_Close. destruct (clientCloseOnce c); [done|]. cbv zeta. cbn [conn set_pending set_sub_list].
  assert (∀ l c, conn (foldl (λ c id, upd_sub id (set_active false) c) c l) = conn c) as ->; [|done].
  intros l. induction l as [|x l IH]; intros d; [done|]. cbn [foldl]. by rewrite IH.
Qed.

Lemma sub_ok_drain s : active s = false → sub_ok s → sub_ok (drain (close_chan s)).
Proof.
  intros Ha [Hcap Hcl]. destruct (drain_spec (close_chan s)) as (H1 & _ & H3 & H4).
  injection H3 as _ H3 _. constructor; [|by rewrite H3].
  rewrite H1, H4. simpl. pose proof (len_nonneg (msgChan s)). rewrite len_nil. lia.
Qed.

Lemma Unsubscribe_run c id s l write_ok :
  client_ok c → subs c !! id = Some s → closeOnce s = false → active s = true → conn c = Some l →
  ∃ c' s', Unsubscribe id false write_ok c = Ret (if write_ok then None else Some ErrWrite, c') ∧
    client_ok c' ∧ subs c' !! id = Some s' ∧ (∀ x, x ≠ id → subs c' !! x = subs c !! x) ∧
    handled s' = handled s ++ msgChan s ∧ msgChan s' = [] ∧ active s' = false ∧ chanClosed s' = true ∧
    subscriptions c' = (if write_ok then remove_id id (subscriptions c) else subscriptions c) ∧
    conn c' = Some (l ++ (if write_ok then [Encode (NewMessageCmd CmdUnsub (subject s) [])] else [])) ∧
    ∀ cb w, Unsubscribe id cb w c' = Ret (None, c').
Proof.
  intros Hc Hs Ho Ha Hl. pose proof (active_open c id s Hc Hs Ha) as Hcl.
  set (s2 := set_active false (set_once s)). set (s3 := drain (close_chan s2)).
  assert (closeOnce s3 = true) as Ho3.
  { unfold s3. by rewrite drain_once. }
  destruct (drain_spec (close_chan s2)) as (H1 & H2 & H3 & H4). fold s3 in H1, H2, H3, H4.
  injection H3 as _ H3 H3'.
  set (c1 := upd_sub id (set_active false) (upd_sub id set_once c)).
  set (c2 := upd_sub id (λ s, drain (close_chan s)) c1).
  assert (client_ok c1) as Hc1.
  { do 2 (apply client_ok_upd; [intros y _ []; by constructor|]). done. }
  assert (subs c1 !! id = Some s2) as Hs1.
  { unfold c1. cbn [subs upd_sub set_subs]. by rewrite !lookup_alter_eq, Hs. }
  assert (client_ok c2) as Hc2.
  { apply client_ok_upd; [|done]. intros y Hy Hok. rewrite Hs1 in Hy. injection Hy as <-. by apply sub_ok_drain. }
  assert (subs c2 !! id = Some s3) as Hs2.
  { unfold c2. cbn [subs upd_sub set_subs]. by rewrite lookup_alter_eq, Hs1. }
  assert (∀ x, x ≠ id → subs c2 !! x = subs c !! x) as Hrest.
  { intros x Hx. unfold c2, c1. cbn [subs upd_sub set_subs]. by rewrite !lookup_alter_ne. }
  assert (∀ d cb w, subs d !! id = Some s3 → Unsubscribe id cb w d = Ret (None, d)) as Hagain.
  { intros d cb w Hd. unfold Unsubscribe. by rewrite Hd, Ho3. }
  unfold Unsubscribe. rewrite Hs, Ho, Ha. cbn [negb]. rewrite Hcl.
  cbv zeta. fold c1. fold c2. change (conn c2) with (conn c). rewrite Hl.
  destruct write_ok; eexists _, s3; split; try reflexivity; split_and!; try done.
  - auto with client.
  - cbn [conn removeSubscription set_sub_list write set_written]. change (conn c2) with (conn c). by rewrite Hl.
  - intros cb w. by apply Hagain.
  - cbn [conn]. change (conn c2) with (conn c). by rewrite Hl, app_nil_r.
  - intros cb w. by apply Hagain.
Qed.

(** ** Properties *)

(** C24: dispatch of a message from the server: every listed, active subscription whose
    pattern matches is offered the message once: it is appended to the queue when there is
    room and counted as dropped otherwise; no other subscription, and nothing else of the
    client, changes; and the client's invariant is kept. *)
Theorem handleMessage_dispatches c msg :
  client_ok c → Command msg = CmdMsg →
  let d := mkDelivery (Protocol.Subject msg) (Payload msg) in
  let c' := handleMessage msg c in
  client_ok c' ∧ c' = set_subs (subs c') c ∧
  ∀ id s, subs c !! id = Some s →
    (id ∈ subscriptions c → active s = true → matchSubject (subject s) (Protocol.Subject msg) = true →
     chanClosed s = false ∧
     ((len (msgChan s) < chanCap s)%Z → subs c' !! id = Some (set_chan (msgChan s ++ [d]) s)) ∧
     ((chanCap s <= len (msgChan s))%Z → subs c' !! id = Some (set_dropped (int64 (droppedCount s + 1)) s))) ∧
    (id ∉ subscriptions c ∨ active s = false ∨ matchSubject (subject s) (Protocol.Subject msg) = false →
     subs c' !! id = Some s).
Proof.
  intros Hc Hcmd d c'. split; [by apply handleMessage_ok|].
  assert (c' = foldl (deliver_to d) c (subscriptions c)) as E
    by (unfold c', handleMessage; by rewrite decide_True).
  destruct (deliver_all_spec d (subscriptions c) c (cl_nodup c Hc)) as [Hs Hrest]. rewrite <-E in Hs, Hrest.
  split; [exact Hrest|]. intros id s Hid. split.
  - intros Hin Ha Hm. assert (chanClosed s = false) as Hcl.
    { by eapply active_open. }
    assert (subs c' !! id = Some (TryEnqueue d s).2) as Hnew.
    { rewrite Hs, decide_True, Hid by done. cbn. unfold offered. cbn [msgSubject d]. by rewrite Ha, Hm. }
    rewrite Hnew, TryEnqueue_open by done. split; [done|]. split; intros Hlen.
    + by rewrite (proj2 (Z.ltb_lt _ _)).
    + by rewrite (proj2 (Z.ltb_ge _ _)).
  - intros Hno. rewrite Hs, Hid. case_decide as Hin; [|done]. cbn. unfold offered. cbn [msgSubject d].
    destruct Hno as [?|[->| ->]]; [done|done|]. by rewrite andb_false_r.
Qed.

Definition one_subscription : Client := registered 0 (str "a.*") 10 new_client.

Lemma handleMessage_dispatches_witness :
  (Command (NewMessageCmd CmdMsg (str "a.b") (str "hi")) = CmdMsg) ∧
  client_ok (handleMessage (NewMessageCmd CmdMsg (str "a.b") (str "hi")) one_subscription).
Proof.
  split; [reflexivity|].
  apply (handleMessage_dispatches one_subscription (NewMessageCmd CmdMsg (str "a.b") (str "hi"))); [|reflexivity].
  apply (registered_spec 0 (str "a.*") 10 new_client); [lia|apply new_client_ok].
Defined.

(** C25: no silent loss in a subscription: for any interleaving of offered messages and
    turns of the processing goroutine, the messages handed to the callback followed by
    those still queued are the accepted ones in the order they were offered, and the
    offered messages that are not among them are exactly as many as [droppedCount] says;
    the queue never exceeds its capacity. *)
Theorem subscription_queue_fifo subj cap ops :
  (0 < cap)%Z → (len ops < 2 ^ 63)%Z →
  let s := sub_run ops (mkSub subj true [] cap false [] 0 0 false) in
  (handled s ++ msgChan s) `sublist_of` offers ops ∧
  len (offers ops) = (len (handled s ++ msgChan s) + DroppedCount (sub_GetStats s))%Z ∧
  (len (msgChan s) <= cap)%Z ∧ IsActive s = true.
Proof.
  intros Hcap Hlen s.
  destruct (sub_run_accounts ops (mkSub subj true [] cap false [] 0 0 false)) as (acc & H1 & H2 & H3 & H4 & H5 & H6);
    cbn [active chanClosed msgChan chanCap droppedCount]; try done; try len_lia.
  fold s in H1, H3, H4, H5, H6. cbn [handled msgChan app droppedCount chanCap] in *. rewrite H1.
  split_and!; [done|unfold sub_GetStats; cbn [DroppedCount]; lia|by rewrite <-H5|by injection H6].
Qed.

Lemma subscription_queue_fifo_witness :
  (0 < 1)%Z ∧
  let ops := [Offer (mkDelivery (str "a") []); Offer (mkDelivery (str "b") []); Process; Process] in
  len (offers ops) = (len (handled (sub_run ops (mkSub (str ">") true [] 1 false [] 0 0 false))
     ++ msgChan (sub_run ops (mkSub (str ">") true [] 1 false [] 0 0 false)))
     + DroppedCount (sub_GetStats (sub_run ops (mkSub (str ">") true [] 1 false [] 0 0 false))))%Z.
Proof.
  split; [lia|].
  apply (subscription_queue_fifo (str ">") 1 [Offer (mkDelivery (str "a") []); Offer (mkDelivery (str "b") []); Process; Process]);
    [lia|reflexivity].
Defined.

(** C26: subscribing on a connected client, whatever the context, the network and the
    received messages do: the call returns (at most three attempts, no channel is closed
    twice) and keeps the client's invariant; a success has added exactly one subscription,
    active and for the subject; a failure has added none, except when the client is closed
    while it waits, which leaves the attempt's subscription in the list. An overlong
    subject is refused without touching the client. *)
Theorem Subscribe_outcomes c subj capacity env :
  client_ok c → is_Some (conn c) →
  ∃ res c', SubscribeWithOptions subj capacity env c = Ret (res, c') ∧ client_ok c' ∧
    ((MaxSubjectLen < len subj)%Z → res = inr (ErrClientSubjectTooLong (len subj)) ∧ c' = c) ∧
    match res with
    | inl id =>
        subscriptions c' = subscriptions c ++ [id] ∧
        ∃ s, subs c' !! id = Some s ∧ subject s = subj ∧ active s = true ∧ chanClosed s = false
    | inr ErrConnectionClosed =>
        ∃ id s, subscriptions c' = subscriptions c ++ [id] ∧ subs c' !! id = Some s ∧ active s = true
    | inr _ => subscriptions c' = subscriptions c
    end.
Proof.
  intros Hc Hconn. unfold SubscribeWithOptions. set (cap := if (capacity <=? 0)%Z then 100%Z else capacity).
  assert (0 < cap)%Z as Hcap by (unfold cap; destruct (Z.leb_spec capacity 0); lia).
  destruct (Z.ltb_spec MaxSubjectLen (len subj)) as [Hl|Hl]; [by eexists _, _|].
  destruct (attempts_spec 3 0 subj cap env ErrNoConnection c Hcap Hc Hconn ltac:(done)) as (res & c' & -> & Hc' & _ & Hres).
  exists res, c'. split_and!; [done..|lia|]. destruct res as [id|e]; [|done].
  destruct Hres as [Hl1 (s & Hs & Hsh)]. injection Hsh as ? ? ?. split; [done|]. by exists s.
Qed.

Definition timeouts : Z → round := λ _, mkRound false true [] WokenTimeout.

Lemma Subscribe_outcomes_witness :
  is_Some (conn new_client) ∧
  ∃ res c', SubscribeWithOptions (str "a") 0 timeouts new_client = Ret (res, c') ∧ client_ok c'.
Proof.
  split; [by exists []|].
  destruct (Subscribe_outcomes new_client (str "a") 0 timeouts) as (res & c' & H1 & H2 & _).
  - apply new_client_ok.
  - by exists [].
  - exists res, c'. split; [exact H1|exact H2].
Defined.

(** Without a connection (the pointer is nil) the three attempts fail with "connection
    not available", and each leaves its subscription behind: listed and active, so it will
    be sent to the server again after a reconnection although the caller was told that
    subscribing failed. *)
Theorem Subscribe_without_connection_leaks c subj capacity env :
  client_ok c → conn c = None → (len subj <= MaxSubjectLen)%Z → (∀ i, r_ctx (env i) = false) →
  ∃ c' ids, SubscribeWithOptions subj capacity env c
      = Ret (inr (ErrAfterAttempts 3 ErrNoConnection), c') ∧
    subscriptions c' = subscriptions c ++ ids ∧ length ids = 3%nat ∧
    Forall (λ id, IsActive <$> subs c' !! id = Some true) ids.
Proof.
  intros Hc Hconn Hl Henv. unfold SubscribeWithOptions. rewrite (proj2 (Z.ltb_ge _ _)) by done.
  set (cap := if (capacity <=? 0)%Z then 100%Z else capacity).
  assert (0 < cap)%Z as Hcap by (unfold cap; destruct (Z.leb_spec capacity 0); lia).
  destruct (attempts_without_conn 3 0 subj cap env ErrNoConnection c Hcap Hc Hconn Henv)
    as (c' & ids & -> & _ & H1 & H2 & H3 & _). by exists c', ids.
Qed.

Lemma Subscribe_without_connection_leaks_witness :
  ∃ c' ids, SubscribeWithOptions (str "a") 0 timeouts (set_written None new_client)
      = Ret (inr (ErrAfterAttempts 3 ErrNoConnection), c') ∧ length ids = 3%nat ∧ subscriptions c' = ids.
Proof.
  destruct (Subscribe_without_connection_leaks (set_written None new_client) (str "a") 0 timeouts)
    as (c' & ids & H1 & H2 & H3 & _).
  - auto with client.
  - reflexivity.
  - vm_compute. discriminate.
  - reflexivity.
  - exists c', ids. split; [exact H1|]. split; [exact H3|exact H2].
Defined.

(** The table of pending acknowledgements has one entry per subject, so concurrent calls
    for one subject interfere. While a call waits: a second call for the same subject
    overwrites its entry, and then no received message whatsoever acknowledges the first;
    and restoring a subscription of that subject after a reconnection closes its channel,
    so that the first call reports success without any acknowledgement. *)
Theorem pending_acks_collide c subj cap id a c1 :
  client_ok c → (0 < cap)%Z → (len subj <= MaxSubjectLen)%Z →
  subscribe_begin 0 subj cap true c = Ret (Waiting id a, c1) →
  (∀ k cap2 w b c2, (0 < cap2)%Z → (k <= 0)%Z → subscribe_begin k subj cap2 w c1 = Ret (b, c2) →
     ∀ msgs, a ∉ acked (receive_all msgs c2)) ∧
  (∀ w, (a ∉ acked c1) ∧ a ∈ acked (sendSub_begin subj w c1).2).
Proof.
  intros Hc Hcap Hlen Hbegin.
  destruct (subscribe_begin_spec 0 subj cap true c Hcap Hc) as (b & c1' & E & Hc1 & Hb).
  rewrite Hbegin in E. injection E as <- <-. destruct Hb as (_ & -> & -> & (l & _ & Hl) & _ & _ & Hpend).
  destruct (cl_pending c1 Hc1 _ _ Hpend) as [Hfresh Hopen]. split.
  - intros k cap2 w b c2 Hcap2 Hk H2 msgs.
    destruct (subscribe_begin_spec k subj cap2 w c1 Hcap2 Hc1) as (b' & c2' & E & Hc2 & _).
    rewrite H2 in E. injection E as <- <-.
    assert (acked c2 = acked c1 ∧ ∀ p, pendingSubs c2 !! p = Some (S (fresh c)) → False) as [Hack Hno].
    { revert H2. unfold subscribe_begin. rewrite (proj2 (Z.ltb_ge 0 k)) by done. cbv zeta.
      cbn [new_subscription register_ack conn set_fresh set_pending set_sub_list set_subs].
      rewrite Hl. assert (∀ p, <[subj:=S (fresh c1)]> (pendingSubs c1) !! p = Some (S (fresh c)) → False) as Hp.
      { intros p. rewrite lookup_insert. case_decide; [intros [= Hx]; lia|].
        intros Hx. by rewrite (cl_distinct c1 Hc1 _ _ _ Hx Hpend) in *. }
      destruct w; [intros [= _ <-]; split; [done|exact Hp]|].
      unfold discard. cbv zeta. case_match; [|done]. case_match; [done|]. intros [= _ <-]. split; [done|].
      intros p. change (pendingSubs _) with (delete subj (<[subj:=S (fresh c1)]> (pendingSubs c1))).
      intros [_ Hx]%lookup_delete_Some. by apply (Hp p). }
    apply receive_all_unpending; [done|intros p Hp; by apply (Hno p)|by rewrite Hack].
  - intros w. split; [done|]. unfold sendSub_begin. rewrite (proj2 (Z.ltb_ge _ _)) by done.
    unfold drop_old_ack, confirm. rewrite Hpend. cbn [register_ack conn set_fresh set_pending].
    rewrite Hl. destruct w; cbn; set_solver.
Qed.

Lemma pending_acks_collide_witness :
  ∃ c1, subscribe_begin 0 (str "a") 1 true new_client = Ret (Waiting 0 1, c1) ∧
    (1%nat ∉ acked c1) ∧ 1%nat ∈ acked (sendSub_begin (str "a") true c1).2.
Proof.
  eexists. split; [reflexivity|].
  eapply (pending_acks_collide new_client (str "a") 1 0 1); [apply new_client_ok|lia|vm_compute; discriminate|reflexivity].
Defined.

(** C36: [Unsubscribe] on an active subscription of a connected client: the queued messages
    are still handed to the callback, in order, before it returns; the subscription is
    inactive and its channel closed; with a successful write exactly one [UNSUB] frame is
    sent and the subscription leaves the list; after a failed write it stays listed,
    and a second call reports success without trying again. Called from the
    subscription's own callback it never returns. *)
Theorem Unsubscribe_effects c id s l write_ok :
  client_ok c → subs c !! id = Some s → closeOnce s = false → active s = true → conn c = Some l →
  Unsubscribe id true write_ok c = Block ∧
  ∃ c' s', Unsubscribe id false write_ok c = Ret (if write_ok then None else Some ErrWrite, c') ∧
    client_ok c' ∧ subs c' !! id = Some s' ∧ (∀ x, x ≠ id → subs c' !! x = subs c !! x) ∧
    handled s' = handled s ++ msgChan s ∧ msgChan s' = [] ∧ active s' = false ∧ chanClosed s' = true ∧
    subscriptions c' = (if write_ok then remove_id id (subscriptions c) else subscriptions c) ∧
    conn c' = Some (l ++ (if write_ok then [Encode (NewMessageCmd CmdUnsub (subject s) [])] else [])) ∧
    ∀ cb w, Unsubscribe id cb w c' = Ret (None, c').
Proof.
  intros Hc Hs Ho Ha Hl. split; [|by apply (Unsubscribe_run c id s l)].
  unfold Unsubscribe. by rewrite Hs, Ho, Ha, (active_open c id s Hc Hs Ha).
Qed.

Lemma Unsubscribe_effects_witness :
  Unsubscribe 0 true true one_subscription = Block.
Proof.
  eapply (Unsubscribe_effects one_subscription 0); [|reflexivity..].
  apply (registered_spec 0 (str "a.*") 10 new_client); [lia|apply new_client_ok].
Defined.

Lemma client_Close_run c :
  client_ok c → clientCloseOnce c = false →
  let c' := client_Close c in
  client_ok c' ∧ client_Close c' = c' ∧ subscriptions c' = [] ∧ pendingSubs c' = ∅ ∧
  done (link c') = true ∧ ctxDone (link c') = true ∧
  (∀ p a, pendingSubs c !! p = Some a → a ∈ acked c') ∧
  (∀ id s, id ∈ subscriptions c → subs c !! id = Some s →
     subs c' !! id = Some (set_active false s) ∧
     (closeOnce s = false → ∀ cb w, ∃ c'', Unsubscribe id cb w c' = Ret (None, c'') ∧
        chanClosed <$> subs c'' !! id = Some (chanClosed s))).
Proof.
  intros Hc Ho c'.
  set (l := set_workers false false (monitor (link c)) (stale (link c)) (set_cancelled (link c))).
  set (l' := match conn c with Some _ => set_conn (done l) false l | None => l end).
  set (m := subs (foldl (λ c id, upd_sub id (set_active false) c) c (subscriptions c))).
  assert (c' = mkClient (conn c) [] m ∅ (acked c ∪ map_to_set (λ _ ack, ack) (pendingSubs c))
                 (fresh c) l' (publishErrors c) (subscriptionErrors c) true) as E.
  { unfold c', client_Close. rewrite Ho. cbv zeta. cbn [link set_closeOnce conn subscriptions set_link].
    fold l. fold l'. rewrite client_close_rest.
    assert (subs (foldl (λ c id, upd_sub id (set_active false) c) (set_link l' (set_closeOnce c)) (subscriptions c)) = m) as ->.
    { apply map_eq. intros id. unfold m. by rewrite !client_close_subs. }
    done. }
  assert (∀ id, m !! id = if decide (id ∈ subscriptions c) then set_active false <$> subs c !! id else subs c !! id) as Hm
    by (intros id; apply client_close_subs).
  destruct Hc as [Hn Hlst Hsb Hp Hd Hak]. split_and!.
  - rewrite E. constructor; simpl; try done; [constructor|by intros id ?%elem_of_nil| |].
    + intros id s. rewrite Hm. case_decide; [|apply Hsb].
      destruct (subs c !! id) as [y|] eqn:Ey; [|done]. intros [= <-]. destruct (Hsb id y Ey).
      split; [done|]. by apply sub_ok_inactive.
    + intros a. rewrite elem_of_union, elem_of_map_to_set. intros [?%Hak|(p & b & Hpb & <-)]; [done|]. by apply (Hp p).
  - rewrite E. done.
  - by rewrite E.
  - by rewrite E.
  - rewrite E. cbn [link]. unfold l'. by destruct (conn c).
  - rewrite E. cbn [link]. unfold l'. by destruct (conn c).
  - intros p a Hpa. rewrite E. cbn [acked]. rewrite elem_of_union, elem_of_map_to_set. right. eauto.
  - intros id s Hin Hs. assert (subs c' !! id = Some (set_active false s)) as Hs'.
    { rewrite E. cbn [subs]. by rewrite Hm, decide_True, Hs. }
    split; [done|]. intros Hos cb w. unfold Unsubscribe. rewrite Hs'. cbn [closeOnce set_active active negb].
    rewrite Hos. eexists. split; [reflexivity|]. cbn [subs upd_sub set_subs]. by rewrite lookup_alter_eq, Hs'.
Qed.

(** [Client.Close] makes every listed subscription inactive, empties the list and the
    table of pending acknowledgements (whose channels are all closed, releasing their
    waiters), and a second call does nothing; but it closes no subscription's channel, and
    [Unsubscribe] on an inactive subscription returns at once, so the goroutine processing
    it never ends. *)
Theorem client_Close_effects c :
  client_ok c → clientCloseOnce c = false →
  let c' := client_Close c in
  client_ok c' ∧ client_Close c' = c' ∧ subscriptions c' = [] ∧ pendingSubs c' = ∅ ∧
  done (link c') = true ∧ ctxDone (link c') = true ∧
  (∀ p a, pendingSubs c !! p = Some a → a ∈ acked c') ∧
  (∀ id s, id ∈ subscriptions c → subs c !! id = Some s →
     subs c' !! id = Some (set_active false s) ∧
     (closeOnce s = false → ∀ cb w, ∃ c'', Unsubscribe id cb w c' = Ret (None, c'') ∧
        chanClosed <$> subs c'' !! id = Some (chanClosed s))).
Proof. apply client_Close_run. Qed.

Lemma client_Close_effects_witness :
  client_ok new_client ∧ subscriptions (client_Close new_client) = [].
Proof. split; [apply new_client_ok|]. apply (client_Close_effects new_client new_client_ok). reflexivity. Defined.
