(* ===== verification/ClientSteps.v ===== *)
(** * The client under concurrent callers

    The client's goroutines and its callers as a transition system over the operations of
    [Client]: calls that subscribe (with their waiting phase), restorations after a
    reconnection, publishing, receiving, the processing goroutines, unsubscribing and
    closing, in any order. *)

From S2P Require Import Prelude GoStrings GoIO Protocol Subject Reconnect Client ClientLaws.

(** ** State *)

(** The client, the subscribing calls that wait for an acknowledgement (subject and
    subscription), and the subscriptions callers have been given. *)
Record system := mkSystem { client : Client; calls : list (gostring * subid); handles : list subid }.

(** What the client does on its own: everything but receiving a message and getting a new
    connection. *)
Inductive local_step : system → system → Prop :=
| ls_process id st :
    local_step st (mkSystem (upd_sub id process_one (client st)) (calls st) (handles st))
| ls_publish ctx ok subj payload e c' st :
    Publish ctx ok subj payload (client st) = (e, c') → local_step st (mkSystem c' (calls st) (handles st))
| ls_heartbeat ok st :
    local_step st (mkSystem (heartbeat_tick ok (client st)) (calls st) (handles st))
| ls_begin attempt subj cap ok b c' st :
    (0 < cap)%Z → (len subj <= MaxSubjectLen)%Z →
    subscribe_begin attempt subj cap ok (client st) = Ret (b, c') →
    local_step st
      (mkSystem c' (match b with Waiting id _ => (subj, id) :: calls st | Failed _ => calls st end) (handles st))
| ls_end l1 l2 subj id w e c' st :
    calls st = l1 ++ (subj, id) :: l2 → subscribe_end subj id w (client st) = Ret (e, c') →
    local_step st (mkSystem c' (l1 ++ l2) (match e with inl x => x :: handles st | inr _ => handles st end))
| ls_restore_begin subj ok st :
    local_step st (mkSystem (sendSub_begin subj ok (client st)).2 (calls st) (handles st))
| ls_restore_end subj w st :
    local_step st (mkSystem (sendSub_end subj w (client st)).2 (calls st) (handles st))
| ls_restore_failed id n st :
    local_step st
      (mkSystem (upd_sub id (set_active false) (set_errors (publishErrors (client st)) n (client st)))
         (calls st) (handles st))
(* the supervision ([Reconnect.link_step]) and an expired context; any change is allowed here *)
| ls_link l st : local_step st (mkSystem (set_link l (client st)) (calls st) (handles st))
| ls_unsubscribe id cb ok e c' st :
    id ∈ handles st → Unsubscribe id cb ok (client st) = Ret (e, c') →
    local_step st (mkSystem c' (calls st) (handles st))
| ls_close st :
    local_step st (mkSystem (client_Close (client st)) (calls st) (handles st)).

(** A message dispatched by the receive loop, and a fresh connection after a reconnection. *)
Definition received (msg : Protocol.Message) (st : system) : system :=
  mkSystem (handleMessage msg (client st)) (calls st) (handles st).
Definition redialled (l : Link) (st : system) : system :=
  mkSystem (set_written (Some []) (set_link l (client st))) (calls st) (handles st).

Inductive client_step : system → system → Prop :=
| cs_receive msg st : client_step st (received msg st)
| cs_connection l st : client_step st (redialled l st)
| cs_local st st' : local_step st st' → client_step st st'.

Definition initial_system : system := mkSystem new_client [] [].

(** ** Invariant *)

(** What decides whether a channel may still be closed. *)
Definition seal (s : Subscription) : bool * bool := (chanClosed s, closeOnce s).

Record system_ok (st : system) : Prop := {
  sy_client : client_ok (client st);
  sy_nodup : NoDup ((calls st).*2 ++ handles st);
  sy_calls : ∀ id, id ∈ (calls st).*2 → ∃ s, subs (client st) !! id = Some s ∧ chanClosed s = false;
  sy_handles : ∀ id, id ∈ handles st →
    ∃ s, subs (client st) !! id = Some s ∧ (chanClosed s = true → closeOnce s = true);
}.

(** Operations that keep the seals of all subscriptions. *)
Definition sealed (c c' : Client) : Prop := ∀ id, seal <$> subs c' !! id = seal <$> subs c !! id.

Lemma sealed_lookup c c' id s :
  sealed c c' → subs c !! id = Some s → ∃ s', subs c' !! id = Some s' ∧ seal s' = seal s.
Proof.
  intros Hs Hid. specialize (Hs id). rewrite Hid in Hs. destruct (subs c' !! id) as [s'|]; [|done].
  exists s'. split; [done|]. by apply (inj Some) in Hs.
Qed.

Lemma system_ok_sealed c c' cs hs :
  client_ok c' → sealed c c' → system_ok (mkSystem c cs hs) → system_ok (mkSystem c' cs hs).
Proof.
  intros Hc' Hs [_ Hn Hcl Hh]. constructor; cbn [client calls handles] in *; try done.
  - intros id (s & Hid & Ho)%Hcl. destruct (sealed_lookup c c' id s Hs Hid) as (s' & ? & [= ? _]).
    exists s'. split; [done|congruence].
  - intros id (s & Hid & Ho)%Hh. destruct (sealed_lookup c c' id s Hs Hid) as (s' & ? & [= E1 E2]).
    exists s'. split; [done|]. by rewrite E1, E2.
Qed.

Lemma sealed_same c c' : subs c' = subs c → sealed c c'.
Proof. by intros E id; rewrite E. Qed.

Lemma sealed_upd id f c : (∀ s, seal (f s) = seal s) → sealed c (upd_sub id f c).
Proof.
  intros Hf x. cbn [subs upd_sub set_subs]. destruct (decide (id = x)) as [->|].
  - rewrite lookup_alter_eq. destruct (subs c !! x) as [s|]; [|done]. cbn. by rewrite Hf.
  - by rewrite lookup_alter_ne.
Qed.

Lemma sealed_trans c1 c2 c3 : sealed c1 c2 → sealed c2 c3 → sealed c1 c3.
Proof. intros H1 H2 id. by rewrite H2, H1. Qed.

Lemma confirm_subs p c : subs (confirm p c) = subs c.
Proof. unfold confirm. by destruct (pendingSubs c !! p). Qed.

Lemma sealed_handle msg c : sealed c (handleMessage msg c).
Proof.
  unfold handleMessage. repeat case_match; try by apply sealed_same; try apply sealed_same, confirm_subs.
  - generalize (subscriptions c) as l. intros l. revert c.
    induction l as [|x l IH]; intros c; [done|]. cbn [foldl]. eapply sealed_trans; [|apply IH].
    rewrite deliver_to_eq. apply sealed_upd. intros s. unfold offered, TryEnqueue. by repeat case_match.
  - apply sealed_same, confirm_subs.
  - apply sealed_same, confirm_subs.
Qed.

(** ** The operations one by one *)

Lemma Publish_client ctx ok subj payload c e c' :
  Publish ctx ok subj payload c = (e, c') → client_ok c → client_ok c' ∧ subs c' = subs c.
Proof.
  intros Hp Hc. assert (c' = (Publish ctx ok subj payload c).2) as -> by (by rewrite Hp). clear Hp.
  unfold Publish. repeat case_match; cbn [snd]; split; try done;
    eauto with client.
Qed.

Lemma sendSub_begin_client subj ok c :
  client_ok c → client_ok (sendSub_begin subj ok c).2 ∧ subs (sendSub_begin subj ok c).2 = subs c.
Proof.
  intros Hc. unfold sendSub_begin. case_match; [done|].
  pose proof (client_ok_register subj _ (client_ok_confirm subj c Hc)) as Hr.
  unfold drop_old_ack. destruct (register_ack subj (confirm subj c)) as [ack c1] eqn:E. cbn [snd] in Hr.
  assert (subs c1 = subs c) as Hs by (injection E as _ <-; apply confirm_subs).
  repeat case_match; cbn [snd]; split; try done; eauto with client.
Qed.

Lemma sendSub_end_client subj w c :
  client_ok c → client_ok (sendSub_end subj w c).2 ∧ subs (sendSub_end subj w c).2 = subs c.
Proof. intros Hc. destruct w; cbn; split; auto with client. Qed.

(** Discarding touches one subscription. *)
Lemma discard_others id c c' x : discard id c = Ret c' → x ≠ id → subs c' !! x = subs c !! x.
Proof.
  unfold discard. intros Hd Hx. cbv zeta in Hd. repeat case_match; simplify_eq.
  cbn [subs upd_sub set_subs removeSubscription set_sub_list]. by rewrite !lookup_alter_ne.
Qed.

Lemma subscribe_begin_others attempt subj cap ok c b c' x :
  subscribe_begin attempt subj cap ok c = Ret (b, c') → x ≠ fresh c → subs c' !! x = subs c !! x.
Proof.
  intros Hb Hx. unfold subscribe_begin in Hb. cbv zeta in Hb.
  set (c0 := if (0 <? attempt)%Z then drop_old_ack subj c else c) in *.
  assert (fresh c0 = fresh c ∧ subs c0 = subs c) as [E1 E2].
  { unfold c0, drop_old_ack, confirm. by repeat case_match. }
  cbn [new_subscription register_ack] in Hb. rewrite E1 in Hb.
  destruct (conn _); [destruct ok|].
  - injection Hb as <- <-. cbn. rewrite lookup_insert_ne by done. by rewrite E2.
  - destruct (discard _ _) as [d| |] eqn:Hd; [|done..]. injection Hb as <- <-.
    rewrite (discard_others _ _ _ _ Hd) by done. cbn. rewrite lookup_insert_ne by done. by rewrite E2.
  - injection Hb as <- <-. cbn. rewrite lookup_insert_ne by done. by rewrite E2.
Qed.

Lemma Unsubscribe_others id cb ok c e c' x :
  Unsubscribe id cb ok c = Ret (e, c') → x ≠ id → subs c' !! x = subs c !! x.
Proof.
  unfold Unsubscribe. intros Hu Hx. repeat case_match; simplify_eq; try done;
    cbn [subs removeSubscription set_sub_list write set_written upd_sub set_subs];
    by rewrite ?lookup_alter_ne.
Qed.

Lemma Unsubscribe_client id cb ok c e c' s :
  client_ok c → subs c !! id = Some s → Unsubscribe id cb ok c = Ret (e, c') →
  client_ok c' ∧ ∃ s', subs c' !! id = Some s' ∧ closeOnce s' = true.
Proof.
  intros Hc Hs Hu. unfold Unsubscribe in Hu. rewrite Hs in Hu.
  destruct (closeOnce s) eqn:Ho; [injection Hu as <- <-; by split; [|exists s]|].
  assert (client_ok (upd_sub id set_once c)) as Hc1
    by (apply client_ok_upd; [intros y _ []; by constructor|done]).
  destruct (active s) eqn:Ha; cbn [negb] in Hu.
  2: { injection Hu as <- <-. split; [done|]. exists (set_once s). split; [|done].
       cbn. by rewrite lookup_alter_eq, Hs. }
  destruct (chanClosed s) eqn:Hcl; [done|]. destruct cb; [done|]. cbv zeta in Hu.
  set (c1 := upd_sub id (set_active false) (upd_sub id set_once c)) in *.
  set (c2 := upd_sub id (λ s, drain (close_chan s)) c1) in *.
  assert (subs c1 !! id = Some (set_active false (set_once s))) as Hs1.
  { cbn. by rewrite !lookup_alter_eq, Hs. }
  assert (client_ok c2) as Hc2.
  { apply client_ok_upd; [|apply client_ok_upd; [intros y _; apply sub_ok_inactive|done]].
    intros y Hy Hok. rewrite Hs1 in Hy. injection Hy as <-. by apply sub_ok_drain. }
  assert (∃ s', subs c2 !! id = Some s' ∧ closeOnce s' = true) as Hs2.
  { eexists. cbn [c2 subs upd_sub set_subs]. rewrite lookup_alter_eq, Hs1. split; [reflexivity|].
    by rewrite drain_once. }
  change (conn c2) with (conn c) in Hu.
  destruct (conn c); [destruct ok|]; injection Hu as <- <-; split; auto with client.
Qed.

Lemma client_Close_client c :
  client_ok c → client_ok (client_Close c) ∧ sealed c (client_Close c).
Proof.
  intros Hc. destruct (clientCloseOnce c) eqn:Ho.
  { unfold client_Close. rewrite Ho. by split. }
  split; [by apply client_Close_run|]. unfold client_Close. rewrite Ho. cbv zeta.
  intros id. cbn [subs set_pending set_sub_list]. rewrite client_close_subs.
  cbn [subs set_link set_closeOnce]. case_decide; [|done]. by destruct (subs c !! id).
Qed.

(** ** Preservation *)

Lemma system_ok_plain c c' cs hs :
  client_ok c' → subs c' = subs c → system_ok (mkSystem c cs hs) → system_ok (mkSystem c' cs hs).
Proof. intros Hc' E. apply system_ok_sealed; [done|]. by apply sealed_same. Qed.

Lemma system_ok_begin attempt subj cap ok b c c' cs hs :
  (0 < cap)%Z → subscribe_begin attempt subj cap ok c = Ret (b, c') → system_ok (mkSystem c cs hs) →
  system_ok (mkSystem c' (match b with Waiting id _ => (subj, id) :: cs | Failed _ => cs end) hs).
Proof.
  intros Hcap Hb [Hc Hn Hcl Hh]. cbn [client calls handles] in *.
  destruct (subscribe_begin_spec attempt subj cap ok c Hcap Hc) as (b' & c1 & E & Hc' & Hspec).
  rewrite Hb in E. injection E as <- <-.
  assert (∀ id s, subs c !! id = Some s → id ≠ fresh c ∧ subs c' !! id = Some s) as Hkeep.
  { intros id s Hs. destruct (cl_subs c Hc _ _ Hs) as [Hlt _].
    assert (id ≠ fresh c) as Hne by lia. split; [done|].
    by rewrite (subscribe_begin_others _ _ _ _ _ _ _ _ Hb Hne). }
  destruct b as [id a|e].
  - destruct Hspec as (_ & -> & _ & _ & _ & Hnew & _). constructor; cbn [client calls handles fmap list_fmap snd app]; try done.
    + constructor; [|done]. intros [Hin|Hin]%elem_of_app.
      * destruct (Hcl _ Hin) as (s & Hs & _). by destruct (Hkeep _ _ Hs).
      * destruct (Hh _ Hin) as (s & Hs & _). by destruct (Hkeep _ _ Hs).
    + intros id. rewrite elem_of_cons. intros [->|Hin]; [by eexists|].
      destruct (Hcl _ Hin) as (s & Hs & ?). exists s. split; [|done]. by apply Hkeep.
    + intros id Hin. destruct (Hh _ Hin) as (s & Hs & ?). exists s. split; [|done]. by apply Hkeep.
  - constructor; cbn [client calls handles]; try done.
    + intros id Hin. destruct (Hcl _ Hin) as (s & Hs & ?). exists s. split; [|done]. by apply Hkeep.
    + intros id Hin. destruct (Hh _ Hin) as (s & Hs & ?). exists s. split; [|done]. by apply Hkeep.
Qed.

(** Ending a call that waits: it never closes a closed channel. *)
Lemma subscribe_end_total subj id w c s :
  client_ok c → subs c !! id = Some s → chanClosed s = false →
  ∃ e c', subscribe_end subj id w c = Ret (e, c') ∧ client_ok c' ∧
    (∀ x, x ≠ id → subs c' !! x = subs c !! x) ∧
    (∀ x, e = inl x → x = id ∧ c' = c).
Proof.
  intros Hc Hs Hcl.
  destruct (discard_run id s _ (client_ok_forget subj c Hc) Hs Hcl) as (c' & Hd & Hc' & _).
  assert (∀ x, x ≠ id → subs c' !! x = subs c !! x) as Ho
    by (intros x Hx; by rewrite (discard_others _ _ _ _ Hd)).
  destruct w; cbn [subscribe_end]; rewrite ?Hd; cbn [obind]; eexists _, _;
    (split; [reflexivity|]); split_and!; try done; by intros x [= <-].
Qed.

Lemma system_ok_end l1 l2 subj id w e c c' hs :
  subscribe_end subj id w c = Ret (e, c') → system_ok (mkSystem c (l1 ++ (subj, id) :: l2) hs) →
  system_ok (mkSystem c' (l1 ++ l2) (match e with inl x => x :: hs | inr _ => hs end)).
Proof.
  intros He [Hc Hn Hcl Hh]. cbn [client calls handles] in *. rewrite fmap_app in Hn, Hcl. cbn [fmap list_fmap snd] in Hn, Hcl.
  destruct (Hcl id) as (s & Hs & Ho); [apply elem_of_app; right; left|].
  destruct (subscribe_end_total subj id w c s Hc Hs Ho) as (e' & c1 & E & Hc' & Hothers & Hinl).
  rewrite He in E. injection E as <- <-.
  assert (NoDup (id :: (l1.*2 ++ l2.*2) ++ hs)) as Hn'.
  { revert Hn. assert ((l1.*2 ++ id :: l2.*2) ++ hs ≡ₚ id :: (l1.*2 ++ l2.*2) ++ hs) as ->; [|done].
    by rewrite <-Permutation_middle. }
  apply NoDup_cons in Hn' as [Hnot Hn'].
  assert (∀ x, x ∈ (l1.*2 ++ l2.*2) ++ hs → subs c' !! x = subs c !! x) as Hkeep
    by (intros x Hx; apply Hothers; by intros ->).
  assert (∀ x, x ∈ (l1 ++ l2).*2 → ∃ s, subs c' !! x = Some s ∧ chanClosed s = false) as Hcalls.
  { intros x Hx. rewrite fmap_app in Hx. rewrite Hkeep by (apply elem_of_app; by left).
    apply Hcl. rewrite elem_of_app, elem_of_cons. apply elem_of_app in Hx. tauto. }
  assert (∀ x, x ∈ hs → ∃ s, subs c' !! x = Some s ∧ (chanClosed s = true → closeOnce s = true)) as Hhandles.
  { intros x Hx. rewrite Hkeep by (apply elem_of_app; by right). by apply Hh. }
  rewrite <-fmap_app in Hn', Hnot.
  destruct e as [x|e]; constructor; cbn [client calls handles]; try done.
  - destruct (Hinl x) as [-> _]; [done|]. rewrite <-Permutation_middle. by constructor.
  - destruct (Hinl x) as [-> ->]; [done|]. intros y. rewrite elem_of_cons.
    intros [->|Hy]; [|by apply Hhandles]. exists s. split; [done|]. by rewrite Ho.
Qed.

Lemma system_ok_unsubscribe id cb ok e c c' cs hs :
  id ∈ hs → Unsubscribe id cb ok c = Ret (e, c') → system_ok (mkSystem c cs hs) →
  system_ok (mkSystem c' cs hs).
Proof.
  intros Hid Hu [Hc Hn Hcl Hh]. cbn [client calls handles] in *.
  destruct (Hh id Hid) as (s & Hs & _).
  destruct (Unsubscribe_client id cb ok c e c' s Hc Hs Hu) as [Hc' (s' & Hs' & Ho')].
  constructor; cbn [client calls handles]; try done.
  - intros x Hx. rewrite (Unsubscribe_others _ _ _ _ _ _ _ Hu); [by apply Hcl|].
    intros ->. apply NoDup_app in Hn as (_ & Hdis & _). by apply (Hdis id).
  - intros x Hx. destruct (decide (x = id)) as [->|Hne]; [by exists s'|].
    rewrite (Unsubscribe_others _ _ _ _ _ _ _ Hu) by done. by apply Hh.
Qed.

Lemma local_step_ok st st' : system_ok st → local_step st st' → system_ok st'.
Proof.
  intros Hst Hstep. pose proof (sy_client st Hst) as Hc. destruct st as [c cs hs]. cbn [client] in Hc.
  inversion Hstep; subst; cbn [client calls handles] in *; subst.
  - eapply system_ok_sealed; [|apply sealed_upd|done].
    + apply client_ok_upd; [|done]. intros s _ [Hcap Hcl]. destruct (process_one_keeps s) as (_ & [= _ E1 E2] & _ & E3).
      constructor; [|by rewrite E1, E2]. rewrite E3. unfold process_one. destruct (msgChan s) eqn:E; simpl; rewrite ?E; len_lia.
    + intros s. unfold process_one. by destruct (msgChan s).
  - match goal with H : Publish _ _ _ _ _ = _ |- _ => destruct (Publish_client _ _ _ _ _ _ _ H Hc) end.
    eapply system_ok_plain; [| |exact Hst]; done.
  - eapply system_ok_plain; [| |done]; unfold heartbeat_tick; repeat case_match; try done;
      auto with client.
  - by eapply system_ok_begin.
  - by eapply system_ok_end.
  - destruct (sendSub_begin_client subj ok c Hc). eapply system_ok_plain; [| |exact Hst]; done.
  - destruct (sendSub_end_client subj w c Hc). eapply system_ok_plain; [| |exact Hst]; done.
  - eapply system_ok_sealed; [|by apply sealed_upd; intros s|].
    2: { by eapply (system_ok_plain c); [apply client_ok_errors| |exact Hst]. }
    apply client_ok_upd; [intros y _; apply sub_ok_inactive|by apply client_ok_errors].
  - apply (system_ok_plain c); [|done|done]. auto with client.
  - by eapply system_ok_unsubscribe.
  - destruct (client_Close_client c Hc). eapply system_ok_sealed; [| |exact Hst]; done.
Qed.

Lemma client_step_ok st st' : system_ok st → client_step st st' → system_ok st'.
Proof.
  intros Hst Hstep. destruct Hstep as [msg st1|l st1|st1 st2 Hlocal]; [..|by eapply local_step_ok];
    pose proof (sy_client _ Hst) as Hc; destruct st1 as [c cs hs]; cbn [client] in Hc;
    unfold received, redialled; cbn [client calls handles].
  - eapply system_ok_sealed; [by apply handleMessage_ok|apply sealed_handle|done].
  - apply (system_ok_plain c); [|done|done]. auto with client.
Qed.

Lemma system_reachable_ok st : rtc client_step initial_system st → system_ok st.
Proof.
  apply rtc_invariant; [apply client_step_ok|]. constructor; cbn.
  - apply new_client_ok.
  - constructor.
  - by intros id ?%elem_of_nil.
  - by intros id ?%elem_of_nil.
Qed.

(** A client whose first subscribing call waits. *)
Definition one_subscription_sent : Client :=
  write (Encode (NewMessageCmd CmdSub (str "a.*") [])) true one_subscription.

(** ** Property *)

(** C22: the client is safe under any interleaving of its goroutines and callers: in every
    reachable state the subscription list has no duplicate and no dangling pointer, every
    queue is within its capacity, an active subscription's channel is open, the pending
    acknowledgement channels are open and distinct; and no operation that closes a channel
    closes it twice (which would panic): neither starting nor ending a subscribing call,
    nor [Unsubscribe] on a subscription handed to a caller. *)
Theorem client_never_double_closes st :
  rtc client_step initial_system st →
  client_ok (client st) ∧
  (∀ attempt subj cap ok, (0 < cap)%Z → subscribe_begin attempt subj cap ok (client st) ≠ Panic) ∧
  (∀ subj id w, (subj, id) ∈ calls st → subscribe_end subj id w (client st) ≠ Panic) ∧
  (∀ id cb ok, id ∈ handles st → Unsubscribe id cb ok (client st) ≠ Panic).
Proof.
  intros [Hc _ Hcl Hh]%system_reachable_ok. split_and!; [done|..].
  - intros attempt subj cap ok Hcap.
    by destruct (subscribe_begin_spec attempt subj cap ok _ Hcap Hc) as (b & c' & -> & _).
  - intros subj id w Hin. destruct (Hcl id) as (s & Hs & Ho).
    { apply list_elem_of_fmap. by exists (subj, id). }
    by destruct (subscribe_end_total subj id w _ s Hc Hs Ho) as (e & c' & -> & _).
  - intros id cb ok Hin. destruct (Hh id Hin) as (s & Hs & Ho). unfold Unsubscribe. rewrite Hs.
    destruct (closeOnce s) eqn:E; [done|]. destruct (chanClosed s) eqn:E2; [specialize (Ho eq_refl); congruence|].
    by repeat case_match.
Qed.

Lemma client_never_double_closes_witness :
  rtc client_step initial_system (mkSystem one_subscription_sent [(str "a.*", 0%nat)] []) ∧
  ∀ w, subscribe_end (str "a.*") 0 w one_subscription_sent ≠ Panic.
Proof.
  assert (rtc client_step initial_system (mkSystem one_subscription_sent [(str "a.*", 0%nat)] [])) as Hr.
  { apply rtc_once, cs_local. eapply (ls_begin 0 (str "a.*") 10 true (Waiting 0 1) one_subscription_sent initial_system); [lia|by vm_compute|reflexivity]. }
  split; [exact Hr|]. intros w.
  apply (client_never_double_closes (mkSystem one_subscription_sent [(str "a.*", 0%nat)] []) Hr). left.
Defined.
