(* ===== verification/Crypto.v ===== *)
(** * Encryption and the construction of the two ends

    [newAES256BlockCrypt] and [lockedBlockCrypt] (the files [src/server/crypto.go] and
    [src/client/crypto.go] are the same but for the package name), [NewServer] and
    [ConnectWithContext]. The cipher of the kcp library and its dialling are parameters:
    the library's cipher works in scratch memory of its own, so that a call consists of
    loading the input and producing the output, and two calls at once would share the
    memory. *)

From S2P Require Import Prelude GoStrings GoIO Protocol Router Server.
From S2P Require Import Reconnect Client.

(** The two methods of [kcp.BlockCrypt]. *)
Inductive direction := Encrypting | Decrypting.

(** ** The locked cipher

    [BC] is the library's cipher object: [load] puts the input of a call into it, [produce]
    returns the output and what is left behind. *)
Record lockedBlockCrypt (BC : Type) := mkLocked { mu : option nat; bc : BC }.
Arguments mkLocked {BC}.
Arguments mu {BC}.
Arguments bc {BC}.

(** Where a call of [Encrypt] or [Decrypt] stands: at [l.mu.Lock()]; with the mutex, before
    the library's method; inside it; behind it, before [l.mu.Unlock()]; returned. *)
Inductive crypt_call :=
| CStart (d : direction) (src : list byte)
| CEnter (d : direction) (src : list byte)
| CInside (d : direction) (src : list byte)
| CUnlock (d : direction) (src dst : list byte)
| CDone (d : direction) (src dst : list byte).

Section locked.
Context {BC : Type} (load : direction → list byte → BC → BC) (produce : direction → BC → list byte * BC).

(** One step of the call with number [t]; [None]: it waits for the mutex, or has returned. *)
Definition crypt_step (t : nat) (c : crypt_call) (l : lockedBlockCrypt BC) :
    option (crypt_call * lockedBlockCrypt BC) :=
  match c with
  | CStart d src =>
      match mu l with
      | None => Some (CEnter d src, mkLocked (Some t) (bc l))
      | Some _ => None
      end
  | CEnter d src => Some (CInside d src, mkLocked (mu l) (load d src (bc l)))
  | CInside d src =>
      let '(dst, b) := produce d (bc l) in Some (CUnlock d src dst, mkLocked (mu l) b)
  | CUnlock d src dst => Some (CDone d src dst, mkLocked None (bc l))
  | CDone _ _ _ => None
  end.

(** The cipher and every call ever made to it. *)
Record crypt_machine := mkCrypt { cipher : lockedBlockCrypt BC; calls : list crypt_call }.

Inductive crypt_machine_step : crypt_machine → crypt_machine → Prop :=
| cs_call d src m :
    crypt_machine_step m (mkCrypt (cipher m) (calls m ++ [CStart d src]))
| cs_step t c c' l' m :
    calls m !! t = Some c → crypt_step t c (cipher m) = Some (c', l') →
    crypt_machine_step m (mkCrypt l' (<[t := c']> (calls m))).

Definition fresh_cipher (b : BC) : crypt_machine := mkCrypt (mkLocked None b) [].

(** The call holds the mutex. *)
Definition in_section (c : crypt_call) : Prop :=
  match c with CEnter _ _ | CInside _ _ | CUnlock _ _ _ => True | _ => False end.

(** What the library promises to one caller at a time. *)
Context (crypt : direction → list byte → list byte).
Hypothesis used_alone : ∀ d src b, (produce d (load d src b)).1 = crypt d src.

Definition call_ok (t : nat) (l : lockedBlockCrypt BC) (c : crypt_call) : Prop :=
  (in_section c → mu l = Some t) ∧
  match c with
  | CInside d src => (produce d (bc l)).1 = crypt d src
  | CUnlock d src dst | CDone d src dst => dst = crypt d src
  | _ => True
  end.

(** The mutex is held by exactly the call that is inside, and every output is the one the
    library's specification gives for the call's own input. *)
Record crypt_ok (m : crypt_machine) : Prop := {
  co_calls : ∀ t c, calls m !! t = Some c → call_ok t (cipher m) c;
  co_holder : ∀ t, mu (cipher m) = Some t → ∃ c, calls m !! t = Some c ∧ in_section c;
}.

Lemma fresh_cipher_ok b : crypt_ok (fresh_cipher b).
Proof. by constructor. Qed.

(** A call that is not inside is indifferent to what happens to the cipher. *)
Lemma call_ok_outside t l l' c : ¬ in_section c → call_ok t l c → call_ok t l' c.
Proof. intros Hc [_ H]. split; [done|]. by destruct c. Qed.

Lemma step_section t c l c' l' :
  crypt_step t c l = Some (c', l') → call_ok t l c →
  call_ok t l' c' ∧ (mu l = None ∨ mu l = Some t) ∧
  (∀ u, mu l' = Some u → u = t ∧ in_section c').
Proof.
  intros Hst [Hin Hc]. destruct c as [d src|d src|d src|d src dst|d src dst]; cbn [crypt_step] in Hst.
  - destruct (mu l) eqn:E; simplify_eq. split_and!; [by split|by left|by intros u [= <-]].
  - simplify_eq. specialize (Hin I). split_and!; [|by right|cbn; intros u Hu; by split; [congruence|]].
    split; [done|]. cbn. apply used_alone.
  - destruct (produce d (bc l)) as [dst b]. simplify_eq. specialize (Hin I).
    split_and!; [by split|by right|cbn; intros u Hu; by split; [congruence|]].
  - simplify_eq. specialize (Hin I). split_and!; [by split|by right|done].
  - done.
Qed.

Lemma crypt_ok_step m m' : crypt_ok m → crypt_machine_step m m' → crypt_ok m'.
Proof.
  intros Hm Hstep. destruct Hstep as [d src m0|t c c' l' m0 Ht Hst]; destruct Hm as [Hc Hh].
  - constructor; cbn [calls cipher].
    + intros t c [[_ H]|[-> <-]]%lookup_snoc_Some; [by apply Hc|by split].
    + intros t Hm. destruct (Hh t Hm) as (c & H & Hin). exists c. split; [|done]. by apply lookup_app_l_Some.
  - destruct (step_section t c _ c' l' Hst (Hc t c Ht)) as (Hok & Hmu & Hnew).
    assert (t < length (calls m0))%nat as Hlt by (by eapply lookup_lt_Some).
    constructor; cbn [calls cipher].
    + intros u x. destruct (decide (u = t)) as [->|Hne]; [rewrite list_lookup_insert_eq by done; by intros [= <-]|].
      rewrite list_lookup_insert_ne by done. intros Hx. pose proof (Hc u x Hx) as Hux.
      apply (call_ok_outside u (cipher m0)); [|done]. intros Hin. destruct Hux as [Hux _].
      specialize (Hux Hin). destruct Hmu; congruence.
    + intros u Hu. destruct (Hnew u Hu) as [-> Hin]. exists c'. by rewrite list_lookup_insert_eq.
Qed.

Lemma crypt_reachable_ok b m : rtc crypt_machine_step (fresh_cipher b) m → crypt_ok m.
Proof. apply rtc_invariant; [apply crypt_ok_step|apply fresh_cipher_ok]. Qed.

Lemma crypt_progress m t c :
  crypt_ok m → calls m !! t = Some c → (∀ d src dst, c ≠ CDone d src dst) →
  ∃ u x x' l', calls m !! u = Some x ∧ crypt_step u x (cipher m) = Some (x', l') ∧ crypt_machine_step m (mkCrypt l' (<[u := x']> (calls m))).
Proof.
  intros [Hc Hh] Ht Hnd.
  assert (∃ u x, calls m !! u = Some x ∧ is_Some (crypt_step u x (cipher m))) as (u & x & Hu & [[x' l'] Hs]).
  { destruct (mu (cipher m)) as [u|] eqn:E.
    - destruct (Hh u) as (x & Hx & Hin); [done|]. exists u, x. split; [done|].
      destruct x; try done; cbn [crypt_step]; eauto. destruct (produce d _); eauto.
    - exists t, c. split; [done|]. destruct c; cbn [crypt_step]; rewrite ?E; eauto.
      + destruct (produce d _); eauto.
      + by destruct (Hnd d src dst). }
  exists u, x, x', l'. split_and!; [done..|]. by econstructor.
Qed.
End locked.

(** the mutex makes the library's cipher usable by all goroutines of a connection at
    once: in every reachable state of every interleaving of calls, a call that returned has
    the output the library's specification gives for its own input, whatever the other
    calls did meanwhile; at most one call is between [Lock] and [Unlock]; and as long as
    some call has not returned, some call can go on. *)
Theorem locked_cipher_serial {BC} (load : direction → list byte → BC → BC)
    (produce : direction → BC → list byte * BC) crypt b m :
  (∀ d src b, (produce d (load d src b)).1 = crypt d src) →
  rtc (crypt_machine_step load produce) (fresh_cipher b) m →
  (∀ t d src dst, calls m !! t = Some (CDone d src dst) → dst = crypt d src) ∧
  (∀ t u c c', calls m !! t = Some c → calls m !! u = Some c' →
     in_section c → in_section c' → t = u) ∧
  (∀ t c, calls m !! t = Some c → (∀ d src dst, c ≠ CDone d src dst) →
     ∃ u x x' l', calls m !! u = Some x ∧ crypt_step load produce u x (cipher m) = Some (x', l') ∧
       crypt_machine_step load produce m (mkCrypt l' (<[u := x']> (calls m)))).
Proof.
  intros Hlib Hm. pose proof (crypt_reachable_ok load produce crypt Hlib b m Hm) as Hok.
  split_and!.
  - intros t d src dst Ht. by destruct (co_calls _ _ _ Hok _ _ Ht).
  - intros t u c c' Ht Hu Hc Hc'. destruct (co_calls _ _ _ Hok _ _ Ht) as [Ht' _].
    destruct (co_calls _ _ _ Hok _ _ Hu) as [Hu' _]. specialize (Ht' Hc). specialize (Hu' Hc'). congruence.
  - intros t c. by apply (crypt_progress load produce crypt).
Qed.

(** A cipher with one buffer: it copies the input into the buffer, and inverts the buffer. *)
Definition toy_load (d : direction) (src : list byte) (_ : list byte) : list byte := src.
Definition toy_produce (d : direction) (b : list byte) : list byte * list byte :=
  (map (λ x, byte_of (255 - byte_val x)) b, []).

(** Two calls that overlap: the second waits for the first. *)
Definition two_calls : crypt_machine := mkCrypt (mkLocked None ([] : list byte))
  [CDone Encrypting (str "a") [Byte.x9e]; CDone Decrypting (str "b") [Byte.x9d]].

Lemma two_calls_reachable : rtc (crypt_machine_step toy_load toy_produce) (fresh_cipher []) two_calls.
Proof.
  eapply rtc_l; [apply (cs_call _ _ Encrypting (str "a"))|].
  eapply rtc_l; [apply (cs_call _ _ Decrypting (str "b"))|].
  do 4 (eapply rtc_l; [eapply (cs_step _ _ 0%nat); reflexivity|]).
  do 4 (eapply rtc_l; [eapply (cs_step _ _ 1%nat); reflexivity|]).
  apply rtc_refl.
Qed.

Lemma locked_cipher_serial_witness :
  calls two_calls !! 1%nat = Some (CDone Decrypting (str "b") [Byte.x9d]) ∧
  [Byte.x9d] = map (λ x, byte_of (255 - byte_val x)) (str "b").
Proof.
  split; [reflexivity|].
  apply (proj1 (locked_cipher_serial toy_load toy_produce
    (λ _ src, map (λ x, byte_of (255 - byte_val x)) src) [] two_calls (λ _ _ _, eq_refl) two_calls_reachable)
    1%nat Decrypting (str "b") [Byte.x9d]).
  reflexivity.
Defined.

(** ** Building the server and the client *)

Section construction.
Context {BC CipherError DialError : Type}.
(** [kcp.NewAESBlockCrypt] and the result of [kcp.DialWithOptions] *)
Context (NewAESBlockCrypt : list byte → BC + CipherError) (Dial : gostring → option DialError).

Inductive crypt_error := ErrKeyLength (n : Z) | ErrCipher (e : CipherError).

Definition newAES256BlockCrypt (key : list byte) : lockedBlockCrypt BC + crypt_error :=
  if negb (len key =? 32)%Z then inr (ErrKeyLength (len key))
  else match NewAESBlockCrypt key with
       | inr e => inr (ErrCipher e)
       | inl b => inl (mkLocked None b)
       end.

(** [NewServer]: the server with its listening address and its cipher. *)
Definition NewServer {R} `{SubscriptionStore R} (addr : gostring) (aes256Key : list byte) :
    gostring * lockedBlockCrypt BC * World R + crypt_error :=
  match newAES256BlockCrypt aes256Key with
  | inr e => inr e
  | inl block => inl (addr, block, new_world)
  end.

Inductive connect_error := ErrCancelled | ErrBlock (e : crypt_error) | ErrConnect (e : DialError).

(** The client [ConnectWithContext] returns, with what reconnecting needs of it. *)
Record connected := mkConnected {
  client : Client;
  serverAddr : gostring;
  aes256Key : list byte;
  block : lockedBlockCrypt BC;
}.

Definition ConnectWithContext (ctx_done : bool) (addr : gostring) (key : list byte) :
    connected + connect_error :=
  if ctx_done then inr ErrCancelled
  else match newAES256BlockCrypt key with
       | inr e => inr (ErrBlock e)
       | inl b =>
           match Dial addr with
           | Some e => inr (ErrConnect e)
           | None => inl (mkConnected new_client addr key b)
           end
       end.

(** [doReconnect] from step 4 on: the cipher and the connection made anew from the stored
    key and address. *)
Definition redial (c : connected) : lockedBlockCrypt BC + connect_error :=
  match newAES256BlockCrypt (aes256Key c) with
  | inr e => inr (ErrBlock e)
  | inl b => match Dial (serverAddr c) with Some e => inr (ErrConnect e) | None => inl b end
  end.

Lemma newAES256_key key b : newAES256BlockCrypt key = inl b → len key = 32%Z ∧ mu b = None.
Proof.
  unfold newAES256BlockCrypt. destruct (Z.eqb_spec (len key) 32); cbn [negb]; [|done].
  destruct (NewAESBlockCrypt key); [|done]. intros [= <-]. by split.
Qed.

(** Reconnecting only ever fails for the network: the key was checked on connecting. *)
Lemma redial_same_cipher ctx_done addr key c :
  ConnectWithContext ctx_done addr key = inl c →
  aes256Key c = key ∧ serverAddr c = addr ∧ newAES256BlockCrypt key = inl (block c) ∧
  redial c = match Dial addr with Some e => inr (ErrConnect e) | None => inl (block c) end.
Proof.
  unfold ConnectWithContext, redial. destruct ctx_done; [done|].
  destruct (newAES256BlockCrypt key) as [b|] eqn:E; [|done].
  destruct (Dial addr) eqn:D; [done|]. intros [= <-]. cbn. by rewrite E, D.
Qed.

(** A server and a client made from one key hold the same cipher. *)
Lemma ends_share_cipher {R} `{SubscriptionStore R} key a1 a2 block1 (w : World R) ctx_done c :
  NewServer a1 key = inl (a1, block1, w) → ConnectWithContext ctx_done a2 key = inl c → block c = block1.
Proof.
  intros Hs Hc. destruct (redial_same_cipher _ _ _ _ Hc) as (_ & _ & E & _).
  unfold NewServer in Hs. rewrite E in Hs. congruence.
Qed.
End construction.
