(* ===== verification/ClientAPI.v ===== *)
(** * The remaining entry points of the client ([src/client/client.go])

    [SubscribeWithContext] and the deprecated wrappers around the functions with a context,
    the callback for a lost connection, and [GetStats]. *)

From S2P Require Import Prelude GoStrings GoIO Protocol Subject RingBuffer.
From S2P Require Import Reconnect Client ClientLaws.

(** ** Subscribing *)

(** [SubscribeWithContext]: the context is looked at once more before the first attempt. *)
Definition SubscribeWithContext (ctx_done : bool) (subj : gostring) (env : Z → round) (c : Client) :
    outcome ((subid + client_error) * Client) :=
  if ctx_done then Ret (inr ErrContext, c) else SubscribeWithOptions subj 100 env c.

(** [context.Background()] is never done and has no deadline. *)
Definition background (env : Z → round) (k : Z) : round :=
  let r := env k in
  mkRound false (r_write r) (r_received r) (match r_wake r with WokenContext => WokenTimeout | w => w end).

(** The deprecated [Subscribe] and [Publish]. *)
Definition Subscribe (subj : gostring) (env : Z → round) (c : Client) :=
  SubscribeWithContext false subj (background env) c.
Definition Publish_deprecated (write_ok : bool) (subj : gostring) (data : list byte) (c : Client) :=
  Publish false write_ok subj data c.

(** On a connected client it returns; on success the client lists an active subscription to
    the subject whose channel is open. *)
Lemma SubscribeWithContext_returns ctx subj env c :
  client_ok c → is_Some (conn c) →
  ∃ res c', SubscribeWithContext ctx subj env c = Ret (res, c') ∧ client_ok c' ∧ is_Some (conn c') ∧
    match res with
    | inl id => id ∈ subscriptions c' ∧
        ∃ s, subs c' !! id = Some s ∧ subject s = subj ∧ active s = true ∧ chanClosed s = false
    | inr _ => True
    end.
Proof.
  intros Hc Hconn. unfold SubscribeWithContext, SubscribeWithOptions. destruct ctx; [by eexists _, _|].
  cbn [Z.leb Z.compare]. destruct (_ <? _)%Z; [by eexists _, _|].
  destruct (attempts_spec 3 0 subj 100 env ErrNoConnection c ltac:(lia) Hc Hconn ltac:(done))
    as (res & c' & E & Hc' & Hconn' & Hres).
  exists res, c'. split_and!; try done. destruct res as [id|e]; [|done].
  destruct Hres as [Hl (s & Hs & Hsh)]. split; [rewrite Hl; set_solver|]. exists s. by injection Hsh as ? ? ?.
Qed.

(** ** The callback for a lost connection *)

(** The callback that is set, and the calls of callbacks that were started. *)
Record watcher := mkWatcher { onConnectionLost : option nat; notified : list nat }.

Definition SetConnectionLostCallback (callback : option nat) (w : watcher) : watcher :=
  mkWatcher callback (notified w).

(** [triggerConnectionLost] with the part of it that starts the callback. *)
Definition trigger_and_notify (s : Link * watcher) : Link * watcher :=
  let l := s.1 in let w := s.2 in
  if done l || ctxDone l || connectionLost l then s
  else (triggerConnectionLost l,
        match onConnectionLost w with
        | Some callback => mkWatcher (Some callback) (notified w ++ [callback])
        | None => w
        end).

(** It triggers as before, and however often the loss is noticed, the callback runs once. *)
Lemma trigger_notifies_once l w n :
  let s := Nat.iter n trigger_and_notify (l, w) in
  s.1 = Nat.iter n triggerConnectionLost l ∧
  notified s.2 = notified w ++
    (if done l || ctxDone l || connectionLost l || bool_decide (n = 0) then []
     else match onConnectionLost w with Some callback => [callback] | None => [] end).
Proof.
  assert (∀ l, triggerConnectionLost l = if done l || ctxDone l || connectionLost l then l else triggerConnectionLost l) as Hskip.
  { intros k. unfold triggerConnectionLost. by destruct (done k), (ctxDone k), (connectionLost k). }
  cbv zeta. induction n as [|n [IH1 IH2]].
  { cbn. by rewrite bool_decide_true, orb_true_r, app_nil_r. }
  rewrite (bool_decide_false (S n = 0)), orb_false_r by done.
  rewrite !Nat.iter_succ. set (s := Nat.iter n trigger_and_notify (l, w)) in *. unfold trigger_and_notify.
  destruct (done l || ctxDone l || connectionLost l) eqn:E.
  - assert (∀ k, Nat.iter k triggerConnectionLost l = l) as Hid.
    { intros k. induction k as [|k IH]; [done|]. rewrite Nat.iter_succ, IH, Hskip. by rewrite E. }
    rewrite IH1, Hid, E. cbn [fst]. split; [by rewrite IH1, Hid, Hskip, E|]. exact IH2.
  - destruct n as [|n]; [cbn in *; rewrite E; cbn; split; [done|]; by destruct (onConnectionLost w)|].
    assert (connectionLost (s.1) = true) as Hlost.
    { rewrite IH1. apply orb_false_iff in E as [E E3]. apply orb_false_iff in E as [E1 E2].
      assert (connectionLost (triggerConnectionLost l) = true) as H1.
      { unfold triggerConnectionLost, reconnect. rewrite E1, E2, E3. cbn. by repeat case_match. }
      clear -H1. induction n as [|n IH]; [done|]. rewrite Nat.iter_succ. by rewrite trigger_lost. }
    rewrite Hlost, orb_true_r. cbn [fst snd].
    split; [rewrite IH1; rewrite trigger_lost by (by rewrite <-IH1); done|].
    rewrite IH2. by rewrite bool_decide_false.
Qed.

(** ** Statistics *)

(** The counters and samples no other function of the package reads; [connectedAt] is the
    only one that is ever written after the construction. *)
Record Meters := mkMeters {
  messagesSent : Z;
  messagesReceived : Z;
  bytesSent : Z;
  bytesReceived : Z;
  totalSubscriptions : Z;
  latencyBuffer : ringBuffer;
  lastLatency : Z;
  connectedAt : Z;
}.

(** What [ConnectWithContext] installs: a buffer of 1000 samples. *)
Definition new_meters (now : Z) : outcome Meters :=
  do rb ← newRingBuffer 1000; Ret (mkMeters 0 0 0 0 0 rb 0 now).

(** [ClientStats] but for the two rates, quotients in floating point that are computed in
    [Reports], and [DisconnectedAt], which is never set. *)
Record ClientStats := mkClientStats {
  Connected : bool;
  ConnectedAt : Z;
  MessagesSent : Z;
  MessagesReceived : Z;
  BytesSent : Z;
  BytesReceived : Z;
  AvgLatency : Z;
  LastLatency : Z;
  ActiveSubscriptionCount : Z;
  TotalSubscriptions : Z;
  ConnectionErrors : Z;
  PublishErrors : Z;
  SubscriptionErrors : Z;
  ReconnectCount : Z;
}.

Definition GetStats (m : Meters) (c : Client) : outcome ClientStats :=
  do avg ← calculateAvgLatency (latencyBuffer m);
  Ret (mkClientStats (match conn c with Some _ => true | None => false end) (connectedAt m)
         (messagesSent m) (messagesReceived m) (bytesSent m) (bytesReceived m) avg (lastLatency m)
         (ActiveSubscriptions c) (totalSubscriptions m)
         (connectionErrors (link c)) (publishErrors c) (subscriptionErrors c) (reconnectCount (link c))).

Definition active_listed (c : Client) (id : subid) : Prop := active <$> subs c !! id = Some true.
#[global] Instance active_listed_dec c id : Decision (active_listed c id).
Proof. unfold active_listed. apply _. Defined.

Lemma ActiveSubscriptions_filter c : ActiveSubscriptions c = len (filter (active_listed c) (subscriptions c)).
Proof.
  unfold ActiveSubscriptions.
  assert (∀ l n, foldl (λ n id, match subs c !! id with Some s => if active s then n + 1 else n | None => n end)%Z n l
                 = (n + len (filter (active_listed c) l))%Z) as ->; [|done].
  intros l. induction l as [|id l IH]; intros n; [cbn; unfold len; cbn; lia|]. cbn [foldl].
  rewrite IH, filter_cons. destruct (decide (active_listed c id)) as [Ha|Ha]; unfold active_listed in Ha;
    destruct (subs c !! id) as [s|]; cbn [fmap option_fmap option_map] in Ha; try done.
  - injection Ha as ->. rewrite len_cons. lia.
  - by destruct (active s).
Qed.

(** It never panics, and without samples every meter but the connection time reads zero. *)
Lemma GetStats_fresh now c :
  ∃ m s, new_meters now = Ret m ∧ GetStats m c = Ret s ∧
    MessagesSent s = 0%Z ∧ MessagesReceived s = 0%Z ∧ BytesSent s = 0%Z ∧ BytesReceived s = 0%Z ∧
    TotalSubscriptions s = 0%Z ∧ AvgLatency s = 0%Z ∧
    ActiveSubscriptionCount s = len (filter (active_listed c) (subscriptions c)).
Proof.
  destruct (holds_new 1000) as (rb & E & Hh); [lia|]. unfold new_meters.
  change 1000%Z with (Z.of_nat 1000). rewrite E.
  destruct (average_between rb [] 0 0 Hh) as (avg & Ha & H0 & _); [lia|constructor|cbn; lia|].
  eexists _, _. split; [reflexivity|]. unfold GetStats. cbn [latencyBuffer]. rewrite Ha.
  split; [reflexivity|].
  cbn. split_and!; try done; [by apply H0|apply ActiveSubscriptions_filter].
Qed.
