(* ===== verification/System.v ===== *)
(** * Client and broker together

    The two ends composed through the wire format: a subscription and its acknowledgement,
    a publication from one client to the callback queue of another, and what happens to two
    subscriptions of one client for the same subject. *)

From S2P Require Import Prelude GoStrings GoIO Protocol Subject Router Session Server Broker.
From S2P Require Import Reconnect Client ClientLaws.

(** What a receiving end gets from a connection that delivers a frame of the other end. *)
Lemma frame_received m r rest :
  wire_ok m → stream r = Encode m ++ rest →
  ∃ r', ParseFromReader r = Ret (inl m, r') ∧ stream r' = rest.
Proof.
  intros Hm Hr. destruct (ParseFromReader_spec r) as (res & r' & HP & _ & _ & Hin).
  destruct (Hin m rest Hm Hr) as [-> Hs]. by exists r'.
Qed.

Lemma receive_read_frame m r rest c :
  wire_ok m → stream r = Encode m ++ rest →
  ∃ r', receive_read r c = Ret (handleMessage m c, r', LoopTop) ∧ stream r' = rest.
Proof.
  intros Hm Hr. destruct (frame_received m r rest Hm Hr) as (r' & HP & Hs).
  exists r'. unfold receive_read. rewrite HP. done.
Qed.

(** A client with a connection and an open context goes on to read. *)
Lemma receive_poll_reads c :
  done (link c) = false → ctxDone (link c) = false → is_Some (conn c) → receive_poll c = (c, Reading).
Proof. intros Hd Hx [l Hl]. unfold receive_poll. by rewrite Hd, Hx, Hl. Qed.

Lemma receive_turn_frame m r rest c :
  wire_ok m → stream r = Encode m ++ rest → is_Some (conn c) →
  done (link c) = false → ctxDone (link c) = false →
  ∃ r', receive_turn r c = Ret (handleMessage m c, r', LoopTop) ∧ stream r' = rest.
Proof.
  intros Hm Hr Hl Hd Hx. unfold receive_turn. rewrite receive_poll_reads by done. by apply receive_read_frame.
Qed.

Lemma wire_ok_limits m :
  (len (Protocol.Subject m) <= MaxSubjectLen)%Z →
  (1 + 2 + len (Protocol.Subject m) + len (Payload m) <= MaxBodyLen)%Z → wire_ok m.
Proof. by split. Qed.

Lemma wire_ok_command cmd subj : (len subj <= MaxSubjectLen)%Z → wire_ok (NewMessageCmd cmd subj []).
Proof.
  intros H. apply wire_ok_limits; cbn [Protocol.Subject Payload NewMessageCmd]; [done|].
  rewrite len_nil. unfold MaxSubjectLen, MaxBodyLen in *. lia.
Qed.

(** The longest subject whose acknowledgement fits in a response. *)
Definition MaxAckedSubject : Z := MaxSubjectLen - len subscribed_to.

Lemma ack_text_length : len subscribed_to = 14%Z.
Proof. reflexivity. Qed.

(** An OK frame that does not name [subj] leaves its acknowledgement pending. *)
Lemma handle_other_ok text subj c a :
  client_ok c → pendingSubs c !! subj = Some a → text ≠ subj → text ≠ subscribed_to ++ subj →
  a ∉ acked (handleMessage (NewMessageCmd CmdOk text []) c).
Proof.
  intros Hc Hp H1 H2. destruct (cl_pending c Hc _ _ Hp) as [_ Ha].
  assert (∀ q, q ≠ subj → a ∉ acked (confirm q c)) as Hconf.
  { intros q Hq. unfold confirm. destruct (pendingSubs c !! q) as [b|] eqn:E; [|done].
    cbn [acked set_pending]. rewrite elem_of_union, elem_of_singleton.
    intros [->|?]; [|done]. apply Hq. by eapply (cl_distinct c Hc). }
  unfold handleMessage. cbn [Command Protocol.Subject NewMessageCmd]. rewrite decide_False, decide_True by done.
  destruct (pendingSubs c !! text); [by apply Hconf|]. destruct (Contains text subscribed_to); [|done].
  apply Hconf. destruct (HasPrefix text subscribed_to) eqn:Epre.
  - apply HasPrefix_spec in Epre as [t ->]. rewrite TrimPrefix_app. congruence.
  - by rewrite TrimPrefix_no.
Qed.

(** C18: the subscription handshake, end to end. A [SUB] for a subject within the protocol's
    limit, on an open session with room, registers the pair on the broker and queues one OK
    frame; when the client's receive loop reads that frame, in any chunks, it closes the channel the
    subscribing call waits on if the subject has at most 4082 bytes (and the text of the
    acknowledgement is not itself being subscribed to). For a longer subject, still within
    [MaxSubjectLen], the broker truncates the text and the call is never acknowledged: the
    broker has the subscription, the client reports a timeout. *)
Theorem subscription_handshake {R} `{SubscriptionStoreLaws R} (w : World R) s sess c subj a r :
  world_ok w → heap w !! s = Some sess → closed sess = false →
  client_ok c → pendingSubs c !! subj = Some a →
  (len subj <= MaxSubjectLen)%Z →
  let text := subscribed_to ++ subj in
  has_room (ok_frame text) sess → stream r = ok_frame text →
  ∃ w' sess' c' r',
    handleSubscribe s (NewMessageCmd CmdSub subj []) w = Ret (None, w') ∧
    (subj, s) ∈ store_pairs (router w') ∧ heap w' !! s = Some sess' ∧
    outChan sess' = outChan sess ++ [ok_frame text] ∧
    receive_read r c = Ret (c', r', LoopTop) ∧ stream r' = [] ∧
    ((len subj <= MaxAckedSubject)%Z → pendingSubs c !! text = None → a ∈ acked c') ∧
    ((MaxAckedSubject < len subj)%Z → truncateUTF8 text MaxSubjectLen ≠ subj → a ∉ acked c').
Proof.
  intros Hw Hs Hcl Hc Hp Hlen text Hroom Hr.
  destruct (handleSubscribe_ack w s sess (NewMessageCmd CmdSub subj []) Hw Hs Hcl Hroom)
    as (w' & sess' & Hrun & Hs' & Hpairs & Hq).
  destruct (receive_read_frame (NewMessageCmd CmdOk (truncateUTF8 text MaxSubjectLen) []) r [] c) as (r' & Hrecv & Hrest).
  { apply wire_ok_command. by apply truncateUTF8_len. }
  { by rewrite app_nil_r. }
  eexists w', sess', _, r'. split_and!; [exact Hrun| |done|exact Hq|exact Hrecv|done|..].
  - rewrite Hpairs. set_solver.
  - intros Hle Hno. assert (truncateUTF8 text MaxSubjectLen = text) as ->.
    { unfold truncateUTF8. rewrite (proj2 (Z.leb_le _ _)); [done|]. unfold text, MaxAckedSubject in *. rewrite len_app. lia. }
    destruct (handle_ack subj c a Hno Hp) as [Hack _]. fold text in Hack. rewrite Hack. set_solver.
  - intros Hgt Hne. apply (handle_other_ok _ subj c a); [done..|].
    intros E. pose proof (truncateUTF8_len text MaxSubjectLen ltac:(done)) as Hl. rewrite E in Hl.
    unfold MaxAckedSubject in Hgt. rewrite len_app in Hl. lia.
Qed.

Definition one_session : Session := NewSession [] 0 1024 (32 * 1024 * 1024) (5 * second).
Definition served : World Router := accept_world 1 [] new_world.
Definition waiting : Client := registered 0 (str "a") 10 new_client.

Lemma served_ok : world_ok served.
Proof. apply world_ok_accept; [apply new_world_ok|reflexivity]. Qed.
Lemma served_session : heap served !! 1%nat = Some one_session.
Proof. apply heap_upd. Qed.
Lemma waiting_spec : client_ok waiting ∧ pendingSubs waiting !! str "a" = Some 1%nat.
Proof. destruct (registered_spec 0 (str "a") 10 new_client) as (H & _ & _ & _ & Hp); [lia|apply new_client_ok|done]. Qed.

Lemma subscription_handshake_witness :
  ∃ w' c' r', handleSubscribe 1 (NewMessageCmd CmdSub (str "a") []) served = Ret (None, w') ∧
    receive_turn [RChunk (ok_frame (subscribed_to ++ str "a"))] waiting = Ret (c', r', LoopTop) ∧ 1%nat ∈ acked c'.
Proof.
  destruct (subscription_handshake served 1 one_session waiting (str "a") 1 [RChunk (ok_frame (subscribed_to ++ str "a"))])
    as (w' & sess' & c' & r' & H1 & _ & _ & _ & H2 & _ & H3 & _).
  - apply served_ok.
  - apply served_session.
  - reflexivity.
  - apply waiting_spec.
  - apply waiting_spec.
  - vm_compute. discriminate.
  - split; [reflexivity|]. split; [vm_compute; discriminate|reflexivity].
  - reflexivity.
  - exists w', c', r'. split; [exact H1|]. split; [unfold receive_turn; exact H2|]. apply H3; [vm_compute; discriminate|reflexivity].
Defined.

(** a publication, end to end. When [Publish] reports success, one [PUB] frame was
    written; the broker's parser reads the same subject and payload back from it; handling
    it appends one [MSG] frame to the queue of every session with room that holds a
    matching pattern; and when this frame reaches a client, in any chunks, every active
    subscription listed for that pattern, with room in its queue, receives exactly the
    published subject and payload. *)
Theorem publication_delivered ca ca' subj data l rp rest :
  conn ca = Some l → Publish false true subj data ca = (None, ca') →
  let pub := NewMessageCmd CmdPub subj data in
  let fr := Encode (NewMessageCmd CmdMsg subj data) in
  stream rp = Encode pub ++ rest →
  conn ca' = Some (l ++ [Encode pub]) ∧
  (∃ rp', ParseFromReader rp = Ret (inl pub, rp') ∧ stream rp' = rest) ∧
  ∀ (w : World Router) o x sess p,
    world_ok w → heap w !! x = Some sess → (p, x) ∈ store_pairs (router w) →
    Match p subj = true → has_room fr sess →
    ∃ w', handlePublish o pub w = Ret (None, w') ∧
      heap w' !! x = Some (set_queue (outChan sess ++ [fr]) (queuedBytes sess + len fr) sess) ∧
      ∀ cb id sub rc rest', client_ok cb → id ∈ subscriptions cb →
        subs cb !! id = Some sub → subject sub = p → active sub = true →
        (len (msgChan sub) < chanCap sub)%Z → stream rc = fr ++ rest' →
        ∃ cb' rc', receive_read rc cb = Ret (cb', rc', LoopTop) ∧ stream rc' = rest' ∧
          subs cb' !! id = Some (set_chan (msgChan sub ++ [mkDelivery subj data]) sub).
Proof.
  intros Hl Hpub pub fr Hrp. unfold Publish in Hpub. rewrite Hl in Hpub.
  destruct (Z.ltb_spec MaxSubjectLen (len subj)) as [|Hs]; [done|].
  destruct (Z.ltb_spec MaxBodyLen (1 + 2 + len subj + len data)) as [|Hb]; [done|].
  injection Hpub as <-. assert (∀ cmd, wire_ok (NewMessageCmd cmd subj data)) as Hwire
    by (intros cmd; by apply wire_ok_limits).
  split; [cbn; by rewrite Hl|]. split; [by apply frame_received|].
  intros w o x sess p Hw Hx Hpair Hmatch Hroom.
  destruct (handlePublish_effect w o pub Hw (Hwire _)) as (w' & Hrun & _ & Heff).
  destruct (Heff x sess Hx) as [Hin _]. exists w'. split; [done|]. split.
  { rewrite Hin by (by exists p). fold fr. rewrite enqueue_room; [done|by eapply world_ok_queue| |done].
    by exists (NewMessageCmd CmdMsg subj data). }
  intros cb id sub rc rest' Hcb Hid Hsub Hsubj Hact Hcap Hrc.
  destruct (receive_read_frame (NewMessageCmd CmdMsg subj data) rc rest' cb (Hwire _) Hrc) as (rc' & Hrecv & Hst).
  eexists _, rc'. split_and!; [exact Hrecv|done|].
  unfold handleMessage. rewrite decide_True by done.
  destruct (deliver_all_spec (mkDelivery subj data) (subscriptions cb) cb (cl_nodup cb Hcb)) as [Hspec _].
  cbn [Protocol.Subject Payload NewMessageCmd]. rewrite Hspec, decide_True, Hsub by done. cbn [fmap option_fmap option_map].
  unfold offered. cbn [msgSubject]. rewrite Hact, Hsubj, matchSubject_of_Match by done. cbn [andb].
  rewrite TryEnqueue_open, (proj2 (Z.ltb_lt _ _)) by (done || by eapply active_open). done.
Qed.

Definition pub_frame : list byte := Encode (NewMessageCmd CmdPub (str "a") (str "hi")).

Lemma publication_delivered_witness :
  ∃ (w : World Router) sess, (str "a", 1%nat) ∈ store_pairs (router w) ∧ heap w !! 1%nat = Some sess ∧
  ∃ w', handlePublish in_order (NewMessageCmd CmdPub (str "a") (str "hi")) w = Ret (None, w') ∧
    heap w' !! 1%nat = Some (set_queue (outChan sess ++ [Encode (NewMessageCmd CmdMsg (str "a") (str "hi"))])
      (queuedBytes sess + len (Encode (NewMessageCmd CmdMsg (str "a") (str "hi")))) sess).
Proof.
  set (w := after (handleSubscribe 1 (NewMessageCmd CmdSub (str "a") [])) served).
  assert (handleSubscribe 1 (NewMessageCmd CmdSub (str "a") []) served = Ret (None, w)) as Hrun
    by (vm_compute; reflexivity).
  destruct (handleSubscribe_result served w 1 one_session (NewMessageCmd CmdSub (str "a") []))
    as (Hw & _ & Hp); [apply served_ok|apply served_session|reflexivity|exact Hrun|].
  set (sess := default one_session (heap w !! 1%nat)).
  assert (heap w !! 1%nat = Some sess) as Hs by (vm_compute; reflexivity).
  assert ((str "a", 1%nat) ∈ store_pairs (router w)) as Hin by (rewrite Hp; set_solver).
  exists w, sess. split; [exact Hin|]. split; [exact Hs|].
  destruct (publication_delivered new_client (write pub_frame true new_client) (str "a") (str "hi") [] [RChunk pub_frame] []
              eq_refl eq_refl eq_refl) as (_ & _ & H).
  destruct (H w in_order 1%nat sess (str "a") Hw Hs Hin) as (w' & H1 & H2 & _).
  - reflexivity.
  - split; [vm_compute; reflexivity|]. split; [vm_compute; discriminate|vm_compute; reflexivity].
  - exists w'. split; [exact H1|exact H2].
Defined.

(** Two subscriptions of one client for the same subject share one registration on the
    broker. Unsubscribing the first sends [UNSUB]; the broker then drops the pair, and a
    later publication on a subject that no other pattern of the session matches leaves the
    session's queue as it was, while the client still lists the second subscription as
    active. *)
Theorem duplicate_unsubscribe_starves c id1 id2 s1 s2 l (w : World Router) o x sess data :
  client_ok c → subs c !! id1 = Some s1 → subs c !! id2 = Some s2 → id1 ≠ id2 →
  id2 ∈ subscriptions c → subject s2 = subject s1 → active s1 = true → active s2 = true →
  Client.closeOnce s1 = false → conn c = Some l →
  world_ok w → heap w !! x = Some sess → closed sess = false →
  (len (subject s1) <= MaxSubjectLen)%Z →
  (1 + 2 + len (subject s1) + len data <= MaxBodyLen)%Z →
  (∀ p, p ∈ subjects sess → Match p (subject s1) = true → p = subject s1) →
  ∃ c' w1 w2 sess1,
    Unsubscribe id1 false true c = Ret (None, c') ∧
    conn c' = Some (l ++ [Encode (NewMessageCmd CmdUnsub (subject s1) [])]) ∧
    subs c' !! id2 = Some s2 ∧ id2 ∈ subscriptions c' ∧
    handleUnsubscribe x (NewMessageCmd CmdUnsub (subject s1) []) w = Ret (None, w1) ∧
    heap w1 !! x = Some sess1 ∧
    handlePublish o (NewMessageCmd CmdPub (subject s1) data) w1 = Ret (None, w2) ∧
    heap w2 !! x = Some sess1.
Proof.
  intros Hc Hs1 Hs2 Hne Hin Hsub Ha1 Ha2 Ho Hl Hw Hx Hcl Hlen Hbody Honly.
  destruct (Unsubscribe_run c id1 s1 l true Hc Hs1 Ho Ha1 Hl)
    as (c' & s' & Hrun & _ & _ & Hrest & _ & _ & _ & _ & Hlist & Hconn & _).
  set (m := NewMessageCmd CmdUnsub (subject s1) []).
  destruct (handleUnsubscribe_result w x sess m Hw Hx) as (w1 & sess1 & Hun & Hw1 & Hx1 & _ & Hp & Hsubj).
  assert (¬ concerned w1 (subject s1) x) as Hno.
  { intros (p & Hpx & Hm). rewrite Hp in Hpx. apply elem_of_difference in Hpx as [Hpx Hneq].
    destruct (wo_pairs w Hw p x Hpx) as (y & Hy & Hpin). rewrite Hx in Hy. injection Hy as <-.
    rewrite (Honly p Hpin Hm) in Hneq. set_solver. }
  destruct (handlePublish_effect w1 o (NewMessageCmd CmdPub (subject s1) data) Hw1) as (w2 & Hpub & _ & Heff);
    [by apply wire_ok_limits|].
  destruct (Heff x sess1 Hx1) as [_ Hsame]. exists c', w1, w2, sess1. split_and!; try done.
  - rewrite Hrest; done.
  - rewrite Hlist. apply elem_of_remove_id; [apply Hc|]. by split.
  - by apply Hsame.
Qed.

Definition twice_subscribed : Client := registered 0 (str "a") 10 waiting.
Definition a_sub : Subscription := mkSub (str "a") true [] 10 false [] 0 0 false.

Lemma duplicate_unsubscribe_starves_witness :
  ∃ (w : World Router) c' w1 w2 sess1,
    Unsubscribe 0 false true twice_subscribed = Ret (None, c') ∧ (2%nat ∈ subscriptions c') ∧
    handleUnsubscribe 1 (NewMessageCmd CmdUnsub (str "a") []) w = Ret (None, w1) ∧
    heap w1 !! 1%nat = Some sess1 ∧
    handlePublish in_order (NewMessageCmd CmdPub (str "a") (str "hi")) w1 = Ret (None, w2) ∧
    heap w2 !! 1%nat = Some sess1.
Proof.
  set (w := after (handleSubscribe 1 (NewMessageCmd CmdSub (str "a") [])) served).
  assert (handleSubscribe 1 (NewMessageCmd CmdSub (str "a") []) served = Ret (None, w)) as Hrun
    by (vm_compute; reflexivity).
  destruct (handleSubscribe_result served w 1 one_session (NewMessageCmd CmdSub (str "a") []))
    as (Hw & _ & _); [apply served_ok|apply served_session|reflexivity|exact Hrun|].
  set (sess := default one_session (heap w !! 1%nat)).
  assert (heap w !! 1%nat = Some sess) as Hs by (vm_compute; reflexivity).
  assert (subjects sess = [str "a"]) as Hsub by (vm_compute; reflexivity).
  destruct (duplicate_unsubscribe_starves twice_subscribed 0 2 a_sub a_sub
      [] w in_order 1 sess (str "hi")) as (c' & w1 & w2 & sess1 & H1 & _ & _ & H2 & H3 & H4 & H5 & H6).
  - apply registered_spec; [lia|]. apply waiting_spec.
  - reflexivity.
  - reflexivity.
  - discriminate.
  - right. left.
  - reflexivity.
  - reflexivity.
  - reflexivity.
  - reflexivity.
  - reflexivity.
  - exact Hw.
  - exact Hs.
  - vm_compute. reflexivity.
  - vm_compute. discriminate.
  - vm_compute. discriminate.
  - rewrite Hsub. intros p Hp%list_elem_of_singleton _. exact Hp.
  - exists w, c', w1, w2, sess1. split; [exact H1|]. split; [exact H2|]. split; [exact H3|].
    split; [exact H4|]. split; [exact H5|exact H6].
Defined.
