(* ===== verification/ClientFrames.v ===== *)
(** * What a client sends

    Every byte a client writes, under any interleaving of its goroutines and callers, is part
    of a well-formed frame of one of the four commands of a client, and a reader of the
    connection gets the messages back one by one. *)

From S2P Require Import Prelude GoStrings GoIO Protocol Subject Router Session Server Broker.
From S2P Require Import Reconnect Client ClientLaws ClientSteps System.

(** ** Frames *)

Definition client_command (cmd : byte) : Prop := cmd = CmdPub ∨ cmd = CmdSub ∨ cmd = CmdUnsub ∨ cmd = CmdPing.

(** The messages of a client, as a type of the wire. *)
Definition client_message (m : Protocol.Message) : Prop := wire_ok m ∧ client_command (Command m).
Definition client_frame (bs : list byte) : Prop := ∃ m, client_message m ∧ bs = Encode m.

(** What the invariant says of a client: the frames on its connection, and the subjects that
    can still become the subject of a frame. *)
Definition frames_on (c : Client) : Prop := ∀ l, conn c = Some l → Forall client_frame l.
Definition subjects_short (c : Client) : Prop :=
  map_Forall (λ _ s, (len (subject s) <= MaxSubjectLen)%Z) (subs c).

(** An operation may append frames to the connection, and leaves the subjects. *)
Definition appends (c c' : Client) : Prop :=
  ∃ fs, Forall client_frame fs ∧ conn c' = (λ l, l ++ fs) <$> conn c.
Definition same_subjects (c c' : Client) : Prop :=
  ∀ id, subject <$> subs c' !! id = subject <$> subs c !! id.

Lemma appends_nothing c c' : conn c' = conn c → appends c c'.
Proof.
  intros E. exists []. split; [constructor|]. rewrite E. destruct (conn c); [|done]. cbn.
  by rewrite app_nil_r.
Qed.
Lemma appends_one c c' l f : conn c = Some l → client_frame f → conn c' = Some (l ++ [f]) → appends c c'.
Proof. intros Hl Hf E. exists [f]. split; [by repeat constructor|]. by rewrite E, Hl. Qed.
Lemma frames_on_appends c c' : frames_on c → appends c c' → frames_on c'.
Proof.
  intros Hc (fs & Hfs & E) l Hl. rewrite E in Hl. destruct (conn c) as [k|] eqn:Hk; [|done].
  injection Hl as <-. apply Forall_app. split; [by apply Hc|done].
Qed.

Lemma same_subjects_refl c c' : subs c' = subs c → same_subjects c c'.
Proof. intros E id. by rewrite E. Qed.
Lemma same_subjects_trans c1 c2 c3 : same_subjects c1 c2 → same_subjects c2 c3 → same_subjects c1 c3.
Proof. intros H1 H2 id. by rewrite H2, H1. Qed.
Lemma same_subjects_upd id f c : (∀ s, subject (f s) = subject s) → same_subjects c (upd_sub id f c).
Proof.
  intros Hf x. cbn [subs upd_sub set_subs]. destruct (decide (id = x)) as [->|].
  - rewrite lookup_alter_eq. destruct (subs c !! x) as [s|]; [|done]. cbn. by rewrite Hf.
  - by rewrite lookup_alter_ne.
Qed.
Lemma subjects_short_same c c' : subjects_short c → same_subjects c c' → subjects_short c'.
Proof.
  intros Hc Hs id s Hid. specialize (Hs id). rewrite Hid in Hs.
  destruct (subs c !! id) as [s0|] eqn:E; [|done]. injection Hs as ->. by apply (Hc id).
Qed.

(** ** The operations one by one *)

Lemma command_frame cmd subj :
  (len subj <= MaxSubjectLen)%Z → client_command cmd → client_frame (Encode (NewMessageCmd cmd subj [])).
Proof. intros Hs Hc. exists (NewMessageCmd cmd subj []). split; [|done].
split; [by apply wire_ok_command|done]. Qed.

Lemma deliver_conn msg l c : conn (foldl (deliver_to msg) c l) = conn c ∧ same_subjects c (foldl (deliver_to msg) c l).
Proof.
  revert c. induction l as [|id l IH]; intros c; [by split; [|apply same_subjects_refl]|]. cbn [foldl].
  destruct (IH (deliver_to msg c id)) as [E1 E2]. rewrite deliver_to_eq in *. split; [by rewrite E1|].
  eapply same_subjects_trans; [|exact E2]. apply same_subjects_upd. intros s. unfold offered, TryEnqueue.
  by repeat case_match.
Qed.

Lemma confirm_conn p c : conn (confirm p c) = conn c.
Proof. unfold confirm. by destruct (pendingSubs c !! p). Qed.

Lemma handleMessage_conn msg c : conn (handleMessage msg c) = conn c ∧ same_subjects c (handleMessage msg c).
Proof.
  unfold handleMessage. repeat case_match; rewrite ?confirm_conn; try apply deliver_conn;
    (split; [done|apply same_subjects_refl; by rewrite ?confirm_subs]).
Qed.

Lemma Publish_appends ctx ok subj data c : appends c (Publish ctx ok subj data c).2.
Proof.
  unfold Publish. destruct ctx; [by apply appends_nothing|].
  destruct (Z.ltb_spec MaxSubjectLen (len subj)); [by apply appends_nothing|].
  destruct (Z.ltb_spec MaxBodyLen (1 + 2 + len subj + len data)); [by apply appends_nothing|].
  destruct (conn c) as [l|] eqn:Hl; [|by apply appends_nothing].
  destruct ok; [|by apply appends_nothing].
  eapply appends_one; [exact Hl| |cbn; by rewrite Hl].
  exists (NewMessageCmd CmdPub subj data). split; [|done]. split; [by split|by left].
Qed.

Lemma Publish_subs ctx ok subj data c : subs (Publish ctx ok subj data c).2 = subs c.
Proof. unfold Publish. by repeat case_match. Qed.

Lemma heartbeat_appends ok c : appends c (heartbeat_tick ok c).
Proof.
  unfold heartbeat_tick. destruct (conn c) as [l|] eqn:Hl; [|by apply appends_nothing].
  destruct ok; [|by apply appends_nothing]. eapply appends_one; [exact Hl| |cbn; by rewrite Hl].
  apply command_frame; [by vm_compute|unfold client_command; tauto].
Qed.

Lemma sendSub_begin_appends subj ok c : appends c (sendSub_begin subj ok c).2.
Proof.
  unfold sendSub_begin. destruct (Z.ltb_spec MaxSubjectLen (len subj)); [by apply appends_nothing|].
  cbn [register_ack fst snd conn set_fresh set_pending]. unfold drop_old_ack. rewrite confirm_conn.
  destruct (conn c) as [l|] eqn:Hl; [destruct ok|]; cbn [snd].
  - eapply appends_one; [exact Hl| |cbn; by rewrite confirm_conn, Hl].
    apply command_frame; [done|unfold client_command; tauto].
  - apply appends_nothing. cbn. by rewrite confirm_conn.
  - apply appends_nothing. cbn. by rewrite confirm_conn.
Qed.

Lemma sendSub_begin_subs subj ok c : subs (sendSub_begin subj ok c).2 = subs c.
Proof.
  unfold sendSub_begin. destruct (_ <? _)%Z; [done|]. cbn [register_ack fst snd].
  unfold drop_old_ack. destruct (conn _); [destruct ok|]; cbn; apply confirm_subs.
Qed.

Lemma discard_keeps id c c' : discard id c = Ret c' → conn c' = conn c ∧ same_subjects c c'.
Proof.
  unfold discard. intros Hd. cbv zeta in Hd. repeat case_match; simplify_eq. split; [done|].
  eapply same_subjects_trans; [|by apply same_subjects_upd].
  eapply same_subjects_trans; [|by apply same_subjects_upd]. by apply same_subjects_refl.
Qed.

Lemma subscribe_begin_frames attempt subj cap ok c b c' :
  (len subj <= MaxSubjectLen)%Z → subscribe_begin attempt subj cap ok c = Ret (b, c') →
  subjects_short c → appends c c' ∧ subjects_short c'.
Proof.
  intros Hs Hb Hc. unfold subscribe_begin in Hb. cbv zeta in Hb.
  set (c0 := if (0 <? attempt)%Z then drop_old_ack subj c else c) in *.
  assert (conn c0 = conn c ∧ subs c0 = subs c) as [E1 E2].
  { unfold c0, drop_old_ack. destruct (_ <? _)%Z; [by rewrite confirm_conn, confirm_subs|done]. }
  cbn [new_subscription register_ack fst snd] in Hb.
  set (c1 := set_fresh _ (set_pending _ _ _)) in *.
  assert (conn c1 = conn c) as Hc1 by (unfold c1; cbn; done).
  assert (subjects_short c1) as Hshort.
  { unfold subjects_short, c1. cbn. rewrite E2. apply map_Forall_insert_2; [done|exact Hc]. }
  rewrite Hc1 in Hb. destruct (conn c) as [l|] eqn:Hl; [destruct ok|].
  - injection Hb as <- <-. split; [|done]. eapply appends_one; [exact Hl| |cbn; by rewrite E1].
    apply command_frame; [done|unfold client_command; tauto].
  - destruct (discard _ _) as [d| |] eqn:Hd; [|done..]. injection Hb as <- <-.
    destruct (discard_keeps _ _ _ Hd) as [F1 F2]. split.
    + apply appends_nothing. rewrite F1, Hl. exact Hc1.
    + eapply subjects_short_same; [|exact F2]. exact Hshort.
  - injection Hb as <- <-. split; [|done]. apply appends_nothing. by rewrite Hc1.
Qed.

Lemma subscribe_end_keeps subj id w c e c' :
  subscribe_end subj id w c = Ret (e, c') → conn c' = conn c ∧ same_subjects c c'.
Proof.
  unfold subscribe_end. destruct w; intros H; try (injection H as <- <-; by split; [|apply same_subjects_refl]);
    (destruct (discard _ _) as [d| |] eqn:Hd; [|done..]; injection H as <- <-;
     destruct (discard_keeps _ _ _ Hd) as [E1 E2]; by split).
Qed.

Lemma drain_subject s : subject (drain s) = subject s.
Proof.
  unfold drain. generalize (length (msgChan s)) as n. intros n. induction n as [|n IH]; [done|].
  etrans; [|exact IH]. change (Nat.iter (S n) process_one s) with (process_one (Nat.iter n process_one s)).
  unfold process_one at 1. by destruct (msgChan (Nat.iter n process_one s)).
Qed.

Lemma Unsubscribe_frames id cb ok c e c' :
  subjects_short c → Unsubscribe id cb ok c = Ret (e, c') → appends c c' ∧ same_subjects c c'.
Proof.
  intros Hc Hu. unfold Unsubscribe in Hu. destruct (subs c !! id) as [s|] eqn:Hs; [|done].
  destruct (closeOnce s); [injection Hu as <- <-; by split; [apply appends_nothing|]|].
  destruct (active s); cbn [negb] in Hu;
    [|injection Hu as <- <-; split; [by apply appends_nothing|by apply same_subjects_upd]].
  destruct (chanClosed s); [done|]. destruct cb; [done|]. cbv zeta in Hu.
  set (c2 := upd_sub id (λ s, drain (close_chan s)) _) in *.
  assert (same_subjects c c2) as Hsame.
  { eapply same_subjects_trans; [|apply same_subjects_upd; intros x; cbn beta; by rewrite drain_subject].
    eapply same_subjects_trans; [|by apply same_subjects_upd]. by apply same_subjects_upd. }
  change (conn c2) with (conn c) in Hu. destruct (conn c) as [l|] eqn:Hl; [destruct ok|]; injection Hu as <- <-;
    (split; [|exact Hsame]); [|by apply appends_nothing..].
  eapply appends_one; [exact Hl| |cbn; by rewrite Hl].
  apply command_frame; [by apply (Hc id)|unfold client_command; tauto].
Qed.

Lemma close_fold_subjects l c : same_subjects c (foldl (λ c id, upd_sub id (set_active false) c) c l).
Proof.
  revert c. induction l as [|x l IH]; intros c; [by apply same_subjects_refl|]. cbn [foldl].
  eapply same_subjects_trans; [by apply (same_subjects_upd x (set_active false))|apply IH].
Qed.

Lemma client_Close_keeps c : conn (client_Close c) = conn c ∧ same_subjects c (client_Close c).
Proof.
  unfold client_Close. destruct (clientCloseOnce c); [by split; [|apply same_subjects_refl]|]. cbv zeta.
  split.
  - cbn [conn set_pending set_sub_list].
    assert (∀ l c, conn (foldl (λ c id, upd_sub id (set_active false) c) c l) = conn c) as ->; [|done].
    intros l. induction l as [|x l IH]; intros d; [done|]. cbn [foldl]. by rewrite IH.
  - eapply same_subjects_trans; [|apply same_subjects_refl; reflexivity].
    eapply same_subjects_trans; [|apply close_fold_subjects]. by apply same_subjects_refl.
Qed.

(** ** Preservation *)

Definition sends_frames (st : system) : Prop := frames_on (client st) ∧ subjects_short (client st).

(** A local step may append frames to the connection, and keeps the subjects short. *)
Lemma local_step_appends st st' :
  subjects_short (client st) → local_step st st' →
  appends (client st) (client st') ∧ subjects_short (client st').
Proof.
  intros Hshort Hstep. destruct st as [c cs hs]. cbn [client] in Hshort.
  inversion Hstep; subst; cbn [client calls handles] in *; subst.
  - split; [by apply appends_nothing|]. eapply subjects_short_same; [done|]. apply same_subjects_upd.
    intros s. unfold process_one. by case_match.
  - match goal with H : Publish ?x ?ok ?s ?p ?c = _ |- _ =>
      pose proof (Publish_appends x ok s p c) as Ha; pose proof (Publish_subs x ok s p c) as Hs; rewrite H in Ha, Hs end.
    split; [done|]. eapply subjects_short_same; [done|]. by apply same_subjects_refl.
  - split; [apply heartbeat_appends|]. eapply subjects_short_same; [done|]. apply same_subjects_refl.
    unfold heartbeat_tick. by repeat case_match.
  - match goal with H : subscribe_begin _ _ _ _ _ = _ |- _ =>
      by destruct (subscribe_begin_frames _ _ _ _ _ _ _ ltac:(eassumption) H Hshort) end.
  - match goal with H : subscribe_end _ _ _ _ = _ |- _ => destruct (subscribe_end_keeps _ _ _ _ _ _ H) end.
    split; [by apply appends_nothing|by eapply subjects_short_same].
  - split; [apply sendSub_begin_appends|]. eapply subjects_short_same; [done|]. apply same_subjects_refl.
    apply sendSub_begin_subs.
  - split; [apply appends_nothing; by destruct w|]. eapply subjects_short_same; [done|].
    apply same_subjects_refl; by destruct w.
  - split; [by apply appends_nothing|]. eapply subjects_short_same; [done|].
    eapply same_subjects_trans; [|by apply same_subjects_upd]. by apply same_subjects_refl.
  - split; [by apply appends_nothing|done].
  - match goal with H : Unsubscribe _ _ _ _ = _ |- _ => destruct (Unsubscribe_frames _ _ _ _ _ _ Hshort H) end.
    split; [done|by eapply subjects_short_same].
  - destruct (client_Close_keeps c). split; [by apply appends_nothing|by eapply subjects_short_same].
Qed.

Lemma client_step_frames st st' : sends_frames st → client_step st st' → sends_frames st'.
Proof.
  intros [Hf Hshort] Hstep. destruct Hstep as [msg st1|l st1|st1 st2 Hlocal].
  - destruct (handleMessage_conn msg (client st1)). split.
    + eapply frames_on_appends; [exact Hf|by apply appends_nothing].
    + by eapply subjects_short_same.
  - split; [|exact Hshort]. intros k [= <-]. constructor.
  - destruct (local_step_appends _ _ Hshort Hlocal). split; [by eapply frames_on_appends|done].
Qed.

Lemma client_reachable_frames st : rtc client_step initial_system st → sends_frames st.
Proof.
  apply rtc_invariant; [apply client_step_frames|]. split.
  - intros l [= <-]. constructor.
  - apply map_Forall_empty.
Qed.

Lemma frames_messages l : Forall client_frame l → ∃ ms, l = map Encode ms ∧ Forall client_message ms.
Proof.
  induction 1 as [|f l (m & Hm & ->) _ (ms & -> & Hms)]; [by exists []|]. exists (m :: ms).
  split; [done|by constructor].
Qed.

(** C23: the type of the client's connection. In every state a client can reach, whatever the
    interleaving of callers, receive loop, heartbeat, reconnections and closing, what is
    written on its connection is a sequence of encodings of well-sized messages with one of
    the commands PUB, SUB, UNSUB and PING; and a reader of the other end, however the bytes
    are cut into chunks, gets exactly these messages and stops at what follows. *)
Theorem client_connection_typed st l :
  rtc client_step initial_system st → conn (client st) = Some l →
  ∃ ms, l = map Encode ms ∧ Forall client_message ms ∧
    ∀ r rest, stream r = concat l ++ rest →
      ∃ r', read_messages (length ms) r = Ret (map inl ms, r') ∧ stream r' = rest.
Proof.
  intros [Hf _]%client_reachable_frames Hl. destruct (frames_messages l (Hf l Hl)) as (ms & -> & Hms).
  exists ms. split; [done|]. split; [done|]. intros r rest Hr. apply read_encodings; [|done].
  eapply Forall_impl; [exact Hms|]. by intros m [].
Qed.

Lemma client_connection_typed_witness :
  ∃ ms, [Encode (NewMessageCmd CmdSub (str "a.*") [])] = map Encode ms ∧ Forall client_message ms.
Proof.
  destruct (client_connection_typed (mkSystem one_subscription_sent [(str "a.*", 0%nat)] [])
              [Encode (NewMessageCmd CmdSub (str "a.*") [])]) as (ms & H1 & H2 & _).
  - apply rtc_once, cs_local. eapply (ls_begin 0 (str "a.*") 10 true (Waiting 0 1) one_subscription_sent initial_system);
      [lia|by vm_compute|reflexivity].
  - reflexivity.
  - exists ms. split; [exact H1|exact H2].
Defined.
