(* ===== verification/BrokerFrames.v ===== *)
(** * What a turn of the broker does to the queues

    Every handler of [Server] seen from the output queues: it appends to the queue of each
    session encodings of well-sized messages, and the only [MSG] frame among them is that of
    the publication it handles. Reading, writing and closing leave the queues alone, except
    for the frame that is written. *)

From S2P Require Import Prelude GoStrings GoIO Reconnect Client Protocol Subject Router.
From S2P Require Import Session Server Broker.

(** ** Deliveries *)

(** What the client makes of the messages of a connection: the [MSG] frames, in order. *)
Definition delivery_of (m : Message) : Delivery := mkDelivery (Protocol.Subject m) (Payload m).
Definition deliveries (ms : list Message) : list Delivery :=
  omap (λ m, if decide (Command m = CmdMsg) then Some (delivery_of m) else None) ms.

Lemma deliveries_app ms1 ms2 : deliveries (ms1 ++ ms2) = deliveries ms1 ++ deliveries ms2.
Proof. apply omap_app. Qed.

Lemma deliveries_cons m ms :
  deliveries (m :: ms) = (if decide (Command m = CmdMsg) then [delivery_of m] else []) ++ deliveries ms.
Proof. unfold deliveries. cbn [omap list_omap]. by case_decide. Qed.

(** ** One session *)

(** The queue of [a] has grown by frames that carry the deliveries [ds]; what has been
    written is as before. *)
Definition extended (ds : list Delivery) (a b : Session) : Prop :=
  conn_sent b = conn_sent a ∧
  ∃ ms, outChan b = outChan a ++ map Encode ms ∧ Forall wire_ok ms ∧ deliveries ms = ds.

Lemma extended_same a b : conn_sent b = conn_sent a → outChan b = outChan a → extended [] a b.
Proof. intros Hs Ho. split; [done|]. exists []. by rewrite app_nil_r. Qed.

Lemma extended_trans ds1 ds2 a b c : extended ds1 a b → extended ds2 b c → extended (ds1 ++ ds2) a c.
Proof.
  intros [H1 (ms1 & E1 & F1 & <-)] [H2 (ms2 & E2 & F2 & <-)]. split; [congruence|].
  exists (ms1 ++ ms2). rewrite map_app, app_assoc, <-E1, E2, deliveries_app. split_and!; [done| |done].
  by apply Forall_app.
Qed.

Lemma extended_then ds a b c : extended ds a b → extended [] b c → extended ds a c.
Proof. intros H1 H2. rewrite <-(app_nil_r ds). by eapply extended_trans. Qed.

Lemma enqueue_extended m sess :
  wire_ok m → queue_ok sess →
  let b := sent_session (enqueueEncoded (Encode m) sess) in
  pc b = pc sess ∧ (extended [] sess b ∨ extended (deliveries [m]) sess b).
Proof.
  intros Hm Hq. assert (len (Encode m) < 2 ^ 62)%Z as Hlen by (apply good_frame_width; by exists m).
  cbv zeta. rewrite enqueueEncoded_cases by done.
  repeat case_match; (split; [done|]); try (left; by apply extended_same).
  right. split; [done|]. exists [m]. split_and!; [done|by rewrite Forall_singleton|done].
Qed.

(** A step of session [x] that appends no [MSG] frame. *)
Definition unmoved (x : sid) (a b : Session) : Prop := extended [] a b ∧ pc b = pc a.

Lemma unmoved_refl x a : unmoved x a a.
Proof. split; [by apply extended_same|done]. Qed.
Lemma unmoved_trans x a b c : unmoved x a b → unmoved x b c → unmoved x a c.
Proof. intros [H1 E1] [H2 E2]. split; [by apply (extended_trans [] [] a b c)|congruence]. Qed.

Lemma enqueue_unmoved x m sess :
  wire_ok m → queue_ok sess → Command m ≠ CmdMsg →
  unmoved x sess (sent_session (enqueueEncoded (Encode m) sess)).
Proof.
  intros Hm Hq Hc. destruct (enqueue_extended m sess Hm Hq) as [Hpc Hext]. split; [|done].
  rewrite deliveries_cons, decide_False in Hext by done. by destruct Hext.
Qed.

Lemma response_ok c text : wire_ok (NewMessageCmd c (truncateUTF8 text MaxSubjectLen) []).
Proof.
  unfold wire_ok, body_len. cbn [Protocol.Subject Payload NewMessageCmd].
  pose proof (truncateUTF8_len text MaxSubjectLen ltac:(done)). rewrite len_nil.
  unfold MaxSubjectLen, MaxBodyLen in *. lia.
Qed.

Lemma SendOK_unmoved x text sess : queue_ok sess → unmoved x sess (sent_session (SendOK text sess)).
Proof.
  intros Hq. unfold SendOK. case_match; [apply unmoved_refl|].
  apply enqueue_unmoved; [apply response_ok|done|done].
Qed.
Lemma SendError_unmoved x text sess : queue_ok sess → unmoved x sess (sent_session (SendError text sess)).
Proof.
  intros Hq. unfold SendError. case_match; [apply unmoved_refl|].
  apply enqueue_unmoved; [apply response_ok|done|done].
Qed.
Lemma SendPong_unmoved x sess : queue_ok sess → unmoved x sess (sent_session (SendPong sess)).
Proof.
  intros Hq. unfold SendPong. case_match; [apply unmoved_refl|].
  apply enqueue_unmoved; [by vm_compute|done|done].
Qed.

(** ** All sessions *)

Section evolution.
Context {R : Type} `{SubscriptionStoreLaws R}.
Implicit Types w : World R.

(** No session appears or disappears, and each changes as [P] says. *)
Definition evolves (P : sid → Session → Session → Prop) w w' : Prop :=
  ∀ x, match heap w !! x with
       | None => heap w' !! x = None
       | Some a => ∃ b, heap w' !! x = Some b ∧ P x a b
       end.

Lemma evolves_same P w w' : heap w' = heap w → (∀ x a, P x a a) → evolves P w w'.
Proof. intros E HP x. rewrite E. destruct (heap w !! x) as [a|]; [by exists a|done]. Qed.

Lemma evolves_trans (P Q S : sid → Session → Session → Prop) w1 w2 w3 :
  (∀ x a b c, P x a b → Q x b c → S x a c) → evolves P w1 w2 → evolves Q w2 w3 → evolves S w1 w3.
Proof.
  intros HS F1 F2 x. specialize (F1 x). specialize (F2 x). destruct (heap w1 !! x) as [a|].
  - destruct F1 as (b & Hb & ?). rewrite Hb in F2. destruct F2 as (c & Hc & ?). exists c. eauto.
  - by rewrite F1 in F2.
Qed.

Lemma evolves_insert (P : sid → Session → Session → Prop) s a b w w' :
  heap w !! s = Some a → heap w' = <[s := b]> (heap w) → P s a b → (∀ x c, x ≠ s → P x c c) →
  evolves P w w'.
Proof.
  intros Ha E HP Hrefl x. rewrite E. destruct (decide (x = s)) as [->|Hne].
  - rewrite Ha, lookup_insert_eq. by exists b.
  - rewrite lookup_insert_ne by done. destruct (heap w !! x) as [c|]; [|done]. exists c. auto.
Qed.

Lemma evolves_lookup P w w' x a : evolves P w w' → heap w !! x = Some a → ∃ b, heap w' !! x = Some b ∧ P x a b.
Proof. intros He Ha. specialize (He x). by rewrite Ha in He. Qed.
Lemma evolves_none P w w' x : evolves P w w' → heap w !! x = None → heap w' !! x = None.
Proof. intros He Ha. specialize (He x). by rewrite Ha in He. Qed.

Definition quiet w w' : Prop := evolves unmoved w w'.

Lemma quiet_refl w w' : heap w' = heap w → quiet w w'.
Proof. intros E. apply evolves_same; [done|apply unmoved_refl]. Qed.
Lemma quiet_trans w1 w2 w3 : quiet w1 w2 → quiet w2 w3 → quiet w1 w3.
Proof. apply evolves_trans, unmoved_trans. Qed.
Lemma quiet_insert s a b w w' :
  heap w !! s = Some a → heap w' = <[s := b]> (heap w) → unmoved s a b → quiet w w'.
Proof. intros Ha E Hu. eapply evolves_insert; [exact Ha|exact E|exact Hu|]. intros; apply unmoved_refl. Qed.

Lemma quiet_send s r w sess :
  heap w !! s = Some sess → unmoved s sess (sent_session r) → quiet w (send_world s r w).
Proof. intros Hs Hu. by eapply quiet_insert; [|apply send_world_heap|]. Qed.

Lemma quiet_close o s w w' :
  world_ok w → is_Some (heap w !! s) → Close o s w = Ret (tt, w') → quiet w w'.
Proof.
  intros Hw [sess Hs]. rewrite (Close_run o s w sess) by (done || apply Hw). intros [= <-].
  unfold close_world. destruct (closeOnce sess); [by apply quiet_refl|].
  eapply quiet_insert; [exact Hs|reflexivity|]. split; [by apply extended_same|done].
Qed.

(** Handling a publication may put its one [MSG] frame on a queue; any other message none. *)
Definition handled_by (msg : Message) (x : sid) (a b : Session) : Prop :=
  pc b = pc a ∧
  (extended [] a b ∨ (Command msg = CmdPub ∧ extended [delivery_of msg] a b)).

Lemma quiet_handled msg w w' : quiet w w' → evolves (handled_by msg) w w'.
Proof.
  intros Hq x. specialize (Hq x). destruct (heap w !! x) as [a|]; [|done].
  destruct Hq as (b & Hb & He & Hpc). exists b. split; [done|]. split; [done|by left].
Qed.

Lemma handlePublish_frames o msg w w' err :
  world_ok w → wire_ok msg → Command msg = CmdPub →
  handlePublish o msg w = Ret (err, w') → evolves (handled_by msg) w w'.
Proof.
  intros Hw Hm Hc Hrun. pose proof (find_sessions_exist o (Protocol.Subject msg) w Hw) as Hex.
  destruct (handlePublish_effect w o msg Hw Hm) as (w2 & E & _ & Heff). rewrite Hrun in E. injection E as E2 E3. subst w2 err.
  rewrite handlePublish_run in Hrun by (done || apply Hw). injection Hrun as Hrun. intros x.
  destruct (heap w !! x) as [a|] eqn:Ha.
  - destruct (Heff x a Ha) as [F1 F2].
    assert (concerned w (Protocol.Subject msg) x ∨ ¬ concerned w (Protocol.Subject msg) x) as [Hcon|Hcon].
    { destruct (store_find_ok o (Protocol.Subject msg) (router w) (wo_router w Hw)) as (_ & _ & _ & Hel).
      destruct (decide (x ∈ (store_find o (Protocol.Subject msg) (router w)).1)) as [Hin|Hin];
        [left; by apply Hel|right; intros Hcon; by apply Hin, Hel]. }
    + rewrite F1 by done. eexists. split; [done|].
      destruct (enqueue_extended (NewMessageCmd CmdMsg (Protocol.Subject msg) (Payload msg)) a) as [Hpc Hext];
        [exact Hm|by eapply world_ok_queue|]. split; [done|]. destruct Hext; [by left|by right].
    + rewrite F2 by done. exists a. split; [done|]. split; [done|]. left. by apply extended_same.
  - rewrite <-Hrun. rewrite deliver_lookup.
    + cbn [heap set_router]. rewrite Ha. by case_decide.
    + by apply store_find_ok, Hw.
Qed.

Lemma HandleMessage_frames o s msg w w' err :
  world_ok w → is_Some (heap w !! s) → wire_ok msg →
  HandleMessage o s msg w = Ret (err, w') → evolves (handled_by msg) w w'.
Proof.
  intros Hw [sess Hs] Hm. pose proof (world_ok_queue w s sess Hw Hs) as Hq. pose proof (wo_held w Hw) as Hh.
  unfold HandleMessage. repeat case_decide.
  - rewrite (handleSubscribe_run s msg w sess) by done. intros [= _ <-]. apply quiet_handled.
    assert (heap (subscribe_world s (Protocol.Subject msg) sess w) !! s = Some (subscribed s (Protocol.Subject msg) sess)) as Hs1
      by by apply subscribe_world_heap.
    eapply quiet_trans; [|eapply quiet_send; [exact Hs1|apply SendOK_unmoved]].
    + unfold subscribe_world. case_decide; [by apply quiet_refl|].
      eapply quiet_insert; [exact Hs|reflexivity|]. unfold subscribed. rewrite decide_False by done.
      split; [by apply extended_same|done].
    + eapply world_ok_queue; [by eapply world_ok_subscribe|exact Hs1].
  - rewrite (handleUnsubscribe_run s msg w sess) by done. intros [= _ <-]. apply quiet_handled.
    set (sess1 := set_subjects _ sess).
    eapply (quiet_trans _ (set_router (store_unsubscribe (Protocol.Subject msg) s (router w)) (upd s sess1 w))).
    + eapply quiet_insert; [exact Hs|reflexivity|]. split; [by apply extended_same|done].
    + eapply quiet_send; [apply heap_upd|]. apply SendOK_unmoved.
      eapply (world_ok_queue _ s); [by eapply world_ok_unsubscribe|apply heap_upd].
  - by apply handlePublish_frames.
  - rewrite (handlePing_run s w sess) by done. intros [= _ <-]. apply quiet_handled.
    eapply quiet_send; [exact Hs|]. by apply SendPong_unmoved.
  - intros [= _ <-]. apply quiet_handled. by apply quiet_refl.
Qed.

(** The whole turn: the read loop is back at the top. *)
Definition turned (s : sid) (msg : Message) (x : sid) (a b : Session) : Prop :=
  pc b = (if decide (x = s) then AtTop else pc a) ∧
  (extended [] a b ∨ (Command msg = CmdPub ∧ extended [delivery_of msg] a b)).

Lemma handled_quiet msg w1 w2 w3 :
  evolves (handled_by msg) w1 w2 → quiet w2 w3 → evolves (handled_by msg) w1 w3.
Proof.
  apply evolves_trans. intros x a b c [Hpc Hab] [Hbc Hpc']. split; [congruence|].
  destruct Hab as [Hab|[? Hab]]; [left|right; split; [done|]]; by apply (extended_then _ a b c).
Qed.

Lemma reader_handle_frames o s msg w w' :
  world_ok w → is_Some (heap w !! s) → wire_ok msg →
  reader_handle o s msg w = Ret (tt, w') → evolves (turned s msg) w w'.
Proof.
  intros Hw [sess Hs] Hm. unfold reader_handle.
  destruct (HandleMessage_ok o s msg w sess Hw Hs Hm) as (err & w1 & HH & Hw1 & Hg1).
  pose proof (HandleMessage_frames o s msg w w1 err Hw (ex_intro _ _ Hs) Hm HH) as He1.
  rewrite (bind_run _ _ _ _ _ HH). destruct (Hg1 s) as [sess1 Hs1]; [eauto|].
  set (w2 := match err with
             | Some e => send_world s (SendError (str "handle error: " ++ handle_error_text e) sess1) w1
             | None => w1 end).
  assert (quiet w1 w2 ∧ held w2 = []) as [Hq Hh2].
  { unfold w2. destruct err; [|split; [by apply quiet_refl|apply Hw1]].
    split; [|rewrite send_world_held; apply Hw1].
    eapply quiet_send; [exact Hs1|]. apply SendError_unmoved. by eapply world_ok_queue. }
  rewrite (bind_run _ _ w1 tt w2).
  2: { unfold w2. destruct err; [|done]. by erewrite bind_run by (by apply send_run). }
  destruct (evolves_lookup _ _ _ _ _ Hq Hs1) as (sess2 & Hs2 & _).
  rewrite (bind_run _ _ _ _ _ (set_lastPing_run s w2 sess2 Hh2 Hs2)).
  rewrite (modify_session_run _ _ _ _ (heap_upd _ _ _)), upd_upd. intros [= <-].
  eapply evolves_trans; [|exact (handled_quiet msg _ _ _ He1 Hq)|].
  2: { eapply (evolves_insert (λ x a b, extended [] a b ∧ pc b = if decide (x = s) then AtTop else pc a));
         [exact Hs2|reflexivity| |].
       - rewrite decide_True by done. split; [by apply extended_same|done].
       - intros x c Hne. rewrite decide_False by done. split; [by apply extended_same|done]. }
  intros x a b c [Hpc Hab] [Hbc Hpc']. split; [rewrite Hpc'; by case_decide|].
  destruct Hab as [Hab|[? Hab]]; [left|right; split; [done|]]; by apply (extended_then _ a b c).
Qed.

(** Every turn that is neither a read nor a write is quiet, or handles the message a read
    loop holds. *)
Lemma turn_frames w w' :
  world_ok w → turn w w' →
  quiet w w' ∨ ∃ s sess msg, heap w !! s = Some sess ∧ pc sess = Holding msg ∧ evolves (turned s msg) w w'.
Proof.
  intros Hw Hstep. destruct Hstep as [o s sess msg w w' Hs Hpc Hrun|o s l1 l2 w w' Hsp Hrun
    |maxq cap w w' Hm Hrun|t w w' Hrun|t w|ok b w w' Hrun|o w w' Hrun].
  - right. exists s, sess, msg. split_and!; [done..|]. eapply reader_handle_frames; [done|by eexists| |done].
    by apply (so_pc sess (world_ok_session _ _ _ Hw Hs)).
  - left. assert (world_ok (set_spawned (l1 ++ l2) w)) as Hw1.
    { destruct Hw as [? ? ? ? ? ? ? Hf]. constructor; try done. simpl.
      rewrite Hsp in Hf. rewrite Forall_app, Forall_cons in Hf. rewrite Forall_app. tauto. }
    eapply (quiet_close o s (set_spawned (l1 ++ l2) w)); [done| |done].
    pose proof (wo_spawned w Hw) as Hf. rewrite Hsp, Forall_app, Forall_cons in Hf. tauto.
  - left. unfold SetSessionBackpressure in Hrun.
    rewrite locked_modify_run in Hrun by (apply Hw || done). simplify_eq. by apply quiet_refl.
  - left. unfold SetSessionWriteTimeout in Hrun.
    rewrite locked_modify_run in Hrun by (apply Hw || done). simplify_eq. by apply quiet_refl.
  - left. by apply quiet_refl.
  - left. unfold server_Start in Hrun. destruct ok; [|injection Hrun as <- <-; by apply quiet_refl].
    erewrite bind_run in Hrun by reflexivity. injection Hrun as <- <-. by apply quiet_refl.
  - left. destruct (srv_closeOnce w) eqn:Ho.
    + unfold server_Close in Hrun. erewrite bind_run in Hrun by reflexivity.
      rewrite Ho in Hrun. injection Hrun as <-. by apply quiet_refl.
    + destruct (decide (sessions w = ∅)) as [He|He].
      * rewrite server_Close_idle in Hrun by (done || apply Hw). simplify_eq. by apply quiet_refl.
      * by rewrite server_Close_live in Hrun.
Qed.

(** ** Reading and writing *)

Definition moved_only (s : sid) (x : sid) (a b : Session) : Prop :=
  conn_sent b = conn_sent a ∧ outChan b = outChan a ∧ (x ≠ s → pc b = pc a).

Lemma moved_only_refl s x a : moved_only s x a a.
Proof. done. Qed.
Lemma moved_only_insert s a b w w' :
  heap w !! s = Some a → heap w' = <[s := b]> (heap w) →
  conn_sent b = conn_sent a → outChan b = outChan a → evolves (moved_only s) w w'.
Proof. intros Ha E F1 F2. eapply evolves_insert; [exact Ha|exact E|done|]. intros; apply moved_only_refl. Qed.
Lemma moved_only_trans s w1 w2 w3 :
  evolves (moved_only s) w1 w2 → evolves (moved_only s) w2 w3 → evolves (moved_only s) w1 w3.
Proof.
  apply evolves_trans. intros x a b c (F1 & F2 & F3) (F4 & F5 & F6).
  split_and!; try congruence. intros Hne. rewrite F6, F3 by done. done.
Qed.
Lemma moved_only_close o s w w' :
  world_ok w → is_Some (heap w !! s) → Close o s w = Ret (tt, w') → evolves (moved_only s) w w'.
Proof.
  intros Hw [sess Hs]. rewrite (Close_run o s w sess) by (done || apply Hw). intros [= <-].
  unfold close_world. destruct (closeOnce sess); [by apply evolves_same|].
  by eapply moved_only_insert; [exact Hs|reflexivity|..].
Qed.

Lemma leave_frames o s w w' (m : Session → Session) :
  (∀ a, conn_sent (m a) = conn_sent a ∧ outChan (m a) = outChan a) →
  world_ok w → is_Some (heap w !! s) →
  (Close o s;; modify_session s m;; removeSession s) w = Ret (tt, w') → evolves (moved_only s) w w'.
Proof.
  intros Hm Hw [sess Hs]. destruct (Close_ok o s w sess Hw Hs) as (w1 & sess1 & HC & Hw1 & _ & Hs1 & _).
  rewrite (bind_run _ _ _ _ _ HC), (bind_run _ _ _ _ _ (modify_session_run _ _ _ _ Hs1)).
  rewrite removeSession_run by apply Hw1. intros [= <-]. destruct (Hm sess1) as [Hm1 Hm2].
  eapply moved_only_trans; [by eapply moved_only_close; [|eexists|]|].
  eapply moved_only_insert; [exact Hs1|reflexivity|exact Hm1|exact Hm2].
Qed.

Lemma reader_poll_frames o s w w' :
  world_ok w → is_Some (heap w !! s) → reader_poll o s w = Ret (tt, w') → evolves (moved_only s) w w'.
Proof.
  intros Hw [sess Hs]. unfold reader_poll. rewrite (bind_run _ _ _ _ _ (get_session_run _ _ _ Hs)).
  destruct (done sess); [by eapply (leave_frames o s w w' (set_pc Returned))|].
  destruct (ParseFromReader_spec (conn_input sess)) as (res & r & HP & _).
  rewrite (bind_run (lift _) _ w (res, r) w) by (unfold lift; by rewrite HP).
  destruct res as [m|e]; [|by eapply (leave_frames o s w w' (set_input r Returned))].
  rewrite (modify_session_run _ _ _ _ Hs). intros [= <-].
  by eapply moved_only_insert; [exact Hs|reflexivity|..].
Qed.

(** The write loop takes the first frame and writes it, or loses it and closes. *)
Definition wrote (s : sid) (data : list byte) (ok : bool) (x : sid) (a b : Session) : Prop :=
  pc b = pc a ∧
  if decide (x = s)
  then outChan a = data :: outChan b ∧ conn_sent b = conn_sent a ++ (if ok then [data] else [])
  else conn_sent b = conn_sent a ∧ outChan b = outChan a.

Lemma writer_turn_frames o s ok w w' sess data q :
  world_ok w → heap w !! s = Some sess → outChan sess = data :: q →
  writer_turn o s ok w = Ret (tt, w') → evolves (wrote s data ok) w w'.
Proof.
  intros Hw Hs Hq. unfold writer_turn. rewrite (bind_run _ _ _ _ _ (get_session_run _ _ _ Hs)).
  assert (∃ n, dequeue sess = Some (data, set_queue q n sess)) as (n & Hd)
    by (unfold dequeue; rewrite Hq; by eexists).
  rewrite Hd, (bind_run _ _ _ _ _ (put_session_run _ _ _)). set (sess1 := set_queue q n sess).
  assert (∀ x c, x ≠ s → wrote s data ok x c c) as Hrefl
    by (intros x c Hne; split; [done|by rewrite decide_False]).
  destruct ok.
  - rewrite (modify_session_run _ _ _ _ (heap_upd _ _ _)), upd_upd. intros [= <-].
    eapply evolves_insert; [exact Hs|reflexivity| |done]. split; [done|]. by rewrite decide_True.
  - assert (queue_ok sess1) as Hq1 by (eapply dequeue_ok; [by eapply world_ok_queue|exact Hd]).
    assert (world_ok (upd s sess1 w)) as Hw1.
    { pose proof (world_ok_session _ _ _ Hw Hs) as [_ ? ? Hfr ? ?]. rewrite Hq in Hfr.
      apply Forall_cons in Hfr as [_ Hfr]. eapply world_ok_upd; [done..| |done|done]. by constructor. }
    intros Hc. rewrite (Close_run o s _ sess1 (wo_held _ Hw1) (heap_upd _ _ _)) in Hc. injection Hc as <-.
    assert (∃ b, heap (close_world o s sess1 (upd s sess1 w)) = <[s := b]> (heap w) ∧ pc b = pc sess ∧
              outChan b = q ∧ conn_sent b = conn_sent sess) as (b & Hb & E1 & E2 & E3).
    { unfold close_world. destruct (closeOnce sess1); [by exists sess1|].
      eexists. split; [cbn; by rewrite insert_insert_eq|done]. }
    eapply evolves_insert; [exact Hs|exact Hb| |done]. split; [done|].
    rewrite decide_True by done. by rewrite Hq, E2, E3, app_nil_r.
Qed.
End evolution.
