(* ===== verification/BrokerInput.v ===== *)
(** * The broker and what its connections will deliver

    In [Server] a session carries everything that reading from its connection will deliver.
    No handler looks at it, and the read loop consumes it from the front: so the state in
    which every session has another future input is reached by the same steps. The network,
    which supplies the bytes as they arrive, is projected to the broker with it. *)

From stdpp Require Import functions.
From S2P Require Import Prelude GoStrings GoIO Protocol Subject Router Session Server.

(** ** Reading exactly one frame *)

Lemma ReadFull_chunk c d r : c ≠ [] → d ≠ [] → ReadFull (RChunk (c ++ d) :: r) (len c) = (inl c, RChunk d :: r).
Proof.
  intros Hc Hd. unfold ReadFull. cbn [read_full_loop].
  assert (0 < len c)%Z by (destruct c; [done|len_lia]). assert (0 < len d)%Z by (destruct d; [done|len_lia]).
  rewrite (proj2 (Z.leb_gt _ _)), (proj2 (Z.ltb_lt _ _)) by (rewrite ?len_app; lia).
  unfold len. by rewrite Nat2Z.id, take_app_length, drop_app_length.
Qed.

Lemma ReadFull_whole c r : c ≠ [] → ReadFull (RChunk c :: r) (len c) = (inl c, r).
Proof.
  intros Hc. unfold ReadFull. cbn [read_full_loop]. assert (0 < len c)%Z by (destruct c; [done|len_lia]).
  rewrite (proj2 (Z.leb_gt _ _)), Z.ltb_irrefl, Z.sub_diag by done. by destruct r as [|[]].
Qed.

(** The parser takes a frame that comes in one piece, and nothing of what follows. *)
Lemma parse_whole m r : wire_ok m → ParseFromReader (RChunk (Encode m) :: r) = Ret (inl m, r).
Proof.
  intros Hm. destruct (ParseFromReader_spec (RChunk (Encode m) :: r)) as (res & r' & HP & _ & _ & Hin).
  destruct (Hin m (stream r) Hm eq_refl) as [-> _]. rewrite HP. do 2 f_equal.
  destruct (Encode_header m Hm) as (b0 & b1 & b2 & b3 & s0 & s1 & E & Hn & _).
  set (body := Command m :: s0 :: s1 :: Subject m ++ Payload m) in E.
  assert (len body = body_len m) as Hb by (unfold body, body_len; len_lia).
  destruct (wire_ok_ranges m Hm) as [Hr _]. revert HP.
  rewrite E. unfold ParseFromReader.
  pose proof (ReadFull_chunk [b0; b1; b2; b3] body r ltac:(done) ltac:(done)) as H4. cbn [app] in H4.
  change (len [b0; b1; b2; b3]) with 4%Z in H4. rewrite H4.
  change (Uint32 _) with (Ret (be32 b0 b1 b2 b3)). cbn [obind]. rewrite Hn.
  rewrite (proj2 (Z.leb_gt _ _)), (proj2 (Z.ltb_ge _ _)) by lia. cbn [orb].
  rewrite <-Hb, ReadFull_whole by done. cbv zeta. rewrite ParseFromReader_body by lia. by intros [= _ ->].
Qed.

(** ** Other futures *)

Section refeed.
Context {R : Type} `{SubscriptionStore R}.
Implicit Types w : World R.

Definition refeed_session (f : sid → reader) (s : sid) (a : Session) : Session := set_input (f s) (pc a) a.

(** The same broker, each connection of which will deliver what [f] says. *)
Definition refeed (f : sid → reader) w : World R :=
  set_heap (map_imap (λ s a, Some (refeed_session f s a)) (heap w)) w.

Section one_future.
Variable f : sid → reader.

Lemma refeed_lookup w s : heap (refeed f w) !! s = refeed_session f s <$> heap w !! s.
Proof. cbn. rewrite map_lookup_imap. by destruct (heap w !! s). Qed.

Lemma refeed_upd s a w : refeed f (upd s a w) = upd s (refeed_session f s a) (refeed f w).
Proof. unfold upd, refeed, set_heap. cbn. f_equal. by rewrite map_imap_insert. Qed.

(** [m'] does with the other future what [m] does, and [T] is how their results differ. *)
Definition respects {A} (T : A → A) (m m' : M R A) : Prop :=
  ∀ w, m' (refeed f w) = match m w with Ret (a, w') => Ret (T a, refeed f w') | Panic => Panic | Block => Block end.

Lemma respects_ret {A} (T : A → A) a : respects T (mret a) (mret (T a)).
Proof. done. Qed.
Lemma respects_bind {A B} (T : A → A) (U : B → B) m m' (k k' : A → M R B) :
  respects T m m' → (∀ a, respects U (k a) (k' (T a))) → respects U (m ≫= k) (m' ≫= k').
Proof.
  intros Hm Hk w. unfold mbind, M_bind. rewrite Hm. destruct (m w) as [[a w']| |]; [apply Hk|done..].
Qed.
Lemma respects_world : respects (refeed f) get_world get_world.
Proof. done. Qed.
Lemma respects_modify (g : World R → World R) :
  (∀ w, g (refeed f w) = refeed f (g w)) → respects id (modify g) (modify g).
Proof. intros Hg w. unfold modify. by rewrite Hg. Qed.
Lemma respects_router (g : R → R) : respects id (modify_router g) (modify_router g).
Proof. by apply respects_modify. Qed.
Lemma respects_lift {A} (m : outcome A) : respects id (lift m) (lift m).
Proof. intros w. unfold lift. by destruct m. Qed.
Lemma respects_lock {A} (T : A → A) l (m m' : M R A) :
  respects T m m' → respects T (with_lock l m) (with_lock l m').
Proof.
  intros Hm w. unfold with_lock. cbn [held refeed set_heap]. case_decide; [done|].
  change (set_held (l :: held w) (refeed f w)) with (refeed f (set_held (l :: held w) w)).
  rewrite Hm. by destruct (m _) as [[a w']| |].
Qed.
Lemma respects_get s : respects (refeed_session f s) (get_session s) (get_session s).
Proof. intros w. unfold get_session. rewrite refeed_lookup. by destruct (heap w !! s). Qed.
Lemma respects_put s a : respects id (put_session s a) (put_session s (refeed_session f s a)).
Proof. intros w. rewrite !put_session_run. by rewrite refeed_upd. Qed.
Lemma respects_session s (g g' : Session → Session) :
  (∀ a, g' (refeed_session f s a) = refeed_session f s (g a)) →
  respects id (modify_session s g) (modify_session s g').
Proof.
  intros Hg. eapply respects_bind; [apply respects_get|]. intros a. rewrite Hg. apply respects_put.
Qed.
Lemma respects_spawn s : respects id (spawn_close s) (spawn_close s).
Proof. by apply respects_modify. Qed.
Lemma respects_each {A} (l : list A) (g : A → M R unit) :
  (∀ x, respects id (g x) (g x)) → respects id (for_each l g) (for_each l g).
Proof.
  intros Hg. induction l as [|x l IH]; cbn [for_each]; [apply (respects_ret id)|].
  eapply respects_bind; [apply Hg|]. by intros [].
Qed.

(** *** Handlers *)

Definition sends_alike (s : sid) (g : Session → sent) : Prop :=
  ∀ a, g (refeed_session f s a) = mkSent (sent_err (g a)) (refeed_session f s (sent_session (g a))) (sent_close (g a)).

Lemma enqueue_alike s fr : sends_alike s (enqueueEncoded fr).
Proof. intros a. unfold enqueueEncoded, refuse. cbn. repeat case_match; done. Qed.
Lemma SendOK_alike s text : sends_alike s (SendOK text).
Proof. intros a. unfold SendOK. cbn. case_match; [done|apply enqueue_alike]. Qed.
Lemma SendError_alike s text : sends_alike s (SendError text).
Proof. intros a. unfold SendError. cbn. case_match; [done|apply enqueue_alike]. Qed.
Lemma SendPong_alike s : sends_alike s SendPong.
Proof. intros a. unfold SendPong. cbn. case_match; [done|apply enqueue_alike]. Qed.
Lemma SendEncoded_alike s fr : sends_alike s (SendEncoded fr).
Proof. intros a. unfold SendEncoded. cbn. repeat (case_match; [done|]). apply enqueue_alike. Qed.

Lemma respects_send s g : sends_alike s g → respects id (send s g) (send s g).
Proof.
  intros Hg. eapply respects_bind; [apply respects_get|]. intros a. rewrite Hg. cbn [sent_err sent_session sent_close].
  eapply respects_bind; [apply respects_put|]. intros _. eapply (respects_bind id).
  - case_match; [apply respects_spawn|apply (respects_ret id)].
  - intros _. apply (respects_ret id).
Qed.

Lemma respects_remove s : respects id (removeSession s) (removeSession s).
Proof. by apply respects_lock, respects_modify. Qed.

Lemma respects_close o s : respects id (Close o s) (Close o s).
Proof.
  eapply respects_bind; [apply respects_get|]. intros a. cbn [closeOnce refeed_session set_input].
  destruct (closeOnce a); [apply (respects_ret id)|].
  eapply respects_bind; [apply (respects_put s (set_closed a))|]. intros _.
  eapply (respects_bind id); [apply respects_lock, respects_router|]. intros _.
  eapply (respects_bind id); [apply respects_remove|]. intros _. by apply respects_session.
Qed.

Lemma respects_HandleMessage o s msg : respects id (HandleMessage o s msg) (HandleMessage o s msg).
Proof.
  unfold HandleMessage. repeat case_decide.
  - eapply (respects_bind id).
    + apply respects_lock. eapply respects_bind; [apply respects_get|]. intros a.
      cbn [subjects refeed_session set_input]. case_match; [|apply (respects_ret id)].
      eapply (respects_bind id); [by apply respects_session|]. intros _. apply respects_lock, respects_router.
    + intros _. eapply (respects_bind id); [apply respects_send, SendOK_alike|]. intros _. apply (respects_ret id).
  - eapply (respects_bind id).
    + apply respects_lock. eapply respects_bind; [apply respects_get|]. intros a. by apply respects_session.
    + intros _. eapply (respects_bind id); [apply respects_lock, respects_router|]. intros _.
      eapply (respects_bind id); [apply respects_send, SendOK_alike|]. intros _. apply (respects_ret id).
  - eapply (respects_bind id).
    + apply respects_lock. eapply respects_bind; [apply respects_world|]. intros w.
      eapply (respects_bind id); [by apply respects_modify|]. intros _. apply (respects_ret id).
    + intros subs. eapply (respects_bind id); [|intros _; apply (respects_ret id)].
      apply respects_each. intros y. eapply (respects_bind id); [apply respects_send, SendEncoded_alike|].
      intros _. apply (respects_ret id).
  - eapply (respects_bind id); [apply respects_send, SendPong_alike|]. intros e. apply (respects_ret id).
  - apply (respects_ret id).
Qed.

Lemma respects_handle o s msg : respects id (reader_handle o s msg) (reader_handle o s msg).
Proof.
  eapply (respects_bind id); [apply respects_HandleMessage|]. intros err. eapply (respects_bind id).
  { destruct err as [e|]; cbn [id]; [|apply (respects_ret id)].
    eapply (respects_bind id); [apply respects_send, SendError_alike|]. intros _. apply (respects_ret id). }
  intros _. eapply (respects_bind id).
  { apply respects_lock. eapply respects_bind; [apply respects_world|]. intros w. by apply respects_session. }
  intros _. by apply respects_session.
Qed.

Lemma respects_writer o s ok : respects id (writer_turn o s ok) (writer_turn o s ok).
Proof.
  eapply respects_bind; [apply respects_get|]. intros a. unfold dequeue. cbn [outChan refeed_session set_input].
  destruct (outChan a) as [|data rest]; [apply (respects_ret id)|].
  eapply respects_bind; [apply (respects_put s (set_queue rest _ a))|]. intros _.
  destruct ok; [by apply respects_session|apply respects_close].
Qed.

Lemma respects_server_Close o : respects id (server_Close o) (server_Close o).
Proof.
  eapply respects_bind; [apply respects_world|]. intros w. cbn [srv_closeOnce refeed set_heap].
  destruct (srv_closeOnce w); [apply (respects_ret id)|].
  eapply (respects_bind id); [by apply respects_modify|]. intros _. apply respects_lock.
  eapply respects_bind; [apply respects_world|]. intros w2. eapply (respects_bind id).
  - apply respects_each. intros s. eapply (respects_bind id); [apply respects_close|]. intros _. by apply respects_modify.
  - intros _. by apply respects_modify.
Qed.

Lemma respects_run {A} (m : M R A) w a w' :
  respects id m m → m w = Ret (a, w') → m (refeed f w) = Ret (a, refeed f w').
Proof. intros Hm Hr. by rewrite Hm, Hr. Qed.

(** *** Steps *)

Lemma turn_refeed w w' : turn w w' → turn (refeed f w) (refeed f w').
Proof.
  intros Ht. destruct Ht as [o s sess msg w w' Hs Hpc Hrun|o s l1 l2 w w' Hsp Hrun
    |maxq cap w w' Hm Hrun|t w w' Hrun|t w|ok b w w' Hrun|o w w' Hrun].
  - eapply turn_handle; [by rewrite refeed_lookup, Hs|exact Hpc|].
    by eapply respects_run; [apply respects_handle|].
  - eapply turn_spawned; [exact Hsp|]. by apply (respects_run (Close o s) (set_spawned (l1 ++ l2) w)); [apply respects_close|].
  - eapply turn_backpressure; [exact Hm|].
    by eapply respects_run; [apply respects_lock, respects_modify|exact Hrun].
  - eapply turn_write_timeout. by eapply respects_run; [apply respects_lock, respects_modify|exact Hrun].
  - apply (turn_clock t (refeed f w)).
  - eapply (turn_server_start ok b). eapply respects_run; [|exact Hrun]. unfold server_Start.
    destruct ok; [|apply (respects_ret id)].
    eapply (respects_bind id); [by apply respects_modify|]. intros _. apply (respects_ret id).
  - eapply turn_server_close. by eapply respects_run; [apply respects_server_Close|].
Qed.

Lemma accept_refeed s r w w' :
  heap w !! s = None → accept_one s r w = Ret (tt, w') → step (refeed f w) (refeed f w').
Proof.
  intros Hs Hrun. eapply (step_accept s (f s)); [by rewrite refeed_lookup, Hs|].
  assert (respects id (accept_one s r) (accept_one s (f s))) as Ha; [|by rewrite Ha, Hrun].
  eapply respects_bind; [apply respects_world|]. intros w0. eapply (respects_bind id).
  - apply (respects_put s (NewSession r _ _ _ _)).
  - intros _. by apply respects_lock, respects_modify.
Qed.

Lemma write_refeed o s sess ok w w' :
  heap w !! s = Some sess → outChan sess ≠ [] → writer_turn o s ok w = Ret (tt, w') →
  step (refeed f w) (refeed f w').
Proof.
  intros Hs Hq Hrun. eapply step_write; [by rewrite refeed_lookup, Hs|exact Hq|].
  by eapply respects_run; [apply respects_writer|].
Qed.
End one_future.

(** Reading: the future of session [s] begins with what has been read. *)
Lemma refeed_consumed f s p r (r' : reader) a w :
  upd s (set_input (f s) p (refeed_session (<[s := r']> f) s a)) (refeed (<[s := r']> f) w)
  = refeed f (upd s (set_input r p a) w).
Proof.
  rewrite refeed_upd. unfold upd, refeed, set_heap. cbn. f_equal.
  apply map_eq. intros y. rewrite !lookup_insert. case_decide as E; [done|].
  rewrite !map_lookup_imap. destruct (heap w !! y) as [b|]; [|done]. cbn.
  unfold refeed_session. by rewrite fn_lookup_insert_ne.
Qed.

Lemma feed_refeed f s r a w :
  heap w !! s = Some a → refeed f (upd s (set_input r (pc a) a) w) = refeed f w.
Proof.
  intros Hs. rewrite refeed_upd. apply (upd_id s (refeed_session f s a)). by rewrite refeed_lookup, Hs.
Qed.

Lemma read_refeed f o s sess r w w' :
  heap w !! s = Some sess → pc sess = AtTop →
  reader_poll o s (upd s (set_input r (pc sess) sess) w) = Ret (tt, w') →
  ∃ g, step (refeed g w) (refeed f w').
Proof.
  intros Hs Hpc. set (a := set_input r (pc sess) sess).
  assert (∀ g, heap (refeed g w) !! s = Some (refeed_session g s a)) as Hg
    by (intros g; by rewrite refeed_lookup, Hs).
  unfold reader_poll. rewrite (bind_run _ _ _ _ _ (get_session_run _ _ _ (heap_upd s a w))).
  change (done a) with (done sess). destruct (done sess) eqn:Hd.
  - intros Hrun. exists f. eapply (step_read o); [apply Hg|exact Hpc|]. unfold reader_poll.
    rewrite (bind_run _ _ _ _ _ (get_session_run _ _ _ (Hg f))). cbn [done refeed_session set_input a]. rewrite Hd.
    rewrite <-(feed_refeed f s r sess w Hs). refine (respects_run f _ _ _ _ _ Hrun).
    eapply (respects_bind f id); [apply respects_close|]. intros _.
    eapply (respects_bind f id); [by apply respects_session|]. intros _. apply respects_remove.
  - destruct (ParseFromReader_spec r) as (res & r2 & HP & _ & Hok & _).
    rewrite (bind_run (lift _) _ _ (res, r2) (upd s a w)) by (unfold lift; cbn [conn_input a set_input]; by rewrite HP).
    destruct res as [m|e].
    + rewrite (modify_session_run _ _ _ _ (heap_upd s a w)), upd_upd. intros [= <-].
      destruct (Hok m eq_refl) as [Hm _]. exists (<[s := RChunk (Encode m) :: f s]> f).
      eapply (step_read o); [apply Hg|exact Hpc|]. unfold reader_poll.
      rewrite (bind_run _ _ _ _ _ (get_session_run _ _ _ (Hg _))). cbn [done refeed_session set_input a]. rewrite Hd.
      rewrite (bind_run (lift _) _ _ (inl m, f s) (refeed (<[s := RChunk (Encode m) :: f s]> f) w)).
      2: { unfold lift. cbn [conn_input set_input refeed_session]. by rewrite fn_lookup_insert, parse_whole. }
      rewrite (modify_session_run _ _ _ _ (Hg _)). by rewrite (refeed_consumed f s (Holding m) r2).
    + intros Hrun. set (g := <[s := RErr EOF :: f s]> f). exists g.
      eapply (step_read o); [apply Hg|exact Hpc|]. unfold reader_poll.
      rewrite (bind_run _ _ _ _ _ (get_session_run _ _ _ (Hg _))). cbn [done refeed_session set_input a]. rewrite Hd.
      rewrite (bind_run (lift _) _ _ (inr (ErrReadLength EOF), f s) (refeed g w)).
      2: { unfold lift. cbn [conn_input set_input refeed_session]. unfold g. by rewrite fn_lookup_insert. }
      revert Hrun. rewrite <-(feed_refeed g s r sess w Hs). fold a. unfold mbind, M_bind.
      rewrite (respects_close g o s). destruct (Close o s (upd s a w)) as [[[] w1]| |]; [|done..].
      unfold modify_session, mbind, M_bind. rewrite (respects_get g s).
      destruct (get_session s w1) as [[b w2]| |]; [|done..]. rewrite !put_session_run.
      unfold g. rewrite (refeed_consumed f s Returned r2). intros Hrun. by apply (respects_run f (removeSession s)); [apply respects_remove|].
Qed.

Lemma refeed_new f : refeed f new_world = new_world.
Proof. unfold refeed, set_heap, new_world. cbn. f_equal. Qed.
End refeed.
