(* ===== verification/Network.v ===== *)
(** * Clients, network and broker as one system

    Any number of client processes ([ClientSteps]), the broker ([Server]) and the
    connections between them. A connection carries bytes in both directions: what an end
    writes is appended to the bytes in flight, and an end reads any prefix of them, in any
    chunks, possibly with an error behind it. Connections are made by the clients, accepted
    by the broker some time later, and abandoned when a client redials; what was in flight
    on an abandoned connection may still reach the broker. *)

From S2P Require Import Prelude GoStrings GoIO Protocol Subject Router Session Server Broker.
From S2P Require Import Reconnect Client ClientLaws ClientSteps ClientFrames.

(** ** State *)

(** One connection. [log] is every frame the client has written on it, [up] the bytes the
    broker has not read yet, [down] those the client has not; [loop_at] is where the
    client's receive loop for this connection stands. *)
Record Wire := mkWire { log : list (list byte); up : list byte; down : list byte; loop_at : receive_pc }.

Definition new_wire : Wire := mkWire [] [] [] LoopTop.
Definition running (p : receive_pc) : bool := match p with LoopLeft => false | _ => true end.
Definition receiving (x : Wire) : bool := running (loop_at x).
Definition carry_up (fs : list (list byte)) (x : Wire) : Wire :=
  mkWire (log x ++ fs) (up x ++ concat fs) (down x) (loop_at x).
Definition carry_down (fs : list (list byte)) (x : Wire) : Wire :=
  mkWire (log x) (up x) (down x ++ concat fs) (loop_at x).
Definition set_up (bs : list byte) (x : Wire) : Wire := mkWire (log x) bs (down x) (loop_at x).
Definition set_down (bs : list byte) (p : receive_pc) (x : Wire) : Wire := mkWire (log x) (up x) bs p.

Record Network (R : Type) := mkNet {
  broker : World R;
  procs : gmap nat system;     (** the client processes *)
  attached : gmap nat sid;     (** the connection each of them uses *)
  wires : gmap sid Wire;       (** every connection ever made *)
}.
Arguments mkNet {R}. Arguments broker {R}. Arguments procs {R}. Arguments attached {R}. Arguments wires {R}.

Section network.
Context {R : Type} `{SubscriptionStore R}.

Definition new_network : Network R := mkNet new_world ∅ ∅ ∅.

(** What reading from the connection of session [s] will deliver. *)
Definition feed (s : sid) (r : reader) (sess : Session) (w : World R) : World R :=
  upd s (set_input r (pc sess) sess) w.

(** ** Steps *)

Inductive net_step (N : Network R) : Network R → Prop :=
| ns_start k s :
    procs N !! k = None → wires N !! s = None →
    net_step N (mkNet (broker N) (<[k := initial_system]> (procs N)) (<[k := s]> (attached N))
                  (<[s := new_wire]> (wires N)))
| ns_redial k s l st :
    procs N !! k = Some st → wires N !! s = None →
    net_step N (mkNet (broker N) (<[k := redialled l st]> (procs N)) (<[k := s]> (attached N))
                  (<[s := new_wire]> (wires N)))
| ns_local k s st st' x l fs :
    procs N !! k = Some st → attached N !! k = Some s → wires N !! s = Some x →
    local_step st st' → conn (client st) = Some l → conn (client st') = Some (l ++ fs) →
    net_step N (mkNet (broker N) (<[k := st']> (procs N)) (attached N) (<[s := carry_up fs x]> (wires N)))
| ns_poll k s st x c' p :
    procs N !! k = Some st → attached N !! k = Some s → wires N !! s = Some x →
    loop_at x = LoopTop → receive_poll (client st) = (c', p) →
    net_step N (mkNet (broker N) (<[k := mkSystem c' (calls st) (handles st)]> (procs N)) (attached N)
                  (<[s := set_down (down x) p x]> (wires N)))
| ns_receive k s st x r r' rest c' p :
    procs N !! k = Some st → attached N !! k = Some s → wires N !! s = Some x →
    loop_at x = Reading → down x = stream r ++ rest → receive_read r (client st) = Ret (c', r', p) →
    net_step N (mkNet (broker N) (<[k := mkSystem c' (calls st) (handles st)]> (procs N)) (attached N)
                  (<[s := set_down (stream r' ++ rest) p x]> (wires N)))
| ns_accept s x w' :
    wires N !! s = Some x → heap (broker N) !! s = None →
    accept_one s [] (broker N) = Ret (tt, w') →
    net_step N (mkNet w' (procs N) (attached N) (wires N))
| ns_read o s sess x r rest w' sess' :
    wires N !! s = Some x → heap (broker N) !! s = Some sess → pc sess = AtTop →
    up x = stream r ++ rest → reader_poll o s (feed s r sess (broker N)) = Ret (tt, w') →
    heap w' !! s = Some sess' →
    net_step N (mkNet w' (procs N) (attached N) (<[s := set_up (stream (conn_input sess') ++ rest) x]> (wires N)))
| ns_write o s sess x ok w' sess' fs :
    wires N !! s = Some x → heap (broker N) !! s = Some sess → outChan sess ≠ [] →
    writer_turn o s ok (broker N) = Ret (tt, w') → heap w' !! s = Some sess' →
    conn_sent sess' = conn_sent sess ++ fs →
    net_step N (mkNet w' (procs N) (attached N) (<[s := carry_down fs x]> (wires N)))
| ns_turn w' :
    turn (broker N) w' → net_step N (mkNet w' (procs N) (attached N) (wires N)).

Definition net_reachable (N : Network R) : Prop := rtc net_step new_network N.
End network.

(** ** Running the network

    A scheduler that performs given steps, for closed examples. *)
Section scheduler.
Context {R : Type} `{SubscriptionStore R}.

Inductive action :=
| AStart (k s : nat)
| ARedial (k s : nat)
| ASubscribe (k : nat) (subj : gostring) (cap : Z)
| AAwait (k : nat) (w : wake)          (* the last call of [k] is woken *)
| APublish (k : nat) (subj : gostring) (data : list byte)
| AProcess (k id : nat)
| AUnsubscribe (k id : nat)
| APoll (k : nat)                      (* the receive loop looks at the context *)
| AReceive (k : nat)                   (* all bytes have arrived, in one chunk *)
| AAccept (s : nat)
| ARead (s : nat)
| AHandle (s : nat)
| AWrite (s : nat).

Definition at_proc (k : nat) (N : Network R) : option (system * sid * Wire) :=
  match procs N !! k, attached N !! k with
  | Some st, Some s => match wires N !! s with Some x => Some (st, s, x) | None => None end
  | _, _ => None
  end.

(** A local step of client [k] to [st']. *)
Definition locally (k : nat) (f : system → option system) (N : Network R) : option (Network R) :=
  match at_proc k N with
  | Some (st, s, x) =>
      match f st with
      | Some st' =>
          match conn (client st), conn (client st') with
          | Some l, Some l' =>
              if decide (l' = l ++ drop (length l) l')
              then Some (mkNet (broker N) (<[k := st']> (procs N)) (attached N)
                           (<[s := carry_up (drop (length l) l') x]> (wires N)))
              else None
          | _, _ => None
          end
      | None => None
      end
  | None => None
  end.

Definition unit_result (m : outcome (unit * World R)) : option (World R) :=
  match m with Ret (_, w) => Some w | _ => None end.

Definition with_wire (s : sid) (N : Network R) : option (Wire * Session) :=
  match wires N !! s, heap (broker N) !! s with Some x, Some sess => Some (x, sess) | _, _ => None end.

Definition subscribe_call (subj : gostring) (cap : Z) (st : system) : option system :=
  if decide (0 < cap ∧ len subj <= MaxSubjectLen)%Z then
    match subscribe_begin 0 subj cap true (client st) with
    | Ret (b, c) =>
        Some (mkSystem c (match b with Waiting id _ => (subj, id) :: calls st | Failed _ => calls st end) (handles st))
    | _ => None
    end
  else None.

Definition await_call (w : wake) (st : system) : option system :=
  match calls st with
  | (subj, id) :: cs =>
      match subscribe_end subj id w (client st) with
      | Ret (e, c) => Some (mkSystem c cs (match e with inl x => x :: handles st | inr _ => handles st end))
      | _ => None
      end
  | [] => None
  end.

Definition unsubscribe_call (id : subid) (st : system) : option system :=
  if decide (id ∈ handles st) then
    match Unsubscribe id false true (client st) with
    | Ret (_, c) => Some (mkSystem c (calls st) (handles st))
    | _ => None
    end
  else None.

Definition perform (a : action) (N : Network R) : option (Network R) :=
  match a with
  | AStart k s =>
      match procs N !! k, wires N !! s with
      | None, None => Some (mkNet (broker N) (<[k := initial_system]> (procs N)) (<[k := s]> (attached N))
                              (<[s := new_wire]> (wires N)))
      | _, _ => None
      end
  | ARedial k s =>
      match procs N !! k, wires N !! s with
      | Some st, None => Some (mkNet (broker N) (<[k := redialled (link (client st)) st]> (procs N)) (<[k := s]> (attached N))
                              (<[s := new_wire]> (wires N)))
      | _, _ => None
      end
  | ASubscribe k subj cap => locally k (subscribe_call subj cap) N
  | AAwait k w => locally k (await_call w) N
  | APublish k subj data =>
      locally k (λ st, Some (mkSystem (Publish false true subj data (client st)).2 (calls st) (handles st))) N
  | AProcess k id =>
      locally k (λ st, Some (mkSystem (upd_sub id process_one (client st)) (calls st) (handles st))) N
  | AUnsubscribe k id => locally k (unsubscribe_call id) N
  | APoll k =>
      match at_proc k N with
      | Some (st, s, x) =>
          match loop_at x, receive_poll (client st) with
          | LoopTop, (c', p) =>
              Some (mkNet (broker N) (<[k := mkSystem c' (calls st) (handles st)]> (procs N)) (attached N)
                      (<[s := set_down (down x) p x]> (wires N)))
          | _, _ => None
          end
      | None => None
      end
  | AReceive k =>
      match at_proc k N with
      | Some (st, s, x) =>
          match loop_at x, receive_read [RChunk (down x)] (client st) with
          | Reading, Ret (c', r', p) =>
              Some (mkNet (broker N) (<[k := mkSystem c' (calls st) (handles st)]> (procs N)) (attached N)
                      (<[s := set_down (stream r' ++ []) p x]> (wires N)))
          | _, _ => None
          end
      | None => None
      end
  | AAccept s =>
      match wires N !! s, heap (broker N) !! s with
      | Some _, None =>
          match unit_result (accept_one s [] (broker N)) with
          | Some w' => Some (mkNet w' (procs N) (attached N) (wires N))
          | None => None
          end
      | _, _ => None
      end
  | ARead s =>
      match with_wire s N with
      | Some (x, sess) =>
          match pc sess, unit_result (reader_poll in_order s (feed s [RChunk (up x)] sess (broker N))) with
          | AtTop, Some w' =>
              match heap w' !! s with
              | Some sess' =>
                  Some (mkNet w' (procs N) (attached N) (<[s := set_up (stream (conn_input sess') ++ []) x]> (wires N)))
              | None => None
              end
          | _, _ => None
          end
      | None => None
      end
  | AHandle s =>
      match heap (broker N) !! s with
      | Some sess =>
          match pc sess with
          | Holding msg =>
              match unit_result (reader_handle in_order s msg (broker N)) with
              | Some w' => Some (mkNet w' (procs N) (attached N) (wires N))
              | None => None
              end
          | _ => None
          end
      | None => None
      end
  | AWrite s =>
      match with_wire s N with
      | Some (x, sess) =>
          match outChan sess, unit_result (writer_turn in_order s true (broker N)) with
          | _ :: _, Some w' =>
              match heap w' !! s with
              | Some sess' =>
                  let fs := drop (length (conn_sent sess)) (conn_sent sess') in
                  if decide (conn_sent sess' = conn_sent sess ++ fs)
                  then Some (mkNet w' (procs N) (attached N) (<[s := carry_down fs x]> (wires N)))
                  else None
              | None => None
              end
          | _, _ => None
          end
      | None => None
      end
  end.

Fixpoint perform_all (l : list action) (N : Network R) : option (Network R) :=
  match l with
  | [] => Some N
  | a :: l => match perform a N with Some N' => perform_all l N' | None => None end
  end.

(** *** Every performed action is a step *)

Lemma at_proc_spec k N st s x :
  at_proc k N = Some (st, s, x) → procs N !! k = Some st ∧ attached N !! k = Some s ∧ wires N !! s = Some x.
Proof. unfold at_proc. intros E. repeat case_match; by simplify_eq. Qed.

Lemma locally_step k f N N' :
  (∀ st st', f st = Some st' → local_step st st') → locally k f N = Some N' → net_step N N'.
Proof.
  intros Hf. unfold locally. destruct (at_proc k N) as [[[st s] x]|] eqn:Hp; [|done].
  apply at_proc_spec in Hp as (Hst & Hs & Hx). destruct (f st) as [st'|] eqn:Hfs; [|done].
  destruct (conn (client st)) as [l|] eqn:Hl; [|done]. destruct (conn (client st')) as [l'|] eqn:Hl'; [|done].
  case_decide as E; [|done]. intros [= <-]. eapply ns_local; [done..|by apply Hf|done|].
  rewrite <-E. done.
Qed.

Lemma unit_result_spec m w : unit_result m = Some w → m = Ret (tt, w).
Proof. unfold unit_result. destruct m as [[[] ?]| |]; naive_solver. Qed.

Lemma with_wire_spec s N x sess :
  with_wire s N = Some (x, sess) → wires N !! s = Some x ∧ heap (broker N) !! s = Some sess.
Proof. unfold with_wire. intros E. repeat case_match; by simplify_eq. Qed.

Lemma perform_step a N N' : perform a N = Some N' → net_step N N'.
Proof.
  destruct a; cbn [perform].
  - intros E. repeat case_match; simplify_eq. by apply ns_start.
  - intros E. repeat case_match; simplify_eq. by apply ns_redial.
  - apply locally_step. intros st st' E. unfold subscribe_call in E. case_decide as Hc; [|done].
    destruct (subscribe_begin _ _ _ _ _) as [[b c]| |] eqn:Hb; [|done..]. injection E as <-.
    destruct Hc. by eapply ls_begin.
  - apply locally_step. intros [c cs hs] st' E. unfold await_call in E. cbn [calls client handles] in E.
    destruct cs as [|[subj id] cs]; [done|].
    destruct (subscribe_end _ _ _ _) as [[e c']| |] eqn:He; [|done..]. injection E as <-.
    by apply (ls_end [] cs subj id w e c' (mkSystem c ((subj, id) :: cs) hs)).
  - apply locally_step. intros st st' [= <-]. eapply (ls_publish false true subj data). apply surjective_pairing.
  - apply locally_step. intros st st' [= <-]. apply ls_process.
  - apply locally_step. intros st st' E. unfold unsubscribe_call in E. case_decide; [|done].
    destruct (Unsubscribe _ _ _ _) as [[e c]| |] eqn:Hu; [|done..]. injection E as <-. by eapply ls_unsubscribe.
  - destruct (at_proc k N) as [[[st s] x]|] eqn:Hp; [|done]. apply at_proc_spec in Hp as (Hst & Hs & Hx).
    destruct (loop_at x) eqn:Hr; [|done..]. destruct (receive_poll _) as [c' p] eqn:Hp. intros [= <-].
    by eapply ns_poll.
  - destruct (at_proc k N) as [[[st s] x]|] eqn:Hp; [|done]. apply at_proc_spec in Hp as (Hst & Hs & Hx).
    destruct (loop_at x) eqn:Hr; [done| |done].
    destruct (receive_read _ _) as [[[c' r'] p]| |] eqn:Hrecv; [|done..]. intros [= <-].
    eapply ns_receive; [done..| |done]. cbn. by rewrite !app_nil_r.
  - destruct (wires N !! s) as [x|] eqn:Hx; [|done]. destruct (heap (broker N) !! s) eqn:Hh; [done|].
    destruct (unit_result _) as [w'|] eqn:Hrun; [|done]. apply unit_result_spec in Hrun. intros [= <-].
    by eapply ns_accept.
  - destruct (with_wire s N) as [[x sess]|] eqn:Hw; [|done]. apply with_wire_spec in Hw as [Hx Hs].
    destruct (pc sess) eqn:Hpc; [|done..]. destruct (unit_result _) as [w'|] eqn:Hrun; [|done].
    apply unit_result_spec in Hrun. destruct (heap w' !! s) as [sess'|] eqn:Hs'; [|done]. intros [= <-].
    eapply ns_read; [done..| |done|done]. cbn. by rewrite !app_nil_r.
  - destruct (heap (broker N) !! s) as [sess|] eqn:Hs; [|done]. destruct (pc sess) as [|msg|] eqn:Hpc; [done| |done].
    destruct (unit_result _) as [w'|] eqn:Hrun; [|done]. apply unit_result_spec in Hrun. intros [= <-].
    apply ns_turn. by eapply turn_handle.
  - destruct (with_wire s N) as [[x sess]|] eqn:Hw; [|done]. apply with_wire_spec in Hw as [Hx Hs].
    destruct (outChan sess) eqn:Hq; [done|]. destruct (unit_result _) as [w'|] eqn:Hrun; [|done].
    apply unit_result_spec in Hrun. destruct (heap w' !! s) as [sess'|] eqn:Hs'; [|done].
    case_decide as E; [|done]. intros [= <-]. eapply ns_write; [done..| |done|done|done]. by rewrite Hq.
Qed.

Lemma perform_all_reachable l N N' :
  net_reachable N → perform_all l N = Some N' → net_reachable N'.
Proof.
  revert N. induction l as [|a l IH]; intros N HN; cbn [perform_all]; [by intros [= <-]|].
  destruct (perform a N) as [N1|] eqn:Ha; [|done]. apply IH. eapply rtc_r; [exact HN|].
  by eapply perform_step.
Qed.
End scheduler.

(** Two clients: the first subscribes to [a.*], the second publishes two messages, of which
    the first matches, and both ends are scheduled until the first has handled it. *)
Definition two_clients : list action :=
  [AStart 0 10; AAccept 10; ASubscribe 0 (str "a.*") 4; ARead 10; AHandle 10; AWrite 10; APoll 0; AReceive 0; AAwait 0 WokenAck;
   AStart 1 11; APublish 1 (str "a.b") (str "hi"); AAccept 11; APublish 1 (str "b") (str "no");
   APublish 1 (str "a.c") (str "ho"); ARead 11; AHandle 11; ARead 11; AHandle 11; ARead 11; AHandle 11;
   AWrite 10; APoll 0; AReceive 0; AWrite 10; APoll 0; AReceive 0; AProcess 0 0].

Definition delivered_network : option (Network Router) := perform_all two_clients new_network.

Example two_clients_run :
  (N ← delivered_network; st ← procs N !! 0; s ← subs (client st) !! 0; Some (handled s, msgChan s))
  = Some ([mkDelivery (str "a.b") (str "hi")], [mkDelivery (str "a.c") (str "ho")]).
Proof. by vm_compute. Qed.
