(* ===== verification/NetworkInv.v ===== *)
(** * What arrives, end to end

    The invariant of the composed system of [Network]. Every delivery in flight, queued or
    received carries, as ghost data, where it was published: the connection and the
    position of its [PUB] frame among the frames written there. The theorem at the end needs
    no ghost data: it says of every subscription of every client that what its callback has
    seen and what is queued for it was published, matches, and comes at most once and in
    the order of publication. *)

From stdpp Require Import sorting functions.
From S2P Require Import Prelude GoStrings GoIO Protocol Subject Router Session Server Broker.
From S2P Require Import Reconnect Client ClientLaws ClientSteps System ClientFrames BrokerFrames Network.

(** ** Sublists *)

Lemma Forall_sublist {A} (P : A → Prop) l k : l `sublist_of` k → Forall P k → Forall P l.
Proof. intros Hl Hk. induction Hl; [done|apply Forall_cons in Hk as [? ?]; constructor; auto|inversion Hk; auto]. Qed.

Lemma StronglySorted_sublist {A} (R : A → A → Prop) l k :
  l `sublist_of` k → StronglySorted R k → StronglySorted R l.
Proof.
  intros Hl Hk. induction Hl as [|x l k Hl IH|x l k Hl IH]; [done|..]; apply StronglySorted_cons in Hk as [Hx Hk]; [|auto].
  apply StronglySorted_cons. split; [by eapply Forall_sublist|auto].
Qed.

Lemma sublist_fmap_inv {A B} (f : A → B) l k : l `sublist_of` f <$> k → ∃ es, f <$> es = l ∧ es `sublist_of` k.
Proof.
  revert l. induction k as [|x k IH]; intros l Hl; cbn in Hl.
  - apply sublist_nil_r in Hl as ->. by exists [].
  - apply sublist_cons_r in Hl as [Hl|(l' & -> & Hl)]; destruct (IH _ Hl) as (es & <- & Hes).
    + exists es. split; [done|by constructor].
    + exists (x :: es). split; [done|by constructor].
Qed.

(** Choosing, for every entry of a finite map, one of two alternatives. *)
Lemma map_choose {A} (P Q : nat → A → Prop) (m : gmap nat A) :
  map_Forall (λ k a, P k a ∨ Q k a) m →
  ∃ X : gset nat, X ⊆ dom m ∧ map_Forall (λ k a, if decide (k ∈ X) then P k a else Q k a) m.
Proof.
  induction m as [|k a m Hk IH] using map_ind; intros Hm.
  - exists ∅. split; [done|apply map_Forall_empty].
  - apply map_Forall_insert in Hm as [Ha Hm]; [|done]. destruct (IH Hm) as (X & HX & HF).
    assert (k ∉ X) as Hnot by (intros Hin; apply HX, elem_of_dom in Hin as [? ?]; congruence).
    assert (∀ j b, m !! j = Some b → j ≠ k) as Hne by (intros j b Hj ->; congruence).
    destruct Ha as [Ha|Ha]; [exists ({[k]} ∪ X)|exists X]; (split; [rewrite dom_insert; set_solver|]);
      apply map_Forall_insert_2.
    + by rewrite decide_True by set_solver.
    + intros j b Hj. specialize (HF j b Hj). cbn in HF. specialize (Hne j b Hj).
      destruct (decide (j ∈ X)); [by rewrite decide_True by set_solver|by rewrite decide_False by set_solver].
    + by rewrite decide_False.
    + exact HF.
Qed.

(** ** Decoding is unambiguous *)

Lemma Encode_prefix_inj m1 m2 x y :
  wire_ok m1 → wire_ok m2 → Encode m1 ++ x = Encode m2 ++ y → m1 = m2 ∧ x = y.
Proof.
  intros Hm1 Hm2 E.
  destruct (frame_received m1 [RChunk (Encode m1 ++ x)] x Hm1) as (r1 & P1 & S1); [cbn; by rewrite app_nil_r|].
  destruct (frame_received m2 [RChunk (Encode m1 ++ x)] y Hm2) as (r2 & P2 & S2); [cbn; by rewrite app_nil_r, E|].
  rewrite P1 in P2. injection P2 as -> ->. split; [done|congruence].
Qed.

(** The message read from the bytes in flight is the first of those that were written. *)
Lemma first_in_flight m x ms :
  wire_ok m → Forall wire_ok ms → Encode m ++ x = concat (map Encode ms) →
  ∃ ms', ms = m :: ms' ∧ x = concat (map Encode ms').
Proof.
  intros Hm Hms E. destruct ms as [|m' ms].
  - cbn in E. apply app_eq_nil in E as [E _]. pose proof (Encode_nonempty m) as Hlen. rewrite E in Hlen. cbn in Hlen. lia.
  - apply Forall_cons in Hms as [Hm' _]. cbn in E. apply Encode_prefix_inj in E as [-> ->]; [|done..]. by exists ms.
Qed.

(** What [ParseFromReader] returns. *)
Lemma parse_inl r m r' :
  ParseFromReader r = Ret (inl m, r') → wire_ok m ∧ stream r = Encode m ++ stream r'.
Proof.
  intros HP. destruct (ParseFromReader_spec r) as (res & r2 & E & _ & Hm & _). rewrite HP in E.
  injection E as <- <-. by apply Hm.
Qed.

(** ** Histories of subscriptions *)

(** What the callback has seen, and what waits for it. *)
Definition history (s : Subscription) : list Delivery := handled s ++ msgChan s.

Definition keeps_history (c c' : Client) : Prop :=
  ∀ id s', subs c' !! id = Some s' →
    history s' = [] ∨ ∃ s, subs c !! id = Some s ∧ subject s' = subject s ∧ history s' = history s.

Lemma keeps_history_refl c c' : subs c' = subs c → keeps_history c c'.
Proof. intros E id s' Hs. right. exists s'. by rewrite <-E. Qed.
Lemma keeps_history_trans c1 c2 c3 : keeps_history c1 c2 → keeps_history c2 c3 → keeps_history c1 c3.
Proof.
  intros H1 H2 id s3 Hs3. destruct (H2 id s3 Hs3) as [?|(s2 & Hs2 & E1 & E2)]; [by left|].
  destruct (H1 id s2 Hs2) as [?|(s1 & Hs1 & E3 & E4)]; [left; congruence|right].
  exists s1. split_and!; congruence.
Qed.
Lemma keeps_history_upd id f c :
  (∀ s, subject (f s) = subject s ∧ history (f s) = history s) → keeps_history c (upd_sub id f c).
Proof.
  intros Hf x s'. cbn [subs upd_sub set_subs]. intros Hs. right. destruct (decide (id = x)) as [->|].
  - rewrite lookup_alter_eq in Hs. destruct (subs c !! x) as [s|]; [|done]. injection Hs as <-.
    exists s. by destruct (Hf s).
  - rewrite lookup_alter_ne in Hs by done. by exists s'.
Qed.
Lemma keeps_history_insert id s c c' :
  subs c' = <[id := s]> (subs c) → history s = [] → keeps_history c c'.
Proof.
  intros E Hs x s' Hx. rewrite E in Hx. destruct (decide (id = x)) as [->|].
  - rewrite lookup_insert_eq in Hx. injection Hx as <-. by left.
  - rewrite lookup_insert_ne in Hx by done. right. by exists s'.
Qed.

Lemma process_one_history s : subject (process_one s) = subject s ∧ history (process_one s) = history s.
Proof.
  unfold process_one, history. destruct (msgChan s) as [|m q] eqn:E; [by rewrite E|]. cbn.
  by rewrite <-app_assoc.
Qed.

Lemma drain_history s : history (drain s) = history s.
Proof.
  unfold drain. generalize (length (msgChan s)). intros n. induction n as [|n IH]; [done|].
  change (Nat.iter (S n) process_one s) with (process_one (Nat.iter n process_one s)).
  by rewrite (proj2 (process_one_history _)).
Qed.

Lemma discard_history id c c' : discard id c = Ret c' → keeps_history c c'.
Proof.
  unfold discard. intros Hd. cbv zeta in Hd. repeat case_match; simplify_eq.
  eapply keeps_history_trans; [|by apply keeps_history_upd].
  eapply keeps_history_trans; [|by apply keeps_history_upd]. by apply keeps_history_refl.
Qed.

Lemma subscribe_begin_history attempt subj cap ok c b c' :
  subscribe_begin attempt subj cap ok c = Ret (b, c') → keeps_history c c'.
Proof.
  intros Hb. unfold subscribe_begin in Hb. cbv zeta in Hb.
  set (c0 := if (0 <? attempt)%Z then drop_old_ack subj c else c) in *.
  assert (subs c0 = subs c) as E.
  { unfold c0, drop_old_ack. destruct (_ <? _)%Z; [apply confirm_subs|done]. }
  cbn [new_subscription register_ack fst snd] in Hb. set (c1 := set_fresh _ (set_pending _ _ _)) in *.
  assert (keeps_history c c1) as H1.
  { eapply keeps_history_insert; [unfold c1; cbn; by rewrite E|done]. }
  destruct (conn c1); [destruct ok|].
  - injection Hb as _ <-. eapply keeps_history_trans; [exact H1|]. by apply keeps_history_refl.
  - destruct (discard _ _) as [d| |] eqn:Hd; [|done..]. injection Hb as _ <-.
    apply discard_history in Hd. eapply keeps_history_trans; [exact H1|].
    eapply keeps_history_trans; [|exact Hd]. by apply keeps_history_refl.
  - by injection Hb as _ <-.
Qed.

Lemma subscribe_end_history subj id w c e c' : subscribe_end subj id w c = Ret (e, c') → keeps_history c c'.
Proof.
  unfold subscribe_end. destruct w; intros H; try (injection H as _ <-; by apply keeps_history_refl);
    (destruct (discard _ _) as [d| |] eqn:Hd; [|done..]; injection H as _ <-;
     apply discard_history in Hd; eapply keeps_history_trans; [|exact Hd]; by apply keeps_history_refl).
Qed.

Lemma Unsubscribe_history id cb ok c e c' : Unsubscribe id cb ok c = Ret (e, c') → keeps_history c c'.
Proof.
  intros Hu. unfold Unsubscribe in Hu. destruct (subs c !! id) as [s|] eqn:Hs; [|done].
  destruct (closeOnce s); [injection Hu as _ <-; by apply keeps_history_refl|].
  destruct (active s); cbn [negb] in Hu; [|injection Hu as _ <-; by apply keeps_history_upd].
  destruct (chanClosed s); [done|]. destruct cb; [done|]. cbv zeta in Hu.
  set (c2 := upd_sub id (λ s, drain (close_chan s)) _) in *.
  assert (keeps_history c c2) as Hk.
  { eapply keeps_history_trans;
      [|apply keeps_history_upd; intros x; cbn beta; rewrite drain_subject, drain_history; by split].
    eapply keeps_history_trans; [|by apply keeps_history_upd]. by apply keeps_history_upd. }
  destruct (conn c2); [destruct ok|]; injection Hu as _ <-;
    (eapply keeps_history_trans; [exact Hk|by apply keeps_history_refl]).
Qed.

Lemma client_Close_history c : keeps_history c (client_Close c).
Proof.
  unfold client_Close. destruct (clientCloseOnce c); [by apply keeps_history_refl|]. cbv zeta.
  eapply keeps_history_trans; [|apply keeps_history_refl; reflexivity].
  assert (∀ l d, keeps_history d (foldl (λ c id, upd_sub id (set_active false) c) d l)) as Hfold.
  { clear. intros l. induction l as [|x l IH]; intros d; [by apply keeps_history_refl|]. cbn [foldl].
    eapply keeps_history_trans; [by apply (keeps_history_upd x (set_active false))|apply IH]. }
  eapply keeps_history_trans; [|apply Hfold]. by apply keeps_history_refl.
Qed.

(** No local step adds a delivery to a subscription. *)
Lemma local_step_history st st' : local_step st st' → keeps_history (client st) (client st').
Proof.
  intros Hstep. destruct Hstep as [id st|ctx ok subj payload e c' st Hp|ok st|attempt subj cap ok b c' st _ _ Hb
    |l1 l2 subj id w e c' st _ He|subj ok st|subj w st|id n st|l st|id cb ok e c' st _ Hu|st]; cbn [client].
  - apply keeps_history_upd, process_one_history.
  - apply keeps_history_refl. pose proof (Publish_subs ctx ok subj payload (client st)) as E. by rewrite Hp in E.
  - apply keeps_history_refl. unfold heartbeat_tick. by repeat case_match.
  - by eapply subscribe_begin_history.
  - by eapply subscribe_end_history.
  - apply keeps_history_refl, sendSub_begin_subs.
  - apply keeps_history_refl. by destruct w.
  - eapply keeps_history_trans; [|by apply keeps_history_upd]. by apply keeps_history_refl.
  - by apply keeps_history_refl.
  - by eapply Unsubscribe_history.
  - apply client_Close_history.
Qed.

(** Dispatching adds the delivery at most once, where the subject matches. *)
Lemma handleMessage_history m c id s' :
  client_ok c → subs (handleMessage m c) !! id = Some s' →
  ∃ s, subs c !! id = Some s ∧ subject s' = subject s ∧
    (history s' = history s ∨
     (Command m = CmdMsg ∧ matchSubject (subject s) (Protocol.Subject m) = true ∧
      history s' = history s ++ [delivery_of m])).
Proof.
  intros Hc Hs'. unfold handleMessage in Hs'. case_decide as Hm.
  - destruct (deliver_all_spec (delivery_of m) (subscriptions c) c (cl_nodup c Hc)) as [Hspec _].
    unfold delivery_of in Hspec. rewrite Hspec in Hs'. case_decide; [|by exists s'; split_and!; [..|left]].
    destruct (subs c !! id) as [s|]; [|done]. injection Hs' as <-. exists s. split; [done|].
    unfold offered. cbn [msgSubject]. destruct (active s) eqn:Ha; [|by split; [|left]].
    destruct (matchSubject (subject s) (Protocol.Subject m)) eqn:Hmatch; [|by split; [|left]]. cbn [andb].
    unfold TryEnqueue. rewrite Ha. cbn [negb]. destruct (chanClosed s); [by split; [|left]|].
    destruct (_ <? _)%Z; [|by split; [|left]]. split; [done|]. right. split_and!; [done..|].
    unfold history. cbn. by rewrite app_assoc.
  - exists s'. split_and!; [|done|by left]. revert Hs'. repeat case_match; by rewrite ?confirm_subs.
Qed.

(** ** Ghost data *)

(** A connection and a position in its log. *)
Abbreviation tag := (prod nat nat).
Abbreviation tagged := (prod tag Delivery).

(** Two positions on the same connection are in order. *)
Definition before (t u : tag) : Prop := t.1 = u.1 → (t.2 < u.2)%nat.

(** The deliveries written to or queued for each connection and not received from it; those
    received by each client; how many frames of each connection the broker has handled. *)
Record Ghost := mkGhost { queued : sid → list tagged; inbox : nat → list tagged; settled : sid → nat }.

Section invariant.
Context {R : Type} `{SubscriptionStoreLaws R}.
Implicit Types N : Network R.

(** Delivery [d] was published: its [PUB] frame stands at position [t.2] of what the client
    of connection [t.1] has written. *)
Definition published N (t : tag) (d : Delivery) : Prop :=
  ∃ x, wires N !! t.1 = Some x ∧ log x !! t.2 = Some (Encode (NewMessageCmd CmdPub (msgSubject d) (msgData d))).

Definition origin (G : Ghost) N (e : tagged) : Prop := (e.1.2 < settled G e.1.1)%nat ∧ published N e.1 e.2.

(** The bytes on their way to the broker are what its read loop has not taken yet. *)
Definition upward (ms : list Message) (n : nat) (u : list byte) (p : option reader_pc) : Prop :=
  match p with
  | None => n = 0%nat ∧ u = concat (map Encode ms)
  | Some AtTop => (n <= length ms)%nat ∧ u = concat (map Encode (drop n ms))
  | Some (Holding m) => ms !! n = Some m ∧ u = concat (map Encode (drop (S n) ms))
  | Some Returned => True
  end.

(** The bytes on their way to the client, followed by the frames queued for it, are
    encodings whose deliveries are [q]. *)
Definition downward (q : list tagged) (d : list byte) (rc : bool) (out : list (list byte)) : Prop :=
  ∃ ms1 ms2, (rc = true → d = concat (map Encode ms1)) ∧ out = map Encode ms2 ∧
    Forall wire_ok (ms1 ++ ms2) ∧ deliveries (ms1 ++ ms2) = q.*2.

Definition queue_of (o : option Session) : list (list byte) := match o with Some a => outChan a | None => [] end.

Definition wire_inv (G : Ghost) (h : gmap sid Session) (s : sid) (x : Wire) : Prop :=
  (∃ ms, log x = map Encode ms ∧ Forall client_message ms ∧ upward ms (settled G s) (up x) (pc <$> h !! s)) ∧
  downward (queued G s) (down x) (receiving x) (queue_of (h !! s)).

Record net_inv (G : Ghost) N : Prop := {
  ni_world : world_ok (broker N);
  ni_procs : ∀ k st, procs N !! k = Some st →
    rtc client_step initial_system st ∧
    ∃ s x, attached N !! k = Some s ∧ wires N !! s = Some x ∧ conn (client st) = Some (log x);
  ni_attached : ∀ k s, attached N !! k = Some s → is_Some (wires N !! s);
  ni_single : ∀ k k' s, attached N !! k = Some s → attached N !! k' = Some s → k = k';
  ni_heap : ∀ s, is_Some (heap (broker N) !! s) → is_Some (wires N !! s);
  ni_wires : ∀ s x, wires N !! s = Some x → wire_inv G (heap (broker N)) s x;
  ni_unused : ∀ s, wires N !! s = None → queued G s = [] ∧ settled G s = 0%nat;
  ni_idle : ∀ k, procs N !! k = None → inbox G k = [];
  ni_queued : ∀ s, Forall (origin G N) (queued G s);
  ni_inbox : ∀ k, Forall (origin G N) (inbox G k);
  ni_order : ∀ k s, attached N !! k = Some s → StronglySorted before ((inbox G k).*1 ++ (queued G s).*1);
  ni_histories : ∀ k st id sub, procs N !! k = Some st → subs (client st) !! id = Some sub →
    history sub `sublist_of` (inbox G k).*2 ∧
    Forall (λ d, matchSubject (subject sub) (msgSubject d) = true) (history sub);
}.

(** *** Logs only grow *)

Definition logs_grow N N' : Prop :=
  ∀ s x, wires N !! s = Some x → ∃ x' fs, wires N' !! s = Some x' ∧ log x' = log x ++ fs.

Lemma origin_mono G G' N N' :
  (∀ s, (settled G s <= settled G' s)%nat) → logs_grow N N' → ∀ e, origin G N e → origin G' N' e.
Proof.
  intros Hs Hg e [Hlt (x & Hx & Hl)]. split; [specialize (Hs e.1.1); lia|].
  destruct (Hg _ _ Hx) as (x' & fs & Hx' & E). exists x'. split; [done|]. rewrite E. by apply lookup_app_l_Some.
Qed.

Lemma logs_grow_same N N' : wires N' = wires N → logs_grow N N'.
Proof. intros E s x Hx. exists x, []. by rewrite E, app_nil_r. Qed.
Lemma logs_grow_insert N N' s x fs :
  wires N' = <[s := x]> (wires N) → (∀ y, wires N !! s = Some y → log x = log y ++ fs) → logs_grow N N'.
Proof.
  intros E Hl t y Hy. rewrite E. destruct (decide (t = s)) as [->|].
  - exists x, fs. rewrite lookup_insert_eq. by rewrite (Hl y Hy).
  - exists y, []. by rewrite lookup_insert_ne, app_nil_r.
Qed.

(** *** The parts of the invariant that a step of one end leaves alone *)

Lemma wire_inv_up G h s x fs ms :
  wire_inv G h s x → fs = map Encode ms → Forall client_message ms → wire_inv G h s (carry_up fs x).
Proof.
  intros [(ms0 & Hl & Hm & Hu) Hd] -> Hms. split; [|exact Hd]. exists (ms0 ++ ms). cbn [log carry_up up].
  split_and!; [by rewrite Hl, map_app|by apply Forall_app|].
  destruct (pc <$> h !! s) as [[|m|]|]; cbn in Hu |- *; [..|done|].
  - destruct Hu as [Hn ->]. rewrite length_app. split; [lia|].
    rewrite drop_app_le by done. by rewrite map_app, concat_app.
  - destruct Hu as [Hn ->]. split; [by apply lookup_app_l_Some|]. apply lookup_lt_Some in Hn.
    rewrite drop_app_le by lia. by rewrite map_app, concat_app.
  - destruct Hu as [-> ->]. split; [done|]. by rewrite map_app, concat_app.
Qed.

(** What the invariant says of the subscriptions of a client with inbox [ib]. *)
Definition histories_in (ib : list tagged) (st : system) : Prop :=
  ∀ id sub, subs (client st) !! id = Some sub →
    history sub `sublist_of` ib.*2 ∧
    Forall (λ d, matchSubject (subject sub) (msgSubject d) = true) (history sub).

Lemma histories_kept ib st st' :
  histories_in ib st → keeps_history (client st) (client st') → histories_in ib st'.
Proof.
  intros Hh Hk id sub Hs. destruct (Hk id sub Hs) as [->|(s & Hs0 & -> & ->)].
  - split; [apply sublist_nil_l|constructor].
  - by apply (Hh id).
Qed.

(** A client gets a new connection. *)
Lemma net_inv_attach G N k s st :
  net_inv G N → wires N !! s = None → rtc client_step initial_system st →
  conn (client st) = Some [] → StronglySorted before (inbox G k).*1 → histories_in (inbox G k) st →
  net_inv G (mkNet (broker N) (<[k := st]> (procs N)) (<[k := s]> (attached N)) (<[s := new_wire]> (wires N))).
Proof.
  intros [Hw Hp Ha H1 Hh Hx Hu Hi Hq Hb Ho Hs] Hnew Hr Hc Hsort Hhist.
  assert (logs_grow N (mkNet (broker N) (<[k := st]> (procs N)) (<[k := s]> (attached N)) (<[s := new_wire]> (wires N)))) as Hg.
  { eapply (logs_grow_insert _ _ s new_wire []); [done|]. intros y Hy. congruence. }
  assert (∀ t, is_Some (wires N !! t) → t ≠ s) as Hne by (intros t [y Hy] ->; congruence).
  constructor; cbn [broker procs attached wires]; try done.
  - intros k' st'. rewrite lookup_insert. case_decide as E.
    + intros [= <-]. split; [done|]. exists s, new_wire. subst. by rewrite !lookup_insert_eq.
    + intros Hk'. destruct (Hp k' st' Hk') as (? & s' & x & Hs' & Hx' & ?). split; [done|].
      exists s', x. rewrite lookup_insert_ne by done. rewrite lookup_insert_ne; [done|]. symmetry. apply Hne. eauto.
  - intros k' s'. rewrite !lookup_insert. case_decide; [intros [= <-]; rewrite decide_True; eauto|].
    intros Hk'. case_decide; eauto.
  - intros k1 k2 t. rewrite !lookup_insert. repeat case_decide; subst; try done; [..|by eauto].
    + intros [= <-] E. destruct (Hne s); eauto.
    + intros E [= <-]. destruct (Hne s); eauto.
  - intros t Ht. rewrite lookup_insert. case_decide; eauto.
  - intros t x. rewrite lookup_insert. case_decide as E; [|by apply Hx]. intros [= <-]. subst t.
    assert (heap (broker N) !! s = None) as Hnone.
    { destruct (heap (broker N) !! s) eqn:E; [|done]. destruct (Hne s); eauto. }
    destruct (Hu s Hnew) as [E1 E2]. split; rewrite Hnone.
    + exists []. by rewrite E2.
    + exists [], []. by rewrite E1.
  - intros t. rewrite lookup_insert. case_decide; [done|]. by apply Hu.
  - intros k'. rewrite lookup_insert. case_decide; [done|]. by apply Hi.
  - intros t. eapply Forall_impl; [apply Hq|]. by apply origin_mono.
  - intros t. eapply Forall_impl; [apply Hb|]. by apply origin_mono.
  - intros k' t. rewrite lookup_insert. case_decide as E; [|by apply Ho]. intros [= <-]. subst k'.
    destruct (Hu s Hnew) as [-> _]. by rewrite app_nil_r.
  - intros k' st' id sub. rewrite lookup_insert. case_decide as E; [|by apply Hs]. intros [= <-]. subst k'. apply Hhist.
Qed.

(** A client and its connection change, the broker does not. *)
Lemma net_inv_client G N k s st x fs ms bs rc ib q :
  let x' := mkWire (log x ++ fs) (up x ++ concat fs) bs rc in
  let G' := mkGhost (<[s := q]> (queued G)) (<[k := ib]> (inbox G)) (settled G) in
  net_inv G N → is_Some (procs N !! k) → attached N !! k = Some s → wires N !! s = Some x →
  rtc client_step initial_system st → conn (client st) = Some (log x ++ fs) →
  fs = map Encode ms → Forall client_message ms →
  downward q bs (running rc) (queue_of (heap (broker N) !! s)) →
  ib ++ q = inbox G k ++ queued G s → histories_in ib st →
  net_inv G' (mkNet (broker N) (<[k := st]> (procs N)) (attached N) (<[s := x']> (wires N))).
Proof.
  intros x' G' [Hw Hp Ha H1 Hh Hx Hu Hi Hq Hb Ho Hs] Hk Hks Hsx Hr Hc Hfs Hms Hdown Hsplit Hhist.
  set (N' := mkNet _ _ _ _).
  assert (logs_grow N N') as Hg.
  { eapply (logs_grow_insert _ _ s x' fs); [done|]. intros y Hy. rewrite Hsx in Hy. by injection Hy as <-. }
  assert (Forall (origin G' N') (ib ++ q)) as Hor.
  { rewrite Hsplit. apply Forall_app. split; (eapply Forall_impl; [apply Hb || apply Hq|]); by apply (origin_mono G G'). }
  apply Forall_app in Hor as [Hib Hqs].
  constructor; cbn [broker procs attached wires queued inbox settled N' G']; try done.
  - intros k' st'. rewrite lookup_insert. case_decide as E.
    + intros [= <-]. split; [done|]. exists s, x'. subst. by rewrite lookup_insert_eq.
    + intros Hk'. destruct (Hp k' st' Hk') as (? & s' & y & Hs' & Hy & ?). split; [done|].
      exists s', y. rewrite lookup_insert_ne; [done|]. intros ->. by destruct (E (H1 _ _ _ Hks Hs')).
  - intros k' s' Hk'. rewrite lookup_insert. case_decide; eauto.
  - intros t Ht. rewrite lookup_insert. case_decide; eauto.
  - intros t y. rewrite lookup_insert. case_decide as E.
    + intros [= <-]. subst t. destruct (wire_inv_up G _ s x fs ms (Hx s x Hsx) Hfs Hms) as [Hup _].
      split; [exact Hup|]. cbn [queued G']. by rewrite fn_lookup_insert.
    + intros Hy. destruct (Hx t y Hy) as [Hup Hd]. split; [exact Hup|]. cbn [queued G']. by rewrite fn_lookup_insert_ne.
  - intros t. rewrite lookup_insert. case_decide as E; [done|]. intros Ht. rewrite fn_lookup_insert_ne by done. by apply Hu.
  - intros k'. rewrite lookup_insert. case_decide as E; [done|]. intros Hk'. rewrite fn_lookup_insert_ne by done. by apply Hi.
  - intros t. destruct (decide (s = t)) as [->|Hne]; [by rewrite fn_lookup_insert|].
    rewrite fn_lookup_insert_ne by done. eapply Forall_impl; [apply Hq|]. by apply (origin_mono G G').
  - intros t. destruct (decide (k = t)) as [->|Hne]; [by rewrite fn_lookup_insert|].
    rewrite fn_lookup_insert_ne by done. eapply Forall_impl; [apply Hb|]. by apply (origin_mono G G').
  - intros k' t Hk'. destruct (decide (k = k')) as [<-|Hne].
    + assert (t = s) as -> by congruence. rewrite !fn_lookup_insert, <-fmap_app, Hsplit, fmap_app. by apply Ho.
    + rewrite !fn_lookup_insert_ne; [by apply Ho| |done]. intros ->. by destruct (Hne (H1 _ _ _ Hks Hk')).
  - intros k' st' id sub. rewrite lookup_insert. case_decide as E.
    + intros [= <-]. subst k'. rewrite fn_lookup_insert. apply Hhist.
    + rewrite fn_lookup_insert_ne by done. apply Hs.
Qed.

Lemma net_inv_local G N k s st st' x l fs :
  net_inv G N → procs N !! k = Some st → attached N !! k = Some s → wires N !! s = Some x →
  local_step st st' → conn (client st) = Some l → conn (client st') = Some (l ++ fs) →
  ∃ G', net_inv G' (mkNet (broker N) (<[k := st']> (procs N)) (attached N) (<[s := carry_up fs x]> (wires N))).
Proof.
  intros HN Hk Hks Hsx Hstep Hl Hl'. destruct (ni_procs G N HN k st Hk) as (Hr & s' & x' & Hs' & Hx' & Hc).
  rewrite Hks in Hs'. injection Hs' as <-. rewrite Hsx in Hx'. injection Hx' as <-.
  rewrite Hl in Hc. injection Hc as ->.
  destruct (client_reachable_frames st Hr) as [_ Hshort].
  destruct (local_step_appends st st' Hshort Hstep) as [(fs' & Hfs & E) _].
  rewrite Hl, Hl' in E. injection E as E. apply app_inv_head in E as <-.
  destruct (frames_messages fs Hfs) as (ms & Efs & Hms).
  eexists. eapply (net_inv_client G N k s st' x fs ms (down x) (loop_at x)); try done.
  - eapply rtc_r; [exact Hr|]. by apply cs_local.
  - by apply (ni_wires G N HN).
  - eapply histories_kept; [|by eapply local_step_history]. intros id sub. by apply (ni_histories G N HN).
Qed.

(** *** Receiving *)

Lemma downward_take q d rc out m u :
  downward q d rc out → rc = true → wire_ok m → d = Encode m ++ u →
  ∃ ts q', q = ts ++ q' ∧ ts.*2 = deliveries [m] ∧ downward q' u true out.
Proof.
  intros (ms1 & ms2 & Hd & Hout & Hok & Hdel) Hrc Hm Hdu. rewrite (Hd Hrc) in Hdu.
  apply Forall_app in Hok as [Hok1 Hok2].
  destruct (first_in_flight m u ms1 Hm Hok1 (eq_sym Hdu)) as (ms1' & -> & Hu).
  cbn [app] in Hdel. rewrite deliveries_cons in Hdel. apply Forall_cons in Hok1 as [_ Hok1].
  exists (take (length (deliveries [m])) q), (drop (length (deliveries [m])) q).
  rewrite deliveries_cons, app_nil_r. split_and!.
  - by rewrite take_drop.
  - rewrite fmap_take, <-Hdel. by rewrite take_app_length.
  - exists ms1', ms2. split_and!; [done|done|by apply Forall_app|].
    rewrite fmap_drop, <-Hdel. by rewrite drop_app_length.
Qed.

Lemma histories_received ib ts m st :
  client_ok (client st) → ts.*2 = deliveries [m] → histories_in ib st → histories_in (ib ++ ts) (received m st).
Proof.
  intros Hc Hts Hh id sub' Hs'. cbn [client received] in Hs'.
  destruct (handleMessage_history m (client st) id sub' Hc Hs') as (sub & Hs & Esub & Hcase).
  destruct (Hh id sub Hs) as [Hsl Hm]. rewrite Esub, fmap_app, Hts, deliveries_cons, app_nil_r.
  destruct Hcase as [->|(Hcmd & Hmatch & ->)].
  - split; [|done]. by apply sublist_inserts_r.
  - rewrite decide_True by done. split; [by apply sublist_app|]. apply Forall_app. split; [done|].
    by rewrite Forall_singleton.
Qed.

(** The receive loop leaves or goes on without reading, and only the supervision of the
    connection changes. *)
Lemma net_inv_link G N k s st x l p bs :
  net_inv G N → procs N !! k = Some st → attached N !! k = Some s → wires N !! s = Some x →
  p = LoopLeft ∨ bs = down x ∧ running p = receiving x →
  ∃ G', net_inv G' (mkNet (broker N) (<[k := mkSystem (set_link l (client st)) (calls st) (handles st)]> (procs N))
                  (attached N) (<[s := set_down bs p x]> (wires N))).
Proof.
  intros HN Hk Hks Hsx Hp. destruct (ni_procs G N HN k st Hk) as (Hr & s' & x' & Hs' & Hx' & Hc).
  rewrite Hks in Hs'. injection Hs' as <-. rewrite Hsx in Hx'. injection Hx' as <-.
  destruct (ni_wires G N HN s x Hsx) as [_ Hd]. unfold set_down. eexists. set (st' := mkSystem _ _ _).
  pose proof (net_inv_client G N k s st' x [] [] bs p (inbox G k) (queued G s)) as Hnet.
  cbn zeta in Hnet. cbn [concat] in Hnet. rewrite !app_nil_r in Hnet. apply Hnet; try done.
  - eapply rtc_r; [exact Hr|]. apply cs_local, (ls_link l st).
  - destruct Hp as [->|[-> ->]]; [|done]. destruct Hd as (ms1 & ms2 & _ & ? & ? & ?). by exists ms1, ms2.
  - intros id sub. by apply (ni_histories G N HN k st).
Qed.

Lemma net_inv_poll G N k s st x c' p :
  net_inv G N → procs N !! k = Some st → attached N !! k = Some s → wires N !! s = Some x →
  loop_at x = LoopTop → receive_poll (client st) = (c', p) →
  ∃ G', net_inv G' (mkNet (broker N) (<[k := mkSystem c' (calls st) (handles st)]> (procs N)) (attached N)
                  (<[s := set_down (down x) p x]> (wires N))).
Proof.
  intros HN Hk Hks Hsx Htop. unfold receive_poll. unfold receiving in *.
  destruct (done _ || ctxDone _); [intros [= <- <-]; apply (net_inv_link G N k s st); auto|].
  destruct (conn (client st)); intros [= <- <-]; [|apply (net_inv_link G N k s st); auto].
  destruct (net_inv_link G N k s st x (link (client st)) Reading (down x) HN Hk Hks Hsx) as [G' HG'].
  { right. unfold receiving. by rewrite Htop. }
  exists G'. by destruct (client st).
Qed.

Lemma net_inv_receive G N k s st x r r' rest c' p :
  net_inv G N → procs N !! k = Some st → attached N !! k = Some s → wires N !! s = Some x →
  loop_at x = Reading → down x = stream r ++ rest → receive_read r (client st) = Ret (c', r', p) →
  ∃ G', net_inv G' (mkNet (broker N) (<[k := mkSystem c' (calls st) (handles st)]> (procs N)) (attached N)
                  (<[s := set_down (stream r' ++ rest) p x]> (wires N))).
Proof.
  intros HN Hk Hks Hsx Hloop Hdown Hrecv. destruct (ni_procs G N HN k st Hk) as (Hr & s' & x' & Hs' & Hx' & Hc).
  rewrite Hks in Hs'. injection Hs' as <-. rewrite Hsx in Hx'. injection Hx' as <-.
  destruct (ni_wires G N HN s x Hsx) as [_ Hd]. unfold receive_read in Hrecv.
  assert (receiving x = true) as Hrc by (unfold receiving; by rewrite Hloop).
  destruct (ParseFromReader_spec r) as ([m|e] & r2 & HP & _); rewrite HP in Hrecv;
    injection Hrecv as <- <- <-; [|apply (net_inv_link G N k s st); auto].
  - unfold set_down. destruct (parse_inl r m r2 HP) as [Hm Hst]. rewrite Hst, <-app_assoc in Hdown.
    destruct (downward_take _ _ _ _ m _ Hd Hrc Hm Hdown) as (ts & q & Hq & Hts & Hd').
    eexists. pose proof (net_inv_client G N k s (received m st) x [] [] (stream r2 ++ rest) LoopTop (inbox G k ++ ts) q) as Hnet.
    cbn zeta in Hnet. cbn [concat] in Hnet. rewrite !app_nil_r in Hnet. apply Hnet; try done.
    + eapply rtc_r; [exact Hr|]. apply cs_receive.
    + cbn [client received]. by rewrite (proj1 (handleMessage_conn m (client st))).
    + by rewrite <-app_assoc, <-Hq.
    + apply histories_received; [|done|intros id sub; by apply (ni_histories G N HN)].
      by apply sy_client, system_reachable_ok.
Qed.

(** *** Steps of the broker *)

Definition same_logs (ws ws' : gmap sid Wire) : Prop := ∀ s, log <$> ws' !! s = log <$> ws !! s.

Lemma same_logs_lookup ws ws' s x :
  same_logs ws ws' → ws !! s = Some x → ∃ x', ws' !! s = Some x' ∧ log x' = log x.
Proof.
  intros Hs Hx. specialize (Hs s). rewrite Hx in Hs. destruct (ws' !! s) as [x'|]; [|done].
  injection Hs as E. by exists x'.
Qed.
Lemma same_logs_sym ws ws' : same_logs ws ws' → same_logs ws' ws.
Proof. by intros Hs s. Qed.
Lemma same_logs_none ws ws' s : same_logs ws ws' → ws' !! s = None → ws !! s = None.
Proof. intros Hs Hx. specialize (Hs s). rewrite Hx in Hs. by destruct (ws !! s). Qed.
Lemma same_logs_refl ws : same_logs ws ws.
Proof. done. Qed.
Lemma same_logs_insert ws s x x' : ws !! s = Some x → log x' = log x → same_logs ws (<[s := x']> ws).
Proof.
  intros Hx E t. destruct (decide (s = t)) as [<-|]; [|by rewrite lookup_insert_ne].
  rewrite lookup_insert_eq, Hx. cbn. by rewrite E.
Qed.

Lemma net_inv_broker G N w' q n ws' :
  let G' := mkGhost q (inbox G) n in
  let N' := mkNet w' (procs N) (attached N) ws' in
  net_inv G N → world_ok w' → same_logs (wires N) ws' → (∀ s, settled G s <= n s)%nat →
  (∀ s, is_Some (heap w' !! s) → is_Some (wires N !! s)) →
  (∀ s x, ws' !! s = Some x → wire_inv G' (heap w') s x) →
  (∀ s, wires N !! s = None → q s = [] ∧ n s = 0%nat) →
  (∀ s, ∃ new, (q s) `sublist_of` (queued G s ++ new) ∧
     Forall (λ e, origin G' N' e ∧ (settled G e.1.1 <= e.1.2)%nat) new ∧ StronglySorted before new.*1) →
  net_inv G' N'.
Proof.
  intros G' N' [Hw Hp Ha H1 Hh Hx Hu Hi Hq Hb Ho Hs] Hw' Hlog Hn Hheap Hwire Hunused Hnew.
  assert (logs_grow N N') as Hg.
  { intros s x Hsx. destruct (same_logs_lookup _ _ s x Hlog Hsx) as (x' & Hx' & E).
    exists x', []. by rewrite app_nil_r. }
  assert (∀ e, origin G N e → origin G' N' e) as Hor by by apply origin_mono.
  constructor; cbn [broker procs attached wires queued inbox settled N' G']; try done.
  - intros k st Hk. destruct (Hp k st Hk) as (? & s & x & Hsk & Hsx & Hc). split; [done|].
    destruct (same_logs_lookup _ _ s x Hlog Hsx) as (x' & ? & E). exists s, x'. by rewrite E.
  - intros k s Hk. destruct (Ha k s Hk) as [x Hsx].
    destruct (same_logs_lookup _ _ s x Hlog Hsx) as (x' & ? & _). by exists x'.
  - intros s Hsome. destruct (Hheap s Hsome) as [x Hsx].
    destruct (same_logs_lookup _ _ s x Hlog Hsx) as (x' & ? & _). by exists x'.
  - intros s Hnone. apply Hunused. by eapply same_logs_none.
  - intros s. destruct (Hnew s) as (new & Hsub & Hnews & _). eapply Forall_sublist; [exact Hsub|].
    apply Forall_app. split; (eapply Forall_impl; [apply Hq || apply Hnews|]); [done|by intros e []].
  - intros k. eapply Forall_impl; [apply Hb|done].
  - intros k s Hk. destruct (Hnew s) as (new & Hsub & Hnews & Hsort).
    eapply StronglySorted_sublist.
    + apply sublist_app; [reflexivity|]. by rewrite Hsub.
    + rewrite fmap_app, app_assoc. apply StronglySorted_app. split_and!; [|by apply Ho|done].
      intros t u Ht Hu'. rewrite <-fmap_app in Ht. apply list_elem_of_fmap in Ht as (e & -> & He), Hu' as (f & -> & Hf).
      rewrite Forall_forall in Hnews. destruct (Hnews f Hf) as [_ Hlate]. intros Esame.
      assert (origin G N e) as [Hlt _].
      { apply elem_of_app in He as [He|He]; [|by eapply Forall_forall in He; [|apply Hq]].
        by eapply Forall_forall in He; [|apply Hb]. }
      rewrite Esame in Hlt. lia.
Qed.

(** The same with nothing new in the queues. *)
Lemma net_inv_quiet G N w' ws' :
  let N' := mkNet w' (procs N) (attached N) ws' in
  net_inv G N → world_ok w' → same_logs (wires N) ws' →
  (∀ s, is_Some (heap w' !! s) → is_Some (wires N !! s)) →
  (∀ s x, ws' !! s = Some x → wire_inv G (heap w') s x) → net_inv G N'.
Proof.
  intros N' HN Hw' Hlog Hheap Hwire. destruct G as [q ib n].
  apply (net_inv_broker (mkGhost q ib n) N w' q n ws'); try done.
  - by apply (ni_unused _ N HN).
  - intros s. exists []. rewrite app_nil_r. split_and!; [reflexivity|constructor|constructor].
Qed.

Lemma downward_more q d rc out ms ts :
  downward q d rc out → Forall wire_ok ms → ts.*2 = deliveries ms →
  downward (q ++ ts) d rc (out ++ map Encode ms).
Proof.
  intros (ms1 & ms2 & Hd & -> & Hok & Hdel) Hms Hts. exists ms1, (ms2 ++ ms).
  rewrite map_app, app_assoc, deliveries_app, fmap_app, Hdel, Hts. split_and!; try done. by apply Forall_app.
Qed.

Lemma downward_extended q d rc a b ds ts :
  downward q d rc (outChan a) → extended ds a b → ts.*2 = ds → downward (q ++ ts) d rc (outChan b).
Proof. intros Hd [_ (ms & -> & Hok & <-)] Hts. by apply downward_more. Qed.

Lemma net_inv_turn_quiet G N w' :
  net_inv G N → world_ok w' → quiet (broker N) w' →
  net_inv G (mkNet w' (procs N) (attached N) (wires N)).
Proof.
  intros HN Hw' Hquiet. apply net_inv_quiet; [done..| |].
  - intros s [b Hb]. apply (ni_heap G N HN). specialize (Hquiet s).
    destruct (heap (broker N) !! s); [by eexists|congruence].
  - intros s x Hsx. destruct (ni_wires G N HN s x Hsx) as [Hup Hdown]. specialize (Hquiet s).
    unfold wire_inv. destruct (heap (broker N) !! s) as [a|]; [|by rewrite Hquiet].
    destruct Hquiet as (b & -> & Hext & Hpc). split; cbn [queue_of fmap option_fmap option_map] in *; [by rewrite Hpc|].
    rewrite <-(app_nil_r (queued G s)). by eapply downward_extended.
Qed.

(** Handling the message a read loop holds. *)
Lemma net_inv_turned G N w' s sess msg :
  net_inv G N → world_ok w' → heap (broker N) !! s = Some sess → pc sess = Holding msg →
  evolves (turned s msg) (broker N) w' →
  ∃ G', net_inv G' (mkNet w' (procs N) (attached N) (wires N)).
Proof.
  intros HN Hw' Hsess Hpc Hev. destruct (ni_heap G N HN s) as [x Hsx]; [by eexists|].
  destruct (ni_wires G N HN s x Hsx) as [(ms & Hlog & Hms & Hup) _].
  rewrite Hsess in Hup. cbn in Hup. rewrite Hpc in Hup. destruct Hup as [Hmsg Hup].
  set (t := (s, settled G s)). set (d := delivery_of msg).
  set (P := λ (y : nat) (a : Session), ∃ b, heap w' !! y = Some b ∧
    pc b = (if decide (y = s) then AtTop else pc a) ∧ Command msg = CmdPub ∧ extended [d] a b).
  set (Q := λ (y : nat) (a : Session), ∃ b, heap w' !! y = Some b ∧
    pc b = (if decide (y = s) then AtTop else pc a) ∧ extended [] a b).
  destruct (map_choose P Q (heap (broker N))) as (X & HX & HF).
  { intros y a Ha. destruct (evolves_lookup _ _ _ _ _ Hev Ha) as (b & Hb & Hpcb & [Hq|[Hc Hq]]); [right|left]; by exists b. }
  set (more := λ y, if decide (y ∈ X) then [(t, d)] else []).
  exists (mkGhost (λ y, queued G y ++ more y) (inbox G) (<[s := S (settled G s)]> (settled G))).
  apply net_inv_broker; [done..| | | | |].
  - intros y. destruct (decide (s = y)) as [<-|]; [rewrite fn_lookup_insert|rewrite fn_lookup_insert_ne by done]; lia.
  - intros y [b Hb]. apply (ni_heap G N HN). destruct (heap (broker N) !! y) eqn:E; [by eexists|].
    rewrite (evolves_none _ _ _ _ Hev E) in Hb. done.
  - intros y xy Hy. destruct (ni_wires G N HN y xy Hy) as [(msy & Hlogy & Hmsy & Hupy) Hdowny].
    unfold wire_inv. cbn [queued settled]. destruct (heap (broker N) !! y) as [a|] eqn:Ha.
    + assert (∃ b ds, heap w' !! y = Some b ∧ pc b = (if decide (y = s) then AtTop else pc a) ∧
                extended ds a b ∧ (more y).*2 = ds) as (b & ds & Hb & Hpcb & Hext & Hds).
      { specialize (HF y a Ha). cbn in HF. unfold more. destruct (decide (y ∈ X)).
        - destruct HF as (b & ? & ? & _ & ?). by exists b, [d].
        - destruct HF as (b & ? & ? & ?). by exists b, []. }
      rewrite Hb. split; [|by eapply downward_extended].
      exists msy. split_and!; [done..|]. cbn [fmap option_fmap option_map] in Hupy |- *. rewrite Hpcb. case_decide as E.
      * subst y. rewrite fn_lookup_insert. assert (xy = x) as -> by congruence. rewrite Ha in Hsess.
        injection Hsess as ->. rewrite Hpc in Hupy. destruct Hupy as [Hn ->]. apply lookup_lt_Some in Hn. split; [lia|done].
      * by rewrite fn_lookup_insert_ne.
    + rewrite (evolves_none _ _ _ _ Hev Ha). split.
      * exists msy. rewrite fn_lookup_insert_ne by congruence. done.
      * unfold more. rewrite decide_False by (intros Hin; apply HX, elem_of_dom in Hin as [? ?]; congruence).
        by rewrite app_nil_r.
  - intros y Hy. unfold more. rewrite decide_False, app_nil_r.
    + rewrite fn_lookup_insert_ne by congruence. by apply (ni_unused G N HN).
    + intros Hin. apply HX, elem_of_dom in Hin as Hin. apply (ni_heap G N HN) in Hin as [? ?]. congruence.
  - intros y. exists (more y). split; [done|]. unfold more. case_decide as Hin; [|by split; constructor].
    split; [|by repeat constructor]. apply Forall_singleton. cbn [fst snd t]. split; [|done]. split.
    + cbn [settled fst t]. rewrite fn_lookup_insert. cbn. lia.
    + exists x. split; [done|].
      change (log x !! settled G s = Some (Encode (NewMessageCmd CmdPub (msgSubject d) (msgData d)))).
      rewrite Hlog, list_lookup_fmap, Hmsg. cbn. do 2 f_equal.
      assert (Command msg = CmdPub) as Hc.
      { destruct (proj1 (elem_of_dom (heap (broker N)) y) (HX y Hin)) as [a Ha]. specialize (HF y a Ha). cbn in HF.
        rewrite decide_True in HF by done. by destruct HF as (b & _ & _ & ? & _). }
      destruct msg. cbn in *. by subst.
Qed.

Lemma net_inv_accept G N s x w' :
  net_inv G N → wires N !! s = Some x → heap (broker N) !! s = None →
  accept_one s [] (broker N) = Ret (tt, w') →
  net_inv G (mkNet w' (procs N) (attached N) (wires N)).
Proof.
  intros HN Hsx Hnone Hrun. pose proof (ni_world G N HN) as Hw.
  rewrite accept_one_run in Hrun by apply Hw. injection Hrun as <-.
  apply net_inv_quiet; [done|by apply world_ok_accept|done|..].
  - intros t. unfold accept_world. cbn [heap set_sessions]. destruct (decide (s = t)) as [<-|Hne]; [by eexists|].
    rewrite heap_upd_ne by done. apply (ni_heap G N HN).
  - intros t y Hy. destruct (ni_wires G N HN t y Hy) as [(ms & Hlog & Hms & Hup) Hdown].
    unfold wire_inv, accept_world. cbn [heap set_sessions]. destruct (decide (s = t)) as [<-|Hne].
    + rewrite heap_upd. rewrite Hnone in Hup, Hdown. split; [|exact Hdown]. exists ms. split_and!; [done..|].
      cbn in Hup |- *. destruct Hup as [-> ->]. split; [lia|by rewrite drop_0].
    + rewrite heap_upd_ne by done. split; [by exists ms|done].
Qed.

Lemma world_ok_feed s r sess (w : World R) :
  world_ok w → heap w !! s = Some sess → world_ok (feed s r sess w).
Proof.
  intros Hw Hs. pose proof (world_ok_session _ _ _ Hw Hs) as Hok.
  eapply world_ok_upd; [done..| |done|done]. by apply set_input_ok; [|apply so_pc|apply so_returned].
Qed.

Lemma heap_feed_ne s t r sess (w : World R) : s ≠ t → heap (feed s r sess w) !! t = heap w !! t.
Proof. apply heap_upd_ne. Qed.

Lemma net_inv_read G N o s sess x r rest w' sess' :
  net_inv G N → wires N !! s = Some x → heap (broker N) !! s = Some sess → pc sess = AtTop →
  up x = stream r ++ rest → reader_poll o s (feed s r sess (broker N)) = Ret (tt, w') →
  heap w' !! s = Some sess' →
  net_inv G (mkNet w' (procs N) (attached N) (<[s := set_up (stream (conn_input sess') ++ rest) x]> (wires N))).
Proof.
  intros HN Hsx Hs Hpc Hupx Hrun Hs'. pose proof (ni_world G N HN) as Hw.
  pose proof (world_ok_feed s r sess _ Hw Hs) as Hwf. set (sess1 := set_input r (pc sess) sess) in *.
  assert (heap (feed s r sess (broker N)) !! s = Some sess1) as Hs1 by apply heap_upd.
  destruct (reader_poll_ok o s _ sess1 Hwf Hs1) as (w2 & E & Hw' & _ & sess2 & Hs2 & Hpoll).
  rewrite Hrun in E. injection E as <-. rewrite Hs' in Hs2. injection Hs2 as <-.
  pose proof (reader_poll_frames o s _ w' Hwf (ex_intro _ _ Hs1) Hrun) as Hev.
  apply net_inv_quiet; [done..|eapply same_logs_insert; done| |].
  - intros t [b Hb]. destruct (decide (s = t)) as [<-|Hne]; [by eexists|]. apply (ni_heap G N HN).
    destruct (heap (broker N) !! t) eqn:Et; [by eexists|].
    rewrite (evolves_none _ _ _ t Hev) in Hb; [done|]. by rewrite heap_feed_ne.
  - intros t y. rewrite lookup_insert. case_decide as Et.
    + intros [= <-]. subst t. destruct (ni_wires G N HN s x Hsx) as [(ms & Hlog & Hms & Hup) Hdown].
      destruct (evolves_lookup _ _ _ _ _ Hev Hs1) as (b & Hb & _ & Eq & _). rewrite Hs' in Hb. injection Hb as <-.
      unfold wire_inv. rewrite Hs'. rewrite Hs in Hup, Hdown. cbn [queue_of] in *.
      split; [|cbn [down receiving set_up]; by rewrite Eq].
      exists ms. split_and!; [done..|]. cbn [fmap option_fmap option_map up set_up] in Hup |- *. rewrite Hpc in Hup.
      destruct Hpoll as [[-> _]|(m & -> & Hm & _ & Hst)]; [done|]. destruct Hup as [Hn Hup].
      cbn [conn_input set_input sess1] in Hst. rewrite Hupx, Hst, <-app_assoc in Hup.
      apply first_in_flight in Hup as (ms' & Hdrop & ->); [|done|].
      2: { apply Forall_drop. eapply Forall_impl; [exact Hms|]. by intros ? []. }
      split; [by rewrite <-(Nat.add_0_r (settled G s)), <-lookup_drop, Hdrop|].
      by rewrite <-Nat.add_1_r, <-drop_drop, Hdrop.
    + intros Hy. destruct (ni_wires G N HN t y Hy) as [(ms & Hlog & Hms & Hup) Hdown].
      unfold wire_inv. destruct (heap (broker N) !! t) as [a|] eqn:Ha.
      * destruct (evolves_lookup _ _ _ t a Hev) as (b & -> & _ & Eq & Epc); [by rewrite heap_feed_ne|].
        cbn [queue_of fmap option_fmap option_map] in *. rewrite Eq, Epc by done. split; [by exists ms|done].
      * rewrite (evolves_none _ _ _ t Hev); [|by rewrite heap_feed_ne]. split; [by exists ms|done].
Qed.

(** The queue without its first frame: written, or lost. *)
Lemma downward_written q d rc data out :
  downward q d rc (data :: out) → downward q (d ++ data) rc out.
Proof.
  intros (ms1 & ms2 & Hd & Hout & Hok & Hdel). destruct ms2 as [|m ms2]; [done|]. injection Hout as -> ->.
  exists (ms1 ++ [m]), ms2. rewrite <-!app_assoc. split_and!; try done.
  intros E. rewrite (Hd E), map_app, concat_app. cbn [map concat]. by rewrite app_nil_r.
Qed.

Lemma downward_lost q d rc data out :
  downward q d rc (data :: out) → ∃ q', q' `sublist_of` q ∧ downward q' d rc out.
Proof.
  intros (ms1 & ms2 & Hd & Hout & Hok & Hdel). destruct ms2 as [|m ms2]; [done|]. injection Hout as -> ->.
  rewrite !deliveries_app, deliveries_cons in Hdel. set (n1 := length (deliveries ms1)).
  set (n2 := length (if decide (Command m = CmdMsg) then [delivery_of m] else [])).
  exists (take n1 q ++ drop (n1 + n2) q). split.
  - rewrite <-(take_drop n1 q) at 3. apply sublist_app; [done|]. rewrite <-drop_drop. apply sublist_drop.
  - exists ms1, ms2. apply Forall_app in Hok as [Hok1 Hok2]. apply Forall_cons in Hok2 as [_ Hok2].
    split_and!; [done|done|by apply Forall_app|].
    rewrite deliveries_app, fmap_app, fmap_take, fmap_drop, <-Hdel. unfold n1, n2.
    by rewrite take_app_length, <-drop_drop, drop_app_length, drop_app_length.
Qed.

Lemma net_inv_write G N o s sess x ok w' sess' fs :
  net_inv G N → wires N !! s = Some x → heap (broker N) !! s = Some sess → outChan sess ≠ [] →
  writer_turn o s ok (broker N) = Ret (tt, w') → heap w' !! s = Some sess' →
  conn_sent sess' = conn_sent sess ++ fs →
  ∃ G', net_inv G' (mkNet w' (procs N) (attached N) (<[s := carry_down fs x]> (wires N))).
Proof.
  intros HN Hsx Hs Hne Hrun Hs' Hfs. pose proof (ni_world G N HN) as Hw.
  destruct (outChan sess) as [|data out] eqn:Hq; [done|].
  destruct (writer_turn_ok o s ok _ sess Hw Hs) as (w2 & E & Hw' & _). rewrite Hrun in E. injection E as <-.
  pose proof (writer_turn_frames o s ok _ w' sess data out Hw Hs Hq Hrun) as Hev.
  destruct (evolves_lookup _ _ _ _ _ Hev Hs) as (b & Hb & Epc & Hwrote). rewrite Hs' in Hb. injection Hb as <-.
  rewrite decide_True in Hwrote by done. destruct Hwrote as [Hout Hsent]. rewrite Hq in Hout. injection Hout as Hout.
  rewrite Hfs in Hsent. apply app_inv_head in Hsent. destruct (ni_wires G N HN s x Hsx) as [Hup Hdown].
  rewrite Hs in Hup, Hdown. cbn [queue_of fmap option_fmap option_map] in Hup, Hdown. rewrite Hq in Hdown.
  assert (∃ q, q `sublist_of` queued G s ∧ downward q (down x ++ concat fs) (receiving x) out) as (q & Hsub & Hq').
  { destruct ok; subst fs; cbn [concat]; rewrite app_nil_r.
    - exists (queued G s). split; [done|by apply downward_written].
    - by apply (downward_lost _ _ _ data). }
  exists (mkGhost (<[s := q]> (queued G)) (inbox G) (settled G)).
  apply net_inv_broker; [done..|by eapply same_logs_insert|done| | | |].
  - intros t [b Hb]. apply (ni_heap G N HN). destruct (heap (broker N) !! t) eqn:Et; [by eexists|].
    by rewrite (evolves_none _ _ _ _ Hev Et) in Hb.
  - intros t y. rewrite lookup_insert. case_decide as Et.
    + intros [= <-]. subst t. unfold wire_inv. cbn [queued settled]. rewrite fn_lookup_insert, Hs'.
      cbn [queue_of fmap option_fmap option_map]. rewrite Epc, <-Hout. split; [exact Hup|exact Hq'].
    + intros Hy. unfold wire_inv. cbn [queued settled]. rewrite fn_lookup_insert_ne by done.
      destruct (ni_wires G N HN t y Hy) as [Hupt Hdownt]. destruct (heap (broker N) !! t) as [a|] eqn:Ha.
      * destruct (evolves_lookup _ _ _ _ _ Hev Ha) as (b & -> & Epct & Hsame). rewrite decide_False in Hsame by congruence.
        destruct Hsame as [_ Eq]. cbn [queue_of fmap option_fmap option_map] in *. by rewrite Epct, Eq.
      * by rewrite (evolves_none _ _ _ _ Hev Ha).
  - intros t Ht. rewrite fn_lookup_insert_ne by congruence. by apply (ni_unused G N HN).
  - intros t. exists []. rewrite app_nil_r. split; [|split; constructor].
    destruct (decide (s = t)) as [<-|]; [by rewrite fn_lookup_insert|by rewrite fn_lookup_insert_ne].
Qed.

(** ** Every step keeps the invariant *)

Lemma net_inv_step G N N' : net_inv G N → net_step N N' → ∃ G', net_inv G' N'.
Proof.
  intros HN Hstep. pose proof (ni_world G N HN) as Hw.
  destruct Hstep as [k s Hk Hs|k s l st Hk Hs|k s st st' x l fs Hk Hks Hsx Hl H1 H2
    |k s st x c' p Hk Hks Hsx Hlp Hr|k s st x r r' rest c' p Hk Hks Hsx Hrc Hd Hr|s x w' Hsx Hn Hr
    |o s sess x r rest w' sess' Hsx Hs Hpc Hup Hr Hs'|o s sess x ok w' sess' fs Hsx Hs Hq Hr Hs' Hf|w' Ht].
  - exists G. apply net_inv_attach; try done.
    rewrite (ni_idle G N HN k Hk). constructor.
  - exists G. destruct (ni_procs G N HN k st Hk) as (Hr & s0 & x & Hs0 & Hx & _). apply net_inv_attach; try done.
    + eapply rtc_r; [exact Hr|]. apply cs_connection.
    + eapply StronglySorted_app_1_l. by apply (ni_order G N HN k s0).
    + intros id sub. by apply (ni_histories G N HN k st).
  - by eapply net_inv_local.
  - by eapply net_inv_poll.
  - by eapply net_inv_receive.
  - exists G. by eapply net_inv_accept.
  - exists G. by eapply net_inv_read.
  - by eapply net_inv_write.
  - pose proof (turn_ok _ _ Hw Ht) as Hw'.
    destruct (turn_frames _ _ Hw Ht) as [Hquiet|(s & sess & msg & Hs & Hpc & Hev)].
    + exists G. by apply net_inv_turn_quiet.
    + by eapply net_inv_turned.
Qed.

Lemma net_inv_new : net_inv (mkGhost (λ _, []) (λ _, []) (λ _, 0%nat)) new_network.
Proof.
  constructor; cbn [broker procs attached wires new_network queued inbox settled]; try done; try constructor;
    try apply new_world_ok; intros; simplify_map_eq/=; try done; try constructor.
  all: by match goal with H : is_Some _ |- _ => destruct H end.
Qed.

Lemma net_reachable_inv N : net_reachable N → ∃ G, net_inv G N.
Proof.
  apply (rtc_invariant net_step (λ N, ∃ G, net_inv G N)).
  - intros N1 N2 [G HG]. by apply (net_inv_step G).
  - eexists. apply net_inv_new.
Qed.
End invariant.

(** ** Properties *)

(** C1: end to end, with nothing assumed but the program at both ends. In every state the
    composed system can reach, whatever the interleaving of the clients' callers and
    goroutines, of the broker's goroutines and of the network (any chunks, read errors,
    failed writes, lost connections and reconnections): the deliveries that the callback
    of a subscription has seen, followed by those in its queue, come from [PUB] frames that
    clients have written, with the same subject and data; all match the subscription's
    pattern; no publication comes twice; and those published on one connection come in the
    order of publication. *)
Theorem subscription_receives {R} `{SubscriptionStoreLaws R} (N : Network R) k st id sub :
  net_reachable N → procs N !! k = Some st → subs (client st) !! id = Some sub →
  ∃ ts : list tag,
    Forall2 (published N) ts (handled sub ++ msgChan sub) ∧
    Forall (λ d, matchSubject (subject sub) (msgSubject d) = true) (handled sub ++ msgChan sub) ∧
    NoDup ts ∧ StronglySorted before ts.
Proof.
  intros [G HN]%net_reachable_inv Hk Hs. destruct (ni_histories G N HN k st id sub Hk Hs) as [Hsub Hm].
  destruct (ni_procs G N HN k st Hk) as (_ & s & x & Hks & _).
  pose proof (StronglySorted_app_1_l _ _ _ (ni_order G N HN k s Hks)) as Hsort.
  pose proof (ni_inbox G N HN k) as Hor. fold (history sub). apply sublist_fmap_inv in Hsub as (es & Ees & Hes).
  assert (StronglySorted before es.*1) as Hes1 by (eapply StronglySorted_sublist; [by rewrite Hes|done]).
  exists es.*1. rewrite <-Ees. split_and!; [|by rewrite Ees| |done].
  - apply Forall2_fmap_l, Forall2_fmap_r. apply Forall_Forall2_diag.
    eapply Forall_impl; [by eapply Forall_sublist|]. by intros e [].
  - clear -Hes1. induction es.*1 as [|t ts IH]; [constructor|]. apply StronglySorted_cons in Hes1 as [Ht Hts].
    constructor; [|auto]. intros Hin. eapply Forall_forall in Hin; [|exact Ht]. cbn in Hin. specialize (Hin eq_refl). lia.
Qed.

Definition final_network : Network Router := default new_network delivered_network.
Definition final_client : system := default initial_system (procs final_network !! 0%nat).
Definition final_sub : Subscription := default (mkSub [] false [] 0 false [] 0 0 false) (subs (client final_client) !! 0%nat).

Lemma final_reachable : net_reachable final_network.
Proof.
  assert (delivered_network = Some final_network) as E by (by vm_compute).
  eapply perform_all_reachable; [apply rtc_refl|exact E].
Qed.

Lemma subscription_receives_witness :
  ∃ ts, Forall2 (published final_network) ts [mkDelivery (str "a.b") (str "hi"); mkDelivery (str "a.c") (str "ho")] ∧
    NoDup ts ∧ StronglySorted before ts.
Proof.
  destruct (subscription_receives final_network 0 final_client 0 final_sub) as (ts & H1 & _ & H2 & H3).
  - apply final_reachable.
  - by vm_compute.
  - by vm_compute.
  - exists ts. split; [|split; [exact H2|exact H3]]. exact H1.
Defined.
