(* ===== verification/NetworkProject.v ===== *)
(** * The network projected to its parts

    The composed system of [Network] runs the broker, the clients and the connections that
    the other files specify: the broker is in a state it reaches by itself, every client in
    one that it reaches on its own, and each connection carries exactly what its ends have
    written and not yet read. *)

From S2P Require Import Prelude GoStrings GoIO Protocol Subject Router Session Server Broker.
From S2P Require Import Reconnect Client ClientLaws ClientSteps ClientFrames BrokerFrames BrokerInput Network NetworkInv.

(** [bs] is what remains of the frames [fs] after some of them have been taken. *)
Definition rest_of (fs : list (list byte)) (bs : list byte) : Prop :=
  ∃ n, (n <= length fs)%nat ∧ bs = concat (drop n fs).

(** What the broker has written to a connection. *)
Definition sent_of (o : option Session) : list (list byte) := match o with Some a => conn_sent a | None => [] end.

(** What connection [x] carries, with [o] the session at the broker's end: towards the
    broker, what the client has written and the read loop has not taken; towards the client,
    while its receive loop runs, what the write loop has written and it has not received. *)
Record carries (x : Wire) (o : option Session) : Prop := {
  ca_up : match pc <$> o with
          | None => up x = concat (log x)
          | Some AtTop => rest_of (log x) (up x)
          | Some (Holding m) => ∃ n, log x !! n = Some (Encode m) ∧ up x = concat (drop (S n) (log x))
          | Some Returned => True
          end;
  ca_down : receiving x = true → rest_of (sent_of o) (down x);
}.

Lemma rest_of_app fs gs bs : rest_of fs bs → rest_of (fs ++ gs) (bs ++ concat gs).
Proof.
  intros (n & Hn & ->). exists n. rewrite length_app, drop_app_le by done. split; [lia|]. by rewrite concat_app.
Qed.

(** A frame taken from the front is the next one. *)
Lemma rest_of_next fs m u : Forall good_frame fs → wire_ok m → rest_of fs (Encode m ++ u) → rest_of fs u.
Proof.
  intros Hfs Hm (n & Hn & E). apply (Forall_drop _ n) in Hfs.
  destruct (drop n fs) as [|f rest] eqn:Hd.
  - apply app_eq_nil in E as [E _]. pose proof (Encode_nonempty m) as Hl. rewrite E in Hl. cbn in Hl. lia.
  - apply Forall_cons in Hfs as [(m' & Hm' & ->) _]. cbn in E.
    destruct (Encode_prefix_inj m m' u (concat rest) Hm Hm' E) as [_ ->].
    exists (S n). assert (length (drop n fs) = S (length rest)) as Hl by (by rewrite Hd).
    rewrite length_drop in Hl. split; [lia|]. by rewrite <-Nat.add_1_r, <-drop_drop, Hd.
Qed.

Section project.
Context {R : Type} `{SubscriptionStoreLaws R}.
Implicit Types N : Network R.

Definition carried_down N : Prop :=
  ∀ s x, wires N !! s = Some x → receiving x = true → rest_of (sent_of (heap (broker N) !! s)) (down x).

Definition projected N : Prop := (∀ f, reachable (refeed f (broker N))) ∧ carried_down N.

Lemma evolves_sent P s (w w' : World R) :
  evolves P w w' → (∀ a b, P s a b → conn_sent b = conn_sent a) →
  sent_of (heap w' !! s) = sent_of (heap w !! s).
Proof.
  intros Hev HP. specialize (Hev s). destruct (heap w !! s) as [a|]; [|by rewrite Hev].
  destruct Hev as (b & -> & Hb). by apply HP.
Qed.

Lemma turn_sent s (w w' : World R) : world_ok w → turn w w' → sent_of (heap w' !! s) = sent_of (heap w !! s).
Proof.
  intros Hw Ht. destruct (turn_frames w w' Hw Ht) as [Hq|(t & a & m & _ & _ & Hev)];
    eapply evolves_sent; [exact Hq| |exact Hev|].
  - by intros a b [[? _] _].
  - by intros b c [_ [[? _]|[_ [? _]]]].
Qed.

(** Only the connection of [s] changes, to one that carries what it should. *)
Lemma carried_insert N w' ps at' s x :
  carried_down N → (∀ t, t ≠ s → sent_of (heap w' !! t) = sent_of (heap (broker N) !! t)) →
  (receiving x = true → rest_of (sent_of (heap w' !! s)) (down x)) →
  carried_down (mkNet w' ps at' (<[s := x]> (wires N))).
Proof.
  intros HN Hsame Hx t y. cbn [wires broker]. rewrite lookup_insert. case_decide as E.
  - intros [= <-]. by subst.
  - rewrite Hsame by done. apply HN.
Qed.

Lemma receive_carried G N s (st : system) x r r' rest c' p :
  net_inv G N → carried_down N → wires N !! s = Some x → loop_at x = Reading →
  down x = stream r ++ rest → receive_read r (client st) = Ret (c', r', p) →
  running p = true → rest_of (sent_of (heap (broker N) !! s)) (stream r' ++ rest).
Proof.
  intros HN Hc Hsx Hl Hd Hrecv Hp. unfold receive_read in Hrecv.
  destruct (ParseFromReader_spec r) as ([m|e] & r2 & HP & _); rewrite HP in Hrecv;
    injection Hrecv as <- <- <-; [|done].
  destruct (parse_inl r m r2 HP) as [Hm Hst]. apply (rest_of_next _ m); [|done|].
  - destruct (heap (broker N) !! s) as [a|] eqn:Ha; [|by constructor].
    pose proof (so_frames a (world_ok_session _ _ _ (ni_world G N HN) Ha)) as Hf. by apply Forall_app in Hf as [_ Hf].
  - rewrite app_assoc, <-Hst, <-Hd. apply Hc; [done|]. unfold receiving. by rewrite Hl.
Qed.

Lemma write_sent o s sess ok w w' sess' fs :
  world_ok w → heap w !! s = Some sess → outChan sess ≠ [] →
  writer_turn o s ok w = Ret (tt, w') → heap w' !! s = Some sess' → conn_sent sess' = conn_sent sess ++ fs →
  sent_of (heap w' !! s) = sent_of (heap w !! s) ++ fs ∧
  ∀ t, t ≠ s → sent_of (heap w' !! t) = sent_of (heap (R := R) w !! t).
Proof.
  intros Hw Hs Hq Hrun Hs' Hfs. destruct (outChan sess) as [|data q] eqn:Eq; [done|].
  pose proof (writer_turn_frames o s ok w w' sess data q Hw Hs Eq Hrun) as Hev. split; [by rewrite Hs, Hs'|].
  intros t Hne. eapply evolves_sent; [exact Hev|]. intros a b [_ Hab]. rewrite decide_False in Hab by done. apply Hab.
Qed.

Lemma read_sent o s sess r w w' t :
  world_ok w → heap w !! s = Some sess →
  reader_poll o s (feed s r sess w) = Ret (tt, w') → sent_of (heap w' !! t) = sent_of (heap (R := R) w !! t).
Proof.
  intros Hw Hs Hrun. pose proof (world_ok_feed s r sess w Hw Hs) as Hwf.
  pose proof (reader_poll_frames o s _ w' Hwf (ex_intro _ _ (heap_upd _ _ _)) Hrun) as Hev.
  assert (sent_of (heap (feed s r sess w) !! t) = sent_of (heap w !! t)) as <-.
  { unfold feed. destruct (decide (s = t)) as [<-|]; [by rewrite heap_upd, Hs|by rewrite heap_upd_ne]. }
  eapply evolves_sent; [exact Hev|]. by intros a b (? & _).
Qed.

Lemma accept_sent s w w' t :
  world_ok w → heap w !! s = None → accept_one s [] w = Ret (tt, w') →
  sent_of (heap w' !! t) = sent_of (heap (R := R) w !! t).
Proof.
  intros Hw Hs Hrun. rewrite accept_one_run in Hrun by apply Hw. injection Hrun as <-.
  unfold accept_world. cbn [heap set_sessions]. destruct (decide (s = t)) as [<-|]; [by rewrite heap_upd, Hs|].
  by rewrite heap_upd_ne.
Qed.

Lemma projected_step G N N' : net_inv G N → projected N → net_step N N' → projected N'.
Proof.
  intros HN [Hb Hc] Hstep. pose proof (ni_world G N HN) as Hw.
  destruct Hstep as [k s Hk Hs|k s l st Hk Hs|k s st st' x l fs Hk Hks Hsx Hl H1 H2
    |k s st x c' p Hk Hks Hsx Hlp Hr|k s st x r r' rest c' p Hk Hks Hsx Hrc Hd Hr|s x w' Hsx Hn Hr
    |o s sess x r rest w' sess' Hsx Hs Hpc Hup Hr Hs'|o s sess x ok w' sess' fs Hsx Hs Hq Hr Hs' Hf|w' Ht].
  - split; [exact Hb|]. apply (carried_insert N (broker N)); [done..|]. intros _. exists 0%nat.
    split; [lia|]. destruct (heap (broker N) !! s) eqn:E; [|done].
    destruct (ni_heap G N HN s) as [y Hy]; [by eexists|congruence].
  - split; [exact Hb|]. apply (carried_insert N (broker N)); [done..|]. intros _. exists 0%nat.
    split; [lia|]. destruct (heap (broker N) !! s) eqn:E; [|done].
    destruct (ni_heap G N HN s) as [y Hy]; [by eexists|congruence].
  - split; [exact Hb|]. apply (carried_insert N (broker N)); [done..|]. exact (Hc s x Hsx).
  - split; [exact Hb|]. apply (carried_insert N (broker N)); [done..|]. intros _. apply (Hc s x Hsx).
    unfold receiving. by rewrite Hlp.
  - split; [exact Hb|]. apply (carried_insert N (broker N)); [done..|]. by eapply receive_carried.
  - split.
    + intros f. eapply rtc_r; [apply (Hb f)|]. by eapply accept_refeed.
    + intros t y Hy Hry. cbn [broker]. rewrite (accept_sent s (broker N) w' t) by done. by apply Hc.
  - split.
    + intros f. destruct (read_refeed f o s sess r (broker N) w' Hs Hpc Hr) as [g Hg].
      eapply rtc_r; [apply (Hb g)|exact Hg].
    + apply carried_insert; [done|by intros t _; eapply read_sent|]. intros Hrx.
      erewrite (read_sent o s sess r (broker N) w' s) by done. exact (Hc s x Hsx Hrx).
  - destruct (write_sent o s sess ok _ w' sess' fs Hw Hs Hq Hr Hs' Hf) as [E Hsame]. split.
    + intros f. eapply rtc_r; [apply (Hb f)|]. by eapply write_refeed.
    + apply carried_insert; [done..|]. intros Hrx. rewrite E. cbn [down carry_down]. by apply rest_of_app, (Hc s x Hsx).
  - split.
    + intros f. eapply rtc_r; [apply (Hb f)|]. by apply step_turn, turn_refeed.
    + intros t y Hy Hry. cbn [broker]. rewrite (turn_sent t (broker N) w') by done. by apply Hc.
Qed.

Lemma net_reachable_projected N : net_reachable N → (∃ G, net_inv G N) ∧ projected N.
Proof.
  apply (rtc_invariant net_step (λ N, (∃ G, net_inv G N) ∧ projected N)).
  - intros N1 N2 [[G HG] HP] Hstep. split; [by apply (net_inv_step G N1)|by eapply projected_step].
  - split; [eexists; apply net_inv_new|]. split.
    + intros f. cbn [broker new_network]. rewrite refeed_new. apply rtc_refl.
    + intros s x. cbn. by rewrite lookup_empty.
Qed.

Lemma wire_carries G N s x :
  net_inv G N → carried_down N → wires N !! s = Some x → carries x (heap (broker N) !! s).
Proof.
  intros HN Hc Hsx. constructor; [|by apply Hc].
  destruct (ni_wires G N HN s x Hsx) as [(ms & -> & _ & Hu) _].
  destruct (pc <$> heap (broker N) !! s) as [[|m|]|]; cbn in Hu |- *; [..|done|].
  - destruct Hu as [Hn ->]. exists (settled G s). rewrite length_map. split; [done|]. by rewrite <-skipn_map.
  - destruct Hu as [Hn ->]. exists (settled G s). split; [|by rewrite <-skipn_map].
    change (map Encode ms) with (Encode <$> ms). by rewrite list_lookup_fmap, Hn.
  - by destruct Hu as [_ ->].
Qed.
End project.

(** ** Properties *)

(** C2: the composed system runs its parts. In every reachable state of the network: (1) the
    broker, whatever its connections will still deliver, is in a state that it reaches by
    itself through the steps of [Server], so that every theorem about a reachable broker
    holds of it; (2) every client is in a state that it reaches on its own, and every
    step it can take on its own the network can take; (3) two clients never share a
    connection, and what a client has written on the one it uses is what the network carries
    in its name; (4) each connection carries exactly what has been written and not yet read,
    in whole frames: towards the broker, all the frames of the client up to the accept, then
    those after the frame its read loop has taken last, until that loop returns; towards the
    client, the frames of the session's write loop after those its receive loop has taken,
    as long as that loop runs. *)
Theorem network_projects {R} `{SubscriptionStoreLaws R} (N : Network R) :
  net_reachable N →
  (∀ f, reachable (refeed f (broker N))) ∧ world_ok (broker N) ∧
  (∀ s x, wires N !! s = Some x → carries x (heap (broker N) !! s)) ∧
  (∀ k st, procs N !! k = Some st →
    rtc client_step initial_system st ∧
    ∃ s x, attached N !! k = Some s ∧ wires N !! s = Some x ∧ conn (client st) = Some (log x) ∧
      (∀ k', attached N !! k' = Some s → k' = k) ∧
      ∀ st', local_step st st' →
        ∃ N', net_step N N' ∧ procs N' !! k = Some st' ∧ broker N' = broker N).
Proof.
  intros [[G HN] [Hb Hc]]%net_reachable_projected. split_and!; [done|by apply (ni_world G)| |].
  { intros s x. by apply (wire_carries G). }
  intros k st Hk.
  destruct (ni_procs G N HN k st Hk) as (Hr & s & x & Hks & Hsx & Hcl). split; [done|]. exists s, x.
  split_and!; [done..|intros k' Hk'; by eapply (ni_single G N HN)|]. intros st' Hstep.
  destruct (client_reachable_frames st Hr) as [_ Hshort].
  destruct (local_step_appends st st' Hshort Hstep) as [(fs & _ & E) _]. rewrite Hcl in E. cbn in E.
  eexists. split; [by eapply ns_local|]. cbn [procs]. by rewrite lookup_insert_eq.
Qed.

Definition final_wire (s : sid) : Wire := default new_wire (wires final_network !! s).

Lemma network_projects_witness :
  reachable (refeed (λ _, [RErr EOF]) (broker final_network)) ∧
  carries (final_wire 11) (heap (broker final_network) !! 11%nat) ∧
  rtc client_step initial_system final_client.
Proof.
  destruct (network_projects final_network final_reachable) as (H1 & _ & H2 & H3). split; [exact (H1 _)|]. split.
  - apply (H2 11%nat). by vm_compute.
  - destruct (H3 0%nat final_client) as [H4 _]; [by vm_compute|exact H4].
Defined.
