(* ===== verification/NetworkLive.v ===== *)
(** * Nothing queued is stuck, and a publication can reach the callback

    The other half of [NetworkInv]: from every reachable state of the composed system in
    which a client listens (its receive loop has not returned and will not be told to by
    [c.done] or its context), a schedule of the writer, the receive loop and the processing
    goroutine hands to its callback everything that is on its way, in order and without
    loss, and then a publication that the broker is about to handle. *)

From S2P Require Import Prelude GoStrings GoIO Protocol Subject Router Session Server Broker.
From S2P Require Import Reconnect Client ClientLaws ClientSteps System ClientFrames BrokerFrames Network NetworkInv.

(** ** The deliveries meant for a subscription *)

Definition wanted (p : gostring) (ds : list Delivery) : list Delivery :=
  filter (λ d, matchSubject p (msgSubject d) = true) ds.

Lemma wanted_app p ds1 ds2 : wanted p (ds1 ++ ds2) = wanted p ds1 ++ wanted p ds2.
Proof. apply filter_app. Qed.

Lemma wanted_one p d : wanted p [d] = if matchSubject p (msgSubject d) then [d] else [].
Proof. unfold wanted. cbn. destruct (matchSubject p (msgSubject d)); [by rewrite decide_True|by rewrite decide_False]. Qed.

(** [b] has the terms of subscription [a]: the subject, the capacity, and it is active. *)
Definition same_terms (a b : Subscription) : Prop :=
  subject b = subject a ∧ chanCap b = chanCap a ∧ active b = active a.

Lemma same_terms_trans a b c : same_terms a b → same_terms b c → same_terms a c.
Proof. unfold same_terms. intros (?&?&?) (?&?&?). split_and!; congruence. Qed.

Lemma process_one_terms a : same_terms a (process_one a).
Proof. unfold process_one. by destruct (msgChan a). Qed.

Lemma handleMessage_subscriptions m c : subscriptions (handleMessage m c) = subscriptions c.
Proof.
  unfold handleMessage. case_decide.
  - generalize (subscriptions c) at 1 as l. intros l. revert c.
    induction l as [|i l IH]; intros c; [done|]. cbn [foldl]. by rewrite IH, deliver_to_eq.
  - unfold confirm. by repeat case_match.
Qed.

(** An active subscription with an empty queue takes a message that matches. *)
Lemma handleMessage_takes m c id a :
  client_ok c → subs c !! id = Some a → id ∈ subscriptions c → active a = true →
  (0 < chanCap a)%Z → msgChan a = [] →
  ∃ b, subs (handleMessage m c) !! id = Some b ∧ same_terms a b ∧ handled b = handled a ∧
    msgChan b = wanted (subject a) (deliveries [m]).
Proof.
  intros Hc Hs Hl Ha Hcap Hq. pose proof (active_open c id a Hc Hs Ha) as Hopen.
  unfold handleMessage, deliveries. cbn [omap list_omap]. case_decide as Hm.
  - destruct (deliver_all_spec (delivery_of m) (subscriptions c) c (cl_nodup c Hc)) as [Hspec _].
    unfold delivery_of in Hspec. rewrite Hspec, decide_True, Hs by done. eexists. split; [reflexivity|].
    unfold offered. rewrite Ha, wanted_one. cbn [andb msgSubject delivery_of].
    destruct (matchSubject (subject a) (Protocol.Subject m)); [|by split_and!].
    unfold TryEnqueue. rewrite Ha, Hopen, Hq. cbn [negb].
    rewrite (proj2 (Z.ltb_lt _ _)) by done. by split_and!.
  - exists a. split; [|by split_and!]. repeat case_match; by rewrite ?confirm_subs.
Qed.

Lemma handleMessage_link m c : link (handleMessage m c) = link c.
Proof.
  unfold handleMessage. case_decide.
  - generalize (subscriptions c) at 1 as l. intros l. revert c.
    induction l as [|i l IH]; intros c; [done|]. cbn [foldl]. by rewrite IH, deliver_to_eq.
  - unfold confirm. by repeat case_match.
Qed.

Section live.
Context {R : Type} `{SubscriptionStoreLaws R}.
Implicit Types N : Network R.

(** ** A client that listens

    Client [k] uses connection [s], its receive loop has not returned, and neither [c.done]
    nor the context is closed, which would make the loop leave at its next turn; [x] is the
    connection and [sess] the session at the other end, which is open; [sub] is an active
    subscription of the client with some capacity. *)
Record listening N (k s id : nat) (x : Wire) (sess : Session) (sub : Subscription) : Prop := {
  li_client : ∃ st, procs N !! k = Some st ∧ subs (client st) !! id = Some sub ∧ id ∈ subscriptions (client st);
  li_context : ∀ st, procs N !! k = Some st → done (link (client st)) = false ∧ ctxDone (link (client st)) = false;
  li_attached : attached N !! k = Some s;
  li_wire : wires N !! s = Some x;
  li_receiving : receiving x = true;
  li_session : heap (broker N) !! s = Some sess;
  li_open : closed sess = false;
  li_active : active sub = true;
  li_cap : (0 < chanCap sub)%Z;
}.

(** The broker has only written to connection [s]. *)
Definition limits (a : Session) : reader_pc * bool * Z * Z := (pc a, closed a, outCap a, maxQueuedBytes a).
Definition flushed (s : sid) (w w' : World R) : Prop :=
  router w' = router w ∧ evolves (λ y a b, limits b = limits a ∧ (y ≠ s → b = a)) w w'.

Lemma flushed_refl s w w' : w' = w → flushed s w w'.
Proof. intros ->. split; [done|]. by apply evolves_same. Qed.
Lemma flushed_trans s w1 w2 w3 : flushed s w1 w2 → flushed s w2 w3 → flushed s w1 w3.
Proof.
  intros [E1 H1] [E2 H2]. split; [congruence|]. eapply evolves_trans; [|exact H1|exact H2].
  intros y a b c [F1 G1] [F2 G2]. split; [congruence|]. intros Hy. by rewrite G2, G1.
Qed.

(** No client redials, and the supervision of no connection has done anything: what is
    delivered is delivered by the loops that run. *)
Definition undisturbed N N' : Prop :=
  attached N' = attached N ∧ ∀ j, link ∘ client <$> procs N' !! j = link ∘ client <$> procs N !! j.

Lemma undisturbed_same N N' : attached N' = attached N → procs N' = procs N → undisturbed N N'.
Proof. intros E1 E2. split; [done|]. intros j. by rewrite E2. Qed.
Lemma undisturbed_trans N1 N2 N3 : undisturbed N1 N2 → undisturbed N2 N3 → undisturbed N1 N3.
Proof. intros [E1 H1] [E2 H2]. split; [congruence|]. intros j. by rewrite H2, H1. Qed.
Lemma undisturbed_insert N k st st' b ws :
  procs N !! k = Some st → link (client st') = link (client st) →
  undisturbed N (mkNet b (<[k := st']> (procs N)) (attached N) ws).
Proof.
  intros Hk E. split; [done|]. intros j. cbn [procs]. rewrite lookup_insert. case_decide as Ej; [|done].
  subst j. rewrite Hk. cbn. by rewrite E.
Qed.
Lemma undisturbed_context N N' k :
  undisturbed N N' →
  (∀ st, procs N !! k = Some st → done (link (client st)) = false ∧ ctxDone (link (client st)) = false) →
  ∀ st, procs N' !! k = Some st → done (link (client st)) = false ∧ ctxDone (link (client st)) = false.
Proof.
  intros [_ Hl] Hc st' Hk'. specialize (Hl k). rewrite Hk' in Hl. cbn in Hl.
  destruct (procs N !! k) as [st|] eqn:Hk; [|done]. injection Hl as ->. by apply Hc.
Qed.

(** Some steps have been made, and the callback has seen the deliveries [ds] besides. *)
Definition heard (s : sid) (ds : list Delivery) N N' (sub sub' : Subscription) : Prop :=
  (rtc net_step N N' ∧ undisturbed N N') ∧ flushed s (broker N) (broker N') ∧
  same_terms sub sub' ∧ handled sub' = handled sub ++ ds.

Lemma heard_nothing s N sub : heard s [] N N sub sub.
Proof. split_and!; [apply rtc_refl|by apply undisturbed_same|by apply flushed_refl|done|by rewrite app_nil_r]. Qed.
Lemma heard_trans s ds1 ds2 N1 N2 N3 sub1 sub2 sub3 :
  heard s ds1 N1 N2 sub1 sub2 → heard s ds2 N2 N3 sub2 sub3 → heard s (ds1 ++ ds2) N1 N3 sub1 sub3.
Proof.
  intros ([R1 U1] & F1 & T1 & E1) ([R2 U2] & F2 & T2 & E2). split_and!.
  - by etrans.
  - by eapply undisturbed_trans.
  - by eapply flushed_trans.
  - by eapply same_terms_trans.
  - by rewrite E2, E1, <-app_assoc.
Qed.
Lemma heard_reachable s ds N N' sub sub' : net_reachable N → heard s ds N N' sub sub' → net_reachable N'.
Proof. intros Hr [[Hs _] _]. unfold net_reachable in *. by etrans. Qed.

(** ** Single steps *)

(** What the invariant says of the client that listens. *)
Lemma listening_conn N k s id x sess sub :
  net_reachable N → listening N k s id x sess sub →
  ∃ st, procs N !! k = Some st ∧ subs (client st) !! id = Some sub ∧ id ∈ subscriptions (client st) ∧
    conn (client st) = Some (log x) ∧ client_ok (client st).
Proof.
  intros [G HN]%net_reachable_inv [(st & Hk & Hs & Hl) _ Hks Hsx _ _ _ _ _]. exists st. split_and!; [done..| |].
  - destruct (ni_procs G N HN k st Hk) as (_ & s' & x' & Hs' & Hx' & Hc). congruence.
  - destruct (ni_procs G N HN k st Hk) as (Hr & _). by apply sy_client, system_reachable_ok.
Qed.

(** The callback runs on the oldest message of the queue. *)
Lemma callback_step N k s id x sess sub d q :
  net_reachable N → listening N k s id x sess sub → msgChan sub = d :: q →
  ∃ N' sub', heard s [d] N N' sub sub' ∧ listening N' k s id x sess sub' ∧ msgChan sub' = q.
Proof.
  intros HN HL Hq. destruct (listening_conn _ _ _ _ _ _ _ HN HL) as (st & Hk & Hs & Hl & Hc & _).
  destruct HL as [_ Hctx Hks Hsx Hrc Hh Hcl Ha Hcap]. destruct (process_one_terms sub) as (E1 & E2 & E3).
  assert (carry_up [] x = x) as Ex by (destruct x; unfold carry_up; cbn; by rewrite !app_nil_r).
  set (st' := mkSystem (upd_sub id process_one (client st)) (calls st) (handles st)).
  assert (undisturbed N (mkNet (broker N) (<[k := st']> (procs N)) (attached N) (wires N))) as Hu
    by by eapply undisturbed_insert.
  exists (mkNet (broker N) (<[k := st']> (procs N)) (attached N) (wires N)), (process_one sub).
  split_and!; [split_and!| |by unfold process_one; rewrite Hq].
  - apply rtc_once. pose proof (ns_local N k s st _ x (log x) [] Hk Hks Hsx (ls_process id st) Hc) as Hstep.
    rewrite Ex, (insert_id (wires N) s x Hsx) in Hstep. apply Hstep. cbn. by rewrite app_nil_r.
  - done.
  - by apply flushed_refl.
  - done.
  - unfold process_one. by rewrite Hq.
  - constructor; try done; [|by eapply undisturbed_context|congruence|by rewrite E2].
    exists st'. cbn [procs]. rewrite lookup_insert_eq. split; [done|]. cbn [client upd_sub set_subs subs subscriptions st'].
    by rewrite lookup_alter_eq, Hs.
Qed.

Lemma callbacks_run N k s id x sess sub :
  net_reachable N → listening N k s id x sess sub →
  ∃ N' sub', heard s (msgChan sub) N N' sub sub' ∧ listening N' k s id x sess sub' ∧ msgChan sub' = [].
Proof.
  remember (msgChan sub) as q eqn:Hq. revert N sub Hq. induction q as [|d q IH]; intros N sub Hq HN HL.
  - exists N, sub. by split; [apply heard_nothing|].
  - destruct (callback_step _ _ _ _ _ _ _ d q HN HL) as (N1 & sub1 & H1 & L1 & Q1); [done|].
    destruct (IH N1 sub1 (eq_sym Q1) (heard_reachable _ _ _ _ _ _ HN H1) L1) as (N2 & sub2 & H2 & L2 & Q2).
    exists N2, sub2. split_and!; [|done..]. change (d :: q) with ([d] ++ q). by eapply heard_trans.
Qed.

(** The receive loop passes the checks at its top. *)
Lemma loop_reads N k s id x sess sub :
  net_reachable N → listening N k s id x sess sub →
  ∃ N', heard s [] N N' sub sub ∧ listening N' k s id (set_down (down x) Reading x) sess sub.
Proof.
  intros HN HL. destruct (listening_conn _ _ _ _ _ _ _ HN HL) as (st & Hk & Hs & Hl & Hc & _).
  destruct (loop_at x) eqn:Hloop.
  - destruct HL as [_ Hctx Hks Hsx Hrc Hh Hcl Ha Hcap]. destruct (Hctx st Hk) as [Hd Hx].
    set (st' := mkSystem (client st) (calls st) (handles st)).
    set (N' := mkNet (broker N) (<[k := st']> (procs N)) (attached N) (<[s := set_down (down x) Reading x]> (wires N))).
    assert (undisturbed N N') as Hu by by eapply undisturbed_insert.
    exists N'. split; [split_and!|]; [|done|by apply flushed_refl|done|by rewrite app_nil_r|].
    + apply rtc_once. eapply ns_poll; try done. apply receive_poll_reads; [done..|by eexists].
    + constructor; try done; [|by eapply undisturbed_context|cbn; by rewrite lookup_insert_eq].
      exists st'. cbn [procs N']. by rewrite lookup_insert_eq.
  - exists N. split; [apply heard_nothing|]. by destruct x; cbn in Hloop; subst.
  - pose proof (li_receiving _ _ _ _ _ _ _ HL) as Hrc. unfold receiving in Hrc. by rewrite Hloop in Hrc.
Qed.

(** It then takes a frame that has arrived whole, and the callback runs. *)
Lemma frame_read N k s id x sess sub m rest :
  net_reachable N → listening N k s id x sess sub → loop_at x = Reading → msgChan sub = [] → wire_ok m →
  down x = Encode m ++ rest →
  ∃ N' sub', heard s (wanted (subject sub) (deliveries [m])) N N' sub sub' ∧
    listening N' k s id (set_down rest LoopTop x) sess sub' ∧ msgChan sub' = [].
Proof.
  intros HN HL Hloop Hq Hm Hd. destruct (listening_conn _ _ _ _ _ _ _ HN HL) as (st & Hk & Hs & Hl & Hc & Hok).
  destruct HL as [_ Hctx Hks Hsx Hrc Hh Hcl Ha Hcap].
  destruct (handleMessage_takes m (client st) id sub Hok Hs Hl Ha Hcap Hq) as (sub1 & Hs1 & (T1 & T2 & T3) & E1 & Q1).
  destruct (receive_read_frame m [RChunk (Encode m)] [] (client st) Hm eq_refl) as (r' & HP & Hr').
  set (st' := mkSystem (handleMessage m (client st)) (calls st) (handles st)).
  set (N1 := mkNet (broker N) (<[k := st']> (procs N)) (attached N) (<[s := set_down rest LoopTop x]> (wires N))).
  assert (undisturbed N N1) as Hu by by eapply undisturbed_insert; [|apply handleMessage_link].
  assert (heard s [] N N1 sub sub1) as H1.
  { split_and!; [|done|by apply flushed_refl|done|by rewrite app_nil_r].
    apply rtc_once. pose proof (ns_receive N k s st x [RChunk (Encode m)] r' rest (handleMessage m (client st)) LoopTop Hk Hks Hsx Hloop) as Hstep.
    rewrite Hr' in Hstep. apply Hstep; [|exact HP]. cbn. by rewrite app_nil_r. }
  assert (listening N1 k s id (set_down rest LoopTop x) sess sub1) as L1.
  { constructor; try done; cbn [procs wires N1];
      [|exact (undisturbed_context N N1 k Hu Hctx)|by rewrite lookup_insert_eq|congruence|by rewrite T2].
    exists st'. rewrite lookup_insert_eq. split; [done|]. cbn [client st']. by rewrite handleMessage_subscriptions. }
  destruct (callbacks_run N1 k s id _ sess sub1 (heard_reachable _ _ _ _ _ _ HN H1) L1) as (N2 & sub2 & H2 & L2 & Q2).
  exists N2, sub2. split_and!; [|done..]. rewrite Q1 in H2. by apply (heard_trans s [] _ N N1 N2 sub sub1 sub2).
Qed.

Lemma frame_heard N k s id x sess sub m rest :
  net_reachable N → listening N k s id x sess sub → msgChan sub = [] → wire_ok m →
  down x = Encode m ++ rest →
  ∃ N' sub', heard s (wanted (subject sub) (deliveries [m])) N N' sub sub' ∧
    listening N' k s id (set_down rest LoopTop x) sess sub' ∧ msgChan sub' = [].
Proof.
  intros HN HL Hq Hm Hd. destruct (loop_reads _ _ _ _ _ _ _ HN HL) as (N1 & H1 & L1).
  destruct (frame_read N1 k s id _ sess sub m rest (heard_reachable _ _ _ _ _ _ HN H1) L1)
    as (N2 & sub2 & H2 & L2 & Q2); [done..|].
  exists N2, sub2. split_and!; [|done..]. by apply (heard_trans s [] _ N N1 N2 sub sub sub2).
Qed.

(** The write loop sends the oldest frame of the queue. *)
Lemma frame_written N k s id x sess sub data out :
  net_reachable N → listening N k s id x sess sub → outChan sess = data :: out →
  ∃ N' sess', heard s [] N N' sub sub ∧ listening N' k s id (carry_down [data] x) sess' sub ∧ outChan sess' = out.
Proof.
  intros HN HL Hq. destruct (net_reachable_inv N HN) as [G HG]. pose proof (ni_world G N HG) as Hw.
  destruct HL as [Hc Hctx Hks Hsx Hrc Hh Hcl Ha Hcap].
  assert (∃ n, dequeue sess = Some (data, set_queue out n sess)) as (n & Hd)
    by (unfold dequeue; rewrite Hq; by eexists).
  set (sess' := set_sent (conn_sent sess ++ [data]) (set_queue out n sess)).
  assert (writer_turn in_order s true (broker N) = Ret (tt, upd s sess' (broker N))) as Hrun.
  { unfold writer_turn. rewrite (bind_run _ _ _ _ _ (get_session_run _ _ _ Hh)), Hd.
    rewrite (bind_run _ _ _ _ _ (put_session_run _ _ _)), (modify_session_run _ _ _ _ (heap_upd _ _ _)).
    by rewrite upd_upd. }
  exists (mkNet (upd s sess' (broker N)) (procs N) (attached N) (<[s := carry_down [data] x]> (wires N))), sess'.
  split_and!; [split_and!| |done].
  - apply rtc_once. eapply ns_write; [done..|by rewrite Hq|exact Hrun|apply heap_upd|done].
  - by apply undisturbed_same.
  - split; [done|]. eapply (evolves_insert (λ y a b, limits b = limits a ∧ (y ≠ s → b = a))); done.
  - done.
  - by rewrite app_nil_r.
  - constructor; try done; cbn [broker wires]; [by rewrite lookup_insert_eq|apply heap_upd].
Qed.

(** ** Emptying the connection *)

Lemma arrived_heard ms N k s id x sess sub :
  net_reachable N → listening N k s id x sess sub → msgChan sub = [] → Forall wire_ok ms →
  down x = concat (map Encode ms) →
  ∃ N' x' sub', heard s (wanted (subject sub) (deliveries ms)) N N' sub sub' ∧
    listening N' k s id x' sess sub' ∧ msgChan sub' = [] ∧ down x' = [].
Proof.
  revert N x sub. induction ms as [|m ms IH]; intros N x sub HN HL Hq Hms Hd.
  - exists N, x, sub. split_and!; [apply heard_nothing|done..].
  - apply Forall_cons in Hms as [Hm Hms]. cbn in Hd.
    destruct (frame_heard _ _ _ _ _ _ _ m _ HN HL Hq Hm Hd) as (N1 & sub1 & H1 & L1 & Q1).
    destruct (IH N1 _ sub1 (heard_reachable _ _ _ _ _ _ HN H1) L1 Q1 Hms eq_refl) as (N2 & x2 & sub2 & H2 & L2 & Q2 & D2).
    exists N2, x2, sub2. split_and!; [|done..].
    change (m :: ms) with ([m] ++ ms). rewrite deliveries_app, wanted_app.
    destruct H1 as (? & ? & T1 & ?). destruct (T1) as (ET & _). rewrite ET in H2. by eapply heard_trans.
Qed.

Lemma queue_heard ms N k s id x sess sub :
  net_reachable N → listening N k s id x sess sub → msgChan sub = [] → Forall wire_ok ms →
  down x = [] → outChan sess = map Encode ms →
  ∃ N' x' sess' sub', heard s (wanted (subject sub) (deliveries ms)) N N' sub sub' ∧
    listening N' k s id x' sess' sub' ∧ msgChan sub' = [] ∧ down x' = [] ∧ outChan sess' = [].
Proof.
  revert N x sess sub. induction ms as [|m ms IH]; intros N x sess sub HN HL Hq Hms Hd Ho.
  - exists N, x, sess, sub. split_and!; [apply heard_nothing|done..].
  - apply Forall_cons in Hms as [Hm Hms]. cbn in Ho.
    destruct (frame_written _ _ _ _ _ _ _ _ _ HN HL Ho) as (N1 & sess1 & H1 & L1 & O1).
    pose proof (heard_reachable _ _ _ _ _ _ HN H1) as HN1.
    destruct (arrived_heard [m] N1 _ _ _ _ _ _ HN1 L1 Hq) as (N2 & x2 & sub2 & H2 & L2 & Q2 & D2).
    { by constructor. }
    { cbn [down carry_down]. by rewrite Hd. }
    destruct (IH N2 x2 sess1 sub2 (heard_reachable _ _ _ _ _ _ HN1 H2) L2 Q2 Hms D2 O1)
      as (N3 & x3 & sess3 & sub3 & H3 & L3 & Q3 & D3 & O3).
    exists N3, x3, sess3, sub3. split_and!; [|done..].
    change (m :: ms) with ([m] ++ ms). rewrite deliveries_app, wanted_app.
    destruct (H2) as (_ & _ & (ET & _) & _). rewrite ET in H3.
    eapply (heard_trans s _ _ N N2); [|exact H3]. by apply (heard_trans s [] _ N N1 N2 sub sub sub2).
Qed.

(** The bytes in flight and the frames in the queue are those of some messages; all of them
    can be heard. *)
Lemma connection_flushed N k s id x sess sub :
  net_reachable N → listening N k s id x sess sub →
  ∃ ms, Forall wire_ok ms ∧ down x ++ concat (outChan sess) = concat (map Encode ms) ∧
    ∃ N' x' sess' sub', heard s (msgChan sub ++ wanted (subject sub) (deliveries ms)) N N' sub sub' ∧
      listening N' k s id x' sess' sub' ∧ msgChan sub' = [] ∧ down x' = [] ∧ outChan sess' = [].
Proof.
  intros HN HL. destruct (net_reachable_inv N HN) as [G HG].
  destruct (ni_wires G N HG s x (li_wire _ _ _ _ _ _ _ HL)) as [_ (ms1 & ms2 & Hd & Ho & Hok & _)].
  rewrite (li_session _ _ _ _ _ _ _ HL) in Ho. cbn [queue_of] in Ho.
  specialize (Hd (li_receiving _ _ _ _ _ _ _ HL)). exists (ms1 ++ ms2).
  split_and!; [done|by rewrite map_app, concat_app, Hd, Ho|]. apply Forall_app in Hok as [Hok1 Hok2].
  destruct (callbacks_run _ _ _ _ _ _ _ HN HL) as (N0 & sub0 & J0 & L0 & Q0).
  pose proof (heard_reachable _ _ _ _ _ _ HN J0) as HN0.
  destruct (arrived_heard ms1 N0 k s id x sess sub0 HN0 L0 Q0 Hok1 Hd) as (N1 & x1 & sub1 & J1 & L1 & Q1 & D1).
  pose proof (heard_reachable _ _ _ _ _ _ HN0 J1) as HN1.
  destruct (queue_heard ms2 N1 k s id x1 sess sub1 HN1 L1 Q1 Hok2 D1 Ho) as (N2 & x2 & sess2 & sub2 & J2 & L2).
  exists N2, x2, sess2, sub2. split; [|done].
  destruct (J0) as (_ & _ & (E0 & _) & _). destruct (J1) as (_ & _ & (E1 & _) & _).
  rewrite E1, E0 in J2. rewrite E0 in J1. rewrite deliveries_app, wanted_app.
  eapply heard_trans; [exact J0|]. by eapply heard_trans.
Qed.

(** ** Handling a publication *)

Definition relayed (msg : Message) : list byte :=
  Encode (NewMessageCmd CmdMsg (Protocol.Subject msg) (Payload msg)).

Lemma reader_handle_publish w t tsess msg :
  world_ok w → heap w !! t = Some tsess → wire_ok msg → Command msg = CmdPub →
  ∃ w', reader_handle in_order t msg w = Ret (tt, w') ∧
    ∀ y a, heap w !! y = Some a → concerned w (Protocol.Subject msg) y →
      ∃ b, heap w' !! y = Some b ∧ closed b = closed (sent_session (enqueueEncoded (relayed msg) a)) ∧
        outChan b = outChan (sent_session (enqueueEncoded (relayed msg) a)).
Proof.
  intros Hw Ht Hm Hc. destruct (handlePublish_effect w in_order msg Hw Hm) as (w1 & Hrun & _ & Heff).
  destruct (HandleMessage_ok in_order t msg w tsess Hw Ht Hm) as (err & w2 & HH & Hw1 & Hg).
  assert (HandleMessage in_order t msg w = Ret (None, w1)) as HH'
    by (unfold HandleMessage; repeat case_decide; by rewrite ?Hc in *).
  rewrite HH' in HH. injection HH as <- <-.
  destruct (Hg t) as [t1 Ht1]; [by eexists|]. eexists. split.
  - unfold reader_handle. rewrite (bind_run _ _ _ _ _ HH').
    rewrite (bind_run _ _ w1 tt w1 eq_refl), (bind_run _ _ _ _ _ (set_lastPing_run t w1 t1 (wo_held _ Hw1) Ht1)).
    by rewrite (modify_session_run _ _ _ _ (heap_upd _ _ _)), upd_upd.
  - intros y a Ha Hy. destruct (Heff y a Ha) as [Hb _]. specialize (Hb Hy). fold (relayed msg) in Hb.
    destruct (decide (t = y)) as [<-|Hne]; [|rewrite heap_upd_ne by done; by eexists].
    rewrite heap_upd. eexists. split; [done|]. rewrite Ht1 in Hb. injection Hb as <-. done.
Qed.

Lemma publication_queued N k s id x sess sub t tsess msg :
  net_reachable N → listening N k s id x sess sub →
  heap (broker N) !! t = Some tsess → pc tsess = Holding msg → Command msg = CmdPub →
  concerned (broker N) (Protocol.Subject msg) s →
  outChan sess = [] → (0 < outCap sess)%Z → (len (relayed msg) <= maxQueuedBytes sess)%Z →
  ∃ N' sess', net_step N N' ∧ undisturbed N N' ∧ listening N' k s id x sess' sub ∧ outChan sess' = [relayed msg].
Proof.
  intros HN HL Ht Hpc Hc Hcon Ho Hcap Hlen. destruct (net_reachable_inv N HN) as [G HG].
  pose proof (ni_world G N HG) as Hw. pose proof (so_pc tsess (world_ok_session _ _ _ Hw Ht) msg Hpc) as Hm.
  destruct (reader_handle_publish _ t tsess msg Hw Ht Hm Hc) as (w' & Hrun & Heff).
  destruct HL as [Hcl Hctx Hks Hsx Hrc Hh Hop Ha Hac]. destruct (Heff s sess Hh Hcon) as (b & Hb & Eb & Qb).
  pose proof (world_ok_queue _ _ _ Hw Hh) as Hq.
  assert (good_frame (relayed msg)) as Hfr by by apply relay_frame.
  assert (has_room (relayed msg) sess) as Hroom
    by (unfold has_room; rewrite (queue_bytes _ Hq), Ho; split_and!; [done|cbn; lia|done]).
  rewrite (enqueue_room _ _ Hq Hfr Hroom) in Eb, Qb.
  exists (mkNet w' (procs N) (attached N) (wires N)), b. split_and!.
  - by eapply ns_turn, turn_handle.
  - by apply undisturbed_same.
  - constructor; try done. cbn in Eb. congruence.
  - rewrite Qb. cbn. by rewrite Ho.
Qed.
End live.

(** ** Properties *)

(** C4: nothing on its way is stuck or lost. In every reachable state of the composed system
    in which a client listens (its receive loop has not returned and neither [c.done] nor its
    context is closed, the session at the other end is open, the subscription is active), the
    bytes in flight and the frames queued at the broker are the encodings of some messages,
    and the run can be continued, without redialling and without any change to the
    supervision of any client, until the callback has seen the rest of its queue and then
    exactly the deliveries among these messages that match, in order, and nothing is left in
    flight or queued. *)
Theorem nothing_is_stuck {R} `{SubscriptionStoreLaws R} (N : Network R) k s id x sess sub :
  net_reachable N → listening N k s id x sess sub →
  ∃ ms, down x ++ concat (outChan sess) = concat (map Encode ms) ∧
    ∃ N' x' sess' sub', rtc net_step N N' ∧ undisturbed N N' ∧ listening N' k s id x' sess' sub' ∧
      handled sub' = handled sub ++ msgChan sub ++ wanted (subject sub) (deliveries ms) ∧
      msgChan sub' = [] ∧ down x' = [] ∧ outChan sess' = [].
Proof.
  intros HN HL. destruct (connection_flushed N k s id x sess sub HN HL)
    as (ms & _ & Hms & N' & x' & sess' & sub' & ([Hrun Hu] & _ & _ & Hh) & HL' & HQ).
  exists ms. split; [done|]. by exists N', x', sess', sub'.
Qed.

(** C3: a publication can reach the callback. Whenever the broker is about to handle a
    publication that concerns the session of a client that listens (as in
    [nothing_is_stuck]), that matches the client's subscription, and whose frame is no longer
    than the session's byte limit, with a queue of at least one place: whatever else is on
    its way, the run can be continued, without redialling and without any change to the
    supervision of any client, until the callback has seen everything that was on its way and
    then the publication, with the subject and the data the publisher gave. *)
Theorem publication_reaches_callback {R} `{SubscriptionStoreLaws R} (N : Network R) k s id x sess sub t tsess msg :
  net_reachable N → listening N k s id x sess sub →
  heap (broker N) !! t = Some tsess → pc tsess = Holding msg → Command msg = CmdPub →
  concerned (broker N) (Protocol.Subject msg) s →
  matchSubject (subject sub) (Protocol.Subject msg) = true →
  (0 < outCap sess)%Z → (len (relayed msg) <= maxQueuedBytes sess)%Z →
  ∃ ms N' x' sess' sub', down x ++ concat (outChan sess) = concat (map Encode ms) ∧
    rtc net_step N N' ∧ undisturbed N N' ∧ listening N' k s id x' sess' sub' ∧
    handled sub' = handled sub ++ msgChan sub ++ wanted (subject sub) (deliveries ms) ++ [delivery_of msg].
Proof.
  intros HN HL Ht Hpc Hc Hcon Hmatch Hcap Hlen.
  destruct (connection_flushed N k s id x sess sub HN HL)
    as (ms & _ & Hms & N1 & x1 & sess1 & sub1 & J1 & L1 & Q1 & D1 & O1).
  pose proof (heard_reachable _ _ _ _ _ _ HN J1) as HN1. destruct (J1) as ([Hrun Hu1] & [Hro Hev] & (E1 & _) & Hh1).
  destruct (evolves_lookup _ _ _ _ _ Hev Ht) as (t1 & Ht1 & Hlt & _). injection Hlt as Hpc1 _ _ _.
  destruct (evolves_lookup _ _ _ _ _ Hev (li_session _ _ _ _ _ _ _ HL)) as (a & Ha & Hls & _).
  rewrite (li_session _ _ _ _ _ _ _ L1) in Ha. injection Ha as <-. injection Hls as _ _ Ecap Emax.
  destruct (publication_queued N1 k s id x1 sess1 sub1 t t1 msg HN1 L1 Ht1) as (N2 & sess2 & Hstep & Hu2 & L2 & O2);
    [congruence|done| |done|congruence..|].
  { unfold concerned. by rewrite Hro. }
  pose proof (rtc_r _ _ _ HN1 Hstep) as HN2.
  pose proof (so_pc tsess) as Hm. destruct (net_reachable_inv N HN) as [G HG].
  specialize (Hm (world_ok_session _ _ _ (ni_world G N HG) Ht) msg Hpc).
  destruct (queue_heard [NewMessageCmd CmdMsg (Protocol.Subject msg) (Payload msg)] N2 k s id x1 sess2 sub1 HN2 L2 Q1)
    as (N3 & x3 & sess3 & sub3 & J3 & L3 & _); [by constructor|done|done|].
  exists ms, N3, x3, sess3, sub3. destruct J3 as ([Hrun3 Hu3] & _ & _ & Hh3). split_and!; [done| | |done|].
  - etrans; [exact Hrun|]. by eapply rtc_l.
  - eapply undisturbed_trans; [exact Hu1|]. by eapply undisturbed_trans.
  - rewrite Hh3, Hh1, E1, <-!app_assoc. do 3 f_equal. unfold deliveries. cbn [omap list_omap]. rewrite decide_True by done.
    rewrite wanted_one. unfold delivery_of at 1. cbn [msgSubject Protocol.Subject NewMessageCmd]. by rewrite Hmatch.
Qed.

(** The two clients of [Network], after the first publication has been queued and while the
    broker holds the third. *)
Definition waiting_network : Network Router := default new_network (perform_all (take 19 two_clients) new_network).
Definition waiting_wire : Wire := default new_wire (wires waiting_network !! 10%nat).
Definition waiting_session (s : sid) : Session :=
  default (NewSession [] 0 0 0 0) (heap (broker waiting_network) !! s).
Definition waiting_sub : Subscription :=
  default (mkSub [] false [] 0 false [] 0 0 false)
    (st ← procs waiting_network !! 0%nat; subs (client st) !! 0%nat).
Definition held_publication : Message := NewMessageCmd CmdPub (str "a.c") (str "ho").

Lemma waiting_reachable : net_reachable waiting_network.
Proof.
  assert (perform_all (take 19 two_clients) new_network = Some waiting_network) as E by (by vm_compute).
  eapply perform_all_reachable; [apply rtc_refl|exact E].
Qed.

Lemma waiting_listening : listening waiting_network 0 10 0 waiting_wire (waiting_session 10) waiting_sub.
Proof.
  assert ((λ st, (done (link (client st)), ctxDone (link (client st)))) <$> procs waiting_network !! 0%nat
          = Some (false, false)) as E by by vm_compute.
  constructor; [| |by vm_compute..].
  - exists (default initial_system (procs waiting_network !! 0%nat)).
    split_and!; [by vm_compute..|]. apply (bool_decide_unpack _). by vm_compute.
  - intros st Hst. rewrite Hst in E. clear Hst. by injection E.
Qed.

Lemma waiting_history ds :
  handled waiting_sub ++ msgChan waiting_sub ++ wanted (subject waiting_sub) ds = wanted (str "a.*") ds.
Proof.
  assert (handled waiting_sub = [] ∧ msgChan waiting_sub = [] ∧ subject waiting_sub = str "a.*") as (-> & -> & ->)
    by (split_and!; by vm_compute).
  done.
Qed.

Lemma nothing_is_stuck_witness :
  ∃ ms, concat (map Encode ms) = relayed (NewMessageCmd CmdPub (str "a.b") (str "hi")) ∧
    ∃ N' sess' sub', rtc net_step waiting_network N' ∧ outChan sess' = [] ∧
      handled sub' = wanted (str "a.*") (deliveries ms).
Proof.
  destruct (nothing_is_stuck waiting_network 0 10 0 waiting_wire (waiting_session 10) waiting_sub
    waiting_reachable waiting_listening) as (ms & E & N' & x' & sess' & sub' & Hrun & _ & _ & Hh & _ & _ & Ho).
  exists ms. split; [rewrite <-E; by vm_compute|]. exists N', sess', sub'.
  split_and!; [exact Hrun|exact Ho|]. rewrite Hh. apply waiting_history.
Defined.

Lemma publication_reaches_callback_witness :
  ∃ ms N' sub', rtc net_step waiting_network N' ∧
    handled sub' = wanted (str "a.*") (deliveries ms) ++ [mkDelivery (str "a.c") (str "ho")].
Proof.
  destruct (publication_reaches_callback waiting_network 0 10 0 waiting_wire (waiting_session 10) waiting_sub
    11 (waiting_session 11) held_publication waiting_reachable waiting_listening)
    as (ms & N' & x' & sess' & sub' & _ & Hrun & _ & _ & Hh); [by vm_compute..| |by vm_compute|by vm_compute|by vm_compute|].
  - exists (str "a.*"). split; [|by vm_compute]. apply (bool_decide_unpack _). by vm_compute.
  - exists ms, N', sub'. split; [exact Hrun|]. rewrite Hh, !(app_assoc (msgChan _)), app_assoc, waiting_history. exact eq_refl.
Defined.
