(* ===== verification/Relay.v ===== *)
(** * The relay programs ([src/examples/h264-relay], [src/examples/kcpq-to-nats])

    Two programs on top of the client: one receives datagrams and publishes each with a
    time stamp in front, the other subscribes, strips the stamp and publishes to a NATS
    server. Start-up of the key (shared by the server's program), the two loops, their
    counters, and the subscription in channel mode ([SubscribeChanWithContext]) between
    them. The NATS client and the socket are the environment. *)

From S2P Require Import Prelude GoStrings GoIO Protocol Subject.
From S2P Require Import Reconnect Client ClientLaws Crypto.

(** ** [encoding/hex] *)

Definition hex_digit (b : byte) : option Z :=
  let v := byte_val b in
  if (48 <=? v)%Z && (v <=? 57)%Z then Some (v - 48)%Z
  else if (97 <=? v)%Z && (v <=? 102)%Z then Some (v - 87)%Z
  else if (65 <=? v)%Z && (v <=? 70)%Z then Some (v - 55)%Z
  else None.

Inductive hex_error := InvalidByteError (b : byte) | ErrLength.

Fixpoint DecodeString (s : gostring) : list byte + hex_error :=
  match s with
  | [] => inl []
  | p :: s =>
      match hex_digit p, s with
      | None, _ => inr (InvalidByteError p)
      | Some _, [] => inr ErrLength
      | Some a, q :: s =>
          match hex_digit q with
          | None => inr (InvalidByteError q)
          | Some b =>
              match DecodeString s with
              | inl key => inl (byte_of (Z.lor (Z.shiftl a 4) b) :: key)
              | inr e => inr e
              end
          end
      end
  end.

(** ** Start-up *)

Inductive key_error := KeyMissing | KeyInvalid (e : hex_error) | KeyLength (n : Z).

(** The key, in the [main] of the three programs: the configured text, or the environment's
    if it is set; every error ends the program. *)
Definition startup_key (configured environment : gostring) : list byte + key_error :=
  let keyHex := if decide (environment = []) then configured else environment in
  if decide (keyHex = []) then inr KeyMissing
  else match DecodeString keyHex with
       | inr e => inr (KeyInvalid e)
       | inl key => if negb (len key =? 32)%Z then inr (KeyLength (len key)) else inl key
       end.

(** The interval [connectToKCPQ] passes to [EnableAutoReconnect]; [None]: not called. *)
Definition reconnect_interval (autoReconnect : bool) (configured : Z) : option Z :=
  if autoReconnect then Some (if (configured =? 0)%Z then 5 * second else configured)%Z else None.

(** ** Counters *)

Definition uint64 (v : Z) : Z := (v mod 2 ^ 64)%Z.

Record counters := mkCounters { TotalFrames : Z; TotalBytes : Z; ErrorCount : Z }.
Definition no_counts : counters := mkCounters 0 0 0.
Definition count_frame (n : Z) (s : counters) : counters :=
  mkCounters (uint64 (TotalFrames s + 1)) (uint64 (TotalBytes s + uint64 n)) (ErrorCount s).
Definition count_error (s : counters) : counters :=
  mkCounters (TotalFrames s) (TotalBytes s) (uint64 (ErrorCount s + 1)).

(** ** The relay *)

Record H264Relay := mkRelay {
  topic : gostring;                (** [config.Subject] *)
  stats : counters;
  kcpClient : option Client;
  initialized : bool;
  cancelled : bool;                (** [ctx] *)
}.
Definition set_relay (s : counters) (c : option Client) (r : H264Relay) : H264Relay :=
  mkRelay (topic r) s c (initialized r) (cancelled r).

(** [NewH264Relay] *)
Definition NewH264Relay (subject : gostring) : H264Relay := mkRelay subject no_counts None false false.

Section connecting.
Context {BC CipherError DialError : Type}.
Context (NewAESBlockCrypt : list byte → BC + CipherError) (Dial : gostring → option DialError).

Inductive relay_error :=
| RelayKeyLength (n : Z)
| RelayConnect (e : connect_error (CipherError := CipherError) (DialError := DialError)).

(** [connectToKCPQ] of both programs: the length of the key is checked once more, and a
    client is connected with the relay's context, reconnecting by itself if configured. *)
Definition connectToKCPQ (addr : gostring) (key : list byte) (autoReconnect : bool) (interval : Z)
    (r : H264Relay) : H264Relay * option relay_error :=
  if negb (len key =? 32)%Z then (r, Some (RelayKeyLength (len key)))
  else match ConnectWithContext NewAESBlockCrypt Dial (cancelled r) addr key with
       | inr e => (r, Some (RelayConnect e))
       | inl c =>
           let cli := client c in
           let cli := match reconnect_interval autoReconnect interval with
                      | Some d => set_link (EnableAutoReconnect d (link cli)) cli
                      | None => cli
                      end in
           (mkRelay (topic r) (stats r) (Some cli) true (cancelled r), None)
       end.
End connecting.

Definition publishToKCPQ (data : list byte) (frameSize : Z) (write_ok : bool) (r : H264Relay) : H264Relay :=
  match initialized r, kcpClient r with
  | true, Some c =>
      match Publish (cancelled r) write_ok (topic r) data c with
      | (Some _, c) => set_relay (count_error (stats r)) (Some c) r
      | (None, c) => set_relay (count_frame frameSize (stats r)) (Some c) r
      end
  | _, _ => set_relay (count_error (stats r)) (kcpClient r) r
  end.

(** What [ReadFromUDP] returns in a turn, with the clock and the outcome of the write that
    follows; [UdpCancel] is [Stop] cancelling the context between two turns. *)
Inductive udp_event :=
| UdpTimeout
| UdpError
| UdpPacket (datagram : list byte) (now : Z) (write_ok : bool)
| UdpCancel.

Definition udp_buffer : Z := 65536.

Definition udp_turn (e : udp_event) (r : H264Relay) : H264Relay :=
  match e with
  | UdpTimeout => r
  | UdpError => set_relay (count_error (stats r)) (kcpClient r) r
  | UdpPacket datagram now write_ok =>
      let n := Z.min (len datagram) udp_buffer in
      let data := take (Z.to_nat n) datagram in
      let message := PutUint64 (uint64 now) ++ data in
      publishToKCPQ message n write_ok r
  | UdpCancel => mkRelay (topic r) (stats r) (kcpClient r) (initialized r) true
  end.

(** The loop leaves when the context is cancelled. *)
Fixpoint UDPReceiver (events : list udp_event) (r : H264Relay) : H264Relay :=
  match events with
  | [] => r
  | e :: events => if cancelled r then r else UDPReceiver events (udp_turn e r)
  end.

(** ** Channel mode *)

(** The channel [SubscribeChanWithContext] returns, and how many messages its callback
    dropped because it was full. *)
Record user_chan := mkChan { pending : list Delivery; capacity : Z; lost : nat }.

(** The callback [SubscribeChanWithContext] installs: a non-blocking send. *)
Definition chan_callback (msg : Delivery) (ch : user_chan) : user_chan :=
  if (len (pending ch) <? capacity ch)%Z
  then mkChan (pending ch ++ [msg]) (capacity ch) (lost ch)
  else mkChan (pending ch) (capacity ch) (S (lost ch)).

(** [SubscribeChanWithContext]: the channel is returned with the subscription, or closed. *)
Definition SubscribeChan (subj : gostring) (cap : Z) (env : Z → round) (c : Client) :
    outcome ((user_chan * subid + client_error) * Client) :=
  let cap := if (cap <=? 0)%Z then 100%Z else cap in
  do r ← SubscribeWithOptions subj cap env c;
  match r with
  | (inl id, c) => Ret (inl (mkChan [] cap 0, id), c)
  | (inr e, c) => Ret (inr e, c)
  end.

(** ** The forwarder *)

Record Forwarder := mkForwarder {
  natsSubject : gostring;
  fstats : counters;
  natsPublished : list (gostring * list byte);    (** the successful [natsConn.Publish] calls *)
  msgChannel : user_chan;
}.

(** [Forwarder.handleMessage]; [nats_ok] is the outcome of [natsConn.Publish]. *)
Definition forward_message (nats_ok : bool) (msg : Delivery) (f : Forwarder) : Forwarder :=
  if (len (msgData msg) <? 8)%Z
  then mkForwarder (natsSubject f) (count_error (fstats f)) (natsPublished f) (msgChannel f)
  else
    let h264Data := drop 8 (msgData msg) in
    if nats_ok
    then mkForwarder (natsSubject f) (count_frame (len h264Data) (fstats f))
           (natsPublished f ++ [(natsSubject f, h264Data)]) (msgChannel f)
    else mkForwarder (natsSubject f) (count_error (fstats f)) (natsPublished f) (msgChannel f).

Definition set_msgChannel (ch : user_chan) (f : Forwarder) : Forwarder :=
  mkForwarder (natsSubject f) (fstats f) (natsPublished f) ch.

(** One turn of [handleMessagesFromChannel]: the oldest message of the channel. *)
Definition forward_turn (nats_ok : bool) (f : Forwarder) : Forwarder :=
  match pending (msgChannel f) with
  | [] => f
  | m :: q => forward_message nats_ok m (set_msgChannel (mkChan q (capacity (msgChannel f)) (lost (msgChannel f))) f)
  end.

(** The subscription's goroutine runs the callback while the forwarder's goroutine reads
    the channel. *)
Inductive forward_event := Called (msg : Delivery) | Turn (nats_ok : bool).
Definition forward_step (f : Forwarder) (e : forward_event) : Forwarder :=
  match e with
  | Called msg => set_msgChannel (chan_callback msg (msgChannel f)) f
  | Turn nats_ok => forward_turn nats_ok f
  end.
Definition forward_all (es : list forward_event) (f : Forwarder) : Forwarder := foldl forward_step f es.

(** ** The key *)

Lemma hex_digit_range b a : hex_digit b = Some a → (0 <= a < 16)%Z.
Proof. unfold hex_digit. repeat case_match; intros [= <-]; lia. Qed.

(** The two digits of every byte of a key. *)
Definition digits_of (key : list byte) : list (option Z) :=
  concat (map (λ b, [Some (byte_val b / 16); Some (byte_val b mod 16)]%Z) key).

Lemma nibbles_join a b : (0 <= a < 16)%Z → (0 <= b < 16)%Z →
  byte_val (byte_of (Z.lor (Z.shiftl a 4) b)) = (a * 16 + b)%Z.
Proof.
  intros Ha Hb. rewrite Z.lor_comm, (lor_shiftl_add b a 4) by (change (2 ^ 4)%Z with 16%Z; lia).
  rewrite byte_val_of, Z.mod_small by (change (2 ^ 4)%Z with 16%Z; lia). change (2 ^ 4)%Z with 16%Z. lia.
Qed.

Lemma nibbles_split a b v : (0 <= a < 16)%Z → (0 <= b < 16)%Z → v = (a * 16 + b)%Z →
  (v / 16 = a ∧ v mod 16 = b)%Z.
Proof. intros Ha Hb ->. split; [symmetry; apply (Z.div_unique _ _ _ b)|symmetry; apply (Z.mod_unique _ _ a)]; lia. Qed.

(** [DecodeString] accepts exactly the texts whose characters are the digits, in either
    case, of the bytes it returns. *)
Lemma DecodeString_spec s key : DecodeString s = inl key ↔ map hex_digit s = digits_of key.
Proof.
  revert key. induction s as [s IH] using (induction_ltof1 _ (@length byte)); intros key.
  destruct s as [|p [|q s]]; cbn [DecodeString map].
  - split; [by intros [= <-]|]. by destruct key.
  - destruct (hex_digit p); (split; [done|]); destruct key; discriminate.
  - destruct (hex_digit p) as [a|] eqn:Ea; [|split; [done|]; destruct key; discriminate].
    destruct (hex_digit q) as [b|] eqn:Eb; [|split; [done|]; destruct key; discriminate].
    pose proof (hex_digit_range p a Ea) as Ha. pose proof (hex_digit_range q b Eb) as Hb.
    assert (∀ key, DecodeString s = inl key ↔ map hex_digit s = digits_of key) as Hs
      by (apply IH; unfold ltof; cbn; lia).
    destruct (nibbles_split a b _ Ha Hb (nibbles_join a b Ha Hb)) as [Hdiv Hmod].
    split.
    + destruct (DecodeString s) as [k|]; [|done]. intros [= <-]. rewrite (proj1 (Hs k) eq_refl).
      unfold digits_of. cbn [map concat app]. by rewrite Hdiv, Hmod.
    + destruct key as [|x key]; [done|]. unfold digits_of. cbn [map concat app]. intros [= Hx Hy Hr].
      rewrite (proj2 (Hs key) Hr). do 2 f_equal. apply byte_val_inj. rewrite nibbles_join by done.
      subst. pose proof (Z.div_mod (byte_val x) 16). lia.
Qed.

(** The three programs start exactly when the text they are given (the environment's
    if it is set) consists of the hexadecimal digits of 32 bytes, in upper or lower case,
    and then with these bytes as the key; the length check of [newAES256BlockCrypt] cannot
    fail on it. *)
Theorem startup_key_exact configured environment key :
  (startup_key configured environment = inl key ↔
   len key = 32%Z ∧
   map hex_digit (if decide (environment = []) then configured else environment) = digits_of key) ∧
  (startup_key configured environment = inl key →
   ∀ (BC E : Type) (aes : list byte → BC + E) n, newAES256BlockCrypt aes key ≠ inr (ErrKeyLength n)).
Proof.
  unfold startup_key. set (text := if decide (environment = []) then configured else environment).
  assert ((if decide (text = []) then inr KeyMissing
           else match DecodeString text with
                | inl key => if negb (len key =? 32)%Z then inr (KeyLength (len key)) else inl key
                | inr e => inr (KeyInvalid e) end) = inl key ↔
          len key = 32%Z ∧ map hex_digit text = digits_of key) as Hiff.
  { rewrite <-DecodeString_spec. case_decide as Ht; [rewrite Ht; cbn; by split; [|intros [Hl [= <-]]]|].
    destruct (DecodeString text) as [k|e]; [|by split; [|intros []]].
    destruct (Z.eqb_spec (len k) 32); cbn [negb]; split; naive_solver. }
  split; [exact Hiff|]. intros [Hl _]%Hiff BC E aes n. unfold newAES256BlockCrypt. rewrite Hl.
  cbn. by destruct (aes key).
Qed.

(** The key of [replicate 32 0xab], written with both cases. *)
Definition mixed_case : gostring := concat (replicate 32 (str "aB")).

Lemma startup_key_exact_witness :
  map hex_digit mixed_case = digits_of (replicate 32 Byte.xab) ∧
  startup_key [] mixed_case = inl (replicate 32 Byte.xab) ∧
  newAES256BlockCrypt (λ k, inl k : list byte + unit) (replicate 32 Byte.xab) ≠ inr (ErrKeyLength 32).
Proof.
  destruct (startup_key_exact [] mixed_case (replicate 32 Byte.xab)) as [Hiff Hlen].
  assert (startup_key [] mixed_case = inl (replicate 32 Byte.xab)) as Hkey by (vm_compute; reflexivity).
  split; [apply (proj2 (proj1 Hiff Hkey))|]. split; [exact Hkey|].
  apply (Hlen Hkey (list byte) unit (λ k, inl k) 32%Z).
Defined.

(** ** Subscribing in channel mode *)

(** On a connected client the call returns; on success the channel is empty, has room for at
    least one message, and comes with an active subscription the client lists. *)
Lemma SubscribeChan_returns c subj cap env :
  client_ok c → is_Some (conn c) →
  ∃ res c', SubscribeChan subj cap env c = Ret (res, c') ∧ client_ok c' ∧ is_Some (conn c') ∧
    match res with
    | inl (ch, id) =>
        pending ch = [] ∧ (0 < capacity ch)%Z ∧ lost ch = 0%nat ∧ id ∈ subscriptions c' ∧
        ∃ s, subs c' !! id = Some s ∧ subject s = subj ∧ active s = true
    | inr _ => True
    end.
Proof.
  intros Hc Hconn. unfold SubscribeChan, SubscribeWithOptions.
  set (cap1 := if (cap <=? 0)%Z then 100%Z else cap).
  assert (0 < cap1)%Z as Hcap by (unfold cap1; destruct (Z.leb_spec cap 0); lia).
  rewrite (proj2 (Z.leb_gt cap1 0)) by done. destruct (_ <? _)%Z; [by eexists _, _|].
  destruct (attempts_spec 3 0 subj cap1 env ErrNoConnection c Hcap Hc Hconn ltac:(done))
    as (res & c' & -> & Hc' & Hconn' & Hres).
  cbn [obind]. destruct res as [id|e]; [|by eexists _, _].
  destruct Hres as [Hl (s & Hs & Hsh)]. injection Hsh as ? ? _.
  eexists _, _. split_and!; [done|done|done|]. split_and!; try done; [rewrite Hl; set_solver|]. by exists s.
Qed.

(** ** The relay's loop *)

Definition stamped (p : list byte * Z) : list byte :=
  PutUint64 (uint64 p.2) ++ take (Z.to_nat (Z.min (len p.1) udp_buffer)) p.1.
Definition packet_event (p : list byte * Z) : udp_event := UdpPacket p.1 p.2 true.
Definition publication (subject : gostring) (p : list byte * Z) : Protocol.Message :=
  NewMessageCmd CmdPub subject (stamped p).

Lemma stamped_length p : (8 <= len (stamped p) <= 8 + udp_buffer)%Z.
Proof. unfold stamped, PutUint64, udp_buffer. len_lia. Qed.

Lemma stamped_data p : drop 8 (stamped p) = take (Z.to_nat udp_buffer) p.1.
Proof.
  unfold stamped, PutUint64. cbn [app drop]. unfold len.
  destruct (decide (Z.of_nat (length p.1) <= udp_buffer)%Z).
  - rewrite Z.min_l, Nat2Z.id by done. rewrite !take_ge by lia. done.
  - by rewrite Z.min_r by lia.
Qed.

Lemma publication_ok subject p : (len subject <= MaxSubjectLen)%Z → wire_ok (publication subject p).
Proof.
  intros Hs. pose proof (stamped_length p). unfold wire_ok, body_len, publication. cbn [Protocol.Subject Payload NewMessageCmd].
  unfold udp_buffer, MaxSubjectLen, MaxBodyLen in *. lia.
Qed.

(** The relay is connected: what [connectToKCPQ] establishes. *)
Record relay_ready (c : Client) (l : list (list byte)) (r : H264Relay) : Prop := {
  rr_init : initialized r = true;
  rr_client : kcpClient r = Some c;
  rr_open : cancelled r = false;
  rr_conn : conn c = Some l;
  rr_topic : (len (topic r) <= MaxSubjectLen)%Z;
}.

(** [connectToKCPQ] of a fresh relay makes it ready or fails without touching it; it cannot
    fail for the key that [startup_key] let through, only for the cipher or the network. *)
Lemma connectToKCPQ_ready {BC CE DE} (aes : list byte → BC + CE) (Dial : gostring → option DE)
    addr key auto interval subject r' err :
  (len subject <= MaxSubjectLen)%Z →
  connectToKCPQ aes Dial addr key auto interval (NewH264Relay subject) = (r', err) →
  match err with
  | None => ∃ c, relay_ready c [] r' ∧ topic r' = subject ∧ stats r' = no_counts ∧
              autoReconnect (link c) = auto
  | Some e => r' = NewH264Relay subject ∧ (len key = 32%Z → ∀ n, e ≠ RelayKeyLength n)
  end.
Proof.
  intros Hs. unfold connectToKCPQ. destruct (Z.eqb_spec (len key) 32); cbn [negb]; [|by intros [= <- <-]].
  unfold ConnectWithContext. cbn [cancelled NewH264Relay].
  destruct (newAES256BlockCrypt aes key); [|by intros [= <- <-]].
  destruct (Dial addr); [by intros [= <- <-]|]. intros [= <- <-].
  destruct auto; eexists; (split; [by constructor|done]).
Qed.

Lemma Publish_written subj data c l :
  conn c = Some l → wire_ok (NewMessageCmd CmdPub subj data) →
  Publish false true subj data c = (None, set_written (Some (l ++ [Encode (NewMessageCmd CmdPub subj data)])) c).
Proof.
  intros Hl [Hs Hb]. unfold Publish. cbn [Protocol.Subject Payload NewMessageCmd] in *. unfold body_len in Hb. cbn [Protocol.Subject Payload NewMessageCmd] in Hb.
  rewrite (proj2 (Z.ltb_ge _ _)), (proj2 (Z.ltb_ge _ _)), Hl by done. unfold write. by rewrite Hl.
Qed.

Lemma udp_turn_packet p c l r :
  relay_ready c l r →
  ∃ c', relay_ready c' (l ++ [Encode (publication (topic r) p)]) (udp_turn (packet_event p) r) ∧
    topic (udp_turn (packet_event p) r) = topic r ∧
    stats (udp_turn (packet_event p) r) = count_frame (Z.min (len p.1) udp_buffer) (stats r).
Proof.
  intros [Hi Hk Ho Hc Ht]. unfold packet_event. cbn [udp_turn]. fold (stamped p).
  unfold publishToKCPQ. rewrite Hi, Hk, Ho.
  rewrite (Publish_written _ _ c l) by (done || by apply publication_ok).
  eexists. split_and!; [|done|done]. by constructor.
Qed.

Lemma UDPReceiver_packets ps c l r :
  relay_ready c l r →
  ∃ c', relay_ready c' (l ++ map (λ p, Encode (publication (topic r) p)) ps) (UDPReceiver (map packet_event ps) r) ∧
    stats (UDPReceiver (map packet_event ps) r) =
      foldl (λ s p, count_frame (Z.min (len p.1) udp_buffer) s) (stats r) ps.
Proof.
  revert c l r. induction ps as [|p ps IH]; intros c l r Hr; cbn [map UDPReceiver foldl].
  - exists c. by rewrite app_nil_r.
  - rewrite (rr_open _ _ _ Hr). destruct (udp_turn_packet p c l r Hr) as (c1 & Hr1 & Ht & Hst).
    destruct (IH _ _ _ Hr1) as (c2 & Hr2 & Hst2). exists c2. rewrite Hst2, Hst. split; [|done].
    by rewrite Ht, <-app_assoc in Hr2.
Qed.

(** Whatever happens on the socket and on the connection, a turn counts at most one thing: a
    frame exactly when one was written. *)
Lemma udp_turn_counts e r :
  let r' := udp_turn e r in
  (stats r' = stats r ∧ kcpClient r' = kcpClient r) ∨
  (stats r' = count_error (stats r) ∧ ((kcpClient r' ≫= conn) = (kcpClient r ≫= conn))) ∨
  (∃ n l frame, stats r' = count_frame n (stats r) ∧ (0 <= n <= udp_buffer)%Z ∧
     (kcpClient r ≫= conn) = Some l ∧ (kcpClient r' ≫= conn) = Some (l ++ [frame])).
Proof.
  destruct e as [| |d t w|]; cbn [udp_turn]; [by left|by right; left| |by left].
  set (n := Z.min (len d) udp_buffer). assert (0 <= n <= udp_buffer)%Z as Hn
    by (unfold n, udp_buffer; pose proof (len_nonneg d); lia). set (m := _ ++ _).
  right. unfold publishToKCPQ. destruct (initialized r); [|by left].
  destruct (kcpClient r) as [c|] eqn:Hk; [|by left; rewrite <-Hk].
  unfold Publish. destruct (cancelled r); [by left|]. destruct (_ <? _)%Z; [by left|].
  destruct (_ <? _)%Z; [by left|]. destruct (conn c) as [l|] eqn:Hc; [|left; split; [done|cbn; by rewrite Hc]].
  destruct w; [|left; split; [done|cbn; by rewrite Hc]].
  right. exists n, l, (Encode (NewMessageCmd CmdPub (topic r) m)). cbn. rewrite Hc. done.
Qed.

(** ** The forwarder's loop *)

Definition called (es : list forward_event) : list Delivery :=
  omap (λ e, match e with Called m => Some m | Turn _ => None end) es.
Definition all_published (es : list forward_event) : Prop :=
  Forall (λ e, match e with Turn ok => ok = true | Called _ => True end) es.
Definition to_nats (f : Forwarder) (m : Delivery) : gostring * list byte := (natsSubject f, drop 8 (msgData m)).

(** What the forwarder has published and what still waits in the channel, as one sequence. *)
Definition progress (f : Forwarder) : list (gostring * list byte) :=
  natsPublished f ++ map (to_nats f) (pending (msgChannel f)).

Lemma forward_step_lost f e : (lost (msgChannel f) ≤ lost (msgChannel (forward_step f e)))%nat.
Proof.
  destruct e as [m|ok]; cbn [forward_step].
  - cbn. unfold chan_callback. case_match; cbn; lia.
  - unfold forward_turn, forward_message. repeat case_match; cbn; lia.
Qed.
Lemma forward_all_lost es f : (lost (msgChannel f) ≤ lost (msgChannel (forward_all es f)))%nat.
Proof.
  revert f. induction es as [|e es IH]; intros f; [done|]. cbn [forward_all foldl].
  etransitivity; [apply (forward_step_lost f e)|apply IH].
Qed.

Lemma forward_step_progress f e :
  Forall (λ m, 8 <= len (msgData m))%Z (pending (msgChannel f) ++ called [e]) →
  all_published [e] → lost (msgChannel (forward_step f e)) = lost (msgChannel f) →
  progress (forward_step f e) = progress f ++ map (to_nats f) (called [e]) ∧
  natsSubject (forward_step f e) = natsSubject f ∧
  ErrorCount (fstats (forward_step f e)) = ErrorCount (fstats f) ∧
  Forall (λ m, 8 <= len (msgData m))%Z (pending (msgChannel (forward_step f e))).
Proof.
  intros [Hq Hc]%Forall_app Hok Hlost. unfold all_published in Hok. apply Forall_cons in Hok as [Hok _]. unfold progress.
  destruct e as [m|ok]; cbn [forward_step called omap list_omap] in *.
  - unfold chan_callback in *. case_match; cbn in *; [|lia]. split_and!; try done.
    + by rewrite map_app, app_assoc.
    + by apply Forall_app.
  - assert (ok = true) as -> by exact Hok. unfold forward_turn. destruct (pending (msgChannel f)) as [|m q] eqn:E.
    { rewrite E. by rewrite !app_nil_r. }
    apply Forall_cons in Hq as [Hm Hq]. unfold forward_message.
    rewrite (proj2 (Z.ltb_ge _ _)) by done. cbn. rewrite app_nil_r, <-app_assoc. done.
Qed.

Lemma forward_all_progress es f :
  Forall (λ m, 8 <= len (msgData m))%Z (pending (msgChannel f) ++ called es) →
  all_published es → lost (msgChannel (forward_all es f)) = lost (msgChannel f) →
  progress (forward_all es f) = progress f ++ map (to_nats f) (called es) ∧
  ErrorCount (fstats (forward_all es f)) = ErrorCount (fstats f).
Proof.
  revert f. induction es as [|e es IH]; intros f Hm Hok Hlost; [by rewrite app_nil_r|].
  assert (called (e :: es) = called [e] ++ called es) as Hcalled by (by destruct e).
  rewrite Hcalled, app_assoc in Hm. apply Forall_app in Hm as [Hm Hms].
  unfold all_published in Hok. apply Forall_cons in Hok as [He Hes].
  change (forward_all (e :: es) f) with (forward_all es (forward_step f e)) in *.
  pose proof (forward_step_lost f e). pose proof (forward_all_lost es (forward_step f e)).
  destruct (forward_step_progress f e Hm) as (Hp & Hsubj & Herr & Hq);
    [by apply Forall_singleton|lia|].
  destruct (IH (forward_step f e)) as [Hp2 Herr2]; [by apply Forall_app|done|lia|].
  rewrite Hp2, Hp, Herr2, Herr, Hcalled, map_app, app_assoc. split; [|done]. f_equal.
  apply map_ext. intros m. unfold to_nats. by rewrite Hsubj.
Qed.

(** A channel that can hold everything never drops. *)
Lemma forward_all_room es f :
  (len (pending (msgChannel f)) + len (called es) <= capacity (msgChannel f))%Z →
  lost (msgChannel (forward_all es f)) = lost (msgChannel f).
Proof.
  revert f. induction es as [|e es IH]; intros f Hroom; [done|].
  change (forward_all (e :: es) f) with (forward_all es (forward_step f e)).
  pose proof (len_nonneg (called es)).
  destruct e as [m|ok]; cbn [called omap list_omap forward_step] in *; fold (called es) in *.
  - rewrite IH; cbn; unfold chan_callback; rewrite (proj2 (Z.ltb_lt _ _)) by len_lia; cbn; [done|len_lia].
  - assert (msgChannel (forward_turn ok f) =
      mkChan (tail (pending (msgChannel f))) (capacity (msgChannel f)) (lost (msgChannel f))) as E.
    { unfold forward_turn, forward_message. destruct (msgChannel f) as [[|m q] cap n] eqn:Ef; cbn; [done|].
      by repeat case_match. }
    rewrite IH; rewrite E; cbn; [done|]. destruct (pending (msgChannel f)); cbn [tail]; len_lia.
Qed.

(** C28: what the relay receives on its socket is what the forwarder publishes to NATS. With a
    connected relay, every sequence of datagrams becomes a sequence of [PUB] frames on the
    connection (none is refused, each is counted with its size), read back from the
    connection's bytes in any chunks as messages on the relay's subject; and a forwarder that
    gets their payloads through its channel publishes, under every interleaving of the
    channel's writer and reader, the datagrams (cut to the 64 KiB of the socket buffer) in
    order and without the time stamp, up to those still in the channel, counting no error,
    if the channel drops nothing, which its capacity can guarantee. *)
Theorem relay_roundtrip ps c l r :
  relay_ready c l r →
  let r' := UDPReceiver (map packet_event ps) r in
  let msgs := map (publication (topic r)) ps in
  (∃ c', relay_ready c' (l ++ map Encode msgs) r') ∧
  stats r' = foldl (λ s p, count_frame (Z.min (len p.1) udp_buffer) s) (stats r) ps ∧
  (∀ rd rest, stream rd = concat (map Encode msgs) ++ rest →
     ∃ rd', read_messages (length ps) rd = Ret (map inl msgs, rd') ∧ stream rd' = rest) ∧
  ∀ f es,
    called es = map (λ m, mkDelivery (Protocol.Subject m) (Payload m)) msgs →
    all_published es → pending (msgChannel f) = [] →
    ((len ps <= capacity (msgChannel f))%Z → lost (msgChannel (forward_all es f)) = lost (msgChannel f)) ∧
    (lost (msgChannel (forward_all es f)) = lost (msgChannel f) →
     progress (forward_all es f) =
       natsPublished f ++ map (λ p, (natsSubject f, take (Z.to_nat udp_buffer) p.1)) ps ∧
     ErrorCount (fstats (forward_all es f)) = ErrorCount (fstats f)).
Proof.
  intros Hr r' msgs. destruct (UDPReceiver_packets ps c l r Hr) as (c' & Hr' & Hst).
  unfold msgs. split_and!; [exists c'; by rewrite map_map|exact Hst|..].
  - intros rd rest Hrd. rewrite <-(length_map (publication (topic r)) ps).
    apply read_encodings; [|done].
    apply Forall_map, Forall_true. intros p. by eapply publication_ok, rr_topic.
  - intros f es Hes Hok Hq. split.
    + intros Hcap. apply forward_all_room. rewrite Hq, Hes. unfold len in *. rewrite !length_map. exact Hcap.
    + intros Hlost. destruct (forward_all_progress es f) as [Hp He]; [|done..|].
      * rewrite Hq, Hes, !map_map. apply Forall_map, Forall_true. intros p. apply (stamped_length p).
      * split; [|done]. rewrite Hp, Hes, !map_map. unfold progress. rewrite Hq, app_nil_r. f_equal.
        apply map_ext. intros p. unfold to_nats. cbn [msgData Payload publication NewMessageCmd].
        by rewrite stamped_data.
Qed.

Definition demo_relay : H264Relay := mkRelay (str "h264.stream") no_counts (Some new_client) true false.
Definition demo_forwarder : Forwarder := mkForwarder (str "nats.out") no_counts [] (mkChan [] 1000 0).
Definition demo_packets : list (list byte * Z) := [(str "frame1", 5%Z); ([], (-1)%Z)].
Definition demo_schedule : list forward_event :=
  [Called (mkDelivery (str "h264.stream") (stamped (str "frame1", 5%Z))); Turn true;
   Called (mkDelivery (str "h264.stream") (stamped ([], (-1)%Z)))].

Lemma relay_roundtrip_witness :
  progress (forward_all demo_schedule demo_forwarder) = [(str "nats.out", str "frame1"); (str "nats.out", [])] ∧
  natsPublished (forward_all demo_schedule demo_forwarder) = [(str "nats.out", str "frame1")].
Proof.
  destruct (relay_roundtrip demo_packets new_client [] demo_relay) as (_ & _ & _ & Hf).
  - constructor; try reflexivity. vm_compute. discriminate.
  - destruct (Hf demo_forwarder demo_schedule) as [Hroom Hprog].
    + reflexivity.
    + repeat constructor.
    + reflexivity.
    + destruct Hprog as [Hp _]; [apply Hroom; vm_compute; discriminate|].
      split; [rewrite Hp; vm_compute; reflexivity|vm_compute; reflexivity].
Defined.
