(* ===== verification/Pool.v ===== *)
(** * Buffer pools ([src/server/pool.go])

    The two pools of reusable buffers, over an abstract [sync.Pool]: [Get] returns any value
    that was put, or makes a new one, and the garbage collector may drop what is pooled.
    Buffers are shared by pointer, so they have addresses in one heap. *)

From S2P Require Import Prelude.

(** A byte slice or [bytes.Buffer]: its length and capacity. *)
Record buffer := mkBuffer { blen : Z; bcap : Z }.

Record pools := mkPools {
  buffers : gmap nat buffer;
  pooled : list nat;          (** what [sync.Pool] holds *)
  held : gset nat;            (** what callers have got and not put back *)
  next : nat;
}.
Definition new_pools : pools := mkPools ∅ [] ∅ 0.

(** The two pools differ in the capacity of a new buffer and in the limit for putting back. *)
Record pool_kind := mkKind { initial : Z; limit : Z }.
Definition bufferPool : pool_kind := mkKind 0 (Z.shiftl 1 20).
Definition bytesPool : pool_kind := mkKind 4096 (Z.shiftl 1 16).

(** [sync.Pool.Get]: [Some i] picks the [i]th pooled value; without one, [New] runs. *)
Definition pool_get (k : pool_kind) (pick : option nat) (p : pools) : nat * pools :=
  match pick ≫= λ i, pooled p !! i with
  | Some b => (b, mkPools (buffers p) (delete (default 0 pick) (pooled p)) (held p) (next p))
  | None => (next p, mkPools (<[next p := mkBuffer 0 (initial k)]> (buffers p)) (pooled p) (held p) (S (next p)))
  end.

(** [getBuffer] and [getBytes]: the length is reset. *)
Definition getBuffer (k : pool_kind) (pick : option nat) (p : pools) : nat * pools :=
  let '(b, p) := pool_get k pick p in
  (b, mkPools (alter (λ x, mkBuffer 0 (bcap x)) b (buffers p)) (pooled p) ({[b]} ∪ held p) (next p)).

(** [putBuffer] and [putBytes]: large ones are left to the collector. *)
Definition putBuffer (k : pool_kind) (b : nat) (p : pools) : pools :=
  match buffers p !! b with
  | Some x =>
      mkPools (buffers p) (if (bcap x <? limit k)%Z then pooled p ++ [b] else pooled p) (held p ∖ {[b]}) (next p)
  | None => p
  end.

Definition getBytes : option nat → pools → nat * pools := getBuffer bytesPool.
Definition putBytes : nat → pools → pools := putBuffer bytesPool.

(** Callers get, write into what they hold (which may grow it), put back what they hold, and
    the collector drops. *)
Inductive pools_step (k : pool_kind) : pools → pools → Prop :=
| po_get pick p : pools_step k p (getBuffer k pick p).2
| po_put b p : b ∈ held p → pools_step k p (putBuffer k b p)
| po_write b n cap p :
    b ∈ held p → (0 <= n <= cap)%Z →
    pools_step k p (mkPools (<[b := mkBuffer n cap]> (buffers p)) (pooled p) (held p) (next p))
| po_collect i p : pools_step k p (mkPools (buffers p) (delete i (pooled p)) (held p) (next p)).

(** Pooled buffers are below the limit, pooled once and held by nobody. *)
Record pools_ok (k : pool_kind) (p : pools) : Prop := {
  pk_nodup : NoDup (pooled p);
  pk_held : ∀ b, b ∈ pooled p → b ∉ held p;
  pk_limit : ∀ b, b ∈ pooled p → ∃ x, buffers p !! b = Some x ∧ (bcap x < limit k)%Z;
  pk_exists : ∀ b, b ∈ held p → is_Some (buffers p !! b);
  pk_fresh : ∀ b, (next p <= b)%nat → buffers p !! b = None;
}.

Lemma elem_of_delete_list {A} (l : list A) i x : x ∈ delete i l → x ∈ l.
Proof. intros H. eapply elem_of_sublist; [exact H|apply sublist_delete]. Qed.

Lemma NoDup_delete {A} (l : list A) i x : NoDup l → l !! i = Some x → NoDup (delete i l) ∧ x ∉ delete i l.
Proof.
  intros Hn Hi. rewrite <-(take_drop_middle l i x Hi) in Hn. rewrite delete_take_drop.
  rewrite NoDup_app, NoDup_cons in Hn. destruct Hn as (H1 & H2 & H3 & H4). split.
  - apply NoDup_app. split_and!; [done| |done]. intros y Hy Hd. apply (H2 y Hy). by right.
  - rewrite elem_of_app. intros [Hx|Hx]; [|done]. apply (H2 x Hx). left.
Qed.

(** [Get] gives an existing, empty buffer that is neither pooled any more nor held by anyone
    else, below the limit unless it is new. *)
Lemma getBuffer_spec k pick p :
  pools_ok k p →
  let b := (getBuffer k pick p).1 in let p' := (getBuffer k pick p).2 in
  pools_ok k p' ∧ (b ∉ held p) ∧ held p' = {[b]} ∪ held p ∧ (b ∉ pooled p') ∧
  ∃ x, buffers p' !! b = Some x ∧ blen x = 0%Z ∧ ((bcap x < limit k)%Z ∨ bcap x = initial k).
Proof.
  intros [Hn Hh Hl He Hf]. unfold getBuffer, pool_get.
  destruct (pick ≫= λ i, pooled p !! i) as [b|] eqn:Hp; cbn [fst snd].
  - destruct pick as [i|]; [|done]. cbn in Hp |- *. destruct (NoDup_delete _ _ _ Hn Hp) as [Hn' Hnot].
    assert (b ∈ pooled p) as Hb by (by eapply list_elem_of_lookup_2).
    destruct (Hl b Hb) as (x & Hx & Hcap). split_and!; [|by apply Hh|done|done|].
    + constructor; cbn; [done|..].
      * intros y Hy. rewrite not_elem_of_union, not_elem_of_singleton. split; [by intros ->|].
        by apply Hh, (elem_of_delete_list _ i).
      * intros y Hy. assert (y ≠ b) by (by intros ->). rewrite lookup_alter_ne by done.
        by apply Hl, (elem_of_delete_list _ i).
      * intros y. rewrite elem_of_union, elem_of_singleton. intros Hy. destruct (decide (y = b)) as [->|].
        { rewrite lookup_alter_eq, Hx. by eexists. }
        rewrite lookup_alter_ne by done. apply He. tauto.
      * intros y Hy. assert (y ≠ b) by (intros ->; specialize (Hf b Hy); congruence).
        rewrite lookup_alter_ne by done. by apply Hf.
    + rewrite lookup_alter_eq, Hx. eexists. split; [reflexivity|]. split; [done|]. by left.
  - assert (∀ y, is_Some (buffers p !! y) → y ≠ next p) as Hne.
    { intros y [z Hz] ->. specialize (Hf (next p) ltac:(done)). congruence. }
    assert (next p ∉ held p) as Hnh by (intros H%He; by apply (Hne _ H)).
    assert (next p ∉ pooled p) as Hnp by (intros (x & Hx & _)%Hl; by apply (Hne (next p)); [eexists|]).
    split_and!; [|done|done|done|].
    + constructor; cbn; [done|..].
      * intros y Hy. rewrite not_elem_of_union, not_elem_of_singleton. split; [by intros ->|by apply Hh].
      * intros y Hy. assert (next p ≠ y) by (by intros <-).
        rewrite lookup_alter_ne, lookup_insert_ne by done. by apply Hl.
      * intros y. rewrite elem_of_union, elem_of_singleton. intros Hy. destruct (decide (y = next p)) as [->|].
        { rewrite lookup_alter_eq, lookup_insert_eq. by eexists. }
        rewrite lookup_alter_ne, lookup_insert_ne by done. apply He. tauto.
      * intros y Hy. rewrite lookup_alter_ne, lookup_insert_ne by lia. apply Hf. lia.
    + cbn. rewrite lookup_alter_eq, lookup_insert_eq. eexists. split; [reflexivity|]. split; [done|]. by right.
Qed.

Lemma pools_step_ok k p p' : pools_ok k p → pools_step k p p' → pools_ok k p'.
Proof.
  intros Hok Hstep. destruct Hstep as [pick p|b p Hb|b n cap p Hb Hn|i p].
  - by destruct (getBuffer_spec k pick p Hok) as [? _].
  - destruct Hok as [Hn Hh Hl He Hf]. unfold putBuffer. destruct (He b Hb) as [x Hx]. rewrite Hx.
    assert (b ∉ pooled p) as Hnp by (intros Hp; by apply (Hh b Hp)).
    destruct (Z.ltb_spec (bcap x) (limit k)); constructor; cbn; try done.
    + by apply NoDup_snoc.
    + intros y. rewrite elem_of_app, list_elem_of_singleton, elem_of_difference, elem_of_singleton.
      intros [Hy| ->] [Hy' Hne]; [by apply (Hh y Hy)|by apply Hne].
    + intros y. rewrite elem_of_app, list_elem_of_singleton. intros [Hy| ->]; [by apply Hl|by exists x].
    + intros y [Hy _]%elem_of_difference. by apply He.
    + intros y Hy [Hy' _]%elem_of_difference. by apply (Hh y Hy).
    + intros y [Hy _]%elem_of_difference. by apply He.
  - destruct Hok as [Hnd Hh Hl He Hf]. constructor; cbn; try done.
    + intros y Hy. assert (b ≠ y) by (intros ->; by apply (Hh y Hy)). rewrite lookup_insert_ne by done. by apply Hl.
    + intros y Hy. destruct (decide (b = y)) as [->|]; [rewrite lookup_insert_eq; by eexists|].
      rewrite lookup_insert_ne by done. by apply He.
    + intros y Hy. destruct (He b Hb) as [x Hx]. assert (b ≠ y) by (intros ->; specialize (Hf y Hy); congruence).
      rewrite lookup_insert_ne by done. by apply Hf.
  - destruct Hok as [Hnd Hh Hl He Hf]. constructor; cbn; try done.
    + eapply sublist_NoDup; [exact Hnd|apply sublist_delete].
    + intros y Hy. by apply Hh, (elem_of_delete_list _ i).
    + intros y Hy. by apply Hl, (elem_of_delete_list _ i).
Qed.

(** However callers and the collector interleave, a buffer has one owner at a time and what
    is pooled stays small. *)
Theorem pools_exclusive k pick p :
  rtc (pools_step k) new_pools p →
  pools_ok k p ∧
  (let b := (getBuffer k pick p).1 in let p' := (getBuffer k pick p).2 in
  (b ∉ held p) ∧ held p' = {[b]} ∪ held p ∧ (b ∉ pooled p') ∧
  ∃ x, buffers p' !! b = Some x ∧ blen x = 0%Z ∧ ((bcap x < limit k)%Z ∨ bcap x = initial k)).
Proof.
  intros Hr. assert (pools_ok k p) as Hok.
  { revert Hr. apply rtc_invariant; [apply pools_step_ok|]. constructor; cbn; try done.
    all: try (by intros b ?%elem_of_nil). constructor. }
  split; [done|]. cbv zeta. by destruct (getBuffer_spec k pick p Hok) as (_ & ? & ? & ? & ?).
Qed.
