(* ===== verification/GoFloat.v ===== *)
(** * [float64]

    The numbers of type [float64] and their operations, from the standard specification of
    the binary64 format (53 bits of mantissa, exponents below 1024, rounding to nearest,
    ties to even), with the magnitude of a result bounded by the magnitudes of its operands:
    what the programs print is a quotient or product of counters, and the lemmas decide
    when it is a finite number. *)

From Stdlib Require Import SpecFloat.
From S2P Require Import Prelude.

(** ** Operations *)

Abbreviation float64 := spec_float.

(** The conversion of an integer. *)
Definition float_of_int (n : Z) : float64 := binary_normalize 53 1024 n 0 false.
Arguments float_of_int _ : simpl never.
Definition fdiv (x y : float64) : float64 := SFdiv 53 1024 x y.
Definition fmul (x y : float64) : float64 := SFmul 53 1024 x y.
Definition fadd (x y : float64) : float64 := SFadd 53 1024 x y.
Arguments fdiv _ _ : simpl never.
Arguments fmul _ _ : simpl never.
Arguments fadd _ _ : simpl never.
Definition fopp (x : float64) : float64 := SFopp x.
Definition fltb (x y : float64) : bool := SFltb x y.
Definition feqb (x y : float64) : bool := SFeqb x y.
Definition fzero : float64 := S754_zero false.
Definition is_nan (x : float64) : bool := match x with S754_nan => true | _ => false end.

Declare Scope float_scope.
Delimit Scope float_scope with float.
Infix "/" := fdiv : float_scope.
Infix "*" := fmul : float_scope.
Infix "+" := fadd : float_scope.

(** [time.Duration.Seconds] and [time.Duration.Microseconds]. *)
Definition Seconds (d : Z) : float64 :=
  (float_of_int (Z.quot d (10 ^ 9)) + float_of_int (Z.rem d (10 ^ 9)) / float_of_int (10 ^ 9))%float.
Definition Microseconds (d : Z) : Z := Z.quot d 1000.

Example seconds_1_5 : (Seconds 1500000000 / float_of_int 3)%float = fdiv (float_of_int 1) (float_of_int 2).
Proof. by vm_compute. Qed.

(** ** Magnitudes *)

(** The exponent of the first power of two above a positive finite number. *)
Definition mag (m : positive) (e : Z) : Z := (Zpos (digits2_pos m) + e)%Z.

Lemma digits_range p : (2 ^ (Zpos (digits2_pos p) - 1) <= Zpos p < 2 ^ Zpos (digits2_pos p))%Z.
Proof.
  induction p as [p IH|p IH|]; cbn [digits2_pos]; [..|done];
    rewrite Pos2Z.inj_succ; replace (Z.succ (Z.pos (digits2_pos p)) - 1)%Z with (Z.succ (Z.pos (digits2_pos p) - 1))%Z by lia;
    rewrite !Z.pow_succ_r by lia; lia.
Qed.

Lemma digits_le p k : (0 <= k)%Z → (Zpos p < 2 ^ k)%Z → (Zpos (digits2_pos p) <= k)%Z.
Proof.
  intros Hk Hp. destruct (Z.le_gt_cases (Zpos (digits2_pos p)) k) as [|Hlt]; [done|].
  pose proof (digits_range p) as [Hlo _]. assert (2 ^ k <= 2 ^ (Zpos (digits2_pos p) - 1))%Z by (apply Z.pow_le_mono_r; lia). lia.
Qed.
Lemma digits_ge p k : (0 <= k)%Z → (2 ^ k <= Zpos p)%Z → (k < Zpos (digits2_pos p))%Z.
Proof.
  intros Hk Hp. destruct (Z.lt_ge_cases k (Zpos (digits2_pos p))) as [|Hge]; [done|].
  pose proof (digits_range p) as [_ Hhi]. assert (2 ^ Zpos (digits2_pos p) <= 2 ^ k)%Z by (apply Z.pow_le_mono_r; lia). lia.
Qed.

(** Shifting right divides. *)
Lemma shr_1_div r : (0 <= shr_m r)%Z → shr_m (shr_1 r) = (shr_m r / 2)%Z.
Proof.
  destruct r as [m r s]. cbn [shr_m]. intros Hm.
  destruct m as [|[p|p|]|p]; cbn [shr_1 shr_m]; [done| | |done|lia];
    [pose proof (Pos2Z.inj_xI p)|pose proof (Pos2Z.inj_xO p)]; Z.to_euclidean_division_equations; lia.
Qed.

Lemma shr_iter p r :
  (0 <= shr_m r)%Z → shr_m (SpecFloat.iter_pos shr_1 p r) = (shr_m r / 2 ^ Zpos p)%Z.
Proof.
  revert r. induction p as [p IH|p IH|]; intros r Hr; cbn [SpecFloat.iter_pos]; [..|by apply shr_1_div].
  - assert (0 <= shr_m (shr_1 r))%Z as H1 by (rewrite shr_1_div by done; by apply Z.div_pos).
    pose proof (IH _ H1) as E1.
    assert (0 <= shr_m (SpecFloat.iter_pos shr_1 p (shr_1 r)))%Z as H2 by (rewrite E1; by apply Z.div_pos; [|lia]).
    rewrite (IH _ H2), E1, shr_1_div, !Z.div_div by lia. f_equal. rewrite (Pos2Z.inj_xI p).
    replace (2 * Zpos p + 1)%Z with (1 + (Zpos p + Zpos p))%Z by lia. rewrite !Z.pow_add_r by lia. lia.
  - pose proof (IH _ Hr) as E1.
    assert (0 <= shr_m (SpecFloat.iter_pos shr_1 p r))%Z as H2 by (rewrite E1; by apply Z.div_pos; [|lia]).
    rewrite (IH _ H2), E1, Z.div_div by lia. f_equal. rewrite (Pos2Z.inj_xO p).
    replace (2 * Zpos p)%Z with (Zpos p + Zpos p)%Z by lia. by rewrite Z.pow_add_r by lia.
Qed.

Lemma shr_record_m m l : shr_m (shr_record_of_loc m l) = m.
Proof. by destruct l as [|[]]. Qed.

(** The exponents of a number with mantissa [m] that stands at exponent [e]. *)
Definition target (m e : Z) : Z := Z.max e (Z.max (Zdigits2 m + e - 53) (-1074)).

Lemma shr_fexp_spec m e l :
  (0 <= m)%Z →
  ∃ r, shr_fexp 53 1024 m e l = (r, target m e) ∧ shr_m r = (m / 2 ^ (target m e - e))%Z.
Proof.
  intros Hm. unfold shr_fexp, target, fexp, emin, shr.
  set (t := Z.max (Zdigits2 m + e - 53) (3 - 1024 - 53)).
  change (3 - 1024 - 53)%Z with (-1074)%Z in t. fold t.
  destruct (t - e)%Z as [|p|p] eqn:E.
  - eexists. rewrite (Z.max_l e) by lia. split; [done|]. rewrite shr_record_m, Z.sub_diag. by rewrite Z.div_1_r.
  - eexists. rewrite (Z.max_r e) by lia. split; [f_equal; lia|]. rewrite E, shr_iter; rewrite shr_record_m; done.
  - eexists. rewrite (Z.max_l e) by lia. split; [done|]. rewrite shr_record_m, Z.sub_diag. by rewrite Z.div_1_r.
Qed.

Lemma round_even_range m l : (m <= round_nearest_even m l <= m + 1)%Z.
Proof. destruct l as [|[]]; cbn; [lia| |lia|lia]. destruct (Z.even m); lia. Qed.

(** Rounding keeps the magnitude or raises it by one. *)
Lemma round_aux_spec sx mx ex lx :
  (-1000 <= mag mx ex <= 900)%Z →
  ∃ m e, binary_round_aux 53 1024 sx (Zpos mx) ex lx = S754_finite sx m e ∧ (mag mx ex <= mag m e <= mag mx ex + 1)%Z.
Proof.
  unfold mag. set (d := Zpos (digits2_pos mx)). intros Hk. pose proof (digits_range mx) as Hd. fold d in Hd.
  unfold binary_round_aux. destruct (shr_fexp_spec (Zpos mx) ex lx ltac:(lia)) as (r1 & -> & E1).
  set (e1 := target (Zpos mx) ex) in *. assert (e1 = Z.max ex (d + ex - 53)) as He1 by (unfold e1, target; cbn [Zdigits2]; fold d; lia).
  set (w := (d + ex - e1)%Z). assert (2 ^ (w - 1) <= shr_m r1 < 2 ^ w)%Z as Hm1.
  { rewrite E1. assert (0 < 2 ^ (e1 - ex))%Z as Hpos by lia. split.
    - apply Z.div_le_lower_bound; [done|]. rewrite <-Z.pow_add_r by lia. etrans; [|apply Hd]. apply Z.pow_le_mono_r; lia.
    - apply Z.div_lt_upper_bound; [done|]. rewrite <-Z.pow_add_r by lia. eapply Z.lt_le_trans; [apply Hd|]. apply Z.pow_le_mono_r; lia. }
  set (m2 := round_nearest_even _ _). assert (2 ^ (w - 1) <= m2 <= 2 ^ w)%Z as Hm2
    by (pose proof (round_even_range (shr_m r1) (loc_of_shr_record r1)); fold m2 in H; lia).
  assert (0 < 2 ^ (w - 1))%Z as Hw by lia. destruct m2 as [|p2|p2] eqn:Ep; [lia| |lia].
  assert (w <= Zpos (digits2_pos p2) <= w + 1)%Z as Hd2.
  { split; [pose proof (digits_ge p2 (w - 1)); lia|]. apply digits_le; [lia|].
    eapply Z.le_lt_trans; [apply Hm2|]. apply Z.pow_lt_mono_r; lia. }
  destruct (shr_fexp_spec (Zpos p2) e1 loc_Exact ltac:(lia)) as (r2 & -> & E2).
  set (e2 := target (Zpos p2) e1) in *. assert (e2 = Z.max e1 (Zpos (digits2_pos p2) + e1 - 53)) as He2
    by (unfold e2, target; cbn [Zdigits2]; lia).
  destruct (Z.le_gt_cases (Zpos (digits2_pos p2)) 53) as [Hs|Hs].
  - rewrite (Z.max_l e1) in He2 by lia. rewrite He2, Z.sub_diag, Z.div_1_r in E2. rewrite E2, He2.
    rewrite (proj2 (Z.leb_le _ _)) by lia. eexists _, _. split; [done|]. lia.
  - assert (w = 53)%Z as Ew by lia. assert (Zpos p2 = 2 ^ 53)%Z as Ep2.
    { pose proof (digits_range p2) as [Hlo _]. assert (2 ^ 53 <= 2 ^ (Zpos (digits2_pos p2) - 1))%Z by (apply Z.pow_le_mono_r; lia).
      rewrite Ew in Hm2. lia. }
    assert (Zpos (digits2_pos p2) = 54)%Z as Ed by lia. rewrite Z.max_r in He2 by lia.
    replace (e2 - e1)%Z with 1%Z in E2 by lia. rewrite Ep2 in E2. change (2 ^ 53 / 2 ^ 1)%Z with (Zpos (2 ^ 52)) in E2.
    rewrite E2, (proj2 (Z.leb_le _ _)) by lia. eexists _, _. split; [done|].
    change (Zpos (digits2_pos (2 ^ 52))) with 53%Z. lia.
Qed.

Lemma digits_shift m n : Zpos (digits2_pos (Pos.iter xO m n)) = (Zpos (digits2_pos m) + Zpos n)%Z.
Proof.
  induction n as [|n IH] using Pos.peano_ind; [cbn; lia|]. rewrite Pos.iter_succ. cbn [digits2_pos]. lia.
Qed.
Lemma value_shift m n : Zpos (Pos.iter xO m n) = (Zpos m * 2 ^ Zpos n)%Z.
Proof.
  induction n as [|n IH] using Pos.peano_ind; [cbn; lia|].
  rewrite Pos.iter_succ, Pos2Z.inj_xO, IH, Pos2Z.inj_succ, Z.pow_succ_r by lia. lia.
Qed.

Lemma shl_align_spec m e e' :
  ∃ p f, shl_align m e e' = (p, f) ∧ f = Z.min e e' ∧ mag p f = mag m e ∧ Zpos p = (Zpos m * 2 ^ (e - f))%Z.
Proof.
  unfold shl_align. destruct (e' - e)%Z as [|p|p] eqn:E; eexists _, _; (split; [reflexivity|]).
  - split; [lia|]. by rewrite Z.sub_diag, Z.mul_1_r.
  - split; [lia|]. by rewrite Z.sub_diag, Z.mul_1_r.
  - split; [lia|]. unfold mag. rewrite digits_shift, value_shift. split; [lia|].
    by replace (e - e')%Z with (Zpos p) by lia.
Qed.

Lemma binary_round_spec sx mx ex :
  (-1000 <= mag mx ex <= 900)%Z →
  ∃ m e, binary_round 53 1024 sx mx ex = S754_finite sx m e ∧ (mag mx ex <= mag m e <= mag mx ex + 1)%Z.
Proof.
  intros Hk. unfold binary_round.
  destruct (shl_align_spec mx ex (fexp 53 1024 (Zpos (digits2_pos mx) + ex))) as (p & f & -> & _ & E & _).
  rewrite <-E in Hk |- *. by apply round_aux_spec.
Qed.

(** ** The operations *)

Definition between (a b : Z) (x : float64) : Prop :=
  match x with S754_finite s m e => s = false ∧ (a <= mag m e <= b)%Z | _ => False end.

(** Zero, or positive and within the limits. *)
Definition ranged (a b : Z) (x : float64) : Prop := x = fzero ∨ between a b x.

Lemma between_weaken a b a' b' x : between a b x → (a' <= a)%Z → (b <= b')%Z → between a' b' x.
Proof. destruct x; try done. cbn. intros [? ?]. split; [done|lia]. Qed.
Lemma ranged_weaken a b a' b' x : ranged a b x → (a' <= a)%Z → (b <= b')%Z → ranged a' b' x.
Proof. intros [->|H] ? ?; [by left|right]. by eapply between_weaken. Qed.

Lemma float_of_int_between n j : (1 <= n < 2 ^ j)%Z → (0 <= j <= 900)%Z → between 1 (j + 1) (float_of_int n).
Proof.
  intros Hn Hj. destruct n as [|p|p]; [lia| |lia]. pose proof (digits_le p j ltac:(lia) ltac:(lia)).
  unfold float_of_int, binary_normalize.
  destruct (binary_round_spec false p 0) as (m & e & -> & Hm); unfold mag in *; [lia|]. split; [done|]. unfold mag. lia.
Qed.
Lemma float_of_int_ranged n j : (0 <= n < 2 ^ j)%Z → (0 <= j <= 900)%Z → ranged 1 (j + 1) (float_of_int n).
Proof. intros Hn Hj. destruct (decide (n = 0%Z)) as [->|]; [by left|right]. apply float_of_int_between; lia. Qed.

Lemma fdiv_between a b c d x y :
  between a b x → between c d y → (-900 <= a - d)%Z → (b - c <= 800)%Z → between (a - d) (b - c + 2) (x / y)%float.
Proof.
  destruct x as [| | |sx mx ex]; try done. destruct y as [| | |sy my ey]; try done.
  intros [-> Hx] [-> Hy] Hlo Hhi. unfold fdiv, SFdiv, SFdiv_core_binary. unfold mag in Hx, Hy. cbn [Zdigits2].
  set (dx := Zpos (digits2_pos mx)) in *. set (dy := Zpos (digits2_pos my)) in *.
  set (e' := Z.min (fexp 53 1024 (dx + ex - (dy + ey))) (ex - ey)). set (s := (ex - ey - e')%Z).
  assert (e' <= dx + ex - (dy + ey) - 53)%Z as He' by (unfold e', fexp, emin; lia).
  assert (0 <= s)%Z as Hs by (unfold s; lia).
  assert ((match s with Z0 => Zpos mx | Zpos _ => Z.shiftl (Zpos mx) s | Zneg _ => 0 end) = Zpos mx * 2 ^ s)%Z as ->.
  { rewrite <-Z.shiftl_mul_pow2 by done. destruct s; [done|done|lia]. }
  pose proof (Z_div_mod (Zpos mx * 2 ^ s) (Zpos my) ltac:(lia)) as Hq. destruct (Z.div_eucl _ _) as [q r].
  destruct Hq as [Hq Hr]. pose proof (digits_range mx) as Hdx. pose proof (digits_range my) as Hdy. fold dx in Hdx. fold dy in Hdy.
  set (n := (dx + s - dy)%Z). assert (53 <= n)%Z as Hn by (unfold n, s; lia).
  assert (2 ^ (dx - 1 + s) <= Zpos mx * 2 ^ s < 2 ^ (dx + s))%Z as Hm.
  { rewrite !Z.pow_add_r by lia. split; [apply Z.mul_le_mono_nonneg_r|apply Z.mul_lt_mono_pos_r]; lia. }
  assert (2 ^ (n - 1) <= q < 2 ^ (n + 1))%Z as Hqn.
  { assert (q = Zpos mx * 2 ^ s / Zpos my)%Z as -> by (apply (Z.div_unique _ _ _ r); lia). split.
    - apply Z.div_le_lower_bound; [lia|]. etrans; [|apply Hm].
      replace (dx - 1 + s)%Z with (dy + (n - 1))%Z by lia. rewrite Z.pow_add_r by lia. apply Z.mul_le_mono_nonneg_r; lia.
    - apply Z.div_lt_upper_bound; [lia|]. eapply Z.lt_le_trans; [apply Hm|].
      replace (dx + s)%Z with (dy - 1 + (n + 1))%Z by lia. rewrite Z.pow_add_r by lia. apply Z.mul_le_mono_nonneg_r; lia. }
  assert (0 < 2 ^ (n - 1))%Z by lia. destruct q as [|q|q]; [lia| |lia].
  assert (n <= Zpos (digits2_pos q) <= n + 1)%Z as Hdq.
  { split; [pose proof (digits_ge q (n - 1)); lia|]. apply digits_le; lia. }
  destruct (round_aux_spec (xorb false false) q e' (new_location (Zpos my) r)) as (m & e & -> & Hres); unfold mag in *;
    [unfold n, s in *; lia|]. split; [done|]. unfold mag, n, s in *. lia.
Qed.
Lemma fdiv_ranged a b c d x y :
  ranged a b x → between c d y → (-900 <= a - d)%Z → (b - c <= 800)%Z → ranged (a - d) (b - c + 2) (x / y)%float.
Proof.
  intros [->|Hx] Hy Hlo Hhi; [left|right; by apply fdiv_between]. destruct y; try done. by destruct Hy as [-> _].
Qed.

Lemma fmul_between a b c d x y :
  between a b x → between c d y → (-900 <= a + c)%Z → (b + d <= 800)%Z → between (a + c - 1) (b + d + 1) (x * y)%float.
Proof.
  destruct x as [| | |sx mx ex]; try done. destruct y as [| | |sy my ey]; try done.
  intros [-> Hx] [-> Hy] Hlo Hhi. unfold fmul, SFmul. unfold mag in Hx, Hy.
  pose proof (digits_range mx) as Hdx. pose proof (digits_range my) as Hdy.
  set (dx := Zpos (digits2_pos mx)) in *. set (dy := Zpos (digits2_pos my)) in *.
  assert (dx + dy - 1 <= Zpos (digits2_pos (mx * my)) <= dx + dy)%Z as Hd.
  { split.
    - enough (dx + dy - 2 < Zpos (digits2_pos (mx * my)))%Z by lia. apply digits_ge; [lia|].
      rewrite Pos2Z.inj_mul. replace (dx + dy - 2)%Z with (dx - 1 + (dy - 1))%Z by lia. rewrite Z.pow_add_r by lia.
      apply Z.mul_le_mono_nonneg; lia.
    - apply digits_le; [lia|]. rewrite Pos2Z.inj_mul, Z.pow_add_r by lia. apply Z.mul_lt_mono_nonneg; lia. }
  destruct (round_aux_spec (xorb false false) (mx * my) (ex + ey) loc_Exact) as (m & e & -> & Hres); unfold mag in *; [lia|].
  split; [done|]. unfold mag. lia.
Qed.
Lemma fmul_ranged a b c d x y :
  ranged a b x → between c d y → (-900 <= a + c)%Z → (b + d <= 800)%Z → ranged (a + c - 1) (b + d + 1) (x * y)%float.
Proof.
  intros [->|Hx] Hy Hlo Hhi; [left|right; by apply fmul_between]. destruct y; try done. by destruct Hy as [-> _].
Qed.

Lemma fadd_between a b c d x y :
  between a b x → between c d y → (-900 <= Z.max a c)%Z → (Z.max b d <= 800)%Z →
  between (Z.max a c) (Z.max b d + 2) (x + y)%float.
Proof.
  destruct x as [| | |sx mx ex]; try done. destruct y as [| | |sy my ey]; try done.
  intros [-> Hx] [-> Hy] Hlo Hhi. unfold fadd, SFadd, cond_Zopp.
  set (ez := Z.min ex ey). destruct (shl_align_spec mx ex ez) as (p & f & -> & Ef & Emx & _).
  destruct (shl_align_spec my ey ez) as (q & g & -> & Eg & Emy & _). cbn [fst].
  assert (f = ez) as -> by lia. assert (g = ez) as -> by lia. rewrite <-Emx in Hx. rewrite <-Emy in Hy.
  unfold mag in *. pose proof (digits_range p) as Hp. pose proof (digits_range q) as Hq.
  set (dp := Zpos (digits2_pos p)) in *. set (dq := Zpos (digits2_pos q)) in *. change (between (Z.max a c) (Z.max b d + 2) (binary_round 53 1024 false (p + q) ez)).
  assert (Z.max dp dq <= Zpos (digits2_pos (p + q)) <= Z.max dp dq + 1)%Z as Hd.
  { rewrite <-(Z.add_simpl_r (Z.max dp dq) 1) at 1. split.
    - enough (Z.max dp dq - 1 < Zpos (digits2_pos (p + q)))%Z by lia. apply digits_ge; [lia|]. rewrite Pos2Z.inj_add.
      destruct (Z.max_spec dp dq) as [[_ ->]|[_ ->]]; lia.
    - apply digits_le; [lia|]. rewrite Pos2Z.inj_add, Z.pow_add_r by lia.
      assert (2 ^ dp <= 2 ^ Z.max dp dq)%Z by (apply Z.pow_le_mono_r; lia).
      assert (2 ^ dq <= 2 ^ Z.max dp dq)%Z by (apply Z.pow_le_mono_r; lia). lia. }
  destruct (binary_round_spec false (p + q) ez) as (m & e & -> & Hres); unfold mag in *; [lia|].
  split; [done|]. unfold mag. lia.
Qed.

Lemma fadd_zero_l a b y : ranged a b y → (fzero + y)%float = y.
Proof. intros [->|Hy]; [done|]. by destruct y. Qed.
Lemma fadd_zero_r a b x : between a b x → (x + fzero)%float = x.
Proof. by destruct x. Qed.
Lemma fadd_ranged a b c d x y :
  ranged a b x → ranged c d y → (-900 <= Z.min a c)%Z → (Z.max b d <= 800)%Z →
  ranged (Z.min a c) (Z.max b d + 2) (x + y)%float.
Proof.
  intros Hx Hy Hlo Hhi. destruct Hx as [->|Hx].
  - rewrite (fadd_zero_l c d) by done. eapply ranged_weaken; [done|lia|lia].
  - destruct Hy as [->|Hy]; right.
    + rewrite (fadd_zero_r a b) by done. eapply between_weaken; [exact Hx|lia|lia].
    + eapply between_weaken; [apply (fadd_between a b c d); (done || lia)|lia|lia].
Qed.

(** ** Signs *)

Lemma between_finite a b x : between a b x → ∃ m e, x = S754_finite false m e.
Proof. destruct x as [| | |s m e]; try done. intros [-> _]. by exists m, e. Qed.
Lemma ranged_not_nan a b x : ranged a b x → is_nan x = false.
Proof. intros [->|Hx]; [done|]. by apply between_finite in Hx as (m & e & ->). Qed.
Lemma ranged_nonneg a b x : ranged a b x → fltb x fzero = false.
Proof. intros [->|Hx]; [done|]. by apply between_finite in Hx as (m & e & ->). Qed.
Lemma between_negated a b x : between a b x → fltb (fopp x) fzero = true.
Proof. intros Hx. by apply between_finite in Hx as (m & e & ->). Qed.
Lemma between_not_zero a b x : between a b x → feqb x fzero = false.
Proof. intros Hx. by apply between_finite in Hx as (m & e & ->). Qed.

Lemma round_aux_opp s m e l : binary_round_aux 53 1024 (negb s) m e l = SFopp (binary_round_aux 53 1024 s m e l).
Proof.
  unfold binary_round_aux. destruct (shr_fexp _ _ m e l) as [r e1].
  destruct (shr_fexp _ _ _ e1 loc_Exact) as [r2 e2]. destruct (shr_m r2) as [|p|p]; [done| |done].
  by destruct (_ <=? _)%Z.
Qed.

Lemma float_of_int_opp n : n ≠ 0%Z → float_of_int (- n) = fopp (float_of_int n).
Proof.
  intros Hn. destruct n as [|p|p]; [done|..]; unfold float_of_int, binary_normalize, binary_round, Z.opp, fopp;
    destruct (shl_align _ _ _) as [q f].
  - apply (round_aux_opp false).
  - apply (round_aux_opp true).
Qed.

Lemma fdiv_opp x y : (fopp x / y)%float = fopp (x / y)%float.
Proof.
  unfold fdiv, fopp. destruct x as [sx|sx| |sx mx ex], y as [sy|sy| |sy my ey]; try done; cbn [SFdiv SFopp];
    rewrite ?negb_xorb_l; try done.
  destruct (SFdiv_core_binary _ _ _ _ _ _) as [[q e] l]. rewrite <-round_aux_opp. by rewrite negb_xorb_l.
Qed.

(** ** Constants and durations *)

Lemma between_eval a b x : (if x is S754_finite false m e then (a <=? mag m e)%Z && (mag m e <=? b)%Z else false) = true → between a b x.
Proof.
  destruct x as [| | |[] m e]; try done. intros H. apply andb_true_iff in H as [H1 H2].
  apply Z.leb_le in H1, H2. done.
Qed.

(** A positive duration is a positive number of seconds. *)
Lemma Seconds_between d : (0 < d < 2 ^ 63)%Z → between (-30) 37 (Seconds d).
Proof.
  intros Hd. unfold Seconds. pose proof (Z.quot_rem d (10 ^ 9) ltac:(lia)) as Hqr.
  pose proof (Z.rem_bound_pos d (10 ^ 9) ltac:(lia) ltac:(lia)) as Hr.
  assert (0 <= Z.quot d (10 ^ 9) < 2 ^ 34)%Z as Hq by lia.
  set (q := Z.quot d (10 ^ 9)) in *. set (r := Z.rem d (10 ^ 9)) in *.
  assert (between 30 30 (float_of_int (10 ^ 9))) as H9 by by apply between_eval.
  assert (ranged (-29) 3 (float_of_int r / float_of_int (10 ^ 9))%float) as Hnsec.
  { apply (fdiv_ranged 1 31 30 30); [|done|lia|lia]. apply (float_of_int_ranged r 30); lia. }
  destruct (decide (q = 0%Z)) as [Eq|Eq].
  - rewrite Eq. change (float_of_int 0) with fzero. rewrite (fadd_zero_l _ _ _ Hnsec).
    eapply between_weaken; [apply (fdiv_between 1 31 30 30)|..]; [apply (float_of_int_between r 30)|..]; (done || lia).
  - destruct Hnsec as [Hz|Hnsec].
    + rewrite Hz. pose proof (float_of_int_between q 34 ltac:(lia) ltac:(lia)) as Hf.
      rewrite (fadd_zero_r _ _ _ Hf).
      eapply between_weaken; [exact Hf|lia|lia].
    + eapply between_weaken; [eapply fadd_between; [apply (float_of_int_between q 34); lia|exact Hnsec|lia|lia]|lia|].
      lia.
Qed.
