(* ===== verification/Interleaved.v ===== *)
(** * The broker's goroutines, interleaved

    [Server] runs every turn of a loop in one go. Here the goroutines of the broker (the read
    and the write loop of every session, the [go s.Close()] goroutines, callers of [GetStats]
    and [Server.Close]) interleave between any two accesses to what they share: the router,
    [Server.sessions] under [Server.mu], a session's own state, its atomic byte counter and
    its channel, the flags and the [sync.Once] of [Session.Close]. A send operation is the
    test of [closed] and then, one by one, the atomic accesses of [enqueueEncoded]
    ([SendQueue.producer_step]); the write loop receives a frame, subtracts its bytes and
    writes it in three steps. The mutex of the router protects single calls, which are steps;
    [Session.mu] is only ever taken by the session's own read loop. *)

From S2P Require Import Prelude GoStrings GoIO Protocol Subject Router Session Server SendQueue.

(** ** Goroutines *)

Inductive gid := GReader (s : sid) | GWriter (s : sid) | GOther (n : nat).
#[global] Instance gid_eq_dec : EqDecision gid.
Proof. solve_decision. Defined.

(** Which operation called [enqueueEncoded]: [SendOK] or [SendError], whose result is not
    used; [SendPong]; [SendEncoded] in the loop of [handlePublish], with what is left of it. *)
Inductive after_send := AckSent | PongSent | FanNext (encoded : list byte) (subscribers : list sid).

(** Where the read loop of a session stands ([Session.Start]): at the test of [done]; reading;
    with a message; in [handleSubscribe] before and in [handleUnsubscribe] before the router
    is called; before the acknowledgement; in the loop of [handlePublish]; before
    [SendError]; in [enqueueEncoded] on a session's queue; before the update of [lastPing]; in
    the deferred [Close]; before the [removeSession] of the accept goroutine; gone. *)
Inductive reader_at :=
| RTop
| RRead
| RHold (m : Message)
| RSubRouter (p : gostring)
| RUnsubRouter (p : gostring)
| RAck (text : gostring)
| RFan (encoded : list byte) (subscribers : list sid)
| RFail (e : handle_error)
| RSend (x : sid) (p : producer) (k : after_send)
| RStamp
| RClose
| RRemove
| RReturned.

(** The write loop: at its [select]; with a frame whose bytes are not yet subtracted; about
    to write it; in [Close]; gone. *)
Inductive writer_at := VWait | VTaken (data : list byte) | VWrite (data : list byte) | VClose | VEnd.

(** Inside the function [Session.Close] passes to [closeOnce.Do]: before [closed.Store(true)],
    [close(s.done)], [router.RemoveSession], [server.removeSession], [conn.Close]. *)
Inductive close_pc := KFlag | KSignal | KRouter | KServer | KConn.

(** [GetStats]: before the lock; before and between its two calls of the router. *)
Inductive stats_at := SLock | SCount | STotal (connections subjs : Z) | SDone (r : ServerStats).

(** [Server.Close]: before [closeOnce.Do]; before the lock; in the loop; closing a session. *)
Inductive shut_at := XEnter | XLock | XLoop (l : list sid) | XClosing (s : sid) (l : list sid) | XEnd.

Inductive other :=
| Closing (s : sid)        (** [go s.Close()] *)
| Counting (a : stats_at)
| Shutting (a : shut_at)
| Gone.

(** ** The shared state *)

Record pool (R : Type) := mkPool {
  world : World R;
  readers : gmap sid reader_at;
  writers : gmap sid writer_at;
  others : gmap nat other;
  once : gmap sid (gid * close_pc);   (** who is inside [closeOnce.Do] of a session, and where *)
  mu : option nat;                    (** the goroutine that holds [Server.mu] *)
  mu_readers : gset nat;              (** those that hold it for reading *)
}.
Arguments mkPool {R}.
Arguments world {R}. Arguments readers {R}. Arguments writers {R}. Arguments others {R}.
Arguments once {R}. Arguments mu {R}. Arguments mu_readers {R}.

Section setters.
Context {R : Type}.
Implicit Types m : pool R.

Definition set_world (w : World R) m : pool R :=
  mkPool w (readers m) (writers m) (others m) (once m) (mu m) (mu_readers m).
Definition set_once (o : gmap sid (gid * close_pc)) m : pool R :=
  mkPool (world m) (readers m) (writers m) (others m) o (mu m) (mu_readers m).
Definition set_mu (x : option nat) (rs : gset nat) m : pool R :=
  mkPool (world m) (readers m) (writers m) (others m) (once m) x rs.
Definition put_reader (s : sid) (r : reader_at) m : pool R :=
  mkPool (world m) (<[s := r]> (readers m)) (writers m) (others m) (once m) (mu m) (mu_readers m).
Definition put_writer (s : sid) (v : writer_at) m : pool R :=
  mkPool (world m) (readers m) (<[s := v]> (writers m)) (others m) (once m) (mu m) (mu_readers m).
Definition put_other (n : nat) (t : other) m : pool R :=
  mkPool (world m) (readers m) (writers m) (<[n := t]> (others m)) (once m) (mu m) (mu_readers m).

(** [Server.mu] can be locked. *)
Definition server_free m : bool := bool_decide (mu m = None) && bool_decide (mu_readers m = ∅).
End setters.

Definition fire_once (s : Session) : Session :=
  mkSession (conn_input s) (conn_sent s) (conn_closed s) (subjects s) (lastPing s) (outChan s)
    (outCap s) (queuedBytes s) (maxQueuedBytes s) (writeTimeout s) (done s) (closed s) true (pc s).
Definition store_closed (s : Session) : Session :=
  mkSession (conn_input s) (conn_sent s) (conn_closed s) (subjects s) (lastPing s) (outChan s)
    (outCap s) (queuedBytes s) (maxQueuedBytes s) (writeTimeout s) (done s) true (closeOnce s) (pc s).
Definition close_done (s : Session) : Session :=
  mkSession (conn_input s) (conn_sent s) (conn_closed s) (subjects s) (lastPing s) (outChan s)
    (outCap s) (queuedBytes s) (maxQueuedBytes s) (writeTimeout s) true (closed s) (closeOnce s) (pc s).

(** ** Steps *)

(** What the environment and the scheduler choose in a step: the iteration order of maps,
    whether a read delivers what the connection has or fails, the outcome of a write, and the
    case [select] takes when both are ready. *)
Record choices := mkChoices { c_order : order; c_read : bool; c_write : bool; c_done : bool }.

Section steps.
Context {R : Type} `{SubscriptionStore R}.
Implicit Types m : pool R.

(** One step of the body of [closeOnce.Do], run by goroutine [g]. *)
Definition close_body (c : choices) (g : gid) (s : sid) (k : close_pc) (sess : Session) m :
    outcome (bool * pool R) :=
  let w := world m in
  let at_ k m := set_once (<[s := (g, k)]> (once m)) m in
  match k with
  | KFlag => Ret (false, at_ KSignal (set_world (upd s (store_closed sess) w) m))
  | KSignal =>
      if done sess then Panic else Ret (false, at_ KRouter (set_world (upd s (close_done sess) w) m))
  | KRouter =>
      Ret (false, at_ KServer (set_world (set_router (store_remove_session (c_order c) s (router w)) w) m))
  | KServer =>
      if server_free m
      then Ret (false, at_ KConn (set_world (set_sessions (sessions w ∖ {[s]}) w) m)) else Block
  | KConn => Ret (true, set_once (delete s (once m)) (set_world (upd s (set_conn_closed sess) w) m))
  end.

(** One step of [s.Close()] called by [g]; [true] when it returns. A second caller waits for
    the first to finish. *)
Definition close_step (c : choices) (g : gid) (s : sid) m : outcome (bool * pool R) :=
  match heap (world m) !! s with
  | None => Panic
  | Some sess =>
      match once m !! s with
      | Some (g', k) => if decide (g' = g) then close_body c g s k sess m else Block
      | None =>
          if closeOnce sess then Ret (true, m)
          else Ret (false, set_once (<[s := (g, KFlag)]> (once m))
                             (set_world (upd s (fire_once sess) (world m)) m))
      end
  end.

(** The result of [enqueueEncoded] in its caller. *)
Definition resume (k : after_send) (result : option send_error) : reader_at :=
  match k with
  | AckSent => RStamp
  | PongSent => match result with None => RStamp | Some e => RFail (ErrSend e) end
  | FanNext encoded l => RFan encoded l
  end.

(** One atomic access of [enqueueEncoded] on session [x]. *)
Definition send_step (x : sid) (p : producer) (k : after_send) m : outcome (reader_at * pool R) :=
  match heap (world m) !! x with
  | None => Panic
  | Some sess =>
      let '(p', sess', close) := producer_step p sess in
      Ret (match p' with PDone r => resume k r | _ => RSend x p' k end,
           set_world (send_world x (mkSent None sess' close) (world m)) m)
  end.

(** [SendOK] and [SendError] up to [enqueueEncoded]. *)
Definition respond (s : sid) (command : byte) (text : gostring) (sess : Session) : reader_at :=
  if closed sess then RStamp
  else RSend s (PStart (Encode (NewMessageCmd command (truncateUTF8 text MaxSubjectLen) []))) AckSent.

(** The first access of handling a message. *)
Definition handle_step (c : choices) (s : sid) (msg : Message) (sess : Session) m : reader_at * pool R :=
  let w := world m in
  if decide (Command msg = CmdSub) then
    if existsb (λ sub, bool_decide (sub = Subject msg)) (subjects sess)
    then (RAck (str "subscribed to " ++ Subject msg), m)
    else (RSubRouter (Subject msg),
          set_world (upd s (set_subjects (subjects sess ++ [Subject msg]) sess) w) m)
  else if decide (Command msg = CmdUnsub) then
    (RUnsubRouter (Subject msg),
     set_world (upd s (set_subjects (filter (λ sub, sub ≠ Subject msg) (subjects sess)) sess) w) m)
  else if decide (Command msg = CmdPub) then
    let res := store_find (c_order c) (Subject msg) (router w) in
    (RFan (Encode (NewMessageCmd CmdMsg (Subject msg) (Payload msg))) res.1,
     set_world (set_router res.2 w) m)
  else if decide (Command msg = CmdPing) then
    (if closed sess then RFail (ErrSend ErrSessionClosed)
     else RSend s (PStart (Encode (NewMessageCmd CmdPong [] []))) PongSent, m)
  else (RFail (ErrUnknownCommand (Command msg)), m).

Definition reader_step (c : choices) (s : sid) (r : reader_at) m : outcome (reader_at * pool R) :=
  let w := world m in
  match heap w !! s with
  | None => Panic
  | Some sess =>
      match r with
      | RTop => if done sess then Ret (RClose, m) else Ret (RRead, m)
      | RRead =>
          if c_read c then
            match ParseFromReader (conn_input sess) with
            | Ret (inl msg, rd) => Ret (RHold msg, set_world (upd s (set_input rd (Holding msg) sess) w) m)
            | Ret (inr _, rd) => Ret (RClose, set_world (upd s (set_input rd (pc sess) sess) w) m)
            | Panic => Panic
            | Block => Block
            end
          else Ret (RClose, m)
      | RHold msg => Ret (handle_step c s msg sess m)
      | RSubRouter p =>
          Ret (RAck (str "subscribed to " ++ p), set_world (set_router (store_subscribe p s (router w)) w) m)
      | RUnsubRouter p =>
          Ret (RAck (str "unsubscribed from " ++ p), set_world (set_router (store_unsubscribe p s (router w)) w) m)
      | RAck text => Ret (respond s CmdOk text sess, m)
      | RFan encoded [] => Ret (RStamp, m)
      | RFan encoded (x :: l) =>
          match heap w !! x with
          | None => Panic
          | Some sub =>
              Ret (if closed sub || (MaxBodyLen + 4 <? len encoded)%Z then RFan encoded l
                   else RSend x (PStart encoded) (FanNext encoded l), m)
          end
      | RFail e => Ret (respond s CmdErr (str "handle error: " ++ handle_error_text e) sess, m)
      | RSend x p k => send_step x p k m
      | RStamp => Ret (RTop, set_world (upd s (set_pc AtTop (set_lastPing (now w) sess)) w) m)
      | RClose => do r ← close_step c (GReader s) s m; Ret (if fst r then RRemove else RClose, snd r)
      | RRemove =>
          if server_free m
          then Ret (RReturned, set_world (set_sessions (sessions w ∖ {[s]}) (upd s (set_pc Returned sess) w)) m)
          else Block
      | RReturned => Block
      end
  end.

Definition writer_step (c : choices) (s : sid) (v : writer_at) m : outcome (writer_at * pool R) :=
  let w := world m in
  match heap w !! s with
  | None => Panic
  | Some sess =>
      match v with
      | VWait =>
          if done sess && (c_done c || bool_decide (outChan sess = [])) then Ret (VEnd, m)
          else match outChan sess with
               | data :: rest => Ret (VTaken data, set_world (upd s (set_queue rest (queuedBytes sess) sess) w) m)
               | [] => Block
               end
      | VTaken data =>
          Ret (VWrite data, set_world (upd s (set_queue (outChan sess)
            (int64 (queuedBytes sess + int64 (- len data))) sess) w) m)
      | VWrite data =>
          if c_write c then Ret (VWait, set_world (upd s (set_sent (conn_sent sess ++ [data]) sess) w) m)
          else Ret (VClose, m)
      | VClose => do r ← close_step c (GWriter s) s m; Ret (if fst r then VEnd else VClose, snd r)
      | VEnd => Block
      end
  end.

Definition stats_step (c : choices) (n : nat) (a : stats_at) m : outcome (stats_at * pool R) :=
  let w := world m in
  match a with
  | SLock =>
      if decide (mu m = None) then Ret (SCount, set_mu None ({[n]} ∪ mu_readers m) m) else Block
  | SCount => Ret (STotal (Z.of_nat (size (sessions w))) (store_subject_count (router w)), m)
  | STotal conns subjs =>
      Ret (SDone (mkStats conns subjs (store_total (c_order c) (router w))),
           set_mu (mu m) (mu_readers m ∖ {[n]}) m)
  | SDone _ => Block
  end.

(** Another [Server.Close] is past its [closeOnce]. *)
Definition is_shutting (t : other) : bool :=
  match t with Shutting (XLock | XLoop _ | XClosing _ _) => true | _ => false end.

Definition shut_step (c : choices) (n : nat) (a : shut_at) m : outcome (shut_at * pool R) :=
  let w := world m in
  match a with
  | XEnter =>
      if srv_closeOnce w
      then if existsb is_shutting (map_to_list (others m)).*2 then Block else Ret (XEnd, m)
      else Ret (XLock, set_world (set_srv_closed w) m)
  | XLock =>
      if server_free m
      then Ret (XLoop (visit (c_order c) (elements (sessions w))), set_mu (Some n) ∅ m) else Block
  | XLoop [] => Ret (XEnd, set_mu None (mu_readers m) (set_world (set_listening false w) m))
  | XLoop (s :: l) => Ret (XClosing s l, m)
  | XClosing s l =>
      do r ← close_step c (GOther n) s m;
      if fst r : bool
      then Ret (XLoop l, set_world (set_sessions (sessions (world (snd r)) ∖ {[s]}) (world (snd r))) (snd r))
      else Ret (XClosing s l, snd r)
  | XEnd => Block
  end.

Definition other_step (c : choices) (n : nat) (t : other) m : outcome (other * pool R) :=
  match t with
  | Closing s => do r ← close_step c (GOther n) s m; Ret (if fst r then Gone else Closing s, snd r)
  | Counting a => do r ← stats_step c n a m; Ret (Counting (fst r), snd r)
  | Shutting a => do r ← shut_step c n a m; Ret (Shutting (fst r), snd r)
  | Gone => Block
  end.

(** Goroutine [g] makes a step. *)
Inductive moves : gid → pool R → pool R → Prop :=
| mv_reader c s r r' m m' :
    readers m !! s = Some r → reader_step c s r m = Ret (r', m') → moves (GReader s) m (put_reader s r' m')
| mv_writer c s v v' m m' :
    writers m !! s = Some v → writer_step c s v m = Ret (v', m') → moves (GWriter s) m (put_writer s v' m')
| mv_other c n t t' m m' :
    others m !! n = Some t → other_step c n t m = Ret (t', m') → moves (GOther n) m (put_other n t' m').

(** A step of the broker: a goroutine moves, one is started, or the configuration or the clock
    changes. *)
Inductive pool_step : pool R → pool R → Prop :=
| ps_move g m m' : moves g m m' → pool_step m m'
| ps_accept s input m :
    heap (world m) !! s = None → server_free m = true →
    pool_step m (put_writer s VWait (put_reader s RTop (set_world (accept_world s input (world m)) m)))
| ps_spawned n s l1 l2 m :
    others m !! n = None → spawned (world m) = l1 ++ s :: l2 →
    pool_step m (put_other n (Closing s) (set_world (set_spawned (l1 ++ l2) (world m)) m))
| ps_stats n m : others m !! n = None → pool_step m (put_other n (Counting SLock) m)
| ps_shut n m : others m !! n = None → pool_step m (put_other n (Shutting XEnter) m)
| ps_listen m : pool_step m (set_world (set_listening true (world m)) m)
| ps_backpressure maxQueued cap m :
    (maxQueued <= 2 ^ 62)%Z → server_free m = true →
    pool_step m (set_world (set_limits
      (if (0 <? cap)%Z then cap else sessionOutChanCap (world m))
      (if (0 <? maxQueued)%Z then maxQueued else maxSessionQueuedBytes (world m))
      (sessionWriteTimeout (world m)) (world m)) m)
| ps_write_timeout timeout m :
    server_free m = true →
    pool_step m (set_world (set_limits (sessionOutChanCap (world m)) (maxSessionQueuedBytes (world m))
      timeout (world m)) m)
| ps_clock t m : pool_step m (set_world (set_now t (world m)) m).

(** A server without connections or callers. *)
Definition new_pool : pool R := mkPool new_world ∅ ∅ ∅ ∅ None ∅.

Definition pool_reachable m : Prop := rtc pool_step new_pool m.
End steps.
