(* ===== verification/InterleavedInv.v ===== *)
(** * What survives every interleaving of the broker's goroutines

    The invariant of [Interleaved]: what holds of each session, given where its read loop and
    the body of its [Close] stand, and what holds of the goroutines and locks. A session is
    looked at through five things: its state, its read loop, the stage of its [Close], the
    patterns the router has for it, and whether it is in [Server.sessions]; a step of a
    goroutine changes them for one session only. *)

From S2P Require Import Prelude GoStrings GoIO Protocol Subject Router Session Server SendQueue Interleaved.

(** ** One session *)

(** The flags of a session, by the stage of its [Close]. *)
Definition flags_ok (sess : Session) (k : option close_pc) : Prop :=
  match k with
  | None => closed sess = closeOnce sess ∧ done sess = closeOnce sess ∧ conn_closed sess = closeOnce sess
  | Some k =>
      closeOnce sess = true ∧ conn_closed sess = false ∧
      closed sess = match k with KFlag => false | _ => true end ∧
      done sess = match k with KFlag | KSignal => false | _ => true end
  end.

(** [router.RemoveSession] has run for this session. *)
Definition removed (sess : Session) (k : option close_pc) : Prop :=
  closeOnce sess = true ∧ match k with None | Some KServer | Some KConn => True | _ => False end.

(** [server.removeSession] has not. *)
Definition listed (sess : Session) (k : option close_pc) : Prop :=
  closeOnce sess = false ∨ match k with None | Some KConn => False | Some _ => True end.

(** The read loop may still register a pattern before it tests [done] again. *)
Definition adding (r : reader_at) : Prop :=
  match r with RRead | RHold _ | RSubRouter _ => True | _ => False end.

(** The read loop is not between the session's list and the router. *)
Definition settled (r : reader_at) : Prop :=
  match r with RSubRouter _ | RUnsubRouter _ => False | _ => True end.

Definition left_loop (r : reader_at) : Prop := match r with RRemove | RReturned => True | _ => False end.

(** [P] are the session's patterns in the router, [live] says that it is in
    [Server.sessions]. *)
Record local_ok (sess : Session) (r : reader_at) (k : option close_pc) (P : gostring → Prop)
    (live : Prop) : Prop := {
  lo_nodup : NoDup (subjects sess);
  lo_frames : Forall good_frame (outChan sess ++ conn_sent sess);
  lo_flags : flags_ok sess k;
  lo_pairs : ∀ p, P p → p ∈ subjects sess ∨ r = RUnsubRouter p;
  lo_subjects : ∀ p, p ∈ subjects sess → ¬ removed sess k → P p ∨ r = RSubRouter p;
  lo_pending : ∀ p, r = RSubRouter p → p ∈ subjects sess ∧ ¬ P p;
  lo_leaving : ∀ p, r = RUnsubRouter p → p ∉ subjects sess;
  lo_late : removed sess k → adding r → ∀ p, ¬ P p;
  lo_leak : removed sess k → ∀ p q, P p → P q → p = q;
  lo_live : live ↔ listed sess k;
  lo_read : ∀ m, r = RHold m → wire_ok m;
  lo_left : left_loop r → conn_closed sess = true;
}.

Section local.
Implicit Types (sess : Session) (r : reader_at) (k : option close_pc) (P : gostring → Prop).

(** Extensionality in the router's patterns and in liveness. *)
Lemma local_ok_ext sess r k P P' live live' :
  (∀ p, P p ↔ P' p) → (live ↔ live') → local_ok sess r k P live → local_ok sess r k P' live'.
Proof.
  intros HP Hl [? ? ? H1 H2 H3 ? H4 H5 ? ? ?]. constructor; try done.
  - intros p. rewrite <-HP. apply H1.
  - intros p. rewrite <-HP. apply H2.
  - intros p Hp. rewrite <-HP. by apply H3.
  - intros Hr Ha p. rewrite <-HP. by apply H4.
  - intros Hr p q. rewrite <-!HP. by apply H5.
  - tauto.
Qed.

(** A change of the session that its [Close] and its subscriptions do not see. *)
Lemma local_ok_sess sess sess' r k P live :
  local_ok sess r k P live → subjects sess' = subjects sess → closeOnce sess' = closeOnce sess →
  closed sess' = closed sess → done sess' = done sess → conn_closed sess' = conn_closed sess →
  Forall good_frame (outChan sess' ++ conn_sent sess') → local_ok sess' r k P live.
Proof.
  intros [? ? Hf H1 H2 H3 H4 H5 H6 ? ? ?] E1 E2 E3 E4 E5 Hfr. unfold removed, listed, flags_ok in *.
  constructor; unfold removed, listed, flags_ok; rewrite ?E1, ?E2, ?E3, ?E4, ?E5; done.
Qed.

(** A move of the read loop outside the subscription handlers. *)
Lemma local_ok_move sess r r' k P live :
  local_ok sess r k P live → settled r → settled r' →
  (removed sess k → adding r' → adding r) → (∀ m, r' = RHold m → wire_ok m) →
  (left_loop r' → conn_closed sess = true) → local_ok sess r' k P live.
Proof.
  intros [? ? ? H1 H2 H3 H4 H5 H6 ? ? ?] Hs Hs' Ha Hm He. constructor; try done.
  - intros p Hp. destruct (H1 p Hp) as [| ->]; [by left|done].
  - intros p Hp Hr. destruct (H2 p Hp Hr) as [| ->]; [by left|done].
  - by intros p ->.
  - by intros p ->.
  - intros Hr Hr'. apply H5; auto.
Qed.

(** [handleSubscribe] on a new pattern: the session's list first, then the router. *)
Lemma local_ok_sub_list sess m p k P live :
  local_ok sess (RHold m) k P live → p ∉ subjects sess →
  local_ok (set_subjects (subjects sess ++ [p]) sess) (RSubRouter p) k P live.
Proof.
  intros [? ? ? H1 H2 H3 H4 H5 H6 ? ? ?] Hp.
  assert (¬ P p) as Hnp by (intros HP; destruct (H1 p HP); done).
  constructor; try done; cbn [subjects set_subjects].
  - by apply NoDup_snoc.
  - intros q Hqq. destruct (H1 q Hqq); [left; apply elem_of_app; by left|done].
  - intros q. rewrite elem_of_app, list_elem_of_singleton. intros [Hqq| ->] Hr; [|by right].
    destruct (H2 q Hqq Hr); [by left|done].
  - intros q [= <-]. split; [apply elem_of_app; right; left|done].
Qed.

Lemma local_ok_sub_router sess p text k P live :
  local_ok sess (RSubRouter p) k P live →
  local_ok sess (RAck text) k (λ q, q = p ∨ P q) live.
Proof.
  intros [? ? ? H1 H2 H3 H4 H5 H6 ? ? ?]. destruct (H3 p eq_refl) as [Hin Hnp].
  constructor; try done.
  - intros q [->|Hq]; [by left|]. destruct (H1 q Hq); [by left|done].
  - intros q Hq Hr. destruct (H2 q Hq Hr) as [|[= <-]]; [by left; right|by left; left].
  - intros Hr q q' Hq Hq'. pose proof (H5 Hr I) as Hno.
    destruct Hq as [->|Hq]; [|by destruct (Hno q)]. destruct Hq' as [->|Hq']; [done|by destruct (Hno q')].
Qed.

Lemma local_ok_unsub_list sess m p k P live :
  local_ok sess (RHold m) k P live →
  local_ok (set_subjects (filter (λ q, q ≠ p) (subjects sess)) sess) (RUnsubRouter p) k P live.
Proof.
  intros [? ? ? H1 H2 H3 H4 H5 H6 ? ? ?]. constructor; try done; cbn [subjects set_subjects].
  - by apply NoDup_filter.
  - intros q Hqq. destruct (decide (q = p)) as [->|]; [by right|left].
    apply list_elem_of_filter. destruct (H1 q Hqq); done.
  - intros q [_ Hqq]%list_elem_of_filter Hr. destruct (H2 q Hqq Hr); [by left|done].
  - intros q [= <-] [Hne _]%list_elem_of_filter. done.
Qed.

Lemma local_ok_unsub_router sess p text k P live :
  local_ok sess (RUnsubRouter p) k P live →
  local_ok sess (RAck text) k (λ q, q ≠ p ∧ P q) live.
Proof.
  intros [? ? ? H1 H2 H3 H4 H5 H6 ? ? ?]. constructor; try done.
  - intros q [Hne Hq]. destruct (H1 q Hq) as [|[= <-]]; [by left|done].
  - intros q Hq Hr. left. split; [intros ->; by apply (H4 p)|]. by destruct (H2 q Hq Hr).
  - intros Hr q q' [_ Hq] [_ Hq']. by apply H6.
Qed.

(** The stages of [Close]. *)
Lemma local_ok_fire sess r P live :
  local_ok sess r None P live → closeOnce sess = false →
  local_ok (fire_once sess) r (Some KFlag) P live.
Proof.
  intros [? ? (F1 & F2 & F3) H1 H2 H3 H4 H5 H6 Hl ? He] Ho. rewrite Ho in F1, F2, F3.
  constructor; try done.
  - intros p Hp _. apply H2; [done|]. intros [E _]. congruence.
  - by intros [_ []].
  - by intros [_ []].
  - rewrite Hl. unfold listed. cbn. tauto.
Qed.

Lemma local_ok_store sess r P live :
  local_ok sess r (Some KFlag) P live → local_ok (store_closed sess) r (Some KSignal) P live.
Proof.
  intros [? ? (F1 & F2 & F3 & F4) H1 H2 H3 H4 H5 H6 Hl ? He]. by constructor.
Qed.

Lemma local_ok_signal sess r P live :
  local_ok sess r (Some KSignal) P live → local_ok (close_done sess) r (Some KRouter) P live.
Proof.
  intros [? ? (F1 & F2 & F3 & F4) H1 H2 H3 H4 H5 H6 Hl ? He]. by constructor.
Qed.

Lemma local_ok_remove sess r P live :
  local_ok sess r (Some KRouter) P live → local_ok sess r (Some KServer) (λ _, False) live.
Proof.
  intros [? ? (F1 & F2 & F3 & F4) H1 H2 H3 H4 H5 H6 Hl ? He]. constructor; try done.
  - intros p _ Hr. by destruct Hr.
  - intros p Hp. destruct (H3 p Hp). split; [done|tauto].
  - intros _ _ p. tauto.
Qed.

Lemma local_ok_unlist sess r P live :
  local_ok sess r (Some KServer) P live → local_ok sess r (Some KConn) P False.
Proof.
  intros [? ? (F1 & F2 & F3 & F4) H1 H2 H3 H4 H5 H6 Hl ? He]. constructor; try done.
  unfold listed. rewrite F1. split; [done|]. by intros [|].
Qed.

Lemma local_ok_conn sess r P live :
  local_ok sess r (Some KConn) P live → local_ok (set_conn_closed sess) r None P live.
Proof.
  intros [? ? (F1 & F2 & F3 & F4) H1 H2 H3 H4 H5 H6 Hl ? He].
  constructor; try done. unfold flags_ok. cbn. by rewrite F1, F3, F4.
Qed.

(** A fresh session. *)
Lemma local_ok_new sess : 
  session_ok sess → subjects sess = [] → closeOnce sess = false → conn_closed sess = false →
  local_ok sess RTop None (λ _, False) True.
Proof.
  intros [? [F1 F2] ? ? ? ?] Hs Ho Hc. constructor; try done.
  - unfold flags_ok. by rewrite F1, F2, Hc, Ho.
  - rewrite Hs. by intros p ?%not_elem_of_nil.
  - unfold listed. rewrite Ho. tauto.
Qed.
End local.

(** ** All sessions, goroutines and locks *)

Section pool.
Context {R : Type} `{SubscriptionStoreLaws R}.
Implicit Types m : pool R.

Definition known m (s : sid) : Prop := is_Some (heap (world m) !! s).
Definition patterns m (s : sid) (p : gostring) : Prop := (p, s) ∈ store_pairs (router (world m)).
Definition live m (s : sid) : Prop := s ∈ sessions (world m).
Definition stage m (s : sid) : option close_pc := snd <$> once m !! s.

Record core_ok m : Prop := {
  co_router : store_ok (router (world m));
  co_session : ∀ s sess, heap (world m) !! s = Some sess →
    ∃ r, readers m !! s = Some r ∧ local_ok sess r (stage m s) (patterns m s) (live m s);
  co_known : ∀ p s, patterns m s p → known m s;
  co_live : ∀ s, live m s → known m s;
}.

(** Only session [s] has changed. *)
Record elsewhere (s : sid) m m' : Prop := {
  el_heap : ∀ x, x ≠ s → heap (world m') !! x = heap (world m) !! x;
  el_readers : ∀ x, x ≠ s → readers m' !! x = readers m !! x;
  el_once : ∀ x, x ≠ s → once m' !! x = once m !! x;
  el_patterns : ∀ x p, x ≠ s → patterns m' x p ↔ patterns m x p;
  el_live : ∀ x, x ≠ s → live m' x ↔ live m x;
}.

Lemma core_ok_at s m m' sess r :
  core_ok m → elsewhere s m m' → store_ok (router (world m')) →
  heap (world m') !! s = Some sess → readers m' !! s = Some r →
  local_ok sess r (stage m' s) (patterns m' s) (live m' s) → core_ok m'.
Proof.
  intros [_ Hs Hk Hl] [E1 E2 E3 E4 E5] Hr Hsess Hrd Hloc.
  assert (∀ x, known m x → known m' x) as Hgrow.
  { intros x Hx. destruct (decide (x = s)) as [->|Hne]; [by exists sess|]. unfold known. by rewrite E1. }
  constructor; [done|..].
  - intros x y Hx. destruct (decide (x = s)) as [->|Hne].
    + exists r. split; [done|]. by simplify_eq.
    + rewrite E1 in Hx by done. destruct (Hs x y Hx) as (r' & Hr' & Hl'). exists r'.
      rewrite E2 by done. split; [done|]. unfold stage. rewrite E3 by done.
      eapply local_ok_ext; [| |exact Hl']; [intros p; by rewrite E4|by rewrite E5].
  - intros p x. destruct (decide (x = s)) as [->|Hne]; [by exists sess|].
    rewrite E4 by done. intros Hp. by eapply Hgrow, Hk.
  - intros x. destruct (decide (x = s)) as [->|Hne]; [by exists sess|].
    rewrite E5 by done. intros Hx. by apply Hgrow, Hl.
Qed.

(** Writing one session. *)
Lemma elsewhere_upd s sess m : elsewhere s m (set_world (upd s sess (world m)) m).
Proof. constructor; try done. intros x Hx. by apply heap_upd_ne. Qed.
Lemma elsewhere_send s r m : elsewhere s m (set_world (send_world s r (world m)) m).
Proof.
  constructor; try done; intros x; unfold patterns, live; cbn [world set_world].
  - intros Hx. rewrite send_world_heap. by apply lookup_insert_ne.
  - intros p Hx. by rewrite send_world_router.
  - intros Hx. unfold send_world. by destruct (sent_close r).
Qed.
Lemma elsewhere_trans s m1 m2 m3 : elsewhere s m1 m2 → elsewhere s m2 m3 → elsewhere s m1 m3.
Proof.
  intros [A1 A2 A3 A4 A5] [B1 B2 B3 B4 B5]. constructor.
  - intros x Hx. by rewrite B1, A1.
  - intros x Hx. by rewrite B2, A2.
  - intros x Hx. by rewrite B3, A3.
  - intros x p Hx. by rewrite B4, A4.
  - intros x Hx. by rewrite B5, A5.
Qed.
Lemma elsewhere_reader s r m : elsewhere s m (put_reader s r m).
Proof. constructor; try done. intros x Hx. by apply lookup_insert_ne. Qed.
Lemma elsewhere_once s y m : elsewhere s m (set_once (<[s := y]> (once m)) m).
Proof. constructor; try done. intros x Hx. by apply lookup_insert_ne. Qed.
Lemma elsewhere_done s m : elsewhere s m (set_once (delete s (once m)) m).
Proof. constructor; try done. intros x Hx. by apply lookup_delete_ne. Qed.
Lemma elsewhere_unlist s m : elsewhere s m (set_world (set_sessions (sessions (world m) ∖ {[s]}) (world m)) m).
Proof. constructor; try done. intros x Hx. unfold live. cbn. set_solver. Qed.
Lemma elsewhere_router s r m :
  (∀ p x, x ≠ s → (p, x) ∈ store_pairs r ↔ (p, x) ∈ store_pairs (router (world m))) →
  elsewhere s m (set_world (set_router r (world m)) m).
Proof. intros Hr. constructor; try done. intros x p Hx. by apply Hr. Qed.

(** *** Sending to a session *)

(** Frames [q] are queued and the counter becomes [n]. *)
Lemma core_queue x sess q n close m :
  core_ok m → heap (world m) !! x = Some sess → Forall good_frame q →
  core_ok (set_world (send_world x (mkSent None (set_queue (outChan sess ++ q) n sess) close) (world m)) m).
Proof.
  intros Hm Hs Hq. destruct (co_session m Hm x sess Hs) as (rd & Hrd & Hloc). set (r := mkSent _ _ _).
  apply (core_ok_at x m _ (sent_session r) rd); [done|apply elsewhere_send|..].
  - cbn. rewrite send_world_router. apply Hm.
  - cbn. rewrite send_world_heap. apply lookup_insert_eq.
  - done.
  - eapply (local_ok_ext _ _ _ (patterns m x) _ (live m x)).
    + intros p. unfold patterns. cbn. by rewrite send_world_router.
    + unfold live, send_world. cbn. by destruct close.
    + eapply local_ok_sess; [exact Hloc|done..|]. pose proof (lo_frames _ _ _ _ _ Hloc) as Hf. cbn.
      rewrite !Forall_app in *. tauto.
Qed.

(** The read loop moves without touching anything. *)
Lemma core_move s sess r r' m :
  core_ok m → heap (world m) !! s = Some sess → readers m !! s = Some r → settled r → settled r' →
  (removed sess (stage m s) → adding r' → adding r) → (∀ msg, r' = RHold msg → wire_ok msg) →
  (left_loop r' → conn_closed sess = true) → core_ok (put_reader s r' m).
Proof.
  intros Hm Hs Hrd Hset Hset' Ha Hw Hl. destruct (co_session m Hm s sess Hs) as (rd & Hrd' & Hloc).
  simplify_eq. apply (core_ok_at s m _ sess r'); [done|apply elsewhere_reader|apply Hm|done|apply lookup_insert_eq|].
  by eapply local_ok_move.
Qed.

(** The session changes in a way only its own goroutines see. *)
Lemma core_upd s sess sess' m :
  core_ok m → heap (world m) !! s = Some sess → subjects sess' = subjects sess →
  closeOnce sess' = closeOnce sess → closed sess' = closed sess → done sess' = done sess →
  conn_closed sess' = conn_closed sess → Forall good_frame (outChan sess' ++ conn_sent sess') →
  core_ok (set_world (upd s sess' (world m)) m).
Proof.
  intros Hm Hs. intros. destruct (co_session m Hm s sess Hs) as (rd & Hrd & Hloc).
  apply (core_ok_at s m _ sess' rd); [done|apply elsewhere_upd|apply Hm|apply heap_upd|done|].
  by eapply (local_ok_sess sess).
Qed.

(** *** Closing *)

(** What a call of [Close] leaves alone: goroutines, locks, pending work, configuration. *)
Record same_goroutines m m' : Prop := {
  sg_readers : readers m' = readers m;
  sg_writers : writers m' = writers m;
  sg_others : others m' = others m;
  sg_mu : mu m' = mu m;
  sg_mu_readers : mu_readers m' = mu_readers m;
  sg_spawned : spawned (world m') = spawned (world m);
  sg_limits : maxSessionQueuedBytes (world m') = maxSessionQueuedBytes (world m);
  sg_known : ∀ x, known m x → known m' x;
}.

Definition finished m (s : sid) : Prop := ∃ sess, heap (world m) !! s = Some sess ∧ conn_closed sess = true.

Lemma known_upd s sess m x : known m x → known (set_world (upd s sess (world m)) m) x.
Proof. apply is_Some_upd. Qed.

Lemma stage_once s g k m : stage (set_once (<[s := (g, k)]> (once m)) m) s = Some k.
Proof. unfold stage. cbn. by rewrite lookup_insert_eq. Qed.

(** Advancing the body of [Close]: a new state of the session and a new stage. *)
Lemma core_advance s g k' sess sess' rd m :
  core_ok m → readers m !! s = Some rd → heap (world m) !! s = Some sess →
  local_ok sess' rd (Some k') (patterns m s) (live m s) →
  core_ok (set_once (<[s := (g, k')]> (once m)) (set_world (upd s sess' (world m)) m)).
Proof.
  intros Hm Hrd Hs Hloc. apply (core_ok_at s m _ sess' rd); [done| |apply Hm|apply heap_upd|done|].
  - eapply elsewhere_trans; [apply (elsewhere_upd s sess')|].
    apply (elsewhere_once s (g, k') (set_world _ m)).
  - unfold stage. cbn. by rewrite lookup_insert_eq.
Qed.

Lemma core_body c g s k sess m :
  core_ok m → heap (world m) !! s = Some sess → once m !! s = Some (g, k) →
  match close_body c g s k sess m with
  | Ret (b, m') =>
      core_ok m' ∧ same_goroutines m m' ∧ elsewhere s m m' ∧
      if b : bool then once m' !! s = None ∧ finished m' s else ∃ k', once m' !! s = Some (g, k')
  | Panic => False
  | Block => k = KServer ∧ server_free m = false
  end.
Proof.
  intros Hm Hs Ho. destruct (co_session m Hm s sess Hs) as (rd & Hrd & Hloc).
  unfold stage in Hloc. rewrite Ho in Hloc. cbn in Hloc.
  destruct k; cbn [close_body].
  - split; [by eapply (core_advance s g KSignal sess _ rd m), local_ok_store|].
    split; [constructor; try done; intros x; apply known_upd|]. split; [|eexists; apply lookup_insert_eq].
    eapply elsewhere_trans; [apply elsewhere_upd|]. apply (elsewhere_once s _ (set_world _ m)).
  - pose proof (lo_flags _ _ _ _ _ Hloc) as (_ & _ & _ & ->).
    split; [by eapply (core_advance s g KRouter sess _ rd m), local_ok_signal|].
    split; [constructor; try done; intros x; apply known_upd|]. split; [|eexists; apply lookup_insert_eq].
    eapply elsewhere_trans; [apply elsewhere_upd|]. apply (elsewhere_once s _ (set_world _ m)).
  - destruct (store_remove_session_ok (c_order c) s (router (world m)) (co_router m Hm)) as [Hr Hp].
    set (m1 := set_world (set_router _ (world m)) m).
    assert (elsewhere s m m1) as H1.
    { apply elsewhere_router. intros p x Hx. rewrite Hp, elem_of_filter. naive_solver. }
    assert (elsewhere s m (set_once (<[s := (g, KServer)]> (once m)) m1)) as Hel
      by (eapply elsewhere_trans; [exact H1|apply (elsewhere_once s (g, KServer) m1)]).
    split; [|split; [by constructor|split; [done|eexists; apply lookup_insert_eq]]].
    apply (core_ok_at s m _ sess rd); [done..|].
    unfold stage. cbn. rewrite lookup_insert_eq.
    eapply local_ok_ext; [| |by eapply local_ok_remove]; [|done].
    intros p. unfold patterns. cbn. rewrite Hp, elem_of_filter. cbn. tauto.
  - destruct (server_free m) eqn:Hf; [|done].
    set (m1 := set_world (set_sessions _ (world m)) m).
    assert (elsewhere s m (set_once (<[s := (g, KConn)]> (once m)) m1)) as Hel
      by (eapply elsewhere_trans; [apply elsewhere_unlist|apply (elsewhere_once s (g, KConn) m1)]).
    split; [|split; [by constructor|split; [done|eexists; apply lookup_insert_eq]]].
    apply (core_ok_at s m _ sess rd); [done|done|apply Hm|done|done|].
    unfold stage. cbn. rewrite lookup_insert_eq.
    eapply local_ok_ext; [| |by eapply local_ok_unlist]; [done|].
    unfold live. cbn. set_solver.
  - set (m1 := set_world (upd s _ (world m)) m).
    assert (elsewhere s m (set_once (delete s (once m)) m1)) as Hel
      by (eapply elsewhere_trans; [apply elsewhere_upd|apply (elsewhere_done s m1)]).
    split; [|split; [constructor; try done; intros x; apply known_upd|split; [done|]]].
    + apply (core_ok_at s m _ (set_conn_closed sess) rd); [done|done|apply Hm|apply heap_upd|done|].
      unfold stage. cbn. rewrite lookup_delete_eq. by apply local_ok_conn.
    + split; [apply lookup_delete_eq|]. eexists. split; [apply heap_upd|done].
Qed.

Lemma core_close c g s m :
  core_ok m → known m s →
  match close_step c g s m with
  | Ret (b, m') =>
      core_ok m' ∧ same_goroutines m m' ∧ elsewhere s m m' ∧
      if b : bool then once m' !! s = None ∧ finished m' s else ∃ k, once m' !! s = Some (g, k)
  | Panic => False
  | Block => ∃ g' k, once m !! s = Some (g', k) ∧ (g' ≠ g ∨ k = KServer ∧ server_free m = false)
  end.
Proof.
  intros Hm [sess Hs]. unfold close_step. rewrite Hs.
  destruct (once m !! s) as [[g' k]|] eqn:Ho.
  - case_decide as Hg; [subst g'|by exists g', k; auto].
    pose proof (core_body c g s k sess m Hm Hs Ho) as Hb.
    destruct (close_body c g s k sess m) as [[b m']| |]; [done..|]. exists g, k. auto.
  - destruct (co_session m Hm s sess Hs) as (rd & Hrd & Hloc). unfold stage in Hloc.
    rewrite Ho in Hloc. cbn in Hloc. destruct (closeOnce sess) eqn:Eo.
    + split; [done|]. split; [by constructor|]. split; [by constructor|]. split; [done|].
      exists sess. split; [done|]. destruct (lo_flags _ _ _ _ _ Hloc) as (_ & _ & ->). done.
    + split; [by eapply (core_advance s g KFlag sess _ rd m), local_ok_fire|].
      split; [constructor; try done; intros x; apply known_upd|]. split; [|eexists; apply lookup_insert_eq].
      eapply elsewhere_trans; [apply elsewhere_upd|]. apply (elsewhere_once s _ (set_world _ m)).
Qed.

(** *** Goroutines and locks *)

(** Goroutine [g] is in a call of [s.Close()]. *)
Definition in_close m (g : gid) (s : sid) : Prop :=
  match g with
  | GReader x => x = s ∧ readers m !! x = Some RClose
  | GWriter x => x = s ∧ writers m !! x = Some VClose
  | GOther n => others m !! n = Some (Closing s) ∨ ∃ l, others m !! n = Some (Shutting (XClosing s l))
  end.

Definition mentions (t : other) : list sid :=
  match t with
  | Closing s => [s]
  | Shutting (XLoop l) => l
  | Shutting (XClosing s l) => s :: l
  | _ => []
  end.
Definition holds_mu (t : other) : bool := match t with Shutting (XLoop _ | XClosing _ _) => true | _ => false end.
Definition reads_mu (t : other) : bool := match t with Counting (SCount | STotal _ _) => true | _ => false end.

(** Every frame that a goroutine is about to queue or to write can be parsed. *)
Definition fan_fit m (k : after_send) : Prop :=
  match k with FanNext fr l => good_frame fr ∧ Forall (known m) l | _ => True end.
Definition reader_fit m (r : reader_at) : Prop :=
  match r with
  | RFan fr l => fan_fit m (FanNext fr l)
  | RSend x p k => known m x ∧ (∀ d, frame_of p = Some d → good_frame d) ∧ fan_fit m k
  | _ => True
  end.
Definition writer_fit (v : writer_at) : Prop := match v with VTaken d | VWrite d => good_frame d | _ => True end.

Record goroutines_ok m : Prop := {
  go_readers : ∀ s r, readers m !! s = Some r → known m s ∧ reader_fit m r;
  go_writers : ∀ s v, writers m !! s = Some v → known m s ∧ writer_fit v;
  go_others : ∀ n t, others m !! n = Some t → Forall (known m) (mentions t);
  go_once : ∀ s g k, once m !! s = Some (g, k) → known m s ∧ in_close m g s;
  go_spawned : Forall (known m) (spawned (world m));
  go_limits : (maxSessionQueuedBytes (world m) <= 2 ^ 62)%Z;
}.

(** Who holds [Server.mu] can be read off where the goroutines stand; it is held by one
    goroutine, or by some for reading. *)
Record locks_ok m : Prop := {
  lk_mu : ∀ n, mu m = Some n ↔ ∃ t, others m !! n = Some t ∧ holds_mu t = true;
  lk_readers : ∀ n, n ∈ mu_readers m ↔ ∃ t, others m !! n = Some t ∧ reads_mu t = true;
  lk_excl : mu m ≠ None → mu_readers m = ∅;
}.

Record pool_ok m : Prop := {
  pk_core : core_ok m;
  pk_goroutines : goroutines_ok m;
  pk_locks : locks_ok m;
}.

(** What a step of one goroutine leaves alone besides its own program counter. *)
Record frame m m' : Prop := {
  fr_readers : readers m' = readers m;
  fr_writers : writers m' = writers m;
  fr_others : others m' = others m;
  fr_limits : maxSessionQueuedBytes (world m') = maxSessionQueuedBytes (world m);
  fr_known : ∀ x, known m x → known m' x;
  fr_spawned : Forall (known m) (spawned (world m)) → Forall (known m') (spawned (world m'));
}.

Lemma frame_refl m : frame m m.
Proof. by constructor. Qed.

Lemma frame_close m m' : same_goroutines m m' → frame m m'.
Proof.
  intros [? ? ? ? ? Hsp ? Hk]. constructor; try done. rewrite Hsp. intros Hf.
  eapply Forall_impl; [exact Hf|exact Hk].
Qed.

Lemma frame_world w m :
  (∀ x, is_Some (heap (world m) !! x) → is_Some (heap w !! x)) → spawned w = spawned (world m) →
  maxSessionQueuedBytes w = maxSessionQueuedBytes (world m) → frame m (set_world w m).
Proof.
  intros Hk Hsp Hl. constructor; try done. cbn. rewrite Hsp. intros Hf.
  eapply Forall_impl; [exact Hf|exact Hk].
Qed.

Lemma frame_upd s sess m : frame m (set_world (upd s sess (world m)) m).
Proof. apply frame_world; [intros x; apply is_Some_upd|done|done]. Qed.

Lemma frame_router r m : frame m (set_world (set_router r (world m)) m).
Proof. by apply frame_world. Qed.

Lemma frame_send s r m : known m s → frame m (set_world (send_world s r (world m)) m).
Proof.
  intros Hs. constructor; try done.
  - unfold send_world. by destruct (sent_close r).
  - intros x. apply grows_send.
  - intros Hf.
    assert (Forall (known (set_world (send_world s r (world m)) m)) (spawned (world m))) as Hf'
      by (eapply Forall_impl; [exact Hf|]; intros x; apply grows_send).
    cbn. unfold send_world at 2. destruct (sent_close r); [|exact Hf'].
    cbn. apply Forall_app. split; [exact Hf'|]. apply Forall_singleton. by apply grows_send.
Qed.

(** Goroutine [g] stays or becomes the only one to run the body of [s.Close]. *)
Definition once_by (g : gid) (s : sid) m m' : Prop :=
  (∀ x, x ≠ s → once m' !! x = once m !! x) ∧
  ∀ g' k, once m' !! s = Some (g', k) → g' ≠ g → ∃ k', once m !! s = Some (g', k').

Lemma once_same g s m m' : once m' = once m → once_by g s m m'.
Proof. intros E. unfold once_by. rewrite E. eauto. Qed.

Lemma once_close g s m m' :
  elsewhere s m m' → (once m' !! s = None ∨ ∃ k, once m' !! s = Some (g, k)) → once_by g s m m'.
Proof.
  intros Hel Ho. split; [apply Hel|]. intros g' k Hs Hne. rewrite Hs in Ho.
  destruct Ho as [|(k' & [= -> ->])]; done.
Qed.

Lemma reader_fit_known m m' r : (∀ x, known m x → known m' x) → reader_fit m r → reader_fit m' r.
Proof.
  intros Hk. assert (∀ k, fan_fit m k → fan_fit m' k) as Hfan.
  { intros [| |fr l]; try done. intros [? Hf]. split; [done|]. eapply Forall_impl; [exact Hf|exact Hk]. }
  destruct r; try done; [apply (Hfan (FanNext _ _))|]. intros (? & ? & ?). split_and!; auto.
Qed.

Lemma in_close_other_reader m m' s r g x :
  readers m' = readers m → writers m' = writers m → others m' = others m →
  in_close m g x → g ≠ GReader s ∨ r = RClose ∧ readers m !! s = Some RClose →
  in_close (put_reader s r m') g x.
Proof.
  intros E1 E2 E3 Hin Hg. destruct g as [y|y|n]; cbn in *; rewrite ?E2, ?E3; [|done|done].
  destruct Hin as [-> Hy]. split; [done|]. rewrite E1, lookup_insert.
  case_decide as Hd; [subst s|done]. destruct Hg as [Hg|[-> _]]; [by destruct Hg|done].
Qed.

Lemma once_by_fit g s m m' x g' k :
  once_by g s m m' → goroutines_ok m → once m' !! x = Some (g', k) → g' ≠ g ∨ x ≠ s →
  ∃ k', once m !! x = Some (g', k') ∧ known m x ∧ in_close m g' x.
Proof.
  intros [H1 H2] Hg Hx Hne. assert (∃ k', once m !! x = Some (g', k')) as [k' Hk'].
  { destruct (decide (x = s)) as [->|Hxs]; [|exists k; by rewrite <-H1].
    destruct Hne as [Hne|]; [by eapply H2|done]. }
  exists k'. split; [done|]. by apply (go_once m Hg x g' k').
Qed.

Lemma goroutines_reader s r r' m m' :
  goroutines_ok m → frame m m' → readers m !! s = Some r → reader_fit m' r' →
  once_by (GReader s) s m m' → (∀ k, once m' !! s = Some (GReader s, k) → r' = RClose) →
  goroutines_ok (put_reader s r' m').
Proof.
  intros Hg [E1 E2 E3 E4 Hk Hsp] Hr Hfit Hon Hcl. pose proof Hg as [Gr Gw Go Gn Gs Gl].
  destruct (Gr s r Hr) as [Hs _]. constructor; cbn [readers writers others once world put_reader]; try done.
  - intros x y. rewrite lookup_insert, E1. case_decide as Hx; [subst x|].
    + intros [= <-]. split; [by apply Hk|done].
    + intros Hy. destruct (Gr x y Hy). split; [by apply Hk|by eapply reader_fit_known].
  - intros x v. rewrite E2. intros Hv. destruct (Gw x v Hv). split; [by apply Hk|done].
  - intros n t. rewrite E3. intros Ht. eapply Forall_impl; [by eapply Go|exact Hk].
  - intros x g k Hx. destruct (decide (g = GReader s ∧ x = s)) as [[-> ->]|Hne].
    + split; [by apply Hk|]. cbn. rewrite lookup_insert_eq. split; [done|]. by rewrite (Hcl k Hx).
    + destruct (once_by_fit _ _ _ _ x g k Hon Hg Hx) as (k' & _ & Hkn & Hin).
      { destruct (decide (x = s)); [left|by right]. intros ->. by destruct Hne. }
      split; [by apply Hk|]. destruct g as [y|y|n]; cbn in *; rewrite ?E2, ?E3; [|done|done].
      destruct Hin as [-> Hy]. split; [done|]. rewrite lookup_insert_ne, E1 by (intros ->; by destruct Hne). done.
  - by apply Hsp.
  - by rewrite E4.
Qed.

Lemma goroutines_writer s v v' m m' :
  goroutines_ok m → frame m m' → writers m !! s = Some v → writer_fit v' →
  once_by (GWriter s) s m m' → (∀ k, once m' !! s = Some (GWriter s, k) → v' = VClose) →
  goroutines_ok (put_writer s v' m').
Proof.
  intros Hg [E1 E2 E3 E4 Hk Hsp] Hv Hfit Hon Hcl. pose proof Hg as [Gr Gw Go Gn Gs Gl].
  destruct (Gw s v Hv) as [Hs _]. constructor; cbn [readers writers others once world put_writer]; try done.
  - intros x y. rewrite E1. intros Hy. destruct (Gr x y Hy). split; [by apply Hk|by eapply reader_fit_known].
  - intros x y. rewrite lookup_insert, E2. case_decide as Hx; [subst x|].
    + intros [= <-]. split; [by apply Hk|done].
    + intros Hy. destruct (Gw x y Hy). split; [by apply Hk|done].
  - intros n t. rewrite E3. intros Ht. eapply Forall_impl; [by eapply Go|exact Hk].
  - intros x g k Hx. destruct (decide (g = GWriter s ∧ x = s)) as [[-> ->]|Hne].
    + split; [by apply Hk|]. cbn. rewrite lookup_insert_eq. split; [done|]. by rewrite (Hcl k Hx).
    + destruct (once_by_fit _ _ _ _ x g k Hon Hg Hx) as (k' & _ & Hkn & Hin).
      { destruct (decide (x = s)); [left|by right]. intros ->. by destruct Hne. }
      split; [by apply Hk|]. destruct g as [y|y|n]; cbn in *; rewrite ?E1, ?E3; [done| |done].
      destruct Hin as [-> Hy]. split; [done|]. rewrite lookup_insert_ne, E2 by (intros ->; by destruct Hne). done.
  - by apply Hsp.
  - by rewrite E4.
Qed.

(** A goroutine of the third kind moves, or is started. *)
Lemma goroutines_other n s t' m m' :
  goroutines_ok m → frame m m' → Forall (known m') (mentions t') →
  once_by (GOther n) s m m' →
  (∀ x k, once m' !! x = Some (GOther n, k) → in_close (put_other n t' m') (GOther n) x ∧ known m x) →
  goroutines_ok (put_other n t' m').
Proof.
  intros Hg [E1 E2 E3 E4 Hk Hsp] Hfit Hon Hcl. pose proof Hg as [Gr Gw Go Gn Gs Gl].
  constructor; cbn [readers writers others once world put_other]; try done.
  - intros x y. rewrite E1. intros Hy. destruct (Gr x y Hy). split; [by apply Hk|by eapply reader_fit_known].
  - intros x y. rewrite E2. intros Hy. destruct (Gw x y Hy). split; [by apply Hk|done].
  - intros i t. rewrite lookup_insert, E3. case_decide; [by intros [= <-]|].
    intros Ht. eapply Forall_impl; [by eapply Go|exact Hk].
  - intros x g k Hx. destruct (decide (g = GOther n)) as [->|Hne].
    + destruct (Hcl x k Hx). split; [by apply Hk|done].
    + destruct (once_by_fit _ _ _ _ x g k Hon Hg Hx) as (k' & _ & Hkn & Hin); [by left|].
      split; [by apply Hk|]. destruct g as [y|y|i]; cbn in *; rewrite ?E1, ?E2; [done|done|].
      rewrite lookup_insert_ne, E3 by congruence. done.
  - by apply Hsp.
  - by rewrite E4.
Qed.

(** Moving a goroutine of the third kind to [t'] with the lock it then holds. *)
Lemma locks_other n t' m m' :
  locks_ok m → others m' = others m →
  (∀ i, i ≠ n → mu m' = Some i ↔ mu m = Some i) → (mu m' = Some n ↔ holds_mu t' = true) →
  (∀ i, i ≠ n → i ∈ mu_readers m' ↔ i ∈ mu_readers m) → (n ∈ mu_readers m' ↔ reads_mu t' = true) →
  (mu m' ≠ None → mu_readers m' = ∅) → locks_ok (put_other n t' m').
Proof.
  intros [L1 L2 L3] E H1 H2 H3 H4 H5. constructor; cbn [mu mu_readers others put_other]; [| |done].
  - intros i. rewrite lookup_insert, E. case_decide as Hi; [subst i|by rewrite H1, L1 by done].
    rewrite H2. split; [by exists t'|]. by intros (t & [= <-] & ?).
  - intros i. rewrite lookup_insert, E. case_decide as Hi; [subst i|by rewrite H3, L2 by done].
    rewrite H4. split; [by exists t'|]. by intros (t & [= <-] & ?).
Qed.

Lemma locks_same m m' :
  locks_ok m → others m' = others m → mu m' = mu m → mu_readers m' = mu_readers m → locks_ok m'.
Proof. intros [L1 L2 L3] E1 E2 E3. constructor; rewrite ?E1, ?E2, ?E3; done. Qed.

(** A session with a closed connection is not in [Server.sessions]. *)
Lemma closed_unlisted s sess m :
  core_ok m → heap (world m) !! s = Some sess → conn_closed sess = true →
  set_sessions (sessions (world m) ∖ {[s]}) (world m) = world m.
Proof.
  intros Hc Hs Hcl. destruct (co_session m Hc s sess Hs) as (r & _ & Hl).
  assert (s ∉ sessions (world m)) as Hn.
  { intros Hin. apply (lo_live _ _ _ _ _ Hl) in Hin. revert Hin. pose proof (lo_flags _ _ _ _ _ Hl) as Hf.
    revert Hf. unfold flags_ok, listed.
    destruct (stage m s) as [[]|]; intros Hf [Ho|Hk]; try done; destruct Hf as (? & ? & ?); intuition congruence. }
  replace (sessions (world m) ∖ {[s]}) with (sessions (world m)) by set_solver. by destruct (world m).
Qed.

(** *** The read loop *)

Lemma pool_ok_reader s r r' m m' :
  pool_ok m → readers m !! s = Some r → r ≠ RClose → frame m m' → once m' = once m →
  mu m' = mu m → mu_readers m' = mu_readers m → reader_fit m' r' →
  core_ok (put_reader s r' m') → pool_ok (put_reader s r' m').
Proof.
  intros [Hc Hg Hl] Hr Hne Hf Ho E1 E2 Hfit Hcore. constructor; [done| |].
  - apply (goroutines_reader s r r' m m'); [done..|by apply once_same|].
    intros k. rewrite Ho. intros Hk. destruct (go_once m Hg _ _ _ Hk) as [_ [_ Hx]]. congruence.
  - apply (locks_same m); [done|apply Hf|done|done].
Qed.

(** The read loop moves and nothing else. *)
Lemma pool_ok_move s sess r r' m :
  pool_ok m → heap (world m) !! s = Some sess → readers m !! s = Some r → r ≠ RClose →
  settled r → settled r' → reader_fit m r' →
  (removed sess (stage m s) → adding r' → adding r) → (∀ msg, r' = RHold msg → wire_ok msg) →
  (left_loop r' → conn_closed sess = true) → pool_ok (put_reader s r' m).
Proof.
  intros Hm Hs Hr Hne H1 H2 Hfit H3 H4 H5.
  apply (pool_ok_reader s r r' m m); [done..|apply frame_refl|done|done|done|done|].
  by apply (core_move s sess r); [apply Hm|..].
Qed.

(** It moves after a change of the world that is none for the invariant. *)
Lemma pool_ok_after s sess r r' w m :
  pool_ok m → readers m !! s = Some r → r ≠ RClose → frame m (set_world w m) →
  core_ok (set_world w m) → heap w !! s = Some sess →
  settled r → settled r' → reader_fit (set_world w m) r' → (adding r' → adding r) →
  (∀ msg, r' = RHold msg → wire_ok msg) → (left_loop r' → conn_closed sess = true) →
  pool_ok (put_reader s r' (set_world w m)).
Proof.
  intros Hm Hr Hne Hf Hcore Hs H1 H2 Hfit H3 H4 H5.
  apply (pool_ok_reader s r r' m (set_world w m)); [done..|].
  apply (core_move s sess r); done.
Qed.

Lemma handle_step_ok c s sess msg m :
  pool_ok m → heap (world m) !! s = Some sess → readers m !! s = Some (RHold msg) →
  pool_ok (put_reader s (handle_step c s msg sess m).1 (handle_step c s msg sess m).2).
Proof.
  intros Hm Hs Hr. pose proof (pk_core m Hm) as Hc.
  destruct (co_session m Hc s sess Hs) as (rd & Hrd & Hloc). simplify_eq.
  pose proof (lo_read _ _ _ _ _ Hloc msg eq_refl) as Hwire.
  unfold handle_step. repeat case_decide; cbn [fst snd].
  - rewrite exists_subject. case_bool_decide as Hin; cbn [fst snd].
    + by apply (pool_ok_move s sess (RHold msg)).
    + apply (pool_ok_reader s (RHold msg) _ m); [done..|apply frame_upd|done|done|done|done|].
      eapply (core_ok_at s m); [done| |apply Hc|apply heap_upd|apply lookup_insert_eq|by eapply local_ok_sub_list].
      eapply elsewhere_trans; [apply elsewhere_upd|apply elsewhere_reader].
  - apply (pool_ok_reader s (RHold msg) _ m); [done..|apply frame_upd|done|done|done|done|].
    eapply (core_ok_at s m); [done| |apply Hc|apply heap_upd|apply lookup_insert_eq|by eapply local_ok_unsub_list].
    eapply elsewhere_trans; [apply elsewhere_upd|apply elsewhere_reader].
  - destruct (store_find_ok (c_order c) (Subject msg) (router (world m)) (co_router m Hc)) as (Hst & Hp & _ & Hel).
    set (res := store_find (c_order c) (Subject msg) (router (world m))) in *.
    assert (∀ x p, patterns (set_world (set_router res.2 (world m)) m) x p ↔ patterns m x p) as Hpat
      by (intros x p; unfold patterns; cbn; by rewrite Hp).
    apply (pool_ok_after s sess (RHold msg)); try done.
    + apply (core_ok_at s m _ sess (RHold msg)); [done| |done|done|done|].
      * apply elsewhere_router. intros p x _. apply Hpat.
      * eapply local_ok_ext; [| |exact Hloc]; [intros p; by rewrite Hpat|done].
    + split; [by apply relay_frame|]. apply Forall_forall. intros x Hx. apply Hel in Hx as (p & Hpx & _).
      by apply (co_known m Hc p x).
  - destruct (closed sess); apply (pool_ok_move s sess (RHold msg)); try done.
    split_and!; [by eexists| |done]. intros d [= <-]. apply pong_frame.
  - by apply (pool_ok_move s sess (RHold msg)).
Qed.

(** A message was read: the session keeps its state but for the input and the program
    counter. *)
Lemma core_upd_loop s sess rd x m :
  core_ok m → heap (world m) !! s = Some sess →
  core_ok (set_world (upd s (set_input rd x sess) (world m)) m).
Proof.
  intros Hm Hs. destruct (co_session m Hm s sess Hs) as (r & _ & []).
  by apply (core_upd s sess).
Qed.

(** The places after a send are outside the subscription handlers. *)
Definition plain (r : reader_at) : Prop :=
  settled r ∧ ¬ adding r ∧ ¬ left_loop r ∧ r ≠ RClose ∧ ∀ msg, r ≠ RHold msg.

Lemma respond_plain s command text sess : plain (respond s command text sess).
Proof. unfold respond. destruct (closed sess); split_and!; (done || by intros []). Qed.
Lemma resume_plain k e : plain (resume k e).
Proof. destruct k as [| |fr l], e; split_and!; (done || by intros []). Qed.

Lemma respond_fit s command text sess m : known m s → reader_fit m (respond s command text sess).
Proof.
  intros Hs. unfold respond. destruct (closed sess); [done|]. split_and!; [done| |done].
  intros d [= <-]. apply response_frame.
Qed.

(** An access of [enqueueEncoded]. *)
Lemma send_step_ok s x p k m :
  pool_ok m → readers m !! s = Some (RSend x p k) →
  match send_step x p k m with
  | Ret (r', m') => pool_ok (put_reader s r' m')
  | Panic => False
  | Block => True
  end.
Proof.
  intros Hm Hr. destruct (go_readers m (pk_goroutines m Hm) s _ Hr) as [[own Hs] ([sess Hx] & Hfr & Hk)].
  unfold send_step. rewrite Hx. destruct (producer_step p sess) as [[p' sess'] close] eqn:Hp.
  destruct (producer_step_queue _ _ _ _ _ Hp) as [n ->]. set (m' := set_world _ m).
  assert (core_ok m') as Hc.
  { apply core_queue; [apply Hm|done|]. eapply Forall_impl; [apply pushed_frame|exact Hfr]. }
  assert (frame m m') as Hf by (apply frame_send; by eexists).
  set (r' := match p' with PDone r => resume k r | _ => RSend x p' k end).
  assert (plain r') as (R1 & R2 & R3 & _ & R5).
  { unfold r'. destruct p'; try apply resume_plain; split_and!; (done || by intros []). }
  destruct (fr_known m m' Hf s) as [own' Hs']; [by eexists|].
  apply (pool_ok_after s own' (RSend x p k)); try done; [|by intros msg E; destruct (R5 msg)].
  apply (reader_fit_known m); [apply Hf|]. unfold r'.
  destruct p' as [e|e|e c1 c2|e|e|e] eqn:E; subst p';
    try (split_and!; [by eexists|intros d Hd; apply Hfr; by eapply producer_step_frame|done]).
  by destruct k, e.
Qed.

(** The read loop calls [Close]. *)
Lemma pool_ok_close_reader s b m m' :
  pool_ok m → readers m !! s = Some RClose → core_ok m' → same_goroutines m m' → elsewhere s m m' →
  (if b : bool then once m' !! s = None ∧ finished m' s else ∃ k, once m' !! s = Some (GReader s, k)) →
  pool_ok (put_reader s (if b then RRemove else RClose) m').
Proof.
  intros [Hc Hg Hl] Hr Hc' Hsg Hel Hb.
  assert (known m' s) as [sess Hs].
  { apply (sg_known m m' Hsg). by apply (go_readers m Hg s RClose). }
  assert (readers m' !! s = Some RClose) as Hr' by (by rewrite (sg_readers m m' Hsg)).
  constructor.
  - apply (core_move s sess RClose); try done; [by destruct b|by destruct b; intros _|by destruct b|].
    destruct b; [|done]. destruct Hb as [_ (y & Hy & ?)]. congruence.
  - apply (goroutines_reader s RClose _ m m'); [done|by apply frame_close|done|by destruct b| |].
    + apply once_close; [done|]. destruct b; [left; apply Hb|by right].
    + intros k Hk. destruct b; [|done]. destruct Hb as [E _]. congruence.
  - destruct Hsg. by apply (locks_same m).
Qed.

Lemma reader_step_ok c s r m :
  pool_ok m → readers m !! s = Some r →
  match reader_step c s r m with
  | Ret (r', m') => pool_ok (put_reader s r' m')
  | Panic => False
  | Block => True
  end.
Proof.
  intros Hm Hr. pose proof (pk_core m Hm) as Hc. pose proof (pk_goroutines m Hm) as Hg.
  destruct (go_readers m Hg s r Hr) as [[sess Hs] Hfit].
  destruct (co_session m Hc s sess Hs) as (rd & Hrd & Hloc). rewrite Hr in Hrd. injection Hrd as <-.
  unfold reader_step. rewrite Hs. destruct r as [| |msg|p|p|text|fr [|x l]|e|x p k| | | |].
  - destruct (done sess) eqn:Hd; apply (pool_ok_move s sess RTop); try done.
    intros [Ho Hk] _. exfalso. pose proof (lo_flags _ _ _ _ _ Hloc) as Hf. revert Hf Hk. unfold flags_ok.
    destruct (stage m s) as [[]|]; intros Hf Hk; try done; destruct Hf as (? & ? & ?); intuition congruence.
  - destruct (c_read c); [|by apply (pool_ok_move s sess RRead)].
    destruct (ParseFromReader_spec (conn_input sess)) as (res & rd & -> & _ & Hmsg & _).
    destruct res as [msg|e].
    + destruct (Hmsg msg eq_refl) as [Hw _].
      apply (pool_ok_after s (set_input rd (Holding msg) sess) RRead); try done;
        [apply frame_upd|by apply core_upd_loop|apply heap_upd|by intros m' [= <-]].
    + apply (pool_ok_after s (set_input rd (pc sess) sess) RRead); try done;
        [apply frame_upd|by apply core_upd_loop|apply heap_upd].
  - pose proof (handle_step_ok c s sess msg m Hm Hs Hr) as Hh. by destruct (handle_step c s msg sess m).
  - destruct (lo_pending _ _ _ _ _ Hloc p eq_refl) as [Hin Hno].
    destruct (store_subscribe_ok p s (router (world m)) (co_router m Hc) Hno) as [Hst Hp].
    apply (pool_ok_reader s (RSubRouter p) _ m); [done..|apply frame_router|done|done|done|done|].
    eapply (core_ok_at s m); [done| |done|exact Hs|apply lookup_insert_eq|].
    + eapply elsewhere_trans; [apply elsewhere_router|apply elsewhere_reader].
      intros q x Hx. rewrite Hp. set_solver.
    + eapply local_ok_ext; [| |by eapply local_ok_sub_router]; [|done].
      intros q. unfold patterns. cbn. rewrite Hp, elem_of_union, elem_of_singleton. naive_solver.
  - destruct (store_unsubscribe_ok p s (router (world m)) (co_router m Hc)) as [Hst Hp].
    apply (pool_ok_reader s (RUnsubRouter p) _ m); [done..|apply frame_router|done|done|done|done|].
    eapply (core_ok_at s m); [done| |done|exact Hs|apply lookup_insert_eq|].
    + eapply elsewhere_trans; [apply elsewhere_router|apply elsewhere_reader].
      intros q x Hx. rewrite Hp. set_solver.
    + eapply local_ok_ext; [| |by eapply local_ok_unsub_router]; [|done].
      intros q. unfold patterns. cbn. rewrite Hp, elem_of_difference, elem_of_singleton. naive_solver.
  - destruct (respond_plain s CmdOk text sess) as (R1 & R2 & R3 & _ & R5).
    apply (pool_ok_move s sess (RAck text)); try done; [apply respond_fit; by eexists|by intros msg E; destruct (R5 msg)].
  - by apply (pool_ok_move s sess (RFan fr [])).
  - destruct Hfit as [Hfr [[sub Hx] Hl]%Forall_cons]. rewrite Hx.
    destruct (closed sub || _); apply (pool_ok_move s sess (RFan fr (x :: l))); try done.
    split_and!; [by eexists| |done]. by intros d [= <-].
  - destruct (respond_plain s CmdErr (str "handle error: " ++ handle_error_text e) sess) as (R1 & R2 & R3 & _ & R5).
    apply (pool_ok_move s sess (RFail e)); try done; [apply respond_fit; by eexists|by intros msg E; destruct (R5 msg)].
  - by apply (send_step_ok s x p k).
  - apply (pool_ok_after s (set_pc AtTop (set_lastPing (now (world m)) sess)) RStamp); try done;
      [apply frame_upd| |apply heap_upd].
    apply (core_upd s sess); try done. apply Hloc.
  - pose proof (core_close c (GReader s) s m Hc) as Hcl.
    destruct (close_step c (GReader s) s m) as [[b m']| |]; cbn [obind fst snd];
      [|apply Hcl; by eexists|done].
    destruct Hcl as (Hc' & Hsg & Hel & Hb); [by eexists|]. by apply (pool_ok_close_reader s b m).
  - destruct (server_free m); [|done].
    pose proof (lo_left _ _ _ _ _ Hloc I) as Hcl.
    set (sess1 := set_pc Returned sess). set (m1 := set_world (upd s sess1 (world m)) m).
    assert (core_ok m1) as Hc1 by (by apply core_upd_loop).
    assert (set_sessions (sessions (world m) ∖ {[s]}) (upd s sess1 (world m)) = upd s sess1 (world m)) as ->
      by (apply (closed_unlisted s sess1 m1 Hc1); [apply heap_upd|done]).
    apply (pool_ok_after s sess1 RRemove); try done; [apply frame_upd|apply heap_upd].
  - done.
Qed.
(** *** The write loop *)

Lemma pool_ok_writer s v v' m m' :
  pool_ok m → writers m !! s = Some v → v ≠ VClose → frame m m' → once m' = once m →
  mu m' = mu m → mu_readers m' = mu_readers m → writer_fit v' → core_ok m' → pool_ok (put_writer s v' m').
Proof.
  intros [Hc Hg Hl] Hv Hne Hf Ho E1 E2 Hfit Hcore. constructor; [by destruct Hcore| |].
  - apply (goroutines_writer s v v' m m'); [done..|by apply once_same|].
    intros k. rewrite Ho. intros Hk. destruct (go_once m Hg _ _ _ Hk) as [_ [_ Hx]]. congruence.
  - apply (locks_same m); [done|apply Hf|done|done].
Qed.

Lemma pool_ok_close_writer s b m m' :
  pool_ok m → writers m !! s = Some VClose → core_ok m' → same_goroutines m m' → elsewhere s m m' →
  (if b : bool then once m' !! s = None ∧ finished m' s else ∃ k, once m' !! s = Some (GWriter s, k)) →
  pool_ok (put_writer s (if b then VEnd else VClose) m').
Proof.
  intros [Hc Hg Hl] Hv Hc' Hsg Hel Hb. constructor; [by destruct Hc'| |].
  - apply (goroutines_writer s VClose _ m m'); [done|by apply frame_close|done|by destruct b| |].
    + apply once_close; [done|]. destruct b; [left; apply Hb|by right].
    + intros k Hk. destruct b; [|done]. destruct Hb as [E _]. congruence.
  - destruct Hsg. by apply (locks_same m).
Qed.

Lemma writer_step_ok c s v m :
  pool_ok m → writers m !! s = Some v →
  match writer_step c s v m with
  | Ret (v', m') => pool_ok (put_writer s v' m')
  | Panic => False
  | Block => True
  end.
Proof.
  intros Hm Hv. pose proof (pk_core m Hm) as Hc. pose proof (pk_goroutines m Hm) as Hg.
  destruct (go_writers m Hg s v Hv) as [[sess Hs] Hfit].
  destruct (co_session m Hc s sess Hs) as (rd & Hrd & Hloc).
  pose proof (lo_frames _ _ _ _ _ Hloc) as Hf.
  unfold writer_step. rewrite Hs. destruct v as [|data|data| |].
  - destruct (_ && _); [by apply (pool_ok_writer s VWait _ m m); try apply frame_refl|].
    destruct (outChan sess) as [|data rest]; [done|]. apply Forall_cons in Hf as [Hdata Hf].
    apply (pool_ok_writer s VWait _ m); [done..|apply frame_upd|done|done|done|done|].
    by apply (core_upd s sess).
  - apply (pool_ok_writer s (VTaken data) _ m); [done..|apply frame_upd|done|done|done|done|].
    by apply (core_upd s sess).
  - destruct (c_write c); [|by apply (pool_ok_writer s (VWrite data) _ m m); try apply frame_refl].
    apply (pool_ok_writer s (VWrite data) _ m); [done..|apply frame_upd|done|done|done|done|].
    apply (core_upd s sess); try done.
    cbn [outChan conn_sent set_sent]. rewrite !Forall_app, Forall_singleton in *. tauto.
  - pose proof (core_close c (GWriter s) s m Hc) as Hcl.
    destruct (close_step c (GWriter s) s m) as [[b m']| |]; cbn [obind fst snd];
      [|apply Hcl; by eexists|done].
    destruct Hcl as (Hc' & Hsg & Hel & Hb); [by eexists|]. by apply (pool_ok_close_writer s b m).
  - done.
Qed.

(** *** The other goroutines *)

(** The session this goroutine is closing. *)
Definition target (t : other) : option sid :=
  match t with Closing s | Shutting (XClosing s _) => Some s | _ => None end.

Lemma in_close_target n s m :
  in_close m (GOther n) s ↔ ∃ t, others m !! n = Some t ∧ target t = Some s.
Proof.
  cbn. split.
  - intros [?|[l ?]]; eexists; done.
  - intros ([x|a|[| |l|x l|]|] & Ht & Hx); simplify_eq/=; eauto.
Qed.

(** Goroutine [n] is not there yet or in no call of [Close]. *)
Definition outside m (n : nat) : Prop := ∀ t, others m !! n = Some t → target t = None.

(** A goroutine takes or leaves no lock. *)
Lemma locks_keep n t' m m' :
  locks_ok m → others m' = others m → mu m' = mu m → mu_readers m' = mu_readers m →
  holds_mu t' = from_option holds_mu false (others m !! n) →
  reads_mu t' = from_option reads_mu false (others m !! n) → locks_ok (put_other n t' m').
Proof.
  intros [L1 L2 L3] E1 E2 E3 Hh Hr. apply (locks_other n t' m m'); [done|done|by rewrite E2| |by rewrite E3| |by rewrite E2, E3].
  - rewrite E2, L1, Hh. destruct (others m !! n); cbn; naive_solver.
  - rewrite E3, L2, Hr. destruct (others m !! n); cbn; naive_solver.
Qed.

Lemma pool_ok_other n t' m m' :
  pool_ok m → outside m n → frame m m' → once m' = once m → core_ok m' →
  Forall (known m') (mentions t') → locks_ok (put_other n t' m') → pool_ok (put_other n t' m').
Proof.
  intros [Hc Hg Hl] Hout Hf Ho Hcore Hk Hlk. constructor; [by destruct Hcore| |done].
  apply (goroutines_other n 0%nat t' m m'); [done..|by apply once_same|].
  intros x k. rewrite Ho. intros Hx. destruct (go_once m Hg _ _ _ Hx) as [_ (t & Ht & Hx')%in_close_target].
  rewrite (Hout t Ht) in Hx'. done.
Qed.

Lemma pool_ok_close_other n s t t' m m' (b : bool) :
  pool_ok m → others m !! n = Some t → target t = Some s → core_ok m' → same_goroutines m m' → elsewhere s m m' →
  holds_mu t' = holds_mu t → reads_mu t' = reads_mu t → Forall (known m') (mentions t') →
  (if b : bool then once m' !! s = None ∧ finished m' s
   else (∃ k, once m' !! s = Some (GOther n, k)) ∧ target t' = Some s) →
  pool_ok (put_other n t' m').
Proof.
  intros [Hc Hg Hl] Ht Hs Hc' Hsg Hel Hh Hr Hk Hb. constructor; [by destruct Hc'| |].
  - apply (goroutines_other n s t' m m'); [done|by apply frame_close|done| |].
    + apply once_close; [done|]. destruct b; [left|right]; apply Hb.
    + intros x k Hx. assert (x = s ∧ b = false) as [-> ->].
      { destruct (decide (x = s)) as [->|Hne].
        - split; [done|]. destruct b; [|done]. destruct Hb as [E _]. congruence.
        - rewrite (el_once _ _ _ Hel) in Hx by done.
          destruct (go_once m Hg _ _ _ Hx) as [_ (t1 & Ht1 & Hx')%in_close_target]. simplify_eq. }
      split.
      * apply in_close_target. exists t'. split; [apply lookup_insert_eq|apply Hb].
      * pose proof (go_others m Hg n t Ht) as Hm. rewrite Forall_forall in Hm. apply Hm.
        destruct t as [y|a|[| |l|y l|]|]; simplify_eq/=; left.
  - destruct Hsg. apply (locks_keep n t' m m'); [done..| |]; by rewrite Ht.
Qed.

Lemma frame_mu x rs m : frame m (set_mu x rs m).
Proof. by constructor. Qed.

Lemma core_mu x rs m : core_ok m → core_ok (set_mu x rs m).
Proof. by intros []. Qed.

Lemma server_free_true m : server_free m = true → mu m = None ∧ mu_readers m = ∅.
Proof. unfold server_free. by intros [?%bool_decide_eq_true ?%bool_decide_eq_true]%andb_true_iff. Qed.

Lemma stats_step_ok c n a m :
  pool_ok m → others m !! n = Some (Counting a) →
  match stats_step c n a m with
  | Ret (a', m') => pool_ok (put_other n (Counting a') m')
  | Panic => False
  | Block => True
  end.
Proof.
  intros Hm Hn. pose proof (pk_locks m Hm) as [L1 L2 L3].
  assert (outside m n) as Hout by (intros t Ht; by simplify_eq).
  assert (mu m ≠ Some n) as Hmu by (intros (t & Ht & ?)%L1; by simplify_eq).
  destruct a as [| |conns subjs|r]; cbn [stats_step].
  - case_decide as Hfree; [|done].
    apply (pool_ok_other n _ m); [done|done|apply frame_mu|done|by apply core_mu, Hm|done|].
    apply (locks_other n _ m); cbn; try done.
    + intros i _. by rewrite Hfree.
    + intros i Hi. set_solver.
    + split; [done|]. intros _. set_solver.
  - apply (pool_ok_other n _ m); [done|done|apply frame_refl|done|apply Hm|done|].
    apply (locks_keep n _ m); [apply Hm|done..| |]; by rewrite Hn.
  - apply (pool_ok_other n _ m); [done|done|apply frame_mu|done|by apply core_mu, Hm|done|].
    apply (locks_other n _ m); cbn; try done.
    + intros i Hi. set_solver.
    + split; [|done]. set_solver.
    + intros Hne. rewrite (L3 Hne). set_solver.
  - done.
Qed.

Lemma shut_step_ok c n a m :
  pool_ok m → others m !! n = Some (Shutting a) →
  match shut_step c n a m with
  | Ret (a', m') => pool_ok (put_other n (Shutting a') m')
  | Panic => False
  | Block => True
  end.
Proof.
  intros Hm Hn. pose proof (pk_core m Hm) as Hc. pose proof (pk_locks m Hm) as [L1 L2 L3].
  pose proof (go_others m (pk_goroutines m Hm) n _ Hn) as Hk.
  destruct a as [| |[|s l]|s l|]; cbn [shut_step]; [| | | | |done].
  - assert (outside m n) as Hout by (intros t Ht; by simplify_eq).
    destruct (srv_closeOnce (world m)).
    + destruct (existsb _ _); [done|].
      apply (pool_ok_other n _ m); [done|done|apply frame_refl|done|done|done|].
      apply (locks_keep n _ m); [apply Hm|done..| |]; by rewrite Hn.
    + apply (pool_ok_other n _ m); [done|done|by apply frame_world|done| |done|].
      * by destruct Hc.
      * apply (locks_keep n _ m); [apply Hm|done..| |]; by rewrite Hn.
  - assert (outside m n) as Hout by (intros t Ht; by simplify_eq).
    destruct (server_free m) eqn:Hfree; [|done]. apply server_free_true in Hfree as [Hfree Hnone].
    apply (pool_ok_other n _ m); [done|done|apply frame_mu|done|by apply core_mu| |].
    + cbn. rewrite Forall_forall. intros x Hx. apply (co_live m Hc).
      unfold live. apply elem_of_elements. by rewrite <-(visit_perm (c_order c)).
    + apply (locks_other n _ m); cbn; try done.
      * intros i Hi. rewrite Hfree. split; [|done]. by intros [= ->].
      * intros i _. by rewrite Hnone.
  - assert (outside m n) as Hout by (intros t Ht; by simplify_eq).
    assert (mu m = Some n) as Hmu by (apply L1; by eexists).
    apply (pool_ok_other n _ m); [done|done|by constructor|done|by destruct Hc|done|].
    apply (locks_other n _ m); cbn; try done.
    + intros i Hi. split; [done|]. rewrite Hmu. by intros [= <-].
    + rewrite L2. by intros; split; [intros (t & Ht & ?); simplify_eq|].
  - assert (outside m n) as Hout by (intros t Ht; by simplify_eq).
    apply (pool_ok_other n _ m); [done|done|apply frame_refl|done|done|done|].
    apply (locks_keep n _ m); [apply Hm|done..| |]; by rewrite Hn.
  - pose proof (core_close c (GOther n) s m Hc) as Hcl.
    destruct (close_step c (GOther n) s m) as [[b m']| |]; cbn [obind fst snd];
      [|apply Hcl; by apply Forall_cons in Hk as []|done].
    destruct Hcl as (Hc' & Hsg & Hel & Hb); [by apply Forall_cons in Hk as []|].
    assert (Forall (known m') (s :: l)) as Hk' by (eapply Forall_impl; [exact Hk|apply Hsg]).
    destruct b; cbn.
    + destruct Hb as [Ho (sess & Hs & Hcc)].
      rewrite (closed_unlisted s sess m' Hc' Hs Hcc).
      replace (set_world (world m') m') with m' by (by destruct m').
      apply (pool_ok_close_other n s _ _ m m' true Hm Hn eq_refl Hc' Hsg Hel); try done.
      * by apply Forall_cons in Hk' as [].
      * split; [done|]. by exists sess.
    + by apply (pool_ok_close_other n s _ _ m m' false Hm Hn eq_refl Hc' Hsg Hel).
Qed.

Lemma other_step_ok c n t m :
  pool_ok m → others m !! n = Some t →
  match other_step c n t m with
  | Ret (t', m') => pool_ok (put_other n t' m')
  | Panic => False
  | Block => True
  end.
Proof.
  intros Hm Hn. destruct t as [s|a|a|]; cbn [other_step]; [| | |done].
  - pose proof (pk_core m Hm) as Hc. pose proof (go_others m (pk_goroutines m Hm) n _ Hn) as Hk.
    assert (known m s) as Hs by (by apply Forall_cons in Hk as []).
    pose proof (core_close c (GOther n) s m Hc Hs) as Hcl.
    destruct (close_step c (GOther n) s m) as [[b m']| |]; cbn [obind fst snd]; [|done..].
    destruct Hcl as (Hc' & Hsg & Hel & Hb).
    apply (pool_ok_close_other n s _ _ m m' b Hm Hn eq_refl Hc' Hsg Hel); try (by destruct b).
    destruct b; [by constructor|]. eapply Forall_impl; [exact Hk|apply Hsg].
  - pose proof (stats_step_ok c n a m Hm Hn) as Hst. by destruct (stats_step c n a m) as [[a' m']| |].
  - pose proof (shut_step_ok c n a m Hm Hn) as Hst. by destruct (shut_step c n a m) as [[a' m']| |].
Qed.

(** *** The whole broker *)

Lemma pool_ok_accept s input m :
  pool_ok m → heap (world m) !! s = None →
  pool_ok (put_writer s VWait (put_reader s RTop (set_world (accept_world s input (world m)) m))).
Proof.
  intros [Hc [Gr Gw Go Gn Gs Gl] Hlk] Hs.
  set (m' := put_writer s VWait (put_reader s RTop (set_world (accept_world s input (world m)) m))).
  assert (∀ x, known m x → known m' x) as Hk by (intros x; apply (is_Some_upd s)).
  assert (¬ known m s) as Hns by (unfold known; rewrite Hs; by intros [? ?]).
  assert (∀ g k, once m !! s ≠ Some (g, k)) as Hno by (intros g k Ho; by destruct (Gn _ _ _ Ho)).
  assert (stage m' s = None) as Hst.
  { unfold stage. cbn. destruct (once m !! s) as [[g k]|] eqn:E; [|done]. by destruct (Hno g k). }
  assert (∀ p, ¬ patterns m' s p) as Hp by (intros p Hp; by apply Hns, (co_known m Hc p s)).
  assert (known m' s) as Hks by (eexists; apply heap_upd).
  constructor.
  - eapply (core_ok_at s m m'); [done| |apply Hc|apply heap_upd|apply lookup_insert_eq|].
    + constructor; try done.
      * intros x Hx. by apply heap_upd_ne.
      * intros x Hx. by apply lookup_insert_ne.
      * intros x Hx. unfold live. cbn. set_solver.
    + rewrite Hst. eapply local_ok_ext; [| |apply local_ok_new; [by apply NewSession_ok|done..]].
      * intros p. split; [done|apply Hp].
      * unfold live. cbn. set_solver.
  - constructor; cbn [readers writers others once world spawned m' put_writer put_reader set_world].
    + intros x r. rewrite lookup_insert. case_decide as Hx; [subst x; by intros [= <-]|].
      intros Hr. destruct (Gr x r Hr). split; [by apply Hk|by eapply reader_fit_known].
    + intros x v. rewrite lookup_insert. case_decide as Hx; [subst x; by intros [= <-]|].
      intros Hv. destruct (Gw x v Hv). split; [by apply Hk|done].
    + intros n t Ht. eapply Forall_impl; [by eapply Go|exact Hk].
    + intros x g k Hx. destruct (Gn x g k Hx) as [Hkn Hin]. split; [by apply Hk|].
      assert (x ≠ s) by (by intros ->; destruct (Hno g k)).
      destruct g as [y|y|n]; cbn in *; [..|done]; destruct Hin as [-> ?]; by rewrite lookup_insert_ne.
    + eapply Forall_impl; [exact Gs|exact Hk].
    + done.
  - by apply (locks_same m).
Qed.

(** A goroutine is started. *)
Lemma pool_ok_start n t m m' :
  pool_ok m → others m !! n = None → frame m m' → once m' = once m → mu m' = mu m →
  mu_readers m' = mu_readers m → core_ok m' → Forall (known m') (mentions t) → holds_mu t = false →
  reads_mu t = false → pool_ok (put_other n t m').
Proof.
  intros Hm Hn Hf Ho E1 E2 Hc Hk Hh Hr.
  apply (pool_ok_other n t m); try done; [by intros t'; rewrite Hn|].
  apply (locks_keep n t m); [apply Hm|apply Hf|done|done|..]; by rewrite Hn.
Qed.

(** A change of the world that is none for the invariant. *)
Lemma pool_ok_world w m :
  pool_ok m → router w = router (world m) → heap w = heap (world m) → sessions w = sessions (world m) →
  spawned w = spawned (world m) → (maxSessionQueuedBytes w <= 2 ^ 62)%Z → pool_ok (set_world w m).
Proof.
  intros [[Hr Hs Hk Hl] [Gr Gw Go Gn Gs Gl] Hlk] E1 E2 E3 E4 Hlim.
  assert (∀ x, known m x → known (set_world w m) x) as Hkn by (intros x; unfold known; cbn; by rewrite E2).
  constructor.
  - constructor; unfold patterns, live, known, stage; cbn; rewrite ?E1, ?E2, ?E3; done.
  - constructor; cbn.
    + intros s r Hx. destruct (Gr s r Hx). split; [by apply Hkn|by eapply reader_fit_known].
    + intros s v Hx. destruct (Gw s v Hx). split; [by apply Hkn|done].
    + intros n t Hx. eapply Forall_impl; [by eapply Go|exact Hkn].
    + intros s g k Hx. destruct (Gn s g k Hx). split; [by apply Hkn|done].
    + rewrite E4. eapply Forall_impl; [exact Gs|exact Hkn].
    + done.
  - by apply (locks_same m).
Qed.

Lemma moves_ok g m m' : pool_ok m → moves g m m' → pool_ok m'.
Proof.
  intros Hm Hstep. destruct Hstep as [c s r r' m m' Hr E|c s v v' m m' Hv E|c n t t' m m' Hn E].
  - pose proof (reader_step_ok c s r m Hm Hr) as Hst. by rewrite E in Hst.
  - pose proof (writer_step_ok c s v m Hm Hv) as Hst. by rewrite E in Hst.
  - pose proof (other_step_ok c n t m Hm Hn) as Hst. by rewrite E in Hst.
Qed.

Lemma pool_step_ok m m' : pool_ok m → pool_step m m' → pool_ok m'.
Proof.
  intros Hm Hstep. pose proof (pk_core m Hm) as Hc. pose proof (pk_goroutines m Hm) as Hg.
  destruct Hstep as [g m m' Hmv|s input m Hs _|n s l1 l2 m Hn Hsp|n m Hn|n m Hn|m
    |maxq cap m Hmax _|timeout m _|t m].
  - by eapply moves_ok.
  - by apply pool_ok_accept.
  - pose proof (go_spawned m Hg) as Hf. rewrite Hsp, Forall_app, Forall_cons in Hf.
    apply (pool_ok_start n (Closing s) m); try done.
    + constructor; try done. intros _. cbn. rewrite Forall_app. tauto.
    + by destruct Hc.
    + constructor; [tauto|done].
  - by apply (pool_ok_start n _ m).
  - by apply (pool_ok_start n _ m).
  - apply pool_ok_world; try done. apply Hg.
  - apply pool_ok_world; try done. cbn. destruct (0 <? maxq)%Z; [done|apply Hg].
  - apply pool_ok_world; try done. apply Hg.
  - apply pool_ok_world; try done. apply Hg.
Qed.

Lemma new_pool_ok : pool_ok new_pool.
Proof.
  constructor; [|by constructor|].
  - constructor; cbn; try done; [apply store_new_ok|].
    intros p s. unfold patterns. cbn. rewrite store_new_pairs. by intros ?%elem_of_empty.
  - constructor; cbn; try done; intros n; split; try done; intros (t & Ht & _); by rewrite lookup_empty in Ht.
Qed.

Lemma pool_reachable_ok m : pool_reachable m → pool_ok m.
Proof. apply rtc_invariant; [apply pool_step_ok|apply new_pool_ok]. Qed.
End pool.
