(* ===== verification/InterleavedBytes.v ===== *)
(** * The byte counters while the broker's goroutines interleave

    [queuedBytes] of a session is added to before a frame is queued and subtracted from after
    it is taken, by any number of goroutines. Here: at every instant it is exactly the size
    of the queue and of what is [pending], the bytes that read loops in [enqueueEncoded] have
    reserved and those of the frame the write loop has just taken. *)

From S2P Require Import Prelude GoStrings GoIO Protocol Subject Router Session Server SendQueue.
From S2P Require Import Interleaved InterleavedInv.

(** The bytes a read loop has reserved on the queue of session [x]. *)
Definition reserved_for (x : sid) (r : reader_at) : Z :=
  match r with RSend y p _ => if decide (y = x) then reserved p else 0%Z | _ => 0%Z end.

(** Those of a frame taken from the channel and not yet subtracted. *)
Definition taken (v : writer_at) : Z := match v with VTaken d => len d | _ => 0%Z end.

Lemma reserved_for_nonneg x r : (0 <= reserved_for x r)%Z.
Proof. destruct r; cbn; try done. case_decide; [apply reserved_nonneg|done]. Qed.
Lemma taken_nonneg v : (0 <= taken v)%Z.
Proof. destruct v; cbn; try done. len_lia. Qed.

(** A read loop not in a send, or at the beginning of one. *)
Definition unreserved (r : reader_at) : Prop :=
  match r with RSend _ (PStart _) _ => True | RSend _ _ _ => False | _ => True end.

Lemma unreserved_zero x r : unreserved r → reserved_for x r = 0%Z.
Proof. destruct r as [| | | | | | | |y [] k| | | |]; try done. cbn. intros _. by case_decide. Qed.

Section bytes.
Context {R : Type} `{SubscriptionStoreLaws R}.
Implicit Types m : pool R.

Definition pending m (x : sid) : Z :=
  (map_total (reserved_for x) (readers m) + from_option taken 0%Z (writers m !! x))%Z.

Lemma pending_nonneg m x : (0 <= pending m x)%Z.
Proof.
  unfold pending. pose proof (map_total_nonneg (reserved_for x) (readers m) (reserved_for_nonneg x)).
  destruct (writers m !! x) as [v|]; cbn; [pose proof (taken_nonneg v)|]; lia.
Qed.

Definition sender_ok m (r : reader_at) : Prop :=
  match r with
  | RSend x p _ => ∃ sess, heap (world m) !! x = Some sess ∧ producer_ok (maxQueuedBytes sess) p
  | _ => True
  end.

Record bytes_ok m : Prop := {
  by_sessions : ∀ x sess, heap (world m) !! x = Some sess → accounted sess (pending m x);
  by_senders : ∀ s r, readers m !! s = Some r → sender_ok m r;
}.

(** What the accounting sees of a session. *)
Definition ledger (a : Session) : list (list byte) * Z * Z * Z := (outChan a, outCap a, queuedBytes a, maxQueuedBytes a).
Definition same_ledger m m' : Prop := ∀ x, ledger <$> heap (world m') !! x = ledger <$> heap (world m) !! x.

Lemma accounted_ledger a b n : ledger b = ledger a → accounted a n → accounted b n.
Proof. destruct a, b. unfold ledger. cbn. intros [= -> -> -> ->] []. by constructor. Qed.

Lemma same_ledger_refl m : same_ledger m m.
Proof. by intros x. Qed.
Lemma same_ledger_upd s a b m :
  heap (world m) !! s = Some a → ledger b = ledger a → same_ledger m (set_world (upd s b (world m)) m).
Proof.
  intros Hs E x. cbn [world set_world]. destruct (decide (s = x)) as [<-|]; [|by rewrite heap_upd_ne].
  rewrite heap_upd, Hs. cbn. by rewrite E.
Qed.
Lemma same_ledger_lookup m m' x a :
  same_ledger m m' → heap (world m) !! x = Some a → ∃ b, heap (world m') !! x = Some b ∧ ledger b = ledger a.
Proof.
  intros Hl Ha. specialize (Hl x). rewrite Ha in Hl. destruct (heap (world m') !! x) as [b|]; [|done].
  injection Hl as E1 E2 E3 E4. exists b. split; [done|]. unfold ledger. by rewrite E1, E2, E3, E4.
Qed.
Lemma same_ledger_sym m m' : same_ledger m m' → same_ledger m' m.
Proof. by intros Hl x. Qed.

Lemma sender_ok_ledger m m' r : same_ledger m m' → sender_ok m r → sender_ok m' r.
Proof.
  intros Hl. destruct r; try done. intros (a & Ha & Hp). destruct (same_ledger_lookup _ _ _ _ Hl Ha) as (b & Hb & E).
  exists b. split; [done|]. by injection E as _ _ _ ->.
Qed.

(** Nothing the accounting sees has changed. *)
Lemma bytes_ok_same m m' :
  bytes_ok m → same_ledger m m' → readers m' = readers m → writers m' = writers m → bytes_ok m'.
Proof.
  intros [Hs Hr] Hl E1 E2. constructor.
  - intros x b Hb. destruct (same_ledger_lookup _ _ _ _ (same_ledger_sym _ _ Hl) Hb) as (a & Ha & E).
    eapply accounted_ledger; [by symmetry|]. unfold pending. rewrite E1, E2. by apply Hs.
  - intros s r. rewrite E1. intros Hsr. eapply sender_ok_ledger; [exact Hl|]. by eapply Hr.
Qed.

Lemma pending_reader m s r r' x :
  readers m !! s = Some r → pending (put_reader s r' m) x = (pending m x - reserved_for x r + reserved_for x r')%Z.
Proof.
  intros Hs. unfold pending. cbn [readers writers put_reader].
  rewrite (map_total_insert _ _ _ _ _ Hs). lia.
Qed.
Lemma pending_writer m s v v' x :
  writers m !! s = Some v →
  pending (put_writer s v' m) x = (pending m x + (if decide (s = x) then taken v' - taken v else 0))%Z.
Proof.
  intros Hs. unfold pending. cbn [readers writers put_writer]. rewrite lookup_insert.
  case_decide; subst; rewrite ?Hs; cbn; lia.
Qed.

Lemma bytes_reader s r r' m :
  bytes_ok m → readers m !! s = Some r → (∀ x, reserved_for x r = 0%Z) → unreserved r' → sender_ok m r' →
  bytes_ok (put_reader s r' m).
Proof.
  intros [Hs Hr] Hsr Hz Hu Hok. constructor.
  - intros x a Ha. rewrite (pending_reader _ _ _ _ _ Hsr), Hz, unreserved_zero by done.
    rewrite Z.sub_0_r, Z.add_0_r. by apply Hs.
  - intros t y. cbn [readers put_reader]. rewrite lookup_insert. case_decide; [by intros [= <-]|by apply Hr].
Qed.

Lemma bytes_writer s v v' m :
  bytes_ok m → writers m !! s = Some v → taken v' = taken v → bytes_ok (put_writer s v' m).
Proof.
  intros [Hs Hr] Hv E. constructor; [|exact Hr]. intros x a Ha.
  rewrite (pending_writer _ _ _ _ _ Hv), E, Z.sub_diag. replace (if decide (s = x) then 0 else 0)%Z with 0%Z by by case_decide.
  rewrite Z.add_0_r. by apply Hs.
Qed.

(** ** The read loop *)

(** A step outside the sends. *)
Record quiet_step m m' : Prop := {
  qs_ledger : same_ledger m m';
  qs_readers : readers m' = readers m;
  qs_writers : writers m' = writers m;
}.

Lemma noiseless_refl m : quiet_step m m.
Proof. by constructor. Qed.
Lemma quiet_upd s a b m :
  heap (world m) !! s = Some a → ledger b = ledger a → quiet_step m (set_world (upd s b (world m)) m).
Proof. intros. constructor; [by eapply same_ledger_upd|done..]. Qed.
Lemma quiet_world w m : heap w = heap (world m) → quiet_step m (set_world w m).
Proof. intros E. constructor; [|done..]. intros x. cbn. by rewrite E. Qed.

Lemma close_step_quiet c g s m b m' : close_step c g s m = Ret (b, m') → quiet_step m m'.
Proof.
  unfold close_step. destruct (heap (world m) !! s) as [sess|] eqn:Hs; [|done].
  assert (∀ a x, ledger a = ledger sess → quiet_step m (set_once x (set_world (upd s a (world m)) m))) as Hupd.
  { intros a x E. constructor; [|done..]. by apply (same_ledger_upd s sess a). }
  destruct (once m !! s) as [[g' k]|].
  - case_decide; [|done]. destruct k; cbn [close_body]; [| |intros [= <- <-]; by constructor| |].
    + intros [= <- <-]. by apply Hupd.
    + destruct (done sess); [done|]. intros [= <- <-]. by apply Hupd.
    + destruct (server_free m); [|done]. intros [= <- <-]. by constructor.
    + intros [= <- <-]. by apply Hupd.
  - destruct (closeOnce sess); intros [= <- <-]; [apply noiseless_refl|by apply Hupd].
Qed.

Lemma respond_unreserved s command text sess : unreserved (respond s command text sess).
Proof. unfold respond. by destruct (closed sess). Qed.

Lemma handle_step_quiet c s msg sess m :
  heap (world m) !! s = Some sess →
  quiet_step m (handle_step c s msg sess m).2 ∧ unreserved (handle_step c s msg sess m).1.
Proof.
  intros Hs. unfold handle_step. repeat case_decide; cbn [fst snd].
  - destruct (existsb _ _); cbn [fst snd]; (split; [|done]); [apply noiseless_refl|by eapply quiet_upd].
  - split; [by eapply quiet_upd|done].
  - split; [by apply quiet_world|done].
  - split; [apply noiseless_refl|by destruct (closed sess)].
  - split; [apply noiseless_refl|done].
Qed.

Lemma reader_step_quiet c s r m r' m' :
  reader_step c s r m = Ret (r', m') → (∀ x p k, r ≠ RSend x p k) → quiet_step m m' ∧ unreserved r'.
Proof.
  unfold reader_step. destruct (heap (world m) !! s) as [sess|] eqn:Hs; [|done]. intros Hstep Hns.
  destruct r as [| |msg|p|p|text|fr [|x l]|e|x p k| | | |]; try done.
  - destruct (done sess); injection Hstep as <- <-; split; (apply noiseless_refl || done).
  - destruct (c_read c); [|injection Hstep as <- <-; split; (apply noiseless_refl || done)].
    destruct (ParseFromReader (conn_input sess)) as [[[msg|err] rd]| |]; try done;
      injection Hstep as <- <-; (split; [by eapply quiet_upd|done]).
  - injection Hstep as E. pose proof (handle_step_quiet c s msg sess m Hs) as Hh. by rewrite E in Hh.
  - injection Hstep as <- <-. split; [by apply quiet_world|done].
  - injection Hstep as <- <-. split; [by apply quiet_world|done].
  - injection Hstep as <- <-. split; [apply noiseless_refl|apply respond_unreserved].
  - injection Hstep as <- <-. split; [apply noiseless_refl|done].
  - destruct (heap (world m) !! x) as [sub|]; [|done]. injection Hstep as <- <-.
    split; [apply noiseless_refl|]. by destruct (_ || _).
  - injection Hstep as <- <-. split; [apply noiseless_refl|apply respond_unreserved].
  - by destruct (Hns x p k).
  - injection Hstep as <- <-. split; [by eapply quiet_upd|done].
  - destruct (close_step c (GReader s) s m) as [[b m1]| |] eqn:E; try done. cbn in Hstep. injection Hstep as <- <-.
    split; [by eapply close_step_quiet|by destruct b].
  - destruct (server_free m); [|done]. injection Hstep as <- <-. split; [|done].
    constructor; [|done..]. by apply (same_ledger_upd s sess (set_pc Returned sess)).
Qed.

(** A new send carries a frame of a parseable message. *)
Lemma fresh_sender m r : unreserved r → reader_fit m r → sender_ok m r.
Proof.
  destruct r as [| | | | | | | |x [e|e|e ? ?|e|e|e] k| | | |]; try done. intros _ ([sess Hs] & Hfr & _).
  exists sess. split; [done|]. by apply good_frame_width, Hfr.
Qed.

(** An access of [enqueueEncoded]. *)
Lemma send_step_bytes s x p k m r' m' :
  bytes_ok m → readers m !! s = Some (RSend x p k) → send_step x p k m = Ret (r', m') →
  bytes_ok (put_reader s r' m').
Proof.
  intros [Hs Hr] Hsr. unfold send_step. destruct (Hr s _ Hsr) as (sess & Hx & Hp). rewrite Hx.
  destruct (producer_step p sess) as [[p' sess'] close] eqn:Hstep. intros [= <- <-].
  set (r' := match p' with PDone r => resume k r | _ => RSend x p' k end).
  set (m' := set_world _ m). assert (readers m' !! s = Some (RSend x p k)) as Hsr' by done.
  assert (∀ y, reserved_for y r' = if decide (x = y) then reserved p' else 0%Z) as Hres.
  { intros y. unfold r'. destruct p'; try done. destruct k as [| |fr l], result; cbn; by case_decide. }
  set (rest := (pending m x - reserved p)%Z).
  assert (0 <= rest)%Z as Hrest.
  { unfold rest, pending. pose proof (map_total_lookup (reserved_for x) (readers m) s _ (reserved_for_nonneg x) Hsr) as Hle.
    cbn in Hle. rewrite decide_True in Hle by done.
    destruct (writers m !! x) as [v|]; cbn; [pose proof (taken_nonneg v)|]; lia. }
  destruct (producer_accounted p sess p' sess' close rest Hstep Hrest) as (Hacc & Hp' & Emax & _); [|done|].
  { replace (reserved p + rest)%Z with (pending m x) by (unfold rest; lia). by apply Hs. }
  assert (heap (world m') = <[x := sess']> (heap (world m))) as Hh by (cbn; by rewrite send_world_heap).
  assert (∀ r, sender_ok m r → sender_ok m' r) as Hsend.
  { intros [] Hok; try done. destruct Hok as (a & Ha & Hpa). unfold sender_ok. rewrite Hh.
    rewrite lookup_insert. case_decide; [|by exists a]. exists sess'. split; [done|]. subst. rewrite Emax. by simplify_eq. }
  constructor.
  - intros y a. cbn [world put_reader]. rewrite Hh. rewrite (pending_reader _ _ _ _ _ Hsr'), Hres.
    change (pending m' y) with (pending m y). cbn [reserved_for]. rewrite lookup_insert. case_decide as E.
    + intros [= <-]. subst y. replace (pending m x - reserved p + reserved p')%Z with (reserved p' + rest)%Z by (unfold rest; lia). done.
    + intros Ha. rewrite Z.sub_0_r, Z.add_0_r. by apply Hs.
  - intros t y. cbn [readers put_reader]. rewrite lookup_insert. case_decide; [|intros Hy; apply Hsend; by eapply Hr].
    intros [= <-]. unfold r'. destruct p'; try (exists sess'; split; [|done]; cbn [world put_reader]; rewrite Hh; apply lookup_insert_eq).
    by destruct k as [| |fr l], result.
Qed.

Lemma reader_bytes c s r m r' m' :
  bytes_ok m → pool_ok (put_reader s r' m') → readers m !! s = Some r → reader_step c s r m = Ret (r', m') →
  bytes_ok (put_reader s r' m').
Proof.
  intros Hb Hok Hr Hstep.
  assert ((∃ x p k, r = RSend x p k) ∨ ∀ x p k, r ≠ RSend x p k) as [(x & p & k & ->)|Hns]
    by (destruct r; try (by right); left; by do 3 eexists).
  - unfold reader_step in Hstep. destruct (heap (world m) !! s); [|done]. by eapply send_step_bytes.
  - destruct (reader_step_quiet _ _ _ _ _ _ Hstep Hns) as [[Hl E1 E2] Hu].
    assert (bytes_ok m') as Hb' by (by eapply bytes_ok_same).
    apply (bytes_reader s r r' m'); [done|by rewrite E1| |done|].
    + intros x. destruct r; try done. by destruct (Hns x0 p k).
    + apply (fresh_sender (put_reader s r' m') r'); [done|].
      apply (go_readers _ (pk_goroutines _ Hok) s r'). apply lookup_insert_eq.
Qed.

(** ** The write loop *)

Lemma taken_bytes s v v' sess sess' m :
  bytes_ok m → writers m !! s = Some v → heap (world m) !! s = Some sess →
  maxQueuedBytes sess' = maxQueuedBytes sess →
  (∀ rest, (0 <= rest)%Z → accounted sess (taken v + rest) → accounted sess' (taken v' + rest)) →
  bytes_ok (put_writer s v' (set_world (upd s sess' (world m)) m)).
Proof.
  intros [Hs Hr] Hv Hsess Emax Hacc. set (m' := set_world (upd s sess' (world m)) m).
  assert (writers m' !! s = Some v) as Hv' by done. constructor.
  - intros x a. rewrite (pending_writer _ _ _ _ _ Hv'). change (pending m' x) with (pending m x).
    cbn [world put_writer m' set_world]. case_decide as E.
    + subst x. rewrite heap_upd. intros [= <-].
      set (rest := (pending m s - taken v)%Z).
      replace (pending m s + (taken v' - taken v))%Z with (taken v' + rest)%Z by (unfold rest; lia).
      apply Hacc.
      * unfold rest, pending. rewrite Hv. cbn. pose proof (map_total_nonneg (reserved_for s) (readers m) (reserved_for_nonneg s)). lia.
      * replace (taken v + rest)%Z with (pending m s) by (unfold rest; lia). by apply Hs.
    + rewrite heap_upd_ne by done. rewrite Z.add_0_r. apply Hs.
  - intros t r Ht. specialize (Hr t r Ht). destruct r; try done. destruct Hr as (a & Ha & Hp).
    unfold sender_ok. cbn [world put_writer m' set_world]. destruct (decide (s = x)) as [<-|]; [|by exists a; rewrite heap_upd_ne].
    exists sess'. rewrite heap_upd, Emax. by simplify_eq.
Qed.

Lemma writer_bytes c s v m v' m' :
  bytes_ok m → writers m !! s = Some v → writer_step c s v m = Ret (v', m') → bytes_ok (put_writer s v' m').
Proof.
  intros Hb Hv. unfold writer_step. destruct (heap (world m) !! s) as [sess|] eqn:Hs; [|done].
  destruct v as [|data|data| |]; [| | | |done].
  - destruct (_ && _); [intros [= <- <-]; by eapply bytes_writer|].
    destruct (outChan sess) as [|data rest] eqn:Hq; [done|]. intros [= <- <-].
    apply (taken_bytes s VWait _ sess); try done. intros n _ Hn. by apply receive_accounted.
  - intros [= <- <-]. apply (taken_bytes s (VTaken data) _ sess); try done.
    intros n Hn Hacc. by apply release_accounted.
  - destruct (c_write c); intros [= <- <-]; [|by eapply bytes_writer].
    apply (bytes_writer s (VWrite data)); [|done|done].
    by eapply bytes_ok_same; [exact Hb|eapply same_ledger_upd|..].
  - destruct (close_step c (GWriter s) s m) as [[b m1]| |] eqn:E; try done. cbn. intros [= <- <-].
    destruct (close_step_quiet _ _ _ _ _ _ E) as [Hl E1 E2].
    apply (bytes_writer s VClose); [by eapply bytes_ok_same|by rewrite E2|by destruct b].
Qed.

(** ** The other goroutines *)

Lemma other_step_quiet c n t m t' m' : other_step c n t m = Ret (t', m') → quiet_step m m'.
Proof.
  destruct t as [s|a|a|]; cbn [other_step]; [| | |done].
  - destruct (close_step c (GOther n) s m) as [[b m1]| |] eqn:E; try done. intros [= <- <-].
    by eapply close_step_quiet.
  - destruct a; cbn; [case_decide; [|done]|..]; intros [= <- <-]; by constructor.
  - destruct a as [| |[|s l]|s l|]; cbn; try done; try (by intros [= <- <-]; apply noiseless_refl).
    + destruct (srv_closeOnce (world m)); [destruct (existsb _ _); [done|]|]; intros [= <- <-];
        (apply noiseless_refl || by apply quiet_world).
    + destruct (server_free m); [|done]. intros [= <- <-]. by constructor.
    + intros [= <- <-]. by constructor.
    + destruct (close_step c (GOther n) s m) as [[b m1]| |] eqn:E; try done.
      destruct (close_step_quiet _ _ _ _ _ _ E) as [Hl E1 E2]. destruct b; intros [= <- <-]; by constructor.
Qed.

(** ** The whole broker *)

Lemma bytes_accept s input m :
  pool_ok m → bytes_ok m → heap (world m) !! s = None →
  bytes_ok (put_writer s VWait (put_reader s RTop (set_world (accept_world s input (world m)) m))).
Proof.
  intros Hm [Hs Hr] Hnone. pose proof (pk_goroutines m Hm) as Hg.
  assert (readers m !! s = None) as Hrs.
  { destruct (readers m !! s) as [r|] eqn:E; [|done]. destruct (go_readers m Hg s r E) as [[a Ha] _]. congruence. }
  assert (writers m !! s = None) as Hws.
  { destruct (writers m !! s) as [r|] eqn:E; [|done]. destruct (go_writers m Hg s r E) as [[a Ha] _]. congruence. }
  set (m' := put_writer _ _ _).
  assert (∀ x, pending m' x = pending m x) as Hp.
  { intros x. unfold pending. cbn [readers writers m' put_writer put_reader set_world].
    rewrite map_total_new by done. cbn [reserved_for]. rewrite lookup_insert. case_decide; [subst; by rewrite Hws|done]. }
  assert (∀ x, heap (world m') !! x = if decide (s = x) then Some (NewSession input (now (world m))
      (sessionOutChanCap (world m)) (maxSessionQueuedBytes (world m)) (sessionWriteTimeout (world m))) else heap (world m) !! x) as Hh.
  { intros x. cbn. rewrite lookup_insert. by case_decide. }
  constructor.
  - intros x a. rewrite Hh, Hp. case_decide as E; [|apply Hs]. intros [= <-]. subst x.
    replace (pending m s) with 0%Z; [by apply accounted_new, (go_limits m Hg)|]. unfold pending. rewrite Hws. cbn.
    rewrite map_total_zero; [done|]. intros t r Ht. specialize (Hr t r Ht). destruct r; try done. cbn.
    case_decide; [|done]. subst. destruct Hr as (a & Ha & _). congruence.
  - intros t r. cbn [readers m' put_writer put_reader set_world]. rewrite lookup_insert. case_decide; [by intros [= <-]|].
    intros Ht. specialize (Hr t r Ht). destruct r; try done. destruct Hr as (a & Ha & Hpa). exists a.
    rewrite Hh, decide_False by congruence. done.
Qed.

Lemma bytes_step m m' : pool_ok m → bytes_ok m → pool_step m m' → bytes_ok m'.
Proof.
  intros Hm Hb Hstep. pose proof (pool_step_ok m m' Hm Hstep) as Hm'.
  destruct Hstep as [g m m' Hmv|s input m Hs _|n s l1 l2 m Hn Hsp|n m Hn|n m Hn|m|? ? m _ _|? m _|t m];
    try (apply (bytes_ok_same m); [exact Hb|intros x; reflexivity|reflexivity|reflexivity]).
  - destruct Hmv as [c s r r' m m' Hr E|c s v v' m m' Hv E|c n t t' m m' Hn E].
    + by eapply reader_bytes.
    + by eapply writer_bytes.
    + destruct (other_step_quiet _ _ _ _ _ _ E) as [Hl E1 E2].
      by eapply bytes_ok_same; [exact Hb|exact Hl|..].
  - by apply bytes_accept.
Qed.

Lemma reachable_bytes m : pool_reachable m → bytes_ok m.
Proof.
  intros Hreach. assert (pool_ok m ∧ bytes_ok m) as [_ ?]; [|done]. revert Hreach.
  apply (rtc_invariant pool_step (λ m, pool_ok m ∧ bytes_ok m)); [|split; [apply new_pool_ok|by constructor]].
  intros x y [Hx Hb] Hxy. split; [by eapply pool_step_ok|by eapply bytes_step].
Qed.
End bytes.
