(* ===== verification/InterleavedLive.v ===== *)
(** * What the interleaved broker guarantees, and where it stops

    From the invariants of [InterleavedInv] and [InterleavedBytes]: the bookkeeping at every instant, the absence of
    panics, freedom from deadlock as long as no [Server.Close] is in its loop, and what such
    a loop does to the rest. *)

From S2P Require Import Prelude GoStrings GoIO Protocol Subject Router Session Server.
From S2P Require Import SendQueue Interleaved InterleavedInv InterleavedBytes.

Section live.
Context {R : Type} `{SubscriptionStoreLaws R}.
Implicit Types m : pool R.

(** ** Goroutines that run, rest or can move *)

Definition present m (g : gid) : Prop :=
  match g with
  | GReader s => is_Some (readers m !! s)
  | GWriter s => is_Some (writers m !! s)
  | GOther n => is_Some (others m !! n)
  end.

(** It has returned, or waits at an open and empty queue. *)
Definition resting m (g : gid) : Prop :=
  match g with
  | GReader s => readers m !! s = Some RReturned
  | GWriter s =>
      writers m !! s = Some VEnd ∨
      (writers m !! s = Some VWait ∧
       ∃ sess, heap (world m) !! s = Some sess ∧ done sess = false ∧ outChan sess = [])
  | GOther n =>
      others m !! n = Some Gone ∨ (∃ st, others m !! n = Some (Counting (SDone st))) ∨
      others m !! n = Some (Shutting XEnd)
  end.

Definition can_move m (g : gid) : Prop := ∃ m', moves g m m'.

(** Any choice will do. *)
Definition some_choice : choices := mkChoices in_order true true true.

Lemma reader_can_move s r m rm : 
  readers m !! s = Some r → reader_step some_choice s r m = Ret rm → can_move m (GReader s).
Proof. destruct rm as [r' m']. intros Hr Hst. eexists. by eapply mv_reader. Qed.
Lemma writer_can_move s v m vm :
  writers m !! s = Some v → writer_step some_choice s v m = Ret vm → can_move m (GWriter s).
Proof. destruct vm as [v' m']. intros Hv Hst. eexists. by eapply mv_writer. Qed.
Lemma other_can_move n t m tm :
  others m !! n = Some t → other_step some_choice n t m = Ret tm → can_move m (GOther n).
Proof. destruct tm as [t' m']. intros Ht Hst. eexists. by eapply mv_other. Qed.

(** A step of [Close] is a step of the goroutine that calls it. *)
Lemma close_can_move g s bm m :
  in_close m g s → close_step some_choice g s m = Ret bm → can_move m g.
Proof.
  intros Hin Hst. assert (is_Some (heap (world m) !! s)) as [sess Hs].
  { unfold close_step in Hst. destruct (heap (world m) !! s); [by eexists|done]. }
  destruct g as [x|x|n]; cbn in Hin.
  - destruct Hin as [-> Hr]. eapply reader_can_move; [exact Hr|]. unfold reader_step. by rewrite Hs, Hst.
  - destruct Hin as [-> Hv]. eapply writer_can_move; [exact Hv|]. unfold writer_step. by rewrite Hs, Hst.
  - destruct bm as [[] m'], Hin as [Hn|[l Hn]];
      (eapply other_can_move; [exact Hn|]; cbn; rewrite Hst; reflexivity).
Qed.

(** When [Server.mu] is not free and no [Server.Close] holds it, a [GetStats] does and can go
    on. *)
Lemma stats_can_move m :
  pool_ok m → mu m = None → server_free m = false → ∃ n, can_move m (GOther n).
Proof.
  intros Hm Hmu Hf. unfold server_free in Hf. rewrite Hmu in Hf. cbn in Hf.
  apply bool_decide_eq_false in Hf. apply set_choose_L in Hf as [n Hn].
  apply (lk_readers m (pk_locks m Hm)) in Hn as (t & Ht & Hr). exists n.
  destruct t as [|[| | |]|[]|]; try done; by eapply other_can_move.
Qed.

Lemma closer_can_move m g s :
  pool_ok m → mu m = None → in_close m g s → known m s → ∃ g', can_move m g'.
Proof.
  intros Hm Hmu Hin Hk. destruct (server_free m) eqn:Hf.
  - pose proof (core_close some_choice g s m (pk_core m Hm) Hk) as Hcl.
    destruct (close_step some_choice g s m) as [bm| |] eqn:E; [by exists g; eapply close_can_move|done|].
    destruct Hcl as (g1 & k & Ho & [Hne|[_ Hff]]); [|congruence].
    destruct (go_once m (pk_goroutines m Hm) _ _ _ Ho) as [_ Hin1]. exists g1.
    pose proof (core_close some_choice g1 s m (pk_core m Hm) Hk) as Hcl1.
    destruct (close_step some_choice g1 s m) as [bm| |] eqn:E1; [by eapply close_can_move|done|].
    destruct Hcl1 as (g2 & k2 & Ho2 & [Hne2|[_ Hff]]); congruence.
  - destruct (stats_can_move m Hm Hmu Hf) as [n Hn]. eauto.
Qed.

Lemma reader_progress m s r :
  pool_ok m → mu m = None → readers m !! s = Some r →
  resting m (GReader s) ∨ ∃ g, can_move m g.
Proof.
  intros Hm Hmu Hr. destruct (go_readers m (pk_goroutines m Hm) s r Hr) as [Hk _].
  pose proof Hk as [sess Hs].
  pose proof (reader_step_ok some_choice s r m Hm Hr) as Hst.
  destruct (reader_step some_choice s r m) as [rm| |] eqn:E; [right; eexists; by eapply reader_can_move|done|].
  unfold reader_step in E. rewrite Hs in E. destruct r as [| |msg|p|p|text|fr [|x l]|e|x p k| | | |]; try done.
  - by destruct (done sess).
  - cbn in E. destruct (ParseFromReader_spec (conn_input sess)) as (res & rd & HP & _).
    rewrite HP in E. by destruct res.
  - by destruct (heap (world m) !! x).
  - unfold send_step in E. destruct (heap (world m) !! x) as [y|]; [|done]. by destruct (producer_step p y) as [[? ?] ?].
  - right. by apply (closer_can_move m (GReader s) s).
  - destruct (server_free m) eqn:Hf; [done|]. destruct (stats_can_move m Hm Hmu Hf) as [n Hn]. eauto.
  - by left.
Qed.

Lemma writer_progress m s v :
  pool_ok m → mu m = None → writers m !! s = Some v →
  resting m (GWriter s) ∨ ∃ g, can_move m g.
Proof.
  intros Hm Hmu Hv. destruct (go_writers m (pk_goroutines m Hm) s v Hv) as [Hk _].
  pose proof Hk as [sess Hs]. pose proof (writer_step_ok some_choice s v m Hm Hv) as Hst.
  destruct (writer_step some_choice s v m) as [vm| |] eqn:E; [right; eexists; by eapply writer_can_move|done|].
  unfold writer_step in E. rewrite Hs in E. destruct v as [|d|d| |]; try done.
  - left. right. split; [done|]. exists sess. split; [done|]. cbn in E. destruct (done sess); [done|].
    split; [done|]. cbn in E. by destruct (outChan sess).
  - right. by apply (closer_can_move m (GWriter s) s).
  - by left; left.
Qed.

Lemma other_progress m n t :
  pool_ok m → mu m = None → others m !! n = Some t →
  resting m (GOther n) ∨ ∃ g, can_move m g.
Proof.
  intros Hm Hmu Ht. pose proof (go_others m (pk_goroutines m Hm) n t Ht) as Hk.
  pose proof (other_step_ok some_choice n t m Hm Ht) as Hst.
  destruct (other_step some_choice n t m) as [tm| |] eqn:E; [right; eexists; by eapply other_can_move|done|].
  destruct t as [s|a|a|]; [| | |by left; left]; cbn in E.
  - right. apply Forall_cons in Hk as [Hk _]. by apply (closer_can_move m (GOther n) s); [..|left|].
  - destruct a; cbn in E; [by rewrite decide_True in E|done..|]. left. right. left. by eexists.
  - destruct a as [| |[|s l]|s l|]; cbn in E; try done.
    + destruct (srv_closeOnce (world m)); [|done]. destruct (existsb _ _) eqn:Ex; [|done].
      apply existsb_exists in Ex as (t' & Hin & Hsh). apply list_elem_of_In in Hin.
      apply list_elem_of_fmap in Hin as ([i t''] & -> & Hit). apply elem_of_map_to_list in Hit. cbn in Hsh.
      destruct t'' as [|?|[| |l|x l|]|]; try done; right.
      * destruct (server_free m) eqn:Hf; [|destruct (stats_can_move m Hm Hmu Hf) as [j Hj]; eauto].
        exists (GOther i). eapply other_can_move; [done|]. cbn. by rewrite Hf.
      * exists (GOther i). destruct l; by eapply other_can_move.
      * pose proof (go_others m (pk_goroutines m Hm) i _ Hit) as [Hx _]%Forall_cons.
        apply (closer_can_move m (GOther i) x); try done. right. by eexists.
    + destruct (server_free m) eqn:Hf; [done|]. destruct (stats_can_move m Hm Hmu Hf) as [j Hj]. eauto.
    + right. apply Forall_cons in Hk as [Hk _]. apply (closer_can_move m (GOther n) s); try done. right. by eexists.
    + by left; right; right.
Qed.

(** C7: the broker does not deadlock as long as no [Server.Close] is in its loop: whatever the
    interleaving so far, every goroutine has returned, waits at its open and empty queue, can
    make its next step, or there is another goroutine that can (the one it waits for). *)
Theorem no_deadlock m g :
  pool_reachable m → mu m = None → present m g → resting m g ∨ ∃ g', can_move m g'.
Proof.
  intros Hm%pool_reachable_ok Hmu Hg. destruct g as [s|s|n]; destruct Hg as [x Hx].
  - by apply (reader_progress m s x).
  - by apply (writer_progress m s x).
  - by apply (other_progress m n x).
Qed.

(** ** Runs of [Close] *)

(** [g] runs [s.Close()] to its end without being interrupted. *)
Inductive close_run (c : choices) (g : gid) (s : sid) : pool R → pool R → Prop :=
| close_returns m m' : close_step c g s m = Ret (true, m') → close_run c g s m m'
| close_goes_on m m1 m' :
    close_step c g s m = Ret (false, m1) → close_run c g s m1 m' → close_run c g s m m'.

(** Steps left until [Close] returns. *)
Definition close_left m (s : sid) : nat :=
  match once m !! s with
  | None => 6
  | Some (_, KFlag) => 5
  | Some (_, KSignal) => 4
  | Some (_, KRouter) => 3
  | Some (_, KServer) => 2
  | Some (_, KConn) => 1
  end.

Lemma close_step_left c g s m m' :
  close_step c g s m = Ret (false, m') → (close_left m' s < close_left m s)%nat.
Proof.
  unfold close_step, close_left. destruct (heap (world m) !! s) as [sess|]; [|done].
  destruct (once m !! s) as [[g' k]|].
  - case_decide; [|done]. destruct k; cbn [close_body];
      [|destruct (done sess); [done|]| |destruct (server_free m); [|done]|];
      intros [= <-]; cbn; rewrite lookup_insert_eq; lia.
  - destruct (closeOnce sess); [done|]. intros [= <-]. cbn. rewrite lookup_insert_eq. lia.
Qed.

Definition owned_by m (s : sid) (g : gid) : Prop := ∀ g' k, once m !! s = Some (g', k) → g' = g.

Lemma close_finishes c g s m :
  core_ok m → known m s → server_free m = true → owned_by m s g →
  ∃ m', close_run c g s m m' ∧ core_ok m' ∧ same_goroutines m m' ∧ elsewhere s m m' ∧
    once m' !! s = None ∧ finished m' s.
Proof.
  remember (close_left m s) as n eqn:En. revert m En.
  induction (lt_wf n) as [n _ IH]. intros m -> Hc Hk Hf Hown.
  pose proof (core_close c g s m Hc Hk) as Hcl. pose proof (close_step_left c g s m) as Hleft.
  destruct (close_step c g s m) as [[[] m1]| |] eqn:E; [| |done|].
  - destruct Hcl as (Hc' & Hsg & Hel & Ho & Hfin). exists m1. split_and!; try done. by apply close_returns.
  - destruct Hcl as (Hc' & Hsg & Hel & k & Ho).
    edestruct (IH _ (Hleft _ eq_refl) m1) as (m' & Hrun & Hc2 & Hsg2 & Hel2 & Ho2 & Hfin2); try done.
    + by apply Hsg.
    + unfold server_free in *. by rewrite (sg_mu _ _ Hsg), (sg_mu_readers _ _ Hsg).
    + intros g' k'. rewrite Ho. by intros [= <-].
    + exists m'. split_and!; try done; [by eapply close_goes_on| |by eapply elsewhere_trans].
      destruct Hsg as [A1 A2 A3 A4 A5 A6 A7 A8], Hsg2 as [B1 B2 B3 B4 B5 B6 B7 B8].
      constructor; try (by etrans). auto.
  - destruct Hcl as (g' & k & Ho & [Hne|[_ Hff]]); [|congruence]. destruct Hne. by apply (Hown g' k).
Qed.

(** What the goroutine does next. *)
Definition after_close (g : gid) (s : sid) m : pool R :=
  match g with
  | GReader _ => put_reader s RRemove m
  | GWriter _ => put_writer s VEnd m
  | GOther n =>
      match others m !! n with
      | Some (Shutting (XClosing _ l)) =>
          put_other n (Shutting (XLoop l)) (set_world (set_sessions (sessions (world m) ∖ {[s]}) (world m)) m)
      | _ => put_other n Gone m
      end
  end.

Lemma put_reader_id s r m : readers m !! s = Some r → put_reader s r m = m.
Proof. intros Hr. unfold put_reader. rewrite insert_id by done. by destruct m. Qed.
Lemma put_writer_id s v m : writers m !! s = Some v → put_writer s v m = m.
Proof. intros Hv. unfold put_writer. rewrite insert_id by done. by destruct m. Qed.
Lemma put_other_id n t m : others m !! n = Some t → put_other n t m = m.
Proof. intros Ht. unfold put_other. rewrite insert_id by done. by destruct m. Qed.

(** A step of [Close] changes no goroutine's place. *)
Lemma close_step_places c g s m b m' :
  close_step c g s m = Ret (b, m') →
  readers m' = readers m ∧ writers m' = writers m ∧ others m' = others m ∧ is_Some (heap (world m) !! s).
Proof.
  unfold close_step. destruct (heap (world m) !! s) as [sess|]; [|done].
  destruct (once m !! s) as [[g' k]|].
  - case_decide; [|done]. destruct k; cbn [close_body];
      [|destruct (done sess); [done|]| |destruct (server_free m); [|done]|];
      intros [= <- <-]; cbn; split_and!; (done || by eexists).
  - destruct (closeOnce sess); intros [= <- <-]; cbn; split_and!; (done || by eexists).
Qed.

Lemma close_step_moves c g s m b m' :
  in_close m g s → close_step c g s m = Ret (b, m') →
  moves g m (if b then after_close g s m' else m').
Proof.
  intros Hin Hst. destruct (close_step_places _ _ _ _ _ _ Hst) as (E1 & E2 & E3 & [sess Hs]).
  destruct g as [x|x|n]; cbn in Hin.
  - destruct Hin as [-> Hr].
    assert (reader_step c s RClose m = Ret (if b then RRemove else RClose, m')) as Hstep
      by (unfold reader_step; by rewrite Hs, Hst).
    pose proof (mv_reader c s _ _ _ _ Hr Hstep) as Hmv. destruct b; [done|].
    by rewrite put_reader_id in Hmv by (by rewrite E1).
  - destruct Hin as [-> Hv].
    assert (writer_step c s VClose m = Ret (if b then VEnd else VClose, m')) as Hstep
      by (unfold writer_step; by rewrite Hs, Hst).
    pose proof (mv_writer c s _ _ _ _ Hv Hstep) as Hmv. destruct b; [done|].
    by rewrite put_writer_id in Hmv by (by rewrite E2).
  - destruct Hin as [Hn|[l Hn]].
    + assert (other_step c n (Closing s) m = Ret (if b then Gone else Closing s, m')) as Hstep
        by (cbn; by rewrite Hst).
      pose proof (mv_other c n _ _ _ _ Hn Hstep) as Hmv. destruct b; cbn [after_close].
      * by rewrite E3, Hn.
      * by rewrite put_other_id in Hmv by (by rewrite E3).
    + destruct b; cbn [after_close].
      * rewrite E3, Hn. apply (mv_other c n _ _ m _ Hn). cbn. by rewrite Hst.
      * rewrite <-(put_other_id n (Shutting (XClosing s l)) m') by (by rewrite E3).
        apply (mv_other c n _ _ m _ Hn). cbn. by rewrite Hst.
Qed.

Lemma in_close_same g s m m' :
  readers m' = readers m → writers m' = writers m → others m' = others m →
  in_close m g s → in_close m' g s.
Proof. intros E1 E2 E3. destruct g; cbn; by rewrite ?E1, ?E2, ?E3. Qed.

Lemma close_run_moves c g s m m' :
  in_close m g s → close_run c g s m m' → rtc (moves g) m (after_close g s m').
Proof.
  intros Hin Hrun. induction Hrun as [m m' Hst|m m1 m' Hst Hrun IH].
  - apply rtc_once. by apply (close_step_moves c g s m true m').
  - destruct (close_step_places _ _ _ _ _ _ Hst) as (E1 & E2 & E3 & _).
    eapply rtc_l; [by apply (close_step_moves c g s m false m1)|]. apply IH. by eapply in_close_same.
Qed.

(** ** [Close] returns *)

(** Some goroutine that exists makes a step. *)
Definition runs m m' : Prop := ∃ g, moves g m m'.

Lemma rtc_runs g m m' : rtc (moves g) m m' → rtc runs m m'.
Proof. apply rtc_subrel. intros x y Hxy. by exists g. Qed.

Lemma runs_ok m m' : pool_ok m → rtc runs m m' → pool_ok m'.
Proof. intros Hm. apply (rtc_invariant runs pool_ok); [|done]. intros x y Hx [g Hg]. by eapply moves_ok. Qed.

(** A [GetStats] that holds [Server.mu] gives it back. *)
Lemma stats_returns m n :
  pool_ok m → n ∈ mu_readers m →
  ∃ m', rtc runs m m' ∧ mu m' = mu m ∧ mu_readers m' = mu_readers m ∖ {[n]} ∧
    readers m' = readers m ∧ writers m' = writers m ∧ once m' = once m ∧ world m' = world m ∧
    ∀ i, i ≠ n → others m' !! i = others m !! i.
Proof.
  intros Hm Hn. apply (lk_readers m (pk_locks m Hm)) in Hn as (t & Ht & Hr).
  assert (∀ m conns subjs, others m !! n = Some (Counting (STotal conns subjs)) →
    ∃ m', rtc runs m m' ∧ mu m' = mu m ∧ mu_readers m' = mu_readers m ∖ {[n]} ∧
    readers m' = readers m ∧ writers m' = writers m ∧ once m' = once m ∧ world m' = world m ∧
    ∀ i, i ≠ n → others m' !! i = others m !! i) as Htot.
  { intros x conns subjs Hx. eexists. split.
    - apply rtc_once. exists (GOther n). by eapply (mv_other some_choice n _ _ _ _ Hx).
    - split_and!; try done. intros i Hi. cbn. by rewrite lookup_insert_ne. }
  destruct t as [|[| |conns subjs|]|[]|]; try done; [|by eapply Htot].
  set (m1 := put_other n (Counting (STotal (Z.of_nat (size (sessions (world m)))) (store_subject_count (router (world m))))) m).
  destruct (Htot m1 _ _ (lookup_insert_eq _ _ _)) as (m' & Hrun & E1 & E2 & E3 & E4 & E5 & E6 & E7).
  exists m'. split_and!; try done.
  - eapply rtc_l; [|exact Hrun]. exists (GOther n). by eapply (mv_other some_choice n _ _ _ _ Ht).
  - intros i Hi. rewrite E7 by done. cbn. by rewrite lookup_insert_ne.
Qed.

Lemma stats_drain m :
  pool_ok m → mu m = None →
  ∃ m', rtc runs m m' ∧ server_free m' = true ∧
    readers m' = readers m ∧ writers m' = writers m ∧ once m' = once m ∧ world m' = world m ∧
    ∀ i t, others m !! i = Some t → reads_mu t = false → others m' !! i = Some t.
Proof.
  remember (size (mu_readers m)) as n eqn:En. revert m En.
  induction (lt_wf n) as [n _ IH]. intros m -> Hm Hmu. destruct (server_free m) eqn:Hf.
  { exists m. by split_and!. }
  unfold server_free in Hf. rewrite Hmu in Hf. cbn in Hf.
  apply bool_decide_eq_false in Hf. apply set_choose_L in Hf as [i Hi].
  destruct (stats_returns m i Hm Hi) as (m1 & Hrun1 & F1 & F2 & F3 & F4 & F5 & F6 & F7).
  edestruct (IH (size (mu_readers m1))) as (m' & Hrun & E1 & E2 & E3 & E4 & E5 & E6).
  - rewrite F2. apply subset_size. set_solver.
  - reflexivity.
  - by eapply runs_ok.
  - by rewrite F1.
  - exists m'. split_and!; try (by etrans). intros j t Ht Hr. apply E6; [|done]. rewrite F7; [done|].
    intros ->. apply (lk_readers m (pk_locks m Hm)) in Hi as (t' & Ht' & Hr'). simplify_eq. congruence.
Qed.

Lemma in_close_drained g s m m' :
  readers m' = readers m → writers m' = writers m →
  (∀ i t, others m !! i = Some t → reads_mu t = false → others m' !! i = Some t) →
  in_close m g s → in_close m' g s.
Proof.
  intros E1 E2 E3. destruct g as [x|x|n]; cbn; rewrite ?E1, ?E2; [done..|].
  intros [Hn|[l Hn]]; [left|right; exists l]; by apply E3.
Qed.

(** Where a goroutine goes after [Close], when it is not [Server.Close]. *)
Definition leave_close (g : gid) (s : sid) m : pool R :=
  match g with
  | GReader _ => put_reader s RRemove m
  | GWriter _ => put_writer s VEnd m
  | GOther n => put_other n Gone m
  end.

Lemma leave_close_same g s m :
  world (leave_close g s m) = world m ∧ once (leave_close g s m) = once m ∧
  mu (leave_close g s m) = mu m ∧ mu_readers (leave_close g s m) = mu_readers m.
Proof. by destruct g. Qed.

Lemma leave_close_left g s m : ¬ in_close (leave_close g s m) g s.
Proof.
  destruct g; cbn; [intros [-> Hx]|intros [-> Hx]|intros [Hx|[l Hx]]]; by rewrite lookup_insert_eq in Hx.
Qed.

Lemma leave_close_other g g' s m :
  in_close m g s → g' ≠ g → in_close m g' s → in_close (leave_close g s m) g' s.
Proof.
  destruct g as [x|x|n], g' as [y|y|i]; cbn; try done; intros Hin Hne.
  - destruct Hin as [-> _]. intros [-> _]. by destruct Hne.
  - destruct Hin as [-> _]. intros [-> _]. by destruct Hne.
  - rewrite lookup_insert_ne by congruence. done.
Qed.

Lemma closer_not_shutting g s m :
  pool_ok m → mu m = None → in_close m g s → ∀ n l, g = GOther n → others m !! n ≠ Some (Shutting (XClosing s l)).
Proof.
  intros Hm Hmu Hin n l -> Hn. assert (mu m = Some n) as E; [|congruence].
  apply (lk_mu m (pk_locks m Hm)). by eexists.
Qed.

(** [g] finishes its call: the session is closed and the others keep their places. *)
Lemma close_returns_alone g s m :
  pool_ok m → mu m = None → in_close m g s → known m s → server_free m = true → owned_by m s g →
  ∃ m', rtc runs m m' ∧ finished m' s ∧ known m' s ∧ once m' !! s = None ∧ mu m' = None ∧
    server_free m' = true ∧ ¬ in_close m' g s ∧ ∀ g', g' ≠ g → in_close m g' s → in_close m' g' s.
Proof.
  intros Hm Hmu Hin Hk Hf Hown.
  destruct (close_finishes some_choice g s m (pk_core m Hm) Hk Hf Hown) as (m1 & Hrun & Hc & Hsg & Hel & Ho & Hfin).
  pose proof (close_run_moves _ _ _ _ _ Hin Hrun) as Hmv.
  destruct Hsg as [A1 A2 A3 A4 A5 A6 A7 A8].
  assert (∀ g', in_close m g' s → in_close m1 g' s) as Hsame by (intros g'; by apply in_close_same).
  assert (after_close g s m1 = leave_close g s m1) as E.
  { destruct g as [x|x|n]; [done..|]. cbn. rewrite A3. destruct Hin as [->|[l Hl]]; [done|].
    by destruct (closer_not_shutting (GOther n) s m Hm Hmu ltac:(right; by exists l) n l eq_refl). }
  rewrite E in Hmv. exists (leave_close g s m1).
  destruct (leave_close_same g s m1) as (B1 & B2 & B3 & B4).
  unfold finished, known, server_free in *. rewrite B1, B2, B3, B4, A4, A5.
  split_and!; try done.
  - by eapply rtc_runs.
  - apply A8, Hk.
  - apply leave_close_left.
  - intros g' Hne Hin'. apply leave_close_other; auto.
Qed.

(** C10: [Session.Close] returns: from every reachable interleaving in which no [Server.Close]
    holds the lock, whatever goroutine is inside [s.Close()] (the read loop, the write loop
    or a [go s.Close()]), at whatever stage and whoever else holds [Server.mu] or runs
    [closeOnce.Do], the goroutines that exist can be run so that the call returns, and
    then the session's connection is closed. *)
Theorem Close_returns m g s :
  pool_reachable m → mu m = None → in_close m g s →
  ∃ m', rtc runs m m' ∧ ¬ in_close m' g s ∧ finished m' s.
Proof.
  intros Hm%pool_reachable_ok Hmu Hin.
  assert (known m s) as Hk.
  { destruct g as [x|x|n]; cbn in Hin.
    - destruct Hin as [-> Hr]. by apply (go_readers m (pk_goroutines m Hm)) in Hr as [? _].
    - destruct Hin as [-> Hr]. by apply (go_writers m (pk_goroutines m Hm)) in Hr as [? _].
    - destruct Hin as [Hn|[l Hn]]; apply (go_others m (pk_goroutines m Hm)) in Hn; by apply Forall_cons in Hn as [? _]. }
  destruct (stats_drain m Hm Hmu) as (m1 & Hrun1 & Hf1 & E1 & E2 & E3 & E4 & E5).
  assert (pool_ok m1) as Hm1 by (by eapply runs_ok).
  assert (mu m1 = None) as Hmu1 by (by apply server_free_true).
  assert (∀ g, in_close m g s → in_close m1 g s) as Hin1 by (intros g'; by apply in_close_drained).
  assert (known m1 s) as Hk1 by (unfold known; by rewrite E4).
  destruct (once m1 !! s) as [[g' k]|] eqn:Ho; [destruct (decide (g' = g)) as [->|Hne]|].
  - destruct (close_returns_alone g s m1) as (m' & Hrun & Hfin & _ & _ & _ & _ & Hout & _); auto.
    { intros g' k'. rewrite Ho. by intros [= <-]. }
    exists m'. split_and!; [by etrans|done..].
  - destruct (go_once m1 (pk_goroutines m1 Hm1) _ _ _ Ho) as [_ Hin'].
    destruct (close_returns_alone g' s m1) as (m2 & Hrun & _ & Hk2 & Ho2 & Hmu2 & Hf2 & _ & Hkeep); auto.
    { intros g1 k'. rewrite Ho. by intros [= <-]. }
    assert (pool_ok m2) as Hm2 by (eapply runs_ok; [exact Hm1|done]).
    destruct (close_returns_alone g s m2) as (m' & Hrun' & Hfin & _ & _ & _ & _ & Hout & _); auto.
    { intros g1 k'. by rewrite Ho2. }
    exists m'. split_and!; [|done..]. etrans; [exact Hrun1|]. by etrans.
  - destruct (close_returns_alone g s m1) as (m' & Hrun & Hfin & _ & _ & _ & _ & Hout & _); auto.
    { intros g1 k'. by rewrite Ho. }
    exists m'. split_and!; [by etrans|done..].
Qed.

(** ** [Server.Close] *)

(** What the step of a session's goroutine keeps; [Server.sessions] while [Server.mu] is
    taken. *)
Record held_fast m m' : Prop := {
  hf_sessions : server_free m = false → sessions (world m') = sessions (world m);
  hf_others : others m' = others m;
  hf_mu : mu m' = mu m;
  hf_held : held (world m') = held (world m);
}.

Lemma held_fast_refl m : held_fast m m.
Proof. done. Qed.

Lemma held_fast_send s r m : held_fast m (set_world (send_world s r (world m)) m).
Proof. constructor; [|done|done|apply send_world_held]. intros _. cbn. unfold send_world. by destruct (sent_close r). Qed.

Lemma close_step_held c g s m b m' : close_step c g s m = Ret (b, m') → held_fast m m'.
Proof.
  unfold close_step. destruct (heap (world m) !! s) as [sess|]; [|done].
  destruct (once m !! s) as [[g' k]|].
  - case_decide; [|done]. destruct k; cbn [close_body]; try by intros [= <- <-].
    + destruct (done sess); [done|]. by intros [= <- <-].
    + destruct (server_free m) eqn:Hf; [|done]. intros [= <- <-]. constructor; try done. congruence.
  - destruct (closeOnce sess); by intros [= <- <-].
Qed.

Lemma handle_step_held c s msg sess m : held_fast m (handle_step c s msg sess m).2.
Proof.
  unfold handle_step. repeat case_decide; cbn [snd]; try done. by destruct (existsb _ _).
Qed.

Lemma reader_step_held c s r m r' m' : reader_step c s r m = Ret (r', m') → held_fast m m'.
Proof.
  unfold reader_step. destruct (heap (world m) !! s) as [sess|]; [|done].
  destruct r as [| |msg|p|p|text|fr [|x l]|e|x p k| | | |]; try by intros [= <- <-].
  - destruct (done sess); by intros [= <- <-].
  - destruct (c_read c); [|by intros [= <- <-]].
    destruct (ParseFromReader (conn_input sess)) as [[[msg|err] rd]| |]; try done; by intros [= <- <-].
  - intros [= E1]. pose proof (handle_step_held c s msg sess m) as Hh. by rewrite E1 in Hh.
  - destruct (heap (world m) !! x); [|done]. by intros [= <- <-].
  - unfold send_step. destruct (heap (world m) !! x) as [y|]; [|done].
    destruct (producer_step p y) as [[p' y'] close]. intros [= <- <-]. apply held_fast_send.
  - destruct (close_step c (GReader s) s m) as [[b m1]| |] eqn:E; try done. intros [= <- <-].
    by eapply close_step_held.
  - destruct (server_free m) eqn:Hf; [|done]. intros [= <- <-]. constructor; try done. congruence.
Qed.

Lemma writer_step_held c s v m v' m' : writer_step c s v m = Ret (v', m') → held_fast m m'.
Proof.
  unfold writer_step. destruct (heap (world m) !! s) as [sess|]; [|done].
  destruct v as [|d|d| |]; try done.
  - destruct (_ && _); [by intros [= <- <-]|]. destruct (outChan sess); by intros [= <- <-].
  - by intros [= <- <-].
  - destruct (c_write c); by intros [= <- <-].
  - destruct (close_step c (GWriter s) s m) as [[b m1]| |] eqn:E; try done. intros [= <- <-].
    by eapply close_step_held.
Qed.

Lemma mu_not_free n m : mu m = Some n → server_free m = false.
Proof. intros E. unfold server_free. by rewrite E. Qed.

(** A goroutine of the third kind while another one holds [Server.mu]. *)
Lemma other_step_held c i t n m t' m' :
  mu m = Some n → holds_mu t = false → other_step c i t m = Ret (t', m') →
  held_fast m m' ∧ t ≠ Counting SLock.
Proof.
  intros Hmu Hh. destruct t as [s|a|a|]; cbn [other_step]; [| | |done].
  - destruct (close_step c (GOther i) s m) as [[b m1]| |] eqn:E; try done. intros [= <- <-].
    split; [by eapply close_step_held|done].
  - destruct a; cbn; [by rewrite Hmu|by intros [= <- <-]..|done].
  - destruct a as [| |[|s l]|s l|]; cbn; try done; [|by rewrite (mu_not_free n m Hmu)].
    destruct (srv_closeOnce (world m)); [|by intros [= <- <-]].
    destruct (existsb _ _); [done|by intros [= <- <-]].
Qed.

Lemma holder_place n m : pool_ok m → mu m = Some n → ∃ t, others m !! n = Some t ∧ holds_mu t = true.
Proof. intros Hm. by apply (lk_mu m (pk_locks m Hm)). Qed.

(** A [GetStats] that waits for the lock. *)
Definition waits_for_lock m (i : nat) : Prop := others m !! i = Some (Counting SLock).

(** A step that does not come from the holder of [Server.mu]. *)
Definition bystander n m m' : Prop :=
  sessions (world m') = sessions (world m) ∧ others m' !! n = others m !! n ∧ mu m' = mu m ∧
  ∀ i, waits_for_lock m i → waits_for_lock m' i.

Lemma held_bystander n m x :
  mu m = Some n → held_fast m x → bystander n m x.
Proof.
  intros Hmu [A1 A2 A3 _]. unfold bystander, waits_for_lock. rewrite A2.
  split_and!; try done. by eapply A1, mu_not_free.
Qed.

Lemma put_bystander n i t m x :
  bystander n m x → i ≠ n → ¬ waits_for_lock m i → bystander n m (put_other i t x).
Proof.
  intros (A1 & A2 & A3 & A4) Hne Hi. unfold bystander, waits_for_lock. cbn.
  rewrite lookup_insert_ne by done. split_and!; try done. intros j Hj.
  rewrite lookup_insert_ne by (intros ->; done). by apply A4.
Qed.

Lemma held_step n m m' :
  pool_ok m → mu m = Some n → pool_step m m' → moves (GOther n) m m' ∨ bystander n m m'.
Proof.
  intros Hm Hmu Hstep. pose proof (mu_not_free n m Hmu) as Hf.
  destruct (holder_place n m Hm Hmu) as (t0 & Ht0 & Hh0).
  assert (∀ i t x, others m !! i = None → held_fast m x → bystander n m (put_other i t x)) as Hfresh.
  { intros i t x Hi Hx. apply put_bystander; [by apply held_bystander|congruence|].
    unfold waits_for_lock. by rewrite Hi. }
  pose proof Hstep as Hstep'.
  destruct Hstep as [g m m' Hmv|s input m Hs Hfr|i s l1 l2 m Hn Hsp|i m Hn|i m Hn|m|? ? m _ Hfr|? m Hfr|t m];
    try first [congruence | by right; apply held_bystander | by right; apply Hfresh].
  pose proof Hmv as Hmv'.
  destruct Hmv as [c s r r' m m' Hr E|c s v v' m m' Hv E|c i t t' m m' Hn E].
  - right. apply held_bystander; [done|]. by destruct (reader_step_held _ _ _ _ _ _ E).
  - right. apply held_bystander; [done|]. by destruct (writer_step_held _ _ _ _ _ _ E).
  - destruct (decide (i = n)) as [->|Hne]; [by left|right].
    assert (holds_mu t = false) as Hh.
    { destruct (holds_mu t) eqn:Eh; [|done]. assert (mu m = Some i) as E'; [|congruence].
      apply (lk_mu m (pk_locks m Hm)). by eexists. }
    destruct (other_step_held _ _ _ _ _ _ _ Hmu Hh E) as [Hx Hw].
    apply put_bystander; [by apply held_bystander|done|].
    unfold waits_for_lock. rewrite Hn. by intros [= ->].
Qed.

(** Goroutine [n] is in the loop of [Server.Close], at a session that is registered. *)
Definition wedged (n : nat) m : Prop :=
  ∃ s l, s ∈ sessions (world m) ∧
    (others m !! n = Some (Shutting (XLoop (s :: l))) ∨ others m !! n = Some (Shutting (XClosing s l))).

Lemma wedged_mu n m : pool_ok m → wedged n m → mu m = Some n.
Proof. intros Hm (s & l & _ & Ht). apply (lk_mu m (pk_locks m Hm)). destruct Ht; by eexists. Qed.

(** A registered session is not closed. *)
Lemma registered_open s m :
  core_ok m → s ∈ sessions (world m) → ∃ sess, heap (world m) !! s = Some sess ∧ conn_closed sess = false.
Proof.
  intros Hc Hs. destruct (co_live m Hc s Hs) as [sess Hsess]. exists sess. split; [done|].
  destruct (conn_closed sess) eqn:E; [|done]. exfalso.
  pose proof (closed_unlisted s sess m Hc Hsess E) as Hw.
  assert (sessions (world m) ∖ {[s]} = sessions (world m)) as Hset by (by rewrite <-Hw at 2).
  set_solver.
Qed.

(** It goes on calling [Close] of that session for ever. *)
Lemma wedged_self n m m' :
  pool_ok m → wedged n m → moves (GOther n) m m' →
  wedged n m' ∧ sessions (world m') = sessions (world m) ∧ mu m' = mu m ∧
  ∀ i, waits_for_lock m i → waits_for_lock m' i.
Proof.
  intros Hm Hw Hmv. pose proof (wedged_mu n m Hm Hw) as Hmu. inversion Hmv as [| |c ? t t' ? m1 Hn E]; subst.
  assert (∀ x t', others x = others m → ∀ i, waits_for_lock m i → waits_for_lock (put_other n t' x) i) as Hwait.
  { intros x t1 Ex j Hj. unfold waits_for_lock in *. cbn. rewrite Ex. rewrite lookup_insert_ne; [done|].
    intros ->. destruct Hw as (s & l & _ & [?|?]); congruence. }
  destruct Hw as (s & l & Hs & [Ht|Ht]); rewrite Ht in Hn; injection Hn as <-; cbn in E.
  - injection E as <- <-. split_and!; [|done|done|by apply Hwait].
    exists s, l. split; [done|]. right. apply lookup_insert_eq.
  - pose proof (core_close c (GOther n) s m (pk_core m Hm)) as Hcl.
    destruct (close_step c (GOther n) s m) as [[b m2]| |] eqn:Ec; try done.
    destruct (close_step_held _ _ _ _ _ _ Ec) as [A1 A2 A3 _]. specialize (A1 (mu_not_free n m Hmu)).
    destruct Hcl as (Hc1 & Hsg & Hel & Hb); [by apply (co_live m (pk_core m Hm))|].
    destruct b; cbn in E; injection E as <- <-.
    + destruct Hb as [_ (sess & Hsess & Hcc)]. rewrite <-A1 in Hs.
      destruct (registered_open s m2 Hc1 Hs) as (sess' & ? & ?). congruence.
    + split_and!; [|done|done|by apply Hwait].
      exists s, l. cbn. rewrite A1. split; [done|]. right. apply lookup_insert_eq.
Qed.

Lemma wedged_step n m m' :
  pool_ok m → wedged n m → pool_step m m' →
  wedged n m' ∧ sessions (world m') = sessions (world m) ∧ mu m' = mu m ∧
  ∀ i, waits_for_lock m i → waits_for_lock m' i.
Proof.
  intros Hm Hw Hstep. pose proof (wedged_mu n m Hm Hw) as Hmu.
  destruct (held_step n m m' Hm Hmu Hstep) as [Hmv|(A1 & A2 & A3 & A4)]; [by apply wedged_self|].
  split_and!; try done. unfold wedged. by rewrite A1, A2.
Qed.

(** Taking [Server.mu] starts the loop over the registered sessions. *)
Lemma mu_taken n m m' :
  mu m = None → pool_step m m' → mu m' = Some n →
  ∃ o, others m' !! n = Some (Shutting (XLoop (visit o (elements (sessions (world m')))))).
Proof.
  intros Hmu Hstep Hn.
  assert (∀ x, held_fast m x → mu x = Some n → False) as Hno by (intros x [_ _ E]; rewrite E; congruence).
  destruct Hstep as [g m m' Hmv|s input m Hs Hfr|i s l1 l2 m Hi Hsp|i m Hi|i m Hi|m|? ? m _ Hfr|? m Hfr|t m];
    try (cbn in Hn; congruence).
  destruct Hmv as [c s r r' m m' Hr E|c s v v' m m' Hv E|c i t t' m m' Hi E]; cbn in Hn.
  - destruct (Hno m'); [by eapply reader_step_held|done].
  - destruct (Hno m'); [by eapply writer_step_held|done].
  - destruct t as [s|a|a|]; cbn in E; [| | |done].
    + destruct (close_step c (GOther i) s m) as [[b m1]| |] eqn:Ec; try done. injection E as <- <-.
      destruct (Hno m1); [by eapply close_step_held|done].
    + destruct a; cbn in E; [rewrite decide_True in E by done|..]; try done; injection E as <- <-; cbn in Hn; congruence.
    + destruct a as [| |[|s l]|s l|]; cbn in E; try done.
      * destruct (srv_closeOnce (world m)); [destruct (existsb _ _); [done|]|]; injection E as <- <-; cbn in Hn; congruence.
      * destruct (server_free m); [|done]. injection E as <- <-. cbn in Hn. injection Hn as ->.
        exists (c_order c). apply lookup_insert_eq.
      * injection E as <- <-. cbn in Hn. congruence.
      * injection E as <- <-. cbn in Hn. congruence.
      * destruct (close_step c (GOther i) s m) as [[b m1]| |] eqn:Ec; try done.
        destruct (Hno m1); [by eapply close_step_held|]. by destruct b; injection E as <- <-.
Qed.

(** Whoever holds [Server.mu] is at a registered session, or there is none. *)
Definition holder_ok m : Prop := ∀ n, mu m = Some n →
  wedged n m ∨ (others m !! n = Some (Shutting (XLoop [])) ∧ sessions (world m) = ∅).

Lemma holder_step m m' : pool_ok m → holder_ok m → pool_step m m' → holder_ok m'.
Proof.
  intros Hm Hh Hstep n Hn. pose proof (pool_step_ok _ _ Hm Hstep) as Hm'.
  destruct (mu m) as [i|] eqn:Hmu.
  - destruct (Hh i Hmu) as [Hw|[Ht He]].
    + destruct (wedged_step i m m' Hm Hw Hstep) as (Hw' & _ & E & _). left. congruence.
    + destruct (held_step i m m' Hm Hmu Hstep) as [Hmv|(A1 & A2 & A3 & _)].
      * inversion Hmv as [| |c ? t t' ? m1 Hi E]; subst. rewrite Ht in Hi. injection Hi as <-.
        cbn in E. by injection E as <- <-.
      * right. assert (n = i) as -> by congruence. by rewrite A1, A2.
  - destruct (mu_taken n m m' Hmu Hstep Hn) as [o Ho].
    destruct (visit o (elements (sessions (world m')))) as [|s l] eqn:E; [right|left].
    + split; [done|]. apply leibniz_equiv, elements_empty_inv, Permutation_nil_r. by rewrite <-E, (visit_perm o).
    + exists s, l. split; [|by left]. apply elem_of_elements. rewrite <-(visit_perm o), E. left.
Qed.

Lemma reachable_holder m : pool_reachable m → holder_ok m.
Proof.
  intros Hreach. assert (pool_ok m ∧ holder_ok m) as [_ ?]; [|done]. revert Hreach.
  apply (rtc_invariant pool_step (λ m, pool_ok m ∧ holder_ok m)); [|split; [apply new_pool_ok|done]].
  intros x y [Hx Hh] Hxy. split; [by eapply pool_step_ok|by eapply holder_step].
Qed.

Lemma wedged_forever n m m' :
  pool_ok m → wedged n m → rtc pool_step m m' →
  pool_ok m' ∧ wedged n m' ∧ sessions (world m') = sessions (world m) ∧
  ∀ i, waits_for_lock m i → waits_for_lock m' i.
Proof.
  intros Hm Hw Hrun. induction Hrun as [m|m m1 m' Hstep Hrun IH]; [done|].
  destruct (wedged_step n m m1 Hm Hw Hstep) as (Hw1 & E1 & _ & Hs1).
  destruct (IH (pool_step_ok _ _ Hm Hstep) Hw1) as (Hm' & Hw' & E' & Hs').
  split_and!; [done|done|congruence|auto].
Qed.

(** C9: [Server.Close] with a session registered wedges the broker: from the moment it has
    taken [Server.mu], in every continuation whatsoever it stays in its loop and keeps the
    lock, every registered session stays registered with its connection open, no session is
    added, and a [GetStats] that waits for the lock waits for ever. *)
Theorem server_Close_wedges m n :
  pool_reachable m → mu m = Some n → sessions (world m) ≠ ∅ →
  ∀ m', rtc pool_step m m' →
    mu m' = Some n ∧ ¬ resting m' (GOther n) ∧ sessions (world m') = sessions (world m) ∧
    (∀ s, s ∈ sessions (world m) → ∃ sess, heap (world m') !! s = Some sess ∧ conn_closed sess = false) ∧
    (∀ i, waits_for_lock m i → waits_for_lock m' i).
Proof.
  intros Hreach Hmu Hne m' Hrun. pose proof (pool_reachable_ok m Hreach) as Hm.
  destruct (reachable_holder m Hreach n Hmu) as [Hw|[_ He]]; [|done].
  destruct (wedged_forever n m m' Hm Hw Hrun) as (Hm' & Hw' & E & Hwait).
  split_and!; [by apply wedged_mu| |done| |done].
  - intros Hrest. cbn in Hrest. destruct Hw' as (s & l & _ & [Ht|Ht]);
      destruct Hrest as [?|[[? ?]|?]]; congruence.
  - intros s Hs. apply registered_open; [apply Hm'|]. by rewrite E.
Qed.

(** ** What holds at every instant *)

(** C8: no goroutine panics, however they interleave: in particular no [Close] closes [done] a
    second time and no goroutine reaches a session that was never allocated. *)
Theorem no_panic m c :
  pool_reachable m →
  (∀ s r, readers m !! s = Some r → reader_step c s r m ≠ Panic) ∧
  (∀ s v, writers m !! s = Some v → writer_step c s v m ≠ Panic) ∧
  (∀ n t, others m !! n = Some t → other_step c n t m ≠ Panic).
Proof.
  intros Hm%pool_reachable_ok. split_and!; intros i t Ht E.
  - pose proof (reader_step_ok c i t m Hm Ht) as Hst. by rewrite E in Hst.
  - pose proof (writer_step_ok c i t m Hm Ht) as Hst. by rewrite E in Hst.
  - pose proof (other_step_ok c i t m Hm Ht) as Hst. by rewrite E in Hst.
Qed.

(** C6: the broker's bookkeeping at every instant of every interleaving, between any two
    accesses to what the goroutines share. For every session: the atomic byte counter is the
    size of the queue and of what is [pending] on it (the bytes that read loops between their
    compare-and-swap and their channel send or roll-back have reserved, and those of a frame
    the write loop has received and not yet subtracted), so it is never below the queue's
    size; it never exceeds the limit, and the channel stays within its capacity; only
    parseable frames are queued or written, no pattern is listed twice; the router has a
    pattern of the session only if the session lists it or is just removing it; while the
    session is open and its read loop is not inside a subscription handler the router has
    exactly the listed patterns; an open session is in [Server.sessions] and one whose
    connection was closed is not, and of the latter at most one pattern is left in the router;
    outside the body of [closeOnce.Do] the flags [closed] and [done] and the closing of the
    connection agree with [closeOnce], and inside it they are those of the stage reached, by a
    goroutine that is in a call of [Close] of that session. [Server.mu] is held exactly by the
    [Server.Close] that is in its loop, or for reading exactly by the calls of [GetStats]
    between their lock and its release, never both. *)
Theorem interleaved_invariant m :
  pool_reachable m →
  (∀ s sess r, heap (world m) !! s = Some sess → readers m !! s = Some r →
     queuedBytes sess = (total_len (outChan sess) + pending m s)%Z ∧ (0 <= pending m s)%Z ∧
     (queuedBytes sess <= maxQueuedBytes sess)%Z ∧ (len (outChan sess) <= outCap sess)%Z ∧
     Forall good_frame (outChan sess ++ conn_sent sess) ∧ NoDup (subjects sess) ∧
     (∀ p, patterns m s p → p ∈ subjects sess ∨ r = RUnsubRouter p) ∧
     (closeOnce sess = false → settled r → ∀ p, patterns m s p ↔ p ∈ subjects sess) ∧
     (closeOnce sess = false → s ∈ sessions (world m)) ∧
     (conn_closed sess = true → s ∉ sessions (world m)) ∧
     (conn_closed sess = true → ∀ p q, patterns m s p → patterns m s q → p = q) ∧
     match once m !! s with
     | None => closed sess = closeOnce sess ∧ done sess = closeOnce sess ∧ conn_closed sess = closeOnce sess
     | Some (g, k) =>
         in_close m g s ∧ closeOnce sess = true ∧ conn_closed sess = false ∧
         closed sess = match k with KFlag => false | _ => true end ∧
         done sess = match k with KFlag | KSignal => false | _ => true end
     end) ∧
  (∀ n, mu m = Some n ↔ ∃ t, others m !! n = Some t ∧ holds_mu t = true) ∧
  (∀ n, n ∈ mu_readers m ↔ ∃ t, others m !! n = Some t ∧ reads_mu t = true) ∧
  (mu m ≠ None → mu_readers m = ∅).
Proof.
  intros Hreach. pose proof (reachable_bytes m Hreach) as Hb. apply pool_reachable_ok in Hreach as Hm.
  destruct (pk_locks m Hm) as [L1 L2 L3]. split; [|by split_and!].
  intros s sess r Hs Hr. destruct (co_session m (pk_core m Hm) s sess Hs) as (r' & Hr' & Hloc). simplify_eq.
  destruct (by_sessions m Hb s sess Hs) as [B1 B2 B3 B4].
  destruct Hloc as [Hnd Hfr Hfl Hp Hsub _ _ _ Hleak Hlive _ _]. split_and!; try done.
  - apply pending_nonneg.
  - intros Ho Hset p. split; [intros HP; by destruct (Hp p HP) as [| ->]|].
    intros Hin. destruct (Hsub p Hin) as [| ->]; [|done..]. intros [E _]. congruence.
  - intros Ho. apply Hlive. by left.
  - intros Hcc Hin. destruct (registered_open s m (pk_core m Hm) Hin) as (y & ? & ?). congruence.
  - intros Hcc. apply Hleak. unfold removed, flags_ok in *. destruct (stage m s) as [k|].
    + destruct Hfl as (_ & E & _). congruence.
    + destruct Hfl as (_ & _ & <-). done.
  - unfold stage in Hfl. destruct (once m !! s) as [[g k]|] eqn:Ho; [|done]. cbn in Hfl.
    destruct Hfl as (F1 & F2 & F3 & F4). split_and!; [|done..].
    by apply (go_once m (pk_goroutines m Hm) s g k).
Qed.
End live.

(** ** Instances

    Schedules that can be replayed. *)

Section replay.
Implicit Types m : pool Router.

Inductive action :=
| AReader (c : choices) (s : sid)
| AWriter (c : choices) (s : sid)
| AOther (c : choices) (n : nat)
| AAccept (s : sid) (input : reader)
| AStart (n : nat) (t : other).

(** [None] when the action cannot be taken. *)
Definition act (a : action) m : option (pool Router) :=
  match a with
  | AReader c s =>
      r ← readers m !! s;
      match reader_step c s r m with Ret (r', m') => Some (put_reader s r' m') | _ => None end
  | AWriter c s =>
      v ← writers m !! s;
      match writer_step c s v m with Ret (v', m') => Some (put_writer s v' m') | _ => None end
  | AOther c n =>
      t ← others m !! n;
      match other_step c n t m with Ret (t', m') => Some (put_other n t' m') | _ => None end
  | AAccept s input =>
      if bool_decide (heap (world m) !! s = None) && server_free m
      then Some (put_writer s VWait (put_reader s RTop (set_world (accept_world s input (world m)) m)))
      else None
  | AStart n t =>
      if bool_decide (others m !! n = None) then
        match t with
        | Counting SLock | Shutting XEnter => Some (put_other n t m)
        | _ => None
        end
      else None
  end.

Fixpoint replay (l : list action) m : option (pool Router) :=
  match l with [] => Some m | a :: l => act a m ≫= replay l end.

Lemma act_step a m m' : act a m = Some m' → pool_step m m'.
Proof.
  destruct a as [c s|c s|c n|s input|n t]; cbn [act].
  - destruct (readers m !! s) as [r|] eqn:Hr; [|done]. cbn.
    destruct (reader_step c s r m) as [[r' m1]| |] eqn:E; try done. intros [= <-].
    eapply ps_move, mv_reader; done.
  - destruct (writers m !! s) as [r|] eqn:Hr; [|done]. cbn.
    destruct (writer_step c s r m) as [[r' m1]| |] eqn:E; try done. intros [= <-].
    eapply ps_move, mv_writer; done.
  - destruct (others m !! n) as [r|] eqn:Hr; [|done]. cbn.
    destruct (other_step c n r m) as [[r' m1]| |] eqn:E; try done. intros [= <-].
    eapply ps_move, mv_other; done.
  - case_bool_decide as Hs; [|done]. destruct (server_free m) eqn:Hf; [|done]. intros [= <-]. by apply ps_accept.
  - case_bool_decide as Hn; [|done]. destruct t as [|[]|[]|]; try done; intros [= <-]; by constructor.
Qed.

Lemma replay_reachable l m : replay l new_pool = Some m → pool_reachable m.
Proof.
  unfold pool_reachable. generalize (new_pool (R := Router)). induction l as [|a l IH]; intros m0; cbn [replay].
  - by intros [= ->].
  - destruct (act a m0) as [m1|] eqn:E; [|done]. cbn. intros Hr. eapply rtc_l; [by eapply act_step|by apply IH].
Qed.
End replay.

Definition go : choices := mkChoices in_order true true false.
Definition broken : choices := mkChoices in_order true false false.
Definition subscribes (p : gostring) : reader := [RChunk (Encode (NewMessageCmd CmdSub p []))].

(** A session has subscribed to [a] and holds the request for [b] while the write of its first
    acknowledgement fails and the write loop is in [Close], before the router. *)
Definition failing_writer : list action :=
  [AAccept 1 (subscribes (str "a") ++ subscribes (str "b"))] ++ replicate 10 (AReader go 1) ++
  replicate 2 (AReader go 1) ++ replicate 2 (AWriter go 1) ++ [AWriter broken 1] ++ replicate 3 (AWriter go 1).
Definition failing_pool : pool Router := default new_pool (replay failing_writer new_pool).

(** [Server.Close] takes the lock with a session connected, and a [GetStats] waits. *)
Definition closing_server : list action :=
  [AAccept 1 (subscribes (str "a")); AStart 0 (Shutting XEnter); AStart 1 (Counting SLock); AOther go 0; AOther go 0].
Definition closing_pool : pool Router := default new_pool (replay closing_server new_pool).

Lemma failing_reachable : pool_reachable failing_pool.
Proof. apply (replay_reachable failing_writer). vm_compute. reflexivity. Qed.
Lemma closing_reachable : pool_reachable closing_pool.
Proof. apply (replay_reachable closing_server). vm_compute. reflexivity. Qed.

Lemma no_deadlock_witness :
  present failing_pool (GReader 1) ∧ (resting failing_pool (GReader 1) ∨ ∃ g, can_move failing_pool g).
Proof.
  assert (present failing_pool (GReader 1)) as Hp by (eexists; vm_compute; reflexivity).
  split; [exact Hp|]. apply (no_deadlock failing_pool (GReader 1)); [apply failing_reachable|vm_compute; reflexivity|exact Hp].
Defined.

Lemma Close_returns_witness :
  once failing_pool !! 1%nat = Some (GWriter 1, KRouter) ∧
  ∃ m', rtc runs failing_pool m' ∧ ¬ in_close m' (GWriter 1) 1 ∧ finished m' 1.
Proof.
  split; [vm_compute; reflexivity|].
  apply (Close_returns failing_pool (GWriter 1) 1); [apply failing_reachable|vm_compute; reflexivity|].
  split; vm_compute; reflexivity.
Defined.

Lemma server_Close_wedges_witness :
  waits_for_lock closing_pool 1 ∧ sessions (world closing_pool) ≠ ∅ ∧ mu closing_pool = Some 0%nat.
Proof.
  destruct (server_Close_wedges closing_pool 0) with (m' := closing_pool) as (H1 & _ & _ & _ & H5).
  - apply closing_reachable.
  - vm_compute. reflexivity.
  - vm_compute. discriminate.
  - apply rtc_refl.
  - split; [apply H5; vm_compute; reflexivity|]. split; [vm_compute; discriminate|exact H1].
Defined.

Lemma no_panic_witness :
  readers failing_pool !! 1%nat = Some (RHold (NewMessageCmd CmdSub (str "b") [])) ∧
  reader_step go 1 (RHold (NewMessageCmd CmdSub (str "b") [])) failing_pool ≠ Panic.
Proof.
  assert (readers failing_pool !! 1%nat = Some (RHold (NewMessageCmd CmdSub (str "b") []))) as Hr
    by (vm_compute; reflexivity).
  split; [exact Hr|]. apply (no_panic failing_pool go failing_reachable). exact Hr.
Defined.

(** The session of [failing_pool] while the second acknowledgement has reserved its bytes
    and the write loop has not yet subtracted those of the first. *)
Definition reserving : list action :=
  [AAccept 1 (subscribes (str "a") ++ subscribes (str "b"))] ++ replicate 18 (AReader go 1) ++ [AWriter go 1].
Definition reserving_pool : pool Router := default new_pool (replay reserving new_pool).

Lemma reserving_reachable : pool_reachable reserving_pool.
Proof. apply (replay_reachable reserving). vm_compute. reflexivity. Qed.

Lemma interleaved_invariant_witness :
  (∃ sess, heap (world reserving_pool) !! 1%nat = Some sess ∧ outChan sess = [] ∧
     pending reserving_pool 1 = 44%Z ∧ queuedBytes sess = 44%Z) ∧
  (∃ sess, heap (world failing_pool) !! 1%nat = Some sess ∧ once failing_pool !! 1%nat = Some (GWriter 1, KRouter) ∧
     done sess = true ∧ conn_closed sess = false).
Proof.
  split.
  - assert (outChan <$> heap (world reserving_pool) !! 1%nat = Some []) as Hq by (vm_compute; reflexivity).
    assert (pending reserving_pool 1 = 44%Z) as Hp by (vm_compute; reflexivity).
    assert (readers reserving_pool !! 1%nat =
      Some (RSend 1 (PSend (Encode (NewMessageCmd CmdOk (str "subscribed to b") []))) AckSent)) as Hr by (vm_compute; reflexivity).
    destruct (heap (world reserving_pool) !! 1%nat) as [sess|] eqn:Hs; [|discriminate Hq]. injection Hq as Hq.
    destruct (proj1 (interleaved_invariant reserving_pool reserving_reachable) 1%nat sess _ Hs Hr) as (Hb & _).
    exists sess. rewrite Hp, Hq in Hb. split; [reflexivity|]. split; [exact Hq|]. split; [exact Hp|exact Hb].
  - destruct (heap (world failing_pool) !! 1%nat) as [sess|] eqn:Hs; [|by vm_compute in Hs].
    assert (readers failing_pool !! 1%nat = Some (RHold (NewMessageCmd CmdSub (str "b") []))) as Hr by (vm_compute; reflexivity).
    assert (once failing_pool !! 1%nat = Some (GWriter 1, KRouter)) as Ho by (vm_compute; reflexivity).
    destruct (proj1 (interleaved_invariant failing_pool failing_reachable) 1%nat sess _ Hs Hr)
      as (_ & _ & _ & _ & _ & _ & _ & _ & _ & _ & _ & Hclose).
    rewrite Ho in Hclose. destruct Hclose as (_ & _ & H1 & _ & H2).
    exists sess. split; [reflexivity|]. split; [exact Ho|]. split; [exact H2|exact H1].
Defined.
