(* ===== verification/InterleavedRuns.v ===== *)
(** * A turn of [Server] is a run of one goroutine of [Interleaved]

    [Server] runs a turn of a loop and a call of [Close] in one go. Here each of them is shown to be what
    its goroutine does step by step when no other goroutine moves in between: the theorems
    about the handlers are about those runs. *)

From S2P Require Import Prelude GoStrings GoIO Protocol Subject Router Session Server.
From S2P Require Import SendQueue Interleaved InterleavedInv InterleavedLive.

Section runs.
Context {R : Type} `{SubscriptionStoreLaws R}.
Implicit Types m : pool R.

(** ** [Close] *)

(** The pool while [g] is at [k] in the body of [closeOnce.Do]. *)
Definition inside (g : gid) (s : sid) (k : close_pc) (sess : Session) (w : World R) m : pool R :=
  set_once (<[s := (g, k)]> (once m)) (set_world (upd s sess w) m).

Lemma close_step_inside c g s k sess w m :
  close_step c g s (inside g s k sess w m) = close_body c g s k sess (inside g s k sess w m).
Proof.
  unfold close_step. cbn [world inside set_once set_world]. rewrite heap_upd.
  cbn [once inside set_once]. by rewrite lookup_insert_eq, decide_True.
Qed.

Lemma inside_inside g s k k' sess sess' w m :
  set_once (<[s := (g, k')]> (once (inside g s k sess w m)))
    (set_world (upd s sess' (upd s sess w)) (inside g s k sess w m)) = inside g s k' sess' w m.
Proof. unfold inside, set_once, set_world. cbn [once]. by rewrite insert_insert_eq, upd_upd. Qed.

Lemma close_inside c g s k k' sess sess' w w' m m' :
  close_body c g s k sess (inside g s k sess w m) = Ret (false, inside g s k' sess' w' m) →
  close_run c g s (inside g s k' sess' w' m) m' → close_run c g s (inside g s k sess w m) m'.
Proof. intros Hb. eapply close_goes_on. by rewrite close_step_inside. Qed.

Lemma close_alone c g s sess m :
  heap (world m) !! s = Some sess → once m !! s = None → server_free m = true →
  (closeOnce sess = false → done sess = false) →
  close_run c g s m (set_world (close_world (c_order c) s sess (world m)) m).
Proof.
  intros Hs Ho Hf Hd. unfold close_world. destruct (closeOnce sess) eqn:Eo.
  { apply close_returns. unfold close_step. rewrite Hs, Ho, Eo. by destruct m. }
  specialize (Hd eq_refl).
  set (w1 := set_router (store_remove_session (c_order c) s (router (world m))) (world m)).
  set (w2 := set_sessions (sessions w1 ∖ {[s]}) w1).
  apply (close_goes_on _ _ _ _ (inside g s KFlag (fire_once sess) (world m) m));
    [unfold close_step; by rewrite Hs, Ho, Eo|].
  apply (close_inside _ _ _ _ KSignal _ (store_closed (fire_once sess)) _ (world m));
    [cbn [close_body]; do 2 f_equal; apply (inside_inside g s KFlag KSignal (fire_once sess))|].
  apply (close_inside _ _ _ _ KRouter _ (set_closed sess) _ (world m)).
  { cbn [close_body done store_closed fire_once]. rewrite Hd. do 2 f_equal.
    apply (inside_inside g s KSignal KRouter (store_closed (fire_once sess))). }
  apply (close_inside _ _ _ _ KServer _ (set_closed sess) _ w1).
  { cbn [close_body]. f_equal. f_equal. unfold inside, set_once, set_world. cbn [once]. by rewrite insert_insert_eq. }
  apply (close_inside _ _ _ _ KConn _ (set_closed sess) _ w2).
  { cbn [close_body]. assert (server_free (inside g s KServer (set_closed sess) w1 m) = true) as -> by done.
    f_equal. f_equal. unfold inside, set_once, set_world. cbn [once]. by rewrite insert_insert_eq. }
  apply close_returns. rewrite close_step_inside. cbn [close_body]. f_equal. f_equal.
  unfold inside, set_once, set_world. cbn [once world readers writers others mu mu_readers].
  rewrite delete_insert_id by done. by rewrite upd_upd.
Qed.
(** ** The read loop *)

(** The pool with the read loop of [s] at [r] and another world. *)
Definition at_reader (s : sid) (r : reader_at) (w : World R) m : pool R := put_reader s r (set_world w m).

Lemma at_reader_id s r m : readers m !! s = Some r → at_reader s r (world m) m = m.
Proof. intros Hr. unfold at_reader. replace (set_world (world m) m) with m by (by destruct m). by apply put_reader_id. Qed.

Lemma at_reader_put s r r' w w' m :
  put_reader s r' (set_world w' (at_reader s r w m)) = at_reader s r' w' m.
Proof. unfold at_reader, put_reader, set_world. cbn. by rewrite insert_insert_eq. Qed.

Lemma solo c s r r' w w' m :
  (∀ m0, world m0 = w → reader_step c s r m0 = Ret (r', set_world w' m0)) →
  moves (GReader s) (at_reader s r w m) (at_reader s r' w' m).
Proof.
  intros Hst. rewrite <-(at_reader_put s r r' w w' m). eapply (mv_reader c); [apply lookup_insert_eq|]. by apply Hst.
Qed.

(** A step that leaves the world alone. *)
Lemma solo_same c s r r' w m :
  (∀ m0, world m0 = w → reader_step c s r m0 = Ret (r', m0)) →
  moves (GReader s) (at_reader s r w m) (at_reader s r' w m).
Proof. intros Hst. apply (solo c). intros m0 Hm0. rewrite Hst by done. subst w. by destruct m0. Qed.

Lemma stamp_alone s sess w m :
  heap w !! s = Some sess →
  moves (GReader s) (at_reader s RStamp w m) (at_reader s RTop (upd s (set_pc AtTop (set_lastPing (now w) sess)) w) m).
Proof. intros Hs. apply (solo some_choice). intros m0 <-. unfold reader_step. by rewrite Hs. Qed.

(** *** A send without interference is the operation of [Session] *)

Lemma send_world_same x e sess (w : World R) : heap w !! x = Some sess → send_world x (mkSent e sess false) w = w.
Proof. intros Hx. unfold send_world. cbn. by apply upd_id. Qed.

Lemma access_alone s x p k sess p' sess' close w m :
  is_Some (heap w !! s) → heap w !! x = Some sess → producer_step p sess = (p', sess', close) →
  moves (GReader s) (at_reader s (RSend x p k) w m)
    (at_reader s (match p' with PDone r => resume k r | _ => RSend x p' k end)
       (send_world x (mkSent None sess' close) w) m).
Proof.
  intros [own Hs] Hx Hp. apply (solo some_choice). intros m0 <-. unfold reader_step, send_step. by rewrite Hs, Hx, Hp.
Qed.

Lemma accesses_alone fuel s x p k sess r sess' close w m :
  is_Some (heap w !! s) → heap w !! x = Some sess → (∀ e, p ≠ PDone e) →
  SendQueue.solo fuel p sess false = (PDone r, sess', close) →
  rtc (moves (GReader s)) (at_reader s (RSend x p k) w m)
    (at_reader s (resume k r) (send_world x (mkSent None sess' close) w) m).
Proof.
  revert p sess w. induction fuel as [|fuel IH]; intros p sess w Hs Hx Hnd Hsolo.
  { cbn in Hsolo. injection Hsolo as -> _ _. by destruct (Hnd r). }
  destruct (producer_step p sess) as [[p1 sess1] c1] eqn:Hp.
  assert (SendQueue.solo fuel p1 sess1 c1 = (PDone r, sess', close)) as Hrest
    by (destruct p; cbn [SendQueue.solo] in Hsolo; rewrite ?Hp in Hsolo; (exact Hsolo || by destruct (Hnd result))).
  pose proof (access_alone s x p k sess p1 sess1 c1 w m Hs Hx Hp) as Hmv.
  assert ((∃ e, p1 = PDone e) ∨ ∀ e, p1 ≠ PDone e) as [[e ->]|Hnd1] by (destruct p1; (by right) || (left; by eexists)).
  - assert (SendQueue.solo fuel (PDone e) sess1 c1 = (PDone e, sess1, c1)) as E by by destruct fuel.
    rewrite Hrest in E. injection E as -> -> ->. by apply rtc_once.
  - destruct c1; [destruct (producer_step_closes _ _ _ _ Hp) as [e ->]; by destruct (Hnd1 e)|].
    set (w1 := send_world x (mkSent None sess1 false) w) in *.
    assert (heap w1 !! x = Some sess1) as Hx1 by apply heap_upd.
    pose proof (IH p1 sess1 w1 (is_Some_upd _ _ _ _ Hs) Hx1 Hnd1 Hrest) as Hrun.
    assert (send_world x (mkSent None sess' close) w1 = send_world x (mkSent None sess' close) w) as E
      by (unfold w1, send_world; cbn [sent_session sent_close]; rewrite upd_upd; by destruct close).
    rewrite E in Hrun. eapply rtc_l; [exact Hmv|]. by destruct p1; try destruct (Hnd1 result).
Qed.

Lemma enqueue_alone s x e k sess w m :
  is_Some (heap w !! s) → heap w !! x = Some sess →
  rtc (moves (GReader s)) (at_reader s (RSend x (PStart e) k) w m)
    (at_reader s (resume k (sent_err (enqueueEncoded e sess))) (send_world x (enqueueEncoded e sess) w) m).
Proof.
  intros Hs Hx. exact (accesses_alone 5 s x (PStart e) k sess _ _ _ w m Hs Hx ltac:(done) (solo_enqueue e sess)).
Qed.

Lemma ack_alone s sess text w m :
  heap w !! s = Some sess →
  rtc (moves (GReader s)) (at_reader s (RAck text) w m) (at_reader s RStamp (send_world s (SendOK text sess) w) m).
Proof.
  intros Hs. apply (rtc_l _ _ (at_reader s (respond s CmdOk text sess) w m)).
  - apply (solo_same some_choice). intros m0 <-. unfold reader_step. by rewrite Hs.
  - unfold respond, SendOK. destruct (closed sess); [unfold refuse; rewrite send_world_same by done; apply rtc_refl|].
    apply (enqueue_alone s s _ AckSent); [by eexists|done].
Qed.

Lemma fail_alone s sess e w m :
  heap w !! s = Some sess →
  rtc (moves (GReader s)) (at_reader s (RFail e) w m)
    (at_reader s RStamp (send_world s (SendError (str "handle error: " ++ handle_error_text e) sess) w) m).
Proof.
  intros Hs. set (text := str "handle error: " ++ handle_error_text e).
  apply (rtc_l _ _ (at_reader s (respond s CmdErr text sess) w m)).
  - apply (solo_same some_choice). intros m0 <-. unfold reader_step. by rewrite Hs.
  - unfold respond, SendError. destruct (closed sess); [unfold refuse; rewrite send_world_same by done; apply rtc_refl|].
    apply (enqueue_alone s s _ AckSent); [by eexists|done].
Qed.

(** One round of the loop of [handlePublish]. *)
Lemma round_alone s encoded x l w m :
  is_Some (heap w !! s) → is_Some (heap w !! x) →
  rtc (moves (GReader s)) (at_reader s (RFan encoded (x :: l)) w m) (at_reader s (RFan encoded l) (deliver_one encoded w x) m).
Proof.
  intros [own Hs] [sub Hx]. unfold deliver_one. rewrite Hx.
  apply (rtc_l _ _ (at_reader s (if closed sub || (MaxBodyLen + 4 <? len encoded)%Z then RFan encoded l
                                 else RSend x (PStart encoded) (FanNext encoded l)) w m)).
  - apply (solo_same some_choice). intros m0 <-. unfold reader_step. by rewrite Hs, Hx.
  - unfold SendEncoded. destruct (closed sub); [unfold refuse; rewrite send_world_same by done; apply rtc_refl|]. cbn [orb].
    destruct (MaxBodyLen + 4 <? len encoded)%Z; [unfold refuse; rewrite send_world_same by done; apply rtc_refl|].
    apply (enqueue_alone s x encoded (FanNext encoded l)); [by eexists|done].
Qed.

Lemma fan_alone s encoded l w m :
  is_Some (heap w !! s) → Forall (λ x, is_Some (heap w !! x)) l →
  rtc (moves (GReader s)) (at_reader s (RFan encoded l) w m) (at_reader s RStamp (deliver encoded l w) m).
Proof.
  revert w. induction l as [|x l IH]; intros w Hk Hl; pose proof Hk as [sess Hs].
  - change (deliver encoded [] w) with w. apply rtc_once. apply (solo_same some_choice). intros m0 <-. unfold reader_step. by rewrite Hs.
  - apply Forall_cons in Hl as [Hx Hl]. etrans; [by apply round_alone|]. apply (IH (deliver_one encoded w x)).
    + by apply deliver_one_heap_is_Some.
    + eapply Forall_impl; [exact Hl|]. intros y. apply deliver_one_heap_is_Some.
Qed.

(** What the handling of a message leaves, and where the read loop then is. *)
Definition handled (c : choices) (s : sid) (msg : Message) (w : World R) m : Prop :=
  ∃ err w', HandleMessage (c_order c) s msg w = Ret (err, w') ∧ held w' = [] ∧ is_Some (heap w' !! s) ∧
    rtc (moves (GReader s)) (at_reader s (RHold msg) w m)
      (at_reader s (match err with None => RStamp | Some e => RFail e end) w' m).

Lemma hold_alone c s sess msg r' w w' m :
  heap w !! s = Some sess →
  (∀ m0, world m0 = w → handle_step c s msg sess m0 = (r', set_world w' m0)) →
  moves (GReader s) (at_reader s (RHold msg) w m) (at_reader s r' w' m).
Proof. intros Hs Hh. apply (solo c). intros m0 <-. unfold reader_step. rewrite Hs. f_equal. by apply Hh. Qed.

Lemma hold_same c s sess msg r' w m :
  heap w !! s = Some sess →
  (∀ m0, world m0 = w → handle_step c s msg sess m0 = (r', m0)) →
  moves (GReader s) (at_reader s (RHold msg) w m) (at_reader s r' w m).
Proof.
  intros Hs Hh. apply (hold_alone c s sess); [done|]. intros m0 Hm0. rewrite Hh by done. subst w. by destruct m0.
Qed.

Lemma send_world_is_Some s r (w : World R) x : is_Some (heap w !! x) → is_Some (heap (send_world s r w) !! x).
Proof. rewrite send_world_heap, lookup_insert. by case_decide. Qed.

Lemma subscribe_alone c s sess msg w m :
  held w = [] → heap w !! s = Some sess → Command msg = CmdSub → handled c s msg w m.
Proof.
  intros Hh Hs Hcmd. eexists None, _. split.
  { unfold HandleMessage. rewrite decide_True by done. by apply handleSubscribe_run. }
  set (text := str "subscribed to " ++ Subject msg).
  assert (heap (subscribe_world s (Subject msg) sess w) !! s = Some (subscribed s (Subject msg) sess)) as Hs1.
  { unfold subscribe_world, subscribed. case_decide; [done|apply heap_upd]. }
  split_and!; [|by apply send_world_is_Some; eexists|].
  - rewrite send_world_held. unfold subscribe_world. by case_decide.
  - etrans; [|by apply ack_alone]. revert Hs1. unfold subscribe_world, subscribed. case_decide as Hin; intros Hs1.
    + apply rtc_once. apply (hold_same c s sess); [done|]. intros m0 <-. unfold handle_step.
      rewrite decide_True by done. rewrite exists_subject, bool_decide_true by done. done.
    + set (w1 := upd s (set_subjects (subjects sess ++ [Subject msg]) sess) w).
      apply (rtc_l _ _ (at_reader s (RSubRouter (Subject msg)) w1 m)); [|apply rtc_once].
      * apply (hold_alone c s sess); [done|]. intros m0 <-. unfold handle_step.
        rewrite decide_True by done. rewrite exists_subject, bool_decide_false by done. done.
      * apply (solo c). intros m0 Hm0. unfold reader_step. rewrite Hm0. unfold w1. by rewrite heap_upd.
Qed.

Lemma unsubscribe_alone c s sess msg w m :
  held w = [] → heap w !! s = Some sess → Command msg = CmdUnsub → handled c s msg w m.
Proof.
  intros Hh Hs Hcmd. assert (Command msg ≠ CmdSub) as Hne by (by rewrite Hcmd).
  eexists None, _. split.
  { unfold HandleMessage. rewrite decide_False, decide_True by done. by apply handleUnsubscribe_run. }
  set (sess1 := set_subjects _ sess). set (w1 := upd s sess1 w).
  assert (heap w1 !! s = Some sess1) as Hs1 by apply heap_upd.
  split_and!; [by rewrite send_world_held|by apply send_world_is_Some; eexists|].
  etrans; [|by apply ack_alone]. eapply rtc_l; [|apply rtc_once].
  - apply (hold_alone c s sess _ (RUnsubRouter (Subject msg)) _ w1); [done|]. intros m0 <-. unfold handle_step.
    by rewrite decide_False, decide_True.
  - apply (solo c). intros m0 Hm0. unfold reader_step. rewrite Hm0. by rewrite Hs1.
Qed.

Lemma deliver_held encoded l (w : World R) : held (deliver encoded l w) = held w.
Proof.
  revert w. induction l as [|x l IH]; intros w; [done|].
  change (deliver encoded (x :: l) w) with (deliver encoded l (deliver_one encoded w x)). rewrite IH.
  unfold deliver_one. destruct (heap w !! x); [by rewrite send_world_held|done].
Qed.

Lemma deliver_is_Some encoded l (w : World R) s : is_Some (heap w !! s) → is_Some (heap (deliver encoded l w) !! s).
Proof.
  revert w. induction l as [|x l IH]; intros w Hs; [done|]. cbn [deliver foldl].
  by apply IH, deliver_one_heap_is_Some.
Qed.

Lemma publish_alone c s sess msg w m :
  held w = [] → heap w !! s = Some sess → Command msg = CmdPub →
  Forall (λ x, is_Some (heap w !! x)) (store_find (c_order c) (Subject msg) (router w)).1 → handled c s msg w m.
Proof.
  intros Hh Hs Hcmd Hall. assert (Command msg ≠ CmdSub ∧ Command msg ≠ CmdUnsub) as [H1 H2] by (by rewrite Hcmd).
  eexists None, _. split.
  { unfold HandleMessage. rewrite !decide_False, decide_True by done. by apply handlePublish_run. }
  split_and!; [by rewrite deliver_held|by apply deliver_is_Some; eexists|].
  eapply rtc_l; [|apply (fan_alone s _ _ (set_router (store_find (c_order c) (Subject msg) (router w)).2 w)); [by eexists|done]].
  apply (hold_alone c s sess); [done|]. intros m0 <-. unfold handle_step.
  rewrite !decide_False, decide_True by done. done.
Qed.

Lemma ping_alone c s sess msg w m :
  held w = [] → heap w !! s = Some sess → Command msg = CmdPing → handled c s msg w m.
Proof.
  intros Hh Hs Hcmd.
  assert (Command msg ≠ CmdSub ∧ Command msg ≠ CmdUnsub ∧ Command msg ≠ CmdPub) as (H1 & H2 & H3) by (by rewrite Hcmd).
  eexists _, _. split.
  { unfold HandleMessage. rewrite !decide_False, decide_True by done. by apply handlePing_run. }
  split_and!; [by rewrite send_world_held|by apply send_world_is_Some; eexists|].
  set (r := if closed sess then RFail (ErrSend ErrSessionClosed)
            else RSend s (PStart (Encode (NewMessageCmd CmdPong [] []))) PongSent).
  apply (rtc_l _ _ (at_reader s r w m)).
  - apply (hold_same c s sess); [done|]. intros m0 <-. unfold handle_step.
    by rewrite (decide_False (P := Command msg = CmdSub)), (decide_False (P := Command msg = CmdUnsub)),
      (decide_False (P := Command msg = CmdPub)), decide_True.
  - unfold r, SendPong. destruct (closed sess); [unfold refuse; rewrite send_world_same by done; apply rtc_refl|].
    pose proof (enqueue_alone s s (Encode (NewMessageCmd CmdPong [] [])) PongSent sess w m ltac:(by eexists) Hs) as Hrun.
    cbn [resume] in Hrun. by destruct (sent_err (enqueueEncoded _ sess)).
Qed.

Lemma message_alone c s sess msg w m :
  held w = [] → heap w !! s = Some sess →
  Forall (λ x, is_Some (heap w !! x)) (store_find (c_order c) (Subject msg) (router w)).1 → handled c s msg w m.
Proof.
  intros Hh Hs Hall.
  destruct (decide (Command msg = CmdSub)) as [|H1]; [by apply (subscribe_alone c s sess)|].
  destruct (decide (Command msg = CmdUnsub)) as [|H2]; [by apply (unsubscribe_alone c s sess)|].
  destruct (decide (Command msg = CmdPub)) as [|H3]; [by apply (publish_alone c s sess)|].
  destruct (decide (Command msg = CmdPing)) as [|H4]; [by apply (ping_alone c s sess)|].
  eexists _, _. split; [unfold HandleMessage; by rewrite !decide_False|].
  split_and!; [done|by eexists|]. apply rtc_once. apply (hold_same c s sess); [done|].
  intros m0 <-. unfold handle_step. by rewrite !decide_False.
Qed.

Lemma handle_alone c s sess msg w m :
  held w = [] → heap w !! s = Some sess →
  Forall (λ x, is_Some (heap w !! x)) (store_find (c_order c) (Subject msg) (router w)).1 →
  ∃ w', reader_handle (c_order c) s msg w = Ret (tt, w') ∧
    rtc (moves (GReader s)) (at_reader s (RHold msg) w m) (at_reader s RTop w' m).
Proof.
  intros Hh Hs Hall. destruct (message_alone c s sess msg w m Hh Hs Hall) as (err & w1 & HM & Hh1 & [sess1 Hs1] & Hrun).
  set (w2 := match err with
             | Some e => send_world s (SendError (str "handle error: " ++ handle_error_text e) sess1) w1
             | None => w1 end).
  assert (held w2 = []) as Hh2 by (unfold w2; destruct err; [by rewrite send_world_held|done]).
  assert (is_Some (heap w2 !! s)) as [sess2 Hs2] by (unfold w2; destruct err; [apply send_world_is_Some|]; by eexists).
  eexists. split.
  - unfold reader_handle. erewrite bind_run by exact HM.
    erewrite (bind_run _ _ _ tt w2) by (unfold w2; destruct err; [by erewrite bind_run by (by apply send_run)|done]).
    erewrite bind_run by (by apply set_lastPing_run). erewrite modify_session_run by apply heap_upd.
    by rewrite upd_upd.
  - etrans; [exact Hrun|]. apply (rtc_r _ (at_reader s RStamp w2 m)); [|by apply stamp_alone].
    unfold w2. destruct err as [e|]; [|done]. by apply fail_alone.
Qed.
(** Leaving the loop: [Close], then the [removeSession] of the accept goroutine. *)
Definition closed_session (sess : Session) : Session :=
  if closeOnce sess then sess else set_conn_closed (set_closed sess).
Definition left_world (o : order) (s : sid) (sess : Session) (w : World R) : World R :=
  let w1 := close_world o s sess w in
  set_sessions (sessions w1 ∖ {[s]}) (upd s (set_pc Returned (closed_session sess)) w1).

Lemma leave_alone c s sess w m :
  heap w !! s = Some sess → once m !! s = None → server_free m = true →
  (closeOnce sess = false → done sess = false) →
  rtc (moves (GReader s)) (at_reader s RClose w m) (at_reader s RReturned (left_world (c_order c) s sess w) m).
Proof.
  intros Hs Ho Hf Hd. set (m1 := at_reader s RClose w m).
  assert (in_close m1 (GReader s) s) as Hin by (split; [done|apply lookup_insert_eq]).
  set (w1 := close_world (c_order c) s sess w).
  apply (rtc_r _ (at_reader s RRemove w1 m)).
  { rewrite <-(at_reader_put s RClose RRemove w w1 m).
    exact (close_run_moves _ _ _ _ _ Hin (close_alone c (GReader s) s sess m1 Hs Ho Hf Hd)). }
  rewrite <-(at_reader_put s RRemove RReturned w1 _ m).
  apply (mv_reader c _ RRemove); [apply lookup_insert_eq|]. unfold reader_step.
  assert (heap w1 !! s = Some (closed_session sess)) as Hs1 by (by apply close_world_heap).
  change (world (at_reader s RRemove w1 m)) with w1. rewrite Hs1.
  assert (server_free (at_reader s RRemove w1 m) = true) as -> by done. done.
Qed.

Lemma left_world_run o s sess w r :
  held w = [] → heap w !! s = Some sess →
  (Close o s;; modify_session s (set_input r Returned);; removeSession s) w
    = Ret (tt, left_world o s (set_input r (pc sess) sess) (upd s (set_input r (pc sess) sess) w)).
Proof.
  intros Hh Hs. erewrite bind_run by (by apply Close_run).
  erewrite bind_run by (apply modify_session_run; by apply close_world_heap).
  rewrite removeSession_run by (unfold upd; cbn; by rewrite close_world_held).
  f_equal. f_equal. unfold left_world, closed_session, close_world.
  change (closeOnce (set_input r (pc sess) sess)) with (closeOnce sess). destruct (closeOnce sess).
  - by rewrite upd_upd.
  - unfold upd, set_heap, set_router, set_sessions. cbn. by rewrite !insert_insert_eq.
Qed.

Lemma left_world_run_pc o s sess w :
  held w = [] → heap w !! s = Some sess →
  (Close o s;; modify_session s (set_pc Returned);; removeSession s) w = Ret (tt, left_world o s sess w).
Proof.
  intros Hh Hs. erewrite bind_run by (by apply Close_run).
  erewrite bind_run by (apply modify_session_run; by apply close_world_heap).
  rewrite removeSession_run by (unfold upd; cbn; by rewrite close_world_held). done.
Qed.

(** The next place of the read loop after a poll. *)
Definition polled_at (sess : Session) : reader_at :=
  match pc sess with Holding msg => RHold msg | _ => RReturned end.

Lemma poll_alone o s sess w m :
  held w = [] → heap w !! s = Some sess → once m !! s = None → server_free m = true →
  (closeOnce sess = false → done sess = false) →
  ∃ w' r, reader_poll o s w = Ret (tt, w') ∧ r ≠ RTop ∧
    rtc (moves (GReader s)) (at_reader s RTop w m) (at_reader s r w' m) ∧
    (∃ sess', heap w' !! s = Some sess' ∧ r = polled_at sess').
Proof.
  intros Hh Hs Ho Hf Hd. set (c := mkChoices o true true true).
  assert (∀ sess1 w1, left_world o s sess1 w1 = left_world (c_order c) s sess1 w1) as Hc by done.
  assert (∀ sess1 w1, heap w1 !! s = Some sess1 →
    ∃ sess', heap (left_world o s sess1 w1) !! s = Some sess' ∧ RReturned = polled_at sess') as Hplace.
  { intros sess1 w1 Hs1. eexists. split; [apply heap_upd|done]. }
  unfold reader_poll. erewrite bind_run by (by apply get_session_run).
  destruct (done sess) eqn:Hdone.
  - eexists _, RReturned. split; [by apply left_world_run_pc|]. split; [done|]. split; [|by apply Hplace].
    eapply rtc_l; [|apply (leave_alone c); [done..|]].
    + apply (solo_same c). intros m0 <-. unfold reader_step. by rewrite Hs, Hdone.
    + intros E. rewrite (Hd E) in Hdone. done.
  - destruct (ParseFromReader_spec (conn_input sess)) as (res & rd & HP & _).
    erewrite (bind_run (lift _) _ _ (res, rd)) by (unfold lift; by rewrite HP).
    assert (moves (GReader s) (at_reader s RTop w m) (at_reader s RRead w m)) as Htop.
    { apply (solo_same c). intros m0 <-. unfold reader_step. by rewrite Hs, Hdone. }
    destruct res as [msg|e].
    + eexists _, (RHold msg). split; [by apply modify_session_run|]. split; [done|].
      split; [|eexists; split; [apply heap_upd|done]].
      eapply rtc_l; [exact Htop|]. apply rtc_once, (solo c). intros m0 <-. unfold reader_step.
      by rewrite Hs, HP.
    + eexists _, RReturned. split; [by apply left_world_run|]. split; [done|].
      split; [|apply Hplace, heap_upd]. eapply rtc_l; [exact Htop|].
      set (sess1 := set_input rd (pc sess) sess). apply (rtc_l _ _ (at_reader s RClose (upd s sess1 w) m)).
      * apply (solo c). intros m0 <-. unfold reader_step. by rewrite Hs, HP.
      * apply (leave_alone c); [apply heap_upd|done..].
Qed.

(** ** The write loop and [go s.Close()] *)

Definition at_writer (s : sid) (v : writer_at) (w : World R) m : pool R := put_writer s v (set_world w m).

Lemma at_writer_put s v v' w w' m :
  put_writer s v' (set_world w' (at_writer s v w m)) = at_writer s v' w' m.
Proof. unfold at_writer, put_writer, set_world. cbn. by rewrite insert_insert_eq. Qed.

Lemma solo_writer c s v v' w w' m :
  (∀ m0, world m0 = w → writer_step c s v m0 = Ret (v', set_world w' m0)) →
  moves (GWriter s) (at_writer s v w m) (at_writer s v' w' m).
Proof.
  intros Hst. rewrite <-(at_writer_put s v v' w w' m). eapply (mv_writer c); [apply lookup_insert_eq|]. by apply Hst.
Qed.

Lemma write_alone o s (ok : bool) sess w m :
  held w = [] → heap w !! s = Some sess → outChan sess ≠ [] → once m !! s = None → server_free m = true →
  (closeOnce sess = false → done sess = false) →
  ∃ w', writer_turn o s ok w = Ret (tt, w') ∧
    rtc (moves (GWriter s)) (at_writer s VWait w m) (at_writer s (if ok then VWait else VEnd) w' m).
Proof.
  intros Hh Hs Hq Ho Hf Hd. set (c := mkChoices o true ok false).
  unfold writer_turn. erewrite bind_run by (by apply get_session_run).
  unfold dequeue. destruct (outChan sess) as [|data rest] eqn:Eq; [done|].
  erewrite bind_run by apply put_session_run. set (sess1 := set_queue rest _ sess).
  assert (rtc (moves (GWriter s)) (at_writer s VWait w m) (at_writer s (VWrite data) (upd s sess1 w) m)) as Hwait.
  { set (sess0 := set_queue rest (queuedBytes sess) sess).
    apply (rtc_l _ _ (at_writer s (VTaken data) (upd s sess0 w) m)); [|apply rtc_once].
    - apply (solo_writer c). intros m0 <-. unfold writer_step. rewrite Hs. cbn [c_done c].
      by rewrite Eq, bool_decide_false, andb_false_r by done.
    - rewrite <-(upd_upd s sess1 sess0 w). apply (solo_writer c). intros m0 Hm0. unfold writer_step.
      by rewrite Hm0, heap_upd. }
  destruct ok.
  - eexists. split; [apply modify_session_run, heap_upd|]. eapply rtc_r; [exact Hwait|].
    apply (solo_writer c). intros m0 Hm0. unfold writer_step. rewrite Hm0, heap_upd. done.
  - eexists. split; [by apply Close_run; [|apply heap_upd]|].
    etrans; [exact Hwait|]. set (w1 := upd s sess1 w).
    assert (heap w1 !! s = Some sess1) as Hw1 by apply heap_upd.
    assert (moves (GWriter s) (at_writer s (VWrite data) w1 m) (at_writer s VClose w1 m)) as Hfail.
    { apply (solo_writer c). intros m0 Hm0. unfold writer_step. rewrite Hm0, Hw1. cbn. rewrite <-Hm0. by destruct m0. }
    eapply rtc_l; [exact Hfail|]. set (m1 := at_writer s VClose w1 m).
    assert (in_close m1 (GWriter s) s) as Hin by (split; [done|apply lookup_insert_eq]).
    assert (closeOnce sess1 = false → done sess1 = false) as Hd1 by done.
    rewrite <-(at_writer_put s VClose VEnd w1 _ m).
    exact (close_run_moves _ _ _ _ _ Hin (close_alone c (GWriter s) s sess1 m1 (heap_upd s sess1 w) Ho Hf Hd1)).
Qed.

Lemma spawned_alone o n s sess m :
  held (world m) = [] → heap (world m) !! s = Some sess → others m !! n = Some (Closing s) →
  once m !! s = None → server_free m = true → (closeOnce sess = false → done sess = false) →
  ∃ w', Close o s (world m) = Ret (tt, w') ∧
    rtc (moves (GOther n)) m (put_other n Gone (set_world w' m)).
Proof.
  intros Hh Hs Hn Ho Hf Hd. eexists. split; [by apply Close_run|].
  assert (in_close m (GOther n) s) as Hin by (by left).
  pose proof (close_run_moves _ _ _ _ _ Hin (close_alone (mkChoices o true true true) _ s sess m Hs Ho Hf Hd)) as Hrun.
  cbn [after_close others set_world] in Hrun. by rewrite Hn in Hrun.
Qed.

(** ** The theorem *)

Lemma pool_step_held m m' : pool_step m m' → held (world m') = held (world m).
Proof.
  intros [g x y Hmv| | | | | | | | ]; try done.
  destruct Hmv as [c s r r' x y _ E|c s v v' x y _ E|c n t t' x y _ E]; cbn [world put_reader put_writer put_other].
  - by apply (reader_step_held _ _ _ _ _ _ E).
  - by apply (writer_step_held _ _ _ _ _ _ E).
  - destruct t as [s|a|a|]; cbn in E; [| | |done].
    + destruct (close_step c (GOther n) s x) as [[b z]| |] eqn:Ec; try done. injection E as <- <-.
      by apply (close_step_held _ _ _ _ _ _ Ec).
    + destruct a; cbn in E; [case_decide; [|done]|..]; try done; by injection E as <- <-.
    + destruct a as [| |[|s l]|s l|]; cbn in E; try done.
      * destruct (srv_closeOnce (world x)); [destruct (existsb _ _); [done|]|]; by injection E as <- <-.
      * destruct (server_free x); [|done]. by injection E as <- <-.
      * by injection E as <- <-.
      * by injection E as <- <-.
      * destruct (close_step c (GOther n) s x) as [[b z]| |] eqn:Ec; try done.
        destruct b; injection E as <- <-; by apply (close_step_held _ _ _ _ _ _ Ec).
Qed.

Lemma reachable_held m : pool_reachable m → held (world m) = [].
Proof.
  apply (rtc_invariant pool_step (λ m, held (world m) = [])); [|done].
  intros x y Hx Hxy. by rewrite (pool_step_held x y Hxy).
Qed.

(** C11: the turns of [Server] are runs of single goroutines: when nobody is inside the
    session's [Close] and [Server.mu] is free, the poll of the read loop, the handling of the
    message it holds, a turn of the write loop and a [go s.Close()] are each what the
    goroutine does step by step with no other one moving in between, and the world they leave
    is the same. *)
Theorem turns_run_alone m o s sess :
  pool_reachable m → heap (world m) !! s = Some sess → once m !! s = None → server_free m = true →
  (readers m !! s = Some RTop → ∃ w' sess', reader_poll o s (world m) = Ret (tt, w') ∧
     heap w' !! s = Some sess' ∧
     rtc (moves (GReader s)) m (put_reader s (polled_at sess') (set_world w' m))) ∧
  (∀ msg, readers m !! s = Some (RHold msg) → ∃ w', reader_handle o s msg (world m) = Ret (tt, w') ∧
     rtc (moves (GReader s)) m (put_reader s RTop (set_world w' m))) ∧
  (∀ ok : bool, writers m !! s = Some VWait → outChan sess ≠ [] → ∃ w', writer_turn o s ok (world m) = Ret (tt, w') ∧
     rtc (moves (GWriter s)) m (put_writer s (if ok then VWait else VEnd) (set_world w' m))) ∧
  (∀ n, others m !! n = Some (Closing s) → ∃ w', Close o s (world m) = Ret (tt, w') ∧
     rtc (moves (GOther n)) m (put_other n Gone (set_world w' m))).
Proof.
  intros Hreach Hs Ho Hf. pose proof (reachable_held m Hreach) as Hh.
  pose proof (pool_reachable_ok m Hreach) as Hm. pose proof (pk_core m Hm) as Hc.
  assert (closeOnce sess = false → done sess = false) as Hd.
  { destruct (co_session m Hc s sess Hs) as (r & _ & Hloc). pose proof (lo_flags _ _ _ _ _ Hloc) as Hfl.
    unfold stage in Hfl. rewrite Ho in Hfl. destruct Hfl as (_ & -> & _). done. }
  split_and!.
  - intros Hr. destruct (poll_alone o s sess (world m) m) as (w' & r & Hrun & _ & Hmv & sess' & Hs' & ->); try done.
    rewrite at_reader_id in Hmv by done. exists w', sess'. by split_and!.
  - intros msg Hr. destruct (handle_alone (mkChoices o true true true) s sess msg (world m) m) as (w' & Hrun & Hmv); try done.
    + destruct (store_find_ok o (Subject msg) (router (world m)) (co_router m Hc)) as (_ & _ & _ & Hel).
      apply Forall_forall. intros x Hx. apply Hel in Hx as (p & Hpx & _). by apply (co_known m Hc p x).
    + rewrite at_reader_id in Hmv by done. by exists w'.
  - intros ok Hv Hq. destruct (write_alone o s ok sess (world m) m) as (w' & Hrun & Hmv); try done.
    unfold at_writer in Hmv at 1. replace (set_world (world m) m) with m in Hmv by (by destruct m).
    rewrite put_writer_id in Hmv by done. by exists w'.
  - intros n Hn. by apply (spawned_alone o n s sess m).
Qed.
End runs.

(** A session that holds a subscription. *)
Definition holding_pool : pool Router :=
  default new_pool (replay [AAccept 1 (subscribes (str "a")); AReader go 1; AReader go 1] new_pool).

Lemma turns_run_alone_witness :
  ∃ w', reader_handle in_order 1 (NewMessageCmd CmdSub (str "a") []) (world holding_pool) = Ret (tt, w') ∧
    rtc (moves (GReader 1)) holding_pool (put_reader 1 RTop (set_world w' holding_pool)).
Proof.
  refine (proj1 (proj2 (turns_run_alone holding_pool in_order 1 _ _ _ _ _)) _ _).
  - apply (replay_reachable [AAccept 1 (subscribes (str "a")); AReader go 1; AReader go 1]). vm_compute. reflexivity.
  - vm_compute. reflexivity.
  - vm_compute. reflexivity.
  - vm_compute. reflexivity.
  - vm_compute. reflexivity.
Defined.
