(* ===== verification/Config.v ===== *)
(** * Configuration of the programs ([src/examples/h264-relay], [src/examples/kcpq-to-nats],
    [src/examples/server])

    How [main] of the three programs arrives at its configuration: built-in values, or a
    YAML file with its own defaults, then the environment, then the key. The file system,
    the environment and the YAML library are parameters. *)

From S2P Require Import Prelude GoStrings Session Reconnect Crypto Relay.

(** What the operating system answers. *)
Record system_env := mkEnv {
  Getenv : gostring → gostring;             (** empty when not set *)
  Stat : gostring → bool;                   (** [os.Stat] returned no error *)
  ReadFile : gostring → option (list byte);
}.

(** [time.Duration(n) * time.Second] *)
Definition seconds (n : Z) : Z := int64 (n * second).

(** An environment variable that is set overrides. *)
Definition getenv_or (e : system_env) (name : string) (current : gostring) : gostring :=
  let v := Getenv e (str name) in if decide (v = []) then current else v.

(** The path of the file to load; empty: none. *)
Definition config_path (flag : gostring) (e : system_env) : gostring :=
  if decide (flag = []) then (if Stat e (str "config.yaml") then str "config.yaml" else [])
  else flag.

Definition or_default (v d : Z) : Z := if (v =? 0)%Z then d else v.
Definition or_text (v : gostring) (d : string) : gostring := if decide (v = []) then str d else v.

(** [time.NewTicker] panics on an interval that is not positive. *)
Definition NewTicker (d : Z) : outcome Z := if (0 <? d)%Z then Ret d else Panic.

Section loading.
Context {YamlError : Type}.

Inductive load_error := LoadRead | LoadParse (e : YamlError).
Inductive config_error := ConfigLoad (e : load_error) | ConfigKey (e : key_error).

(** [LoadConfig], with the decoder of the program's [ConfigFile] and its defaults. *)
Definition LoadConfig {F} (Unmarshal : list byte → F + YamlError) (defaults : F → F)
    (path : gostring) (e : system_env) : F + load_error :=
  match ReadFile e path with
  | None => inr LoadRead
  | Some data =>
      match Unmarshal data with
      | inl cfg => inl (defaults cfg)
      | inr err => inr (LoadParse err)
      end
  end.

(** ** [h264-relay] *)

Record RelayFile := mkRelayFile {
  rf_UDPListen : gostring;
  rf_KCPQServer : gostring;
  rf_Subject : gostring;
  rf_AES256KeyHex : gostring;
  rf_StatsInterval : Z;
  rf_BufferSize : Z;
  rf_AutoReconnect : bool;
  rf_ReconnectInterval : Z;
}.

Record RelayConfig := mkRelayConfig {
  rc_UDPListenAddr : gostring;
  rc_KCPServerAddr : gostring;
  rc_Subject : gostring;
  rc_AES256KeyHex : gostring;
  rc_AES256Key : list byte;
  rc_ReconnectDelay : Z;
  rc_StatsInterval : Z;
  rc_BufferSize : Z;
  rc_AutoReconnect : bool;
  rc_ReconnectInterval : Z;
}.

Definition relay_defaults (f : RelayFile) : RelayFile :=
  mkRelayFile (rf_UDPListen f) (rf_KCPQServer f) (rf_Subject f) (rf_AES256KeyHex f)
    (or_default (rf_StatsInterval f) 10) (or_default (rf_BufferSize f) (10 * 1024 * 1024))
    (rf_AutoReconnect f) (or_default (rf_ReconnectInterval f) 5).

Definition ToRelayConfig (f : RelayFile) : RelayConfig :=
  mkRelayConfig (rf_UDPListen f) (rf_KCPQServer f) (rf_Subject f) (rf_AES256KeyHex f) []
    (3 * second) (seconds (rf_StatsInterval f)) (rf_BufferSize f) (rf_AutoReconnect f)
    (seconds (rf_ReconnectInterval f)).

Definition relay_builtin : RelayConfig :=
  mkRelayConfig (str ":22345") (str "208.81.129.186:4000") (str "h264.stream") [] []
    (3 * second) (10 * second) (10 * 1024 * 1024) true (5 * second).

(** The environment on top, and the key. *)
Definition relay_env (e : system_env) (c : RelayConfig) : RelayConfig + key_error :=
  let keyHex := getenv_or e "KCPQ_AES256_KEY_HEX" (rc_AES256KeyHex c) in
  match startup_key (rc_AES256KeyHex c) (Getenv e (str "KCPQ_AES256_KEY_HEX")) with
  | inr err => inr err
  | inl key =>
      inl (mkRelayConfig (getenv_or e "UDP_LISTEN" (rc_UDPListenAddr c))
             (getenv_or e "KCPQ_SERVER" (rc_KCPServerAddr c)) (getenv_or e "KCPQ_SUBJECT" (rc_Subject c))
             keyHex key (rc_ReconnectDelay c) (rc_StatsInterval c) (rc_BufferSize c)
             (rc_AutoReconnect c) (rc_ReconnectInterval c))
  end.

(** [main] up to [NewH264Relay]. *)
Definition relay_main (Unmarshal : list byte → RelayFile + YamlError) (flag : gostring) (e : system_env) :
    RelayConfig + config_error :=
  let path := config_path flag e in
  match (if decide (path = []) then inl relay_builtin
         else match LoadConfig Unmarshal relay_defaults path e with
              | inl f => inl (ToRelayConfig f)
              | inr err => inr err
              end) with
  | inr err => inr (ConfigLoad err)
  | inl c => match relay_env e c with inl c => inl c | inr err => inr (ConfigKey err) end
  end.

(** ** [kcpq-to-nats] *)

Record ForwarderFile := mkForwarderFile {
  ff_KCPQServer : gostring;
  ff_KCPQSubject : gostring;
  ff_NATSServer : gostring;
  ff_NATSSubject : gostring;
  ff_AES256KeyHex : gostring;
  ff_StatsInterval : Z;
  ff_AutoReconnect : bool;
  ff_ReconnectInterval : Z;
  ff_UseChannelMode : bool;
}.

Record ForwarderConfig := mkForwarderConfig {
  fc_KCPQServer : gostring;
  fc_KCPQSubject : gostring;
  fc_NATSServer : gostring;
  fc_NATSSubject : gostring;
  fc_AES256KeyHex : gostring;
  fc_AES256Key : list byte;
  fc_ReconnectDelay : Z;
  fc_StatsInterval : Z;
  fc_AutoReconnect : bool;
  fc_ReconnectInterval : Z;
  fc_UseChannelMode : bool;
}.

Definition forwarder_defaults (f : ForwarderFile) : ForwarderFile :=
  mkForwarderFile (ff_KCPQServer f) (ff_KCPQSubject f) (ff_NATSServer f) (ff_NATSSubject f)
    (ff_AES256KeyHex f) (or_default (ff_StatsInterval f) 10) (ff_AutoReconnect f)
    (or_default (ff_ReconnectInterval f) 5) (ff_UseChannelMode f).

Definition ToForwarderConfig (f : ForwarderFile) : ForwarderConfig :=
  mkForwarderConfig (ff_KCPQServer f) (ff_KCPQSubject f) (ff_NATSServer f) (ff_NATSSubject f)
    (ff_AES256KeyHex f) [] (3 * second) (seconds (ff_StatsInterval f)) (ff_AutoReconnect f)
    (seconds (ff_ReconnectInterval f)) (ff_UseChannelMode f).

Definition forwarder_builtin : ForwarderConfig :=
  mkForwarderConfig (str "208.81.129.186:4000") (str "h264.stream") (str "nats://cctv.mba:4222")
    (str "h264.stream") [] [] (3 * second) (10 * second) true (5 * second) true.

Definition forwarder_env (e : system_env) (c : ForwarderConfig) : ForwarderConfig + key_error :=
  let keyHex := getenv_or e "KCPQ_AES256_KEY_HEX" (fc_AES256KeyHex c) in
  match startup_key (fc_AES256KeyHex c) (Getenv e (str "KCPQ_AES256_KEY_HEX")) with
  | inr err => inr err
  | inl key =>
      inl (mkForwarderConfig (getenv_or e "KCPQ_SERVER" (fc_KCPQServer c))
             (getenv_or e "KCPQ_SUBJECT" (fc_KCPQSubject c)) (getenv_or e "NATS_SERVER" (fc_NATSServer c))
             (getenv_or e "NATS_SUBJECT" (fc_NATSSubject c)) keyHex key (fc_ReconnectDelay c)
             (fc_StatsInterval c) (fc_AutoReconnect c) (fc_ReconnectInterval c) (fc_UseChannelMode c))
  end.

(** [main] up to [NewForwarder]. *)
Definition forwarder_main (Unmarshal : list byte → ForwarderFile + YamlError) (flag : gostring)
    (e : system_env) : ForwarderConfig + config_error :=
  let path := config_path flag e in
  match (if decide (path = []) then inl forwarder_builtin
         else match LoadConfig Unmarshal forwarder_defaults path e with
              | inl f => inl (ToForwarderConfig f)
              | inr err => inr err
              end) with
  | inr err => inr (ConfigLoad err)
  | inl c => match forwarder_env e c with inl c => inl c | inr err => inr (ConfigKey err) end
  end.

(** ** [server] *)

Record ServerFile := mkServerFile {
  sf_ListenAddr : gostring;
  sf_PprofAddr : gostring;
  sf_AES256KeyHex : gostring;
}.

Definition server_defaults (f : ServerFile) : ServerFile :=
  mkServerFile (or_text (sf_ListenAddr f) ":4000") (or_text (sf_PprofAddr f) "localhost:6060")
    (sf_AES256KeyHex f).

(** [main] up to [NewServer]: the configuration and the key. *)
Definition server_main (Unmarshal : list byte → ServerFile + YamlError) (flag : gostring) (e : system_env) :
    (ServerFile * list byte) + config_error :=
  let path := config_path flag e in
  match (if decide (path = []) then inl (mkServerFile (str ":4000") (str "localhost:6060") [])
         else LoadConfig Unmarshal server_defaults path e) with
  | inr err => inr (ConfigLoad err)
  | inl c =>
      let addr := getenv_or e "KCP_NATS_ADDR" (sf_ListenAddr c) in
      let pprof := getenv_or e "KCPQ_PPROF_ADDR" (sf_PprofAddr c) in
      let keyHex := getenv_or e "KCPQ_AES256_KEY_HEX" (sf_AES256KeyHex c) in
      match startup_key (sf_AES256KeyHex c) (Getenv e (str "KCPQ_AES256_KEY_HEX")) with
      | inr err => inr (ConfigKey err)
      | inl key => inl (mkServerFile addr pprof keyHex, key)
      end
  end.
End loading.
Arguments load_error : clear implicits.
Arguments config_error : clear implicits.

(** ** Where each value comes from *)

(** The environment, else the file, else the program. *)
Definition resolve (env : gostring) (file : option gostring) (builtin : gostring) : gostring :=
  if decide (env = []) then default builtin file else env.

(** What the command line and the file system select: the file named by [-config], else
    [config.yaml] in the working directory if it exists, else none. *)
Inductive selects (flag : gostring) (e : system_env) : option gostring → Prop :=
| selects_named : flag ≠ [] → selects flag e (Some flag)
| selects_found : flag = [] → Stat e (str "config.yaml") = true → selects flag e (Some (str "config.yaml"))
| selects_none : flag = [] → Stat e (str "config.yaml") = false → selects flag e None.

(** The contents of the file, if one is selected; it can be read and decoded. *)
Definition file_contents {F E} (decode : list byte → F + E) (flag : gostring) (e : system_env) (file : option F) : Prop :=
  match file with
  | None => selects flag e None
  | Some f => ∃ path data, selects flag e (Some path) ∧ ReadFile e path = Some data ∧ decode data = inl f
  end.

(** A number in the file, where 0 stands for the value of the program. *)
Definition number (file : option Z) (builtin : Z) : Z :=
  match file with None | Some 0%Z => builtin | Some n => n end.

(** A text in the file that may not be empty. *)
Definition nonempty (file : option gostring) : option gostring :=
  match file with Some [] => None | t => t end.

(** [text] spells [key] in 64 hexadecimal digits. *)
Definition spells (text : gostring) (key : list byte) : Prop :=
  len key = 32%Z ∧ map hex_digit text = digits_of key.

Lemma startup_key_spells configured env key :
  startup_key configured env = inl key ↔ spells (resolve env (Some configured) []) key.
Proof. exact (proj1 (startup_key_exact configured env key)). Qed.

(** The last stage of a [main]: the key goes into the configuration. *)
Lemma key_stage {A} configured env (mk : list byte → A) (a : A) :
  match startup_key configured env with inr err => inr err | inl key => inl (mk key) end = inl a ↔
  ∃ key, spells (resolve env (Some configured) []) key ∧ a = mk key.
Proof.
  destruct (startup_key configured env) as [k|err] eqn:Hk.
  - split; [intros [= <-]; exists k; by rewrite <-startup_key_spells|].
    intros (key & Hs%startup_key_spells & ->). congruence.
  - split; [done|]. intros (key & Hs%startup_key_spells & _). congruence.
Qed.

Section configured.
Context {E : Type}.
Implicit Types e : system_env.

(** The two stages of a [main]: finding the configuration, and the environment on top. *)
Lemma loaded {F C A K} (U : list byte → F + E) (defaults : F → F) flag e (conv : F → C) (builtin : C)
    (finish : C → A + K) (mk : K → config_error E) a :
  let path := config_path flag e in
  match (if decide (path = []) then inl builtin
         else match LoadConfig U defaults path e with inl f => inl (conv f) | inr err => inr err end) with
  | inr err => inr (ConfigLoad err)
  | inl c => match finish c with inl a => inl a | inr err => inr (mk err) end
  end = inl a ↔
  ∃ file, file_contents U flag e file ∧ finish (from_option (conv ∘ defaults) builtin file) = inl a.
Proof.
  assert (∀ path, selects flag e (Some path) ↔ config_path flag e = path ∧ path ≠ []) as Hsome.
  { intros path. unfold config_path. split.
    - intros Hs. inversion Hs as [Hf|Hf Hst|]; subst; [by rewrite decide_False|by rewrite decide_True, Hst].
    - intros [<- Hne]. case_decide as Hf; [|by constructor]. destruct (Stat e _) eqn:Hst; [by constructor|done]. }
  assert (selects flag e None ↔ config_path flag e = []) as Hnone.
  { unfold config_path. split.
    - intros Hs. inversion Hs as [| |Hf Hst]. by rewrite decide_True, Hst.
    - case_decide as Hf; [|done]. destruct (Stat e _) eqn:Hst; [done|by constructor]. }
  cbv zeta. split.
  - intros Hm. case_decide as Hp.
    + exists None. split; [by apply Hnone|]. cbn. destruct (finish builtin); congruence.
    + unfold LoadConfig in Hm. destruct (ReadFile e _) as [data|] eqn:Hr; [|done].
      destruct (U data) as [f|err] eqn:Hu; [|done]. exists (Some f).
      split; [exists (config_path flag e), data; split_and!; try done; by apply Hsome|].
      cbn. destruct (finish (conv (defaults f))); congruence.
  - intros ([f|] & Hf & Hfin); cbn in *.
    + destruct Hf as (path & data & [-> Hne]%Hsome & Hr & Hu).
      unfold LoadConfig. by rewrite decide_False, Hr, Hu, Hfin.
    + by rewrite decide_True, Hfin by (by apply Hnone).
Qed.

(** The configuration of the relay, field by field; times are in nanoseconds. *)
Definition relay_resolved e (file : option RelayFile) (key : list byte) : RelayConfig :=
  let get name field builtin := resolve (Getenv e (str name)) (field <$> file) (str builtin) in
  {| rc_UDPListenAddr := get "UDP_LISTEN" rf_UDPListen ":22345";
     rc_KCPServerAddr := get "KCPQ_SERVER" rf_KCPQServer "208.81.129.186:4000";
     rc_Subject := get "KCPQ_SUBJECT" rf_Subject "h264.stream";
     rc_AES256KeyHex := get "KCPQ_AES256_KEY_HEX" rf_AES256KeyHex "";
     rc_AES256Key := key;
     rc_ReconnectDelay := 3000000000;
     rc_StatsInterval := int64 (number (rf_StatsInterval <$> file) 10 * 1000000000);
     rc_BufferSize := number (rf_BufferSize <$> file) 10485760;
     rc_AutoReconnect := from_option rf_AutoReconnect true file;
     rc_ReconnectInterval := int64 (number (rf_ReconnectInterval <$> file) 5 * 1000000000) |}%Z.

Definition forwarder_resolved e (file : option ForwarderFile) (key : list byte) : ForwarderConfig :=
  let get name field builtin := resolve (Getenv e (str name)) (field <$> file) (str builtin) in
  {| fc_KCPQServer := get "KCPQ_SERVER" ff_KCPQServer "208.81.129.186:4000";
     fc_KCPQSubject := get "KCPQ_SUBJECT" ff_KCPQSubject "h264.stream";
     fc_NATSServer := get "NATS_SERVER" ff_NATSServer "nats://cctv.mba:4222";
     fc_NATSSubject := get "NATS_SUBJECT" ff_NATSSubject "h264.stream";
     fc_AES256KeyHex := get "KCPQ_AES256_KEY_HEX" ff_AES256KeyHex "";
     fc_AES256Key := key;
     fc_ReconnectDelay := 3000000000;
     fc_StatsInterval := int64 (number (ff_StatsInterval <$> file) 10 * 1000000000);
     fc_AutoReconnect := from_option ff_AutoReconnect true file;
     fc_ReconnectInterval := int64 (number (ff_ReconnectInterval <$> file) 5 * 1000000000);
     fc_UseChannelMode := from_option ff_UseChannelMode true file |}%Z.

Definition server_resolved e (file : option ServerFile) : ServerFile :=
  let get name field builtin := resolve (Getenv e (str name)) field (str builtin) in
  {| sf_ListenAddr := get "KCP_NATS_ADDR" (nonempty (sf_ListenAddr <$> file)) ":4000";
     sf_PprofAddr := get "KCPQ_PPROF_ADDR" (nonempty (sf_PprofAddr <$> file)) "localhost:6060";
     sf_AES256KeyHex := get "KCPQ_AES256_KEY_HEX" (sf_AES256KeyHex <$> file) "" |}.

Lemma or_default_number v d : or_default v d = number (Some v) d.
Proof. unfold or_default. destruct (Z.eqb_spec v 0) as [->|]; [done|by destruct v]. Qed.

Lemma or_text_nonempty v d : or_text v d = default (str d) (nonempty (Some v)).
Proof. unfold or_text. case_decide as Hv; [by rewrite Hv|by destruct v]. Qed.

Lemma relay_env_run e file a :
  relay_env e (from_option (ToRelayConfig ∘ relay_defaults) relay_builtin file) = inl a ↔
  ∃ key, spells (rc_AES256KeyHex (relay_resolved e file key)) key ∧ a = relay_resolved e file key.
Proof.
  unfold relay_env. cbv zeta. rewrite key_stage. destruct file as [f|]; [|done].
  unfold relay_resolved. cbn -[Z.mul or_default number int64]. rewrite !or_default_number. done.
Qed.

Lemma forwarder_env_run e file a :
  forwarder_env e (from_option (ToForwarderConfig ∘ forwarder_defaults) forwarder_builtin file) = inl a ↔
  ∃ key, spells (fc_AES256KeyHex (forwarder_resolved e file key)) key ∧ a = forwarder_resolved e file key.
Proof.
  unfold forwarder_env. cbv zeta. rewrite key_stage. destruct file as [f|]; [|done].
  unfold forwarder_resolved. cbn -[Z.mul or_default number int64]. rewrite !or_default_number. done.
Qed.

(** The last stage of the server's [main]. *)
Definition server_env (e : system_env) (c : ServerFile) : (ServerFile * list byte) + key_error :=
  match startup_key (sf_AES256KeyHex c) (Getenv e (str "KCPQ_AES256_KEY_HEX")) with
  | inr err => inr err
  | inl key =>
      inl (mkServerFile (getenv_or e "KCP_NATS_ADDR" (sf_ListenAddr c)) (getenv_or e "KCPQ_PPROF_ADDR" (sf_PprofAddr c))
             (getenv_or e "KCPQ_AES256_KEY_HEX" (sf_AES256KeyHex c)), key)
  end.

Lemma server_env_run e file c key :
  server_env e (from_option server_defaults (mkServerFile (str ":4000") (str "localhost:6060") []) file) = inl (c, key) ↔
  spells (sf_AES256KeyHex c) key ∧ c = server_resolved e file.
Proof.
  unfold server_env. rewrite (key_stage _ _ (λ k, (_, k))). destruct file as [f|].
  - unfold server_resolved. cbn. rewrite !or_text_nonempty. split.
    + intros (k & Hk & [= -> ->]). done.
    + intros [Hk ->]. by exists key.
  - split.
    + intros (k & Hk & [= -> ->]). done.
    + intros [Hk ->]. by exists key.
Qed.

Lemma server_main_stages US flag e :
  server_main US flag e =
    match (if decide (config_path flag e = []) then inl (mkServerFile (str ":4000") (str "localhost:6060") [])
           else match LoadConfig US server_defaults (config_path flag e) e with inl f => inl f | inr err => inr err end) with
    | inr err => inr (ConfigLoad err)
    | inl c => match server_env e c with inl a => inl a | inr err => inr (ConfigKey (YamlError := E) err) end
    end.
Proof.
  unfold server_main, server_env. cbv zeta. case_decide; [|destruct (LoadConfig _ _ _ _)]; try done;
    by destruct (startup_key _ _).
Qed.


(** The intervals a configuration file can ask for. From 1 to 9223372036 seconds they are used
    as written, and 0 stands for 10 (statistics) and 5 (reconnection) seconds. A negative number
    of seconds that does not wrap around makes the printer of the statistics panic when it
    creates its ticker, while for the reconnection it is ignored and the client keeps its
    interval. The values of the programs themselves are among the good ones. *)
Theorem file_intervals (f : RelayFile) (l : Link) :
  let stats := rc_StatsInterval (ToRelayConfig (relay_defaults f)) in
  let again := rc_ReconnectInterval (ToRelayConfig (relay_defaults f)) in
  let enabled := (λ d, EnableAutoReconnect d l) <$> reconnect_interval true again in
  ((1 <= rf_StatsInterval f <= 9223372036)%Z → NewTicker stats = Ret (rf_StatsInterval f * second)%Z) ∧
  (rf_StatsInterval f = 0%Z → NewTicker stats = NewTicker (rc_StatsInterval relay_builtin) ∧
     NewTicker stats = Ret (10 * second)%Z) ∧
  ((-9223372036 <= rf_StatsInterval f < 0)%Z → NewTicker stats = Panic) ∧
  ((1 <= rf_ReconnectInterval f <= 9223372036)%Z →
     reconnectInterval <$> enabled = Some (rf_ReconnectInterval f * second)%Z) ∧
  (rf_ReconnectInterval f = 0%Z → reconnectInterval <$> enabled = Some (5 * second)%Z) ∧
  ((-9223372036 <= rf_ReconnectInterval f < 0)%Z → reconnectInterval <$> enabled = Some (reconnectInterval l)).
Proof.
  cbv zeta. unfold NewTicker, reconnect_interval.
  cbn [rc_StatsInterval rc_ReconnectInterval ToRelayConfig relay_defaults
    rf_StatsInterval rf_ReconnectInterval fmap option_fmap option_map].
  assert (∀ v, (v ≠ 0)%Z → ∀ d, or_default v d = v) as Hor by (intros v Hv d; unfold or_default; by rewrite (proj2 (Z.eqb_neq v 0))).
  assert (∀ v, (-9223372036 <= v <= 9223372036)%Z → seconds v = (v * second)%Z) as Hsec
    by (intros v Hv; unfold seconds, second; rewrite int64_small; lia).
  split_and!.
  - intros Hv. rewrite Hor, Hsec by lia. unfold second. by rewrite (proj2 (Z.ltb_lt _ _)) by lia.
  - intros ->. done.
  - intros Hv. rewrite Hor, Hsec by lia. unfold second. by rewrite (proj2 (Z.ltb_ge _ _)) by lia.
  - intros Hv. rewrite Hor, Hsec by lia. unfold EnableAutoReconnect, second.
    rewrite (proj2 (Z.eqb_neq _ _)) by lia. cbn. by rewrite (proj2 (Z.ltb_lt _ _)) by lia.
  - intros ->. done.
  - intros Hv. rewrite Hor, Hsec by lia. unfold EnableAutoReconnect, second.
    rewrite (proj2 (Z.eqb_neq _ _)) by lia. cbn. by rewrite (proj2 (Z.ltb_ge _ _)) by lia.
Qed.
End configured.

(** A machine with a key in the environment and a configuration file that only sets an
    interval. *)
Definition demo_env : system_env :=
  mkEnv (λ name, if decide (name = str "KCPQ_AES256_KEY_HEX") then mixed_case else [])
    (λ path, bool_decide (path = str "config.yaml")) (λ _, Some []).
Definition demo_file : RelayFile := mkRelayFile [] [] [] [] (-5) 0 false 0.


Lemma file_intervals_witness :
  NewTicker (rc_StatsInterval (ToRelayConfig (relay_defaults demo_file))) = Panic.
Proof.
  destruct (file_intervals demo_file connected_link) as (_ & _ & Hneg & _).
  apply Hneg. split; vm_compute; [discriminate|reflexivity].
Defined.
