(* ===== verification/PerfStats.v ===== *)
(** * The performance test ([src/examples/perf_test])

    The statistics shared by the callbacks of all subscribers, at the grain of their atomic
    accesses: what any interleaving of calls leaves in them, and how the minimum is lost. *)

From S2P Require Import Prelude GoStrings GoIO Protocol Session Reconnect Client ClientLaws Relay.

(** ** [Stats] *)

Record Stats := mkStats {
  st_messages : Z;       (** [TotalMessages] *)
  st_bytes : Z;
  st_latency : Z;
  st_min : Z;
  st_max : Z;
  st_errors : Z;
}.
Definition no_stats : Stats := mkStats 0 0 0 0 0 0.

Definition add_message (s : Stats) : Stats :=
  mkStats (uint64 (st_messages s + 1)) (st_bytes s) (st_latency s) (st_min s) (st_max s) (st_errors s).
Definition add_bytes (n : Z) (s : Stats) : Stats :=
  mkStats (st_messages s) (uint64 (st_bytes s + n)) (st_latency s) (st_min s) (st_max s) (st_errors s).
Definition add_latency (n : Z) (s : Stats) : Stats :=
  mkStats (st_messages s) (st_bytes s) (uint64 (st_latency s + n)) (st_min s) (st_max s) (st_errors s).
Definition set_min (n : Z) (s : Stats) : Stats :=
  mkStats (st_messages s) (st_bytes s) (st_latency s) n (st_max s) (st_errors s).
Definition set_max (n : Z) (s : Stats) : Stats :=
  mkStats (st_messages s) (st_bytes s) (st_latency s) (st_min s) n (st_errors s).
Definition RecordError (s : Stats) : Stats :=
  mkStats (st_messages s) (st_bytes s) (st_latency s) (st_min s) (st_max s) (uint64 (st_errors s + 1)).

(** Where a call of [RecordMessage] stands: before each of its atomic accesses; in the loop on
    the maximum with the value it has loaded; at the two tests on the minimum and the store. *)
Inductive rec_pc := RMessages | RBytes | RMax | RMaxSwap (old : Z) | RMin | RMinZero | RMinStore | RLatency | RDone.

(** One atomic access of [RecordMessage(size, latency)]. *)
Definition record_access (size latency : Z) (pc : rec_pc) (s : Stats) : rec_pc * Stats :=
  match pc with
  | RMessages => (RBytes, add_message s)
  | RBytes => (RMax, add_bytes size s)
  | RMax => (if (latency <=? st_max s)%Z then RMin else RMaxSwap (st_max s), s)
  | RMaxSwap old => if (st_max s =? old)%Z then (RMin, set_max latency s) else (RMax, s)
  | RMin => (if (latency <? st_min s)%Z then RMinStore else RMinZero, s)
  | RMinZero => (if (st_min s =? 0)%Z then RMinStore else RLatency, s)
  | RMinStore => (RLatency, set_min latency s)
  | RLatency => (RDone, add_latency latency s)
  | RDone => (RDone, s)
  end.

(** The calls of the callbacks, each with its size and latency, as a system of goroutines. *)
Record call := mkCall { c_size : Z; c_latency : Z; c_pc : rec_pc }.
Record recording := mkRecording { totals : Stats; calls : list call }.

Definition call_access (c : call) (s : Stats) : call * Stats :=
  let r := record_access (c_size c) (c_latency c) (c_pc c) s in
  (mkCall (c_size c) (c_latency c) r.1, r.2).

Inductive rec_step : recording → recording → Prop :=
| rec_step_at i c r :
    calls r !! i = Some c → c_pc c ≠ RDone →
    rec_step r (mkRecording (call_access c (totals r)).2 (<[i := (call_access c (totals r)).1]> (calls r))).

Definition new_call (p : Z * Z) : call := mkCall p.1 p.2 RMessages.
Definition recording_of (ps : list (Z * Z)) : recording := mkRecording no_stats (map new_call ps).

(** ** Sums over the calls *)

Fixpoint sum_over (f : call → Z) (l : list call) : Z :=
  match l with [] => 0 | c :: l => f c + sum_over f l end%Z.

Lemma sum_over_insert f l i c c' :
  l !! i = Some c → sum_over f (<[i := c']> l) = (sum_over f l - f c + f c')%Z.
Proof.
  revert i. induction l as [|x l IH]; intros [|i] Hi; simplify_eq/=; [lia|]. rewrite (IH i) by done. lia.
Qed.

Lemma sum_over_ext f g l : Forall (λ c, f c = g c) l → sum_over f l = sum_over g l.
Proof. induction 1 as [|c l Hc _ IH]; [done|]. cbn. by rewrite Hc, IH. Qed.

Lemma uint64_add a b : uint64 (uint64 a + b) = uint64 (a + b).
Proof. unfold uint64. by rewrite Z.add_mod_idemp_l by lia. Qed.

(** What each counter has of a call. *)
Definition seen_message (c : call) : Z := match c_pc c with RMessages => 0 | _ => 1 end.
Definition seen_bytes (c : call) : Z := match c_pc c with RMessages | RBytes => 0 | _ => c_size c end.
Definition seen_latency (c : call) : Z := match c_pc c with RDone => c_latency c | _ => 0 end.
Definition past_max (c : call) : Prop :=
  match c_pc c with RMin | RMinZero | RMinStore | RLatency | RDone => True | _ => False end.

(** The counters are the sums over the calls, the maximum dominates every call that has
    passed its loop and was put there by one, the minimum was put there by one. *)
Record recording_ok (ps : list (Z * Z)) (r : recording) : Prop := {
  ro_calls : map (λ c, (c_size c, c_latency c)) (calls r) = ps;
  ro_messages : st_messages (totals r) = uint64 (sum_over seen_message (calls r));
  ro_bytes : st_bytes (totals r) = uint64 (sum_over seen_bytes (calls r));
  ro_latency : st_latency (totals r) = uint64 (sum_over seen_latency (calls r));
  ro_max : ∀ c, c ∈ calls r → past_max c → (c_latency c <= st_max (totals r))%Z;
  ro_swap : ∀ c old, c ∈ calls r → c_pc c = RMaxSwap old → (old < c_latency c)%Z;
  ro_max_from : st_max (totals r) = 0%Z ∨ st_max (totals r) ∈ map c_latency (calls r);
  ro_min_from : st_min (totals r) = 0%Z ∨ st_min (totals r) ∈ map c_latency (calls r);
}.

Lemma recording_of_ok ps : recording_ok ps (recording_of ps).
Proof.
  assert (∀ f, (∀ p, f (new_call p) = 0%Z) → sum_over f (map new_call ps) = 0%Z) as Hsum.
  { intros f Hf. induction ps as [|p ps IH]; [done|]. cbn. by rewrite Hf, IH. }
  constructor; cbn.
  - rewrite map_map. by rewrite (map_ext _ id), map_id by (by intros []).
  - by rewrite Hsum.
  - by rewrite Hsum.
  - by rewrite Hsum.
  - by intros c (p & -> & _)%list_elem_of_fmap.
  - by intros c old (p & -> & _)%list_elem_of_fmap.
  - by left.
  - by left.
Qed.

(** The maximum only grows. *)
Lemma call_access_max c s :
  (∀ old, c_pc c = RMaxSwap old → (old < c_latency c)%Z) → (st_max s <= st_max (call_access c s).2)%Z.
Proof.
  intros Hold. unfold call_access, record_access. destruct (c_pc c) as [| | |old| | | | |]; cbn; try lia.
  destruct (Z.eqb_spec (st_max s) old); cbn; [|lia]. specialize (Hold old eq_refl). lia.
Qed.

Lemma call_access_same c s :
  c_size (call_access c s).1 = c_size c ∧ c_latency (call_access c s).1 = c_latency c.
Proof. done. Qed.

Lemma insert_same_map {A} (f : call → A) l i c c' :
  l !! i = Some c → f c' = f c → map f (<[i := c']> l) = map f l.
Proof. intros Hi E. rewrite list_fmap_insert, E. apply list_insert_id. by rewrite list_lookup_fmap, Hi. Qed.

Lemma elem_of_insert_or {A} (l : list A) i x y : y ∈ <[i := x]> l → y = x ∨ y ∈ l.
Proof.
  intros [j Hj]%list_elem_of_lookup. destruct (decide (i = j)) as [->|Hne].
  - destruct (decide (j < length l)) as [Hlt|Hge].
    + rewrite list_lookup_insert_eq in Hj by done. left. congruence.
    + rewrite list_insert_ge in Hj by lia. right. by eapply list_elem_of_lookup_2.
  - rewrite list_lookup_insert_ne in Hj by done. right. by eapply list_elem_of_lookup_2.
Qed.

Ltac split_ifs := repeat match goal with |- context [if ?b then _ else _] => destruct b end.

(** An access moves the counters as it moves the sums. *)
Lemma access_messages c s n :
  st_messages s = uint64 n →
  st_messages (call_access c s).2 = uint64 (n - seen_message c + seen_message (call_access c s).1).
Proof.
  intros Hs. unfold call_access, record_access, seen_message. cbn [c_pc].
  destruct (c_pc c) as [| | |old| | | | |]; cbn; rewrite ?Hs; split_ifs; cbn;
    rewrite ?Hs, ?uint64_add; f_equal; lia.
Qed.

Lemma access_bytes c s n :
  st_bytes s = uint64 n →
  st_bytes (call_access c s).2 = uint64 (n - seen_bytes c + seen_bytes (call_access c s).1).
Proof.
  intros Hs. unfold call_access, record_access, seen_bytes. cbn [c_pc c_size].
  destruct (c_pc c) as [| | |old| | | | |]; cbn; rewrite ?Hs; split_ifs; cbn;
    rewrite ?Hs, ?uint64_add; f_equal; lia.
Qed.

Lemma access_latency c s n :
  c_pc c ≠ RDone → st_latency s = uint64 n →
  st_latency (call_access c s).2 = uint64 (n - seen_latency c + seen_latency (call_access c s).1).
Proof.
  intros Hpc Hs. unfold call_access, record_access, seen_latency. cbn [c_pc c_latency].
  destruct (c_pc c) as [| | |old| | | | |]; cbn; rewrite ?Hs; split_ifs; cbn;
    rewrite ?Hs, ?uint64_add; try f_equal; try lia; done.
Qed.

(** What it does to the extrema. *)
Lemma access_extrema c s :
  (∀ old, c_pc c = RMaxSwap old → (old < c_latency c)%Z) →
  let c' := (call_access c s).1 in let s' := (call_access c s).2 in
  (st_max s <= st_max s')%Z ∧ (past_max c → (c_latency c <= st_max s)%Z → (c_latency c <= st_max s')%Z) ∧
  (past_max c' → past_max c ∨ (c_latency c <= st_max s')%Z) ∧
  (∀ old, c_pc c' = RMaxSwap old → (old < c_latency c)%Z) ∧
  (st_max s' = st_max s ∨ st_max s' = c_latency c) ∧ (st_min s' = st_min s ∨ st_min s' = c_latency c).
Proof.
  intros Hold. cbv zeta. unfold past_max, call_access, record_access. cbn [c_pc c_latency].
  destruct (c_pc c) as [| | |old| | | | |]; cbn; try (split_and!; (lia || by auto)).
  - destruct (Z.leb_spec (c_latency c) (st_max s)); cbn; split_and!; try (lia || by auto).
    by intros old [= <-].
  - specialize (Hold old eq_refl). destruct (Z.eqb_spec (st_max s) old); cbn; split_and!; try (lia || by auto).
  - destruct (_ <? _)%Z; cbn; split_and!; (lia || by auto).
  - destruct (_ =? _)%Z; cbn; split_and!; (lia || by auto).
Qed.

Lemma rec_step_ok ps r r' : recording_ok ps r → rec_step r r' → recording_ok ps r'.
Proof.
  intros Hok Hstep. destruct Hstep as [i c r0 Hi Hpc]. destruct Hok as [Hc Hm Hb Hl Hmax Hsw Hmf Hnf].
  assert (c ∈ calls r0) as Hin by (by eapply list_elem_of_lookup_2).
  destruct (access_extrema c (totals r0)) as (E1 & E2 & E3 & E4 & E5 & E6); [intros old Hold; by apply (Hsw c old)|].
  set (s' := (call_access c (totals r0)).2) in *. set (c' := (call_access c (totals r0)).1) in *.
  assert (map c_latency (<[i := c']> (calls r0)) = map c_latency (calls r0)) as Hlat
    by (by apply (insert_same_map c_latency _ _ c)).
  assert (c_latency c ∈ map c_latency (calls r0)) as Hinl by (by apply list_elem_of_fmap_2).
  constructor; cbn [totals calls].
  - rewrite (insert_same_map _ _ _ c) by done. done.
  - rewrite (sum_over_insert _ _ i c) by done. by apply access_messages.
  - rewrite (sum_over_insert _ _ i c) by done. by apply access_bytes.
  - rewrite (sum_over_insert _ _ i c) by done. by apply access_latency.
  - intros x [->|Hx]%elem_of_insert_or Hp.
    + destruct (E3 Hp) as [Hp'|]; [|done]. apply E2; [done|]. by apply Hmax.
    + specialize (Hmax x Hx Hp). lia.
  - intros x old [->|Hx]%elem_of_insert_or Hp; [by apply E4|by eapply Hsw].
  - rewrite Hlat. destruct E5 as [->| ->]; auto.
  - rewrite Hlat. destruct E6 as [->| ->]; auto.
Qed.

Lemma recording_reachable ps r : rtc rec_step (recording_of ps) r → recording_ok ps r.
Proof. apply rtc_invariant; [apply rec_step_ok|apply recording_of_ok]. Qed.

(** ** Totals and maximum *)

Definition total (l : list Z) : Z := foldr Z.add 0%Z l.

Lemma sum_over_done f g (l : list call) :
  Forall (λ c, f c = g (c_size c, c_latency c)) l →
  sum_over f l = total (map g (map (λ c, (c_size c, c_latency c)) l)).
Proof. induction 1 as [|c l Hc _ IH]; [done|]. cbn. by rewrite Hc, IH. Qed.

(** the statistics of concurrent callbacks. Whatever the interleaving of the atomic
    accesses of the calls of [RecordMessage], the counters are at every instant the sums
    (modulo 2^64) over the calls that have passed the respective addition, the maximum is at
    least the latency of every call that has left its compare-and-swap loop and is one of the
    latencies or the initial 0, and the minimum is a latency or 0. When all calls have
    returned, the number of messages, the bytes and the total latency are exact and the
    maximum is the maximum. *)
Theorem recorded_statistics ps r :
  rtc rec_step (recording_of ps) r → Forall (λ p, (0 <= p.2)%Z) ps →
  let s := totals r in
  st_messages s = uint64 (sum_over seen_message (calls r)) ∧
  (∀ c, c ∈ calls r → past_max c → (c_latency c <= st_max s)%Z) ∧
  (st_max s = 0%Z ∨ st_max s ∈ map snd ps) ∧ (st_min s = 0%Z ∨ st_min s ∈ map snd ps) ∧
  (Forall (λ c, c_pc c = RDone) (calls r) →
   st_messages s = uint64 (len ps) ∧ st_bytes s = uint64 (total (map fst ps)) ∧
   st_latency s = uint64 (total (map snd ps)) ∧ st_max s = foldr Z.max 0%Z (map snd ps)).
Proof.
  intros Hr Hpos. cbv zeta. destruct (recording_reachable ps r Hr) as [Hc Hm Hb Hl Hmax _ Hmf Hnf].
  assert (map c_latency (calls r) = map snd ps) as Hlat by (by rewrite <-Hc, map_map).
  rewrite Hlat in Hmf, Hnf. split_and!; [done..|]. intros Hdone.
  assert (∀ f g, (∀ c, c_pc c = RDone → f c = g (c_size c, c_latency c)) →
    sum_over f (calls r) = total (map g ps)) as Hsum.
  { intros f g Hfg. rewrite <-Hc. apply sum_over_done. eapply Forall_impl; [exact Hdone|]. auto. }
  rewrite Hm, Hb, Hl. split_and!.
  - rewrite (Hsum _ (λ _, 1%Z)) by (intros c Hd; unfold seen_message; by rewrite Hd).
    f_equal. clear. unfold len. induction ps as [|p ps IH]; [done|]. cbn [map total foldr length] in *.
    unfold total in IH. rewrite IH. lia.
  - f_equal. apply Hsum. intros c Hd. unfold seen_bytes. by rewrite Hd.
  - f_equal. apply Hsum. intros c Hd. unfold seen_latency. by rewrite Hd.
  - assert (∀ v, v ∈ map snd ps → (v <= st_max (totals r))%Z) as Hub.
    { rewrite <-Hlat. intros v (c & -> & Hin)%list_elem_of_fmap. apply Hmax; [done|].
      rewrite Forall_forall in Hdone. unfold past_max. by rewrite (Hdone c Hin). }
    assert (∀ v l, v ∈ l → (v <= foldr Z.max 0 l)%Z) as Hge.
    { intros v l. induction l as [|x l IH]; [by intros ?%elem_of_nil|].
      cbn. intros [->|Hin]%elem_of_cons; [lia|]. specialize (IH Hin). lia. }
    assert (∀ m l, (0 <= m)%Z → (∀ v, v ∈ l → (v <= m)%Z) → (foldr Z.max 0 l <= m)%Z) as Hle.
    { intros m l Hm0. induction l as [|x l IH]; intros Hl0; [done|]. cbn.
      apply Z.max_lub; [apply Hl0; left|apply IH; intros v Hv; apply Hl0; by right]. }
    assert (0 <= st_max (totals r))%Z as H0.
    { destruct Hmf as [->|(p & -> & Hp)%list_elem_of_fmap]; [done|]. rewrite Forall_forall in Hpos.
      by apply Hpos. }
    apply Z.le_antisymm; [|by apply Hle].
    destruct Hmf as [->|Hin]; [|by apply Hge]. clear. induction (map snd ps); cbn; lia.
Qed.

(** ** One call alone, and the minimum *)

Definition record_max (latency : Z) (s : Stats) : Stats :=
  if (latency <=? st_max s)%Z then s else set_max latency s.
Definition record_min (latency : Z) (s : Stats) : Stats :=
  if (latency <? st_min s)%Z || (st_min s =? 0)%Z then set_min latency s else s.

(** [RecordMessage] without interference. *)
Definition RecordMessage (size latency : Z) (s : Stats) : Stats :=
  add_latency latency (record_min latency (record_max latency (add_bytes size (add_message s)))).

(** It is what the accesses amount to when no other call comes in between. *)
Lemma RecordMessage_alone size latency s :
  ∃ n, Nat.iter n (λ cs, call_access cs.1 cs.2) (mkCall size latency RMessages, s)
       = (mkCall size latency RDone, RecordMessage size latency s).
Proof.
  set (s1 := add_bytes size (add_message s)). set (s2 := record_max latency s1).
  change (RecordMessage size latency s) with (add_latency latency (record_min latency s2)).
  set (next := λ cs : call * Stats, call_access cs.1 cs.2).
  assert (∃ n, Nat.iter n next (mkCall size latency RMessages, s) = (mkCall size latency RMin, s2)) as [n1 E1].
  { unfold s2, record_max, s1. cbn [st_max add_bytes add_message].
    destruct (latency <=? st_max s)%Z eqn:E; [exists 3%nat|exists 4%nat]; unfold next, call_access;
      cbn; rewrite ?E; cbn; by rewrite ?Z.eqb_refl. }
  clearbody s2.
  assert (∃ n, Nat.iter n next (mkCall size latency RMin, s2) = (mkCall size latency RLatency, record_min latency s2)) as [n2 E2].
  { unfold record_min. destruct (latency <? st_min s2)%Z eqn:E; cbn [orb].
    - exists 2%nat. unfold next, call_access. cbn. by rewrite E.
    - destruct (st_min s2 =? 0)%Z eqn:E'; [exists 3%nat|exists 2%nat]; unfold next, call_access; cbn;
        rewrite E; cbn; by rewrite E'. }
  exists (1 + (n2 + n1))%nat. rewrite !Nat.iter_add, E1, E2. done.
Qed.

(** Calls one after the other. *)
Definition record_all (ps : list (Z * Z)) (s : Stats) : Stats :=
  foldl (λ s p, RecordMessage p.1 p.2 s) s ps.

Lemma RecordMessage_min size latency s :
  (0 < latency)%Z → (0 <= st_min s)%Z →
  st_min (RecordMessage size latency s) = if (st_min s =? 0)%Z then latency else Z.min (st_min s) latency.
Proof.
  intros Hl Hs. unfold RecordMessage, record_min, record_max.
  assert (∀ b, st_min (if b : bool then add_bytes size (add_message s) else set_max latency (add_bytes size (add_message s)))
    = st_min s) as -> by (by intros []).
  destruct (Z.eqb_spec (st_min s) 0) as [->|]; [by rewrite orb_true_r|]. rewrite orb_false_r.
  destruct (Z.ltb_spec latency (st_min s)); cbn [st_min add_latency set_min]; [lia|].
  destruct (_ <=? _)%Z; cbn; lia.
Qed.

(** One after the other the minimum is exact for positive latencies: 0 stands for no sample. *)
Lemma record_all_min p ps s :
  Forall (λ q, (0 < q.2)%Z) (p :: ps) → st_min s = 0%Z →
  st_min (record_all (p :: ps) s) = foldl Z.min p.2 (map snd ps).
Proof.
  intros [Hp Hps]%Forall_cons Hs.
  assert (∀ qs s1, Forall (λ q, (0 < q.2)%Z) qs → (0 < st_min s1)%Z →
    st_min (record_all qs s1) = foldl Z.min (st_min s1) (map snd qs)) as Hrest.
  { intros qs. induction qs as [|q qs IH]; intros s1 Hq Hs1; [done|]. apply Forall_cons in Hq as [Hq Hqs].
    assert (st_min (RecordMessage q.1 q.2 s1) = Z.min (st_min s1) q.2) as E.
    { rewrite RecordMessage_min by lia. by rewrite (proj2 (Z.eqb_neq _ _)) by lia. }
    change (record_all (q :: qs) s1) with (record_all qs (RecordMessage q.1 q.2 s1)).
    rewrite IH by (done || (rewrite E; lia)). by rewrite E. }
  change (record_all (p :: ps) s) with (record_all ps (RecordMessage p.1 p.2 s)).
  assert (st_min (RecordMessage p.1 p.2 s) = p.2) as E.
  { rewrite RecordMessage_min by lia. by rewrite Hs. }
  rewrite Hrest by (done || lia). by rewrite E.
Qed.

(** Two calls at the same time can lose it: both test the empty minimum, the one with the
    larger latency stores last. *)
Definition take_turn (i : nat) (r : recording) : recording :=
  match calls r !! i with
  | Some c => mkRecording (call_access c (totals r)).2 (<[i := (call_access c (totals r)).1]> (calls r))
  | None => r
  end.
Definition turn_enabled (i : nat) (r : recording) : bool :=
  match calls r !! i with Some c => match c_pc c with RDone => false | _ => true end | None => false end.
Fixpoint turns_enabled (ts : list nat) (r : recording) : bool :=
  match ts with [] => true | i :: ts => turn_enabled i r && turns_enabled ts (take_turn i r) end.

Lemma take_turn_step i r : turn_enabled i r = true → rec_step r (take_turn i r).
Proof.
  unfold turn_enabled, take_turn. destruct (calls r !! i) as [c|] eqn:Hi; [|done]. intros Hc.
  apply rec_step_at; [done|]. by destruct (c_pc c).
Qed.

Lemma turns_reachable ts r : turns_enabled ts r = true → rtc rec_step r (foldl (λ r i, take_turn i r) r ts).
Proof.
  revert r. induction ts as [|i ts IH]; intros r; [constructor|]. cbn [turns_enabled foldl].
  intros [H1 H2]%andb_prop. eapply rtc_l; [by apply take_turn_step|by apply IH].
Qed.

Definition racing : list nat := replicate 4 0 ++ replicate 3 1 ++ [0; 0; 1; 1] ++ [1; 1; 0; 0].
Definition raced : recording := foldl (λ r i, take_turn i r) (recording_of [(1, 9); (1, 5)]%Z) racing.

Lemma raced_run : rtc rec_step (recording_of [(1, 9); (1, 5)]%Z) raced.
Proof. apply turns_reachable. by vm_compute. Qed.

Lemma minimum_races :
  rtc rec_step (recording_of [(1, 9); (1, 5)]%Z) raced ∧ Forall (λ c, c_pc c = RDone) (calls raced) ∧
  st_min (totals raced) = 9%Z.
Proof.
  split; [exact raced_run|]. split; [vm_compute; by repeat constructor|by vm_compute].
Qed.

Lemma recorded_statistics_witness :
  st_messages (totals raced) = 2%Z ∧ st_bytes (totals raced) = 2%Z ∧ st_latency (totals raced) = 14%Z ∧
  st_max (totals raced) = 9%Z.
Proof.
  destruct (recorded_statistics [(1, 9); (1, 5)]%Z raced raced_run) as (_ & _ & _ & _ & H).
  - repeat constructor; discriminate.
  - destruct H as (H1 & H2 & H3 & H4); [vm_compute; repeat constructor|].
    split; [exact H1|]. split; [exact H2|]. split; [exact H3|exact H4].
Defined.
