(* ===== verification/PerfTest.v ===== *)
(** * The performance test: scenarios, publisher and subscribers
    ([src/examples/perf_test/main.go])

    What [main] makes of its arguments and environment, the frames and their time stamps, the
    publisher's loop with its counters, and the callback of a subscriber. The statistics the
    callbacks share are in [PerfStats]. *)

From S2P Require Import Prelude GoStrings GoIO Protocol Subject Router Session Server Broker.
From S2P Require Import Reconnect Client ClientLaws System Relay Config PerfStats.

(** ** [strconv.Atoi] *)

Fixpoint decimal (s : gostring) (acc : Z) : option Z :=
  match s with
  | [] => Some acc
  | b :: s =>
      let v := byte_val b in
      if (48 <=? v)%Z && (v <=? 57)%Z then decimal s (acc * 10 + (v - 48)) else None
  end.

(** [None]: a syntax or a range error. *)
Definition Atoi (s : gostring) : option Z :=
  let '(negative, digits) :=
    match s with
    | b :: t => if decide (b = Byte.x2d) then (true, t) else if decide (b = Byte.x2b) then (false, t) else (false, s)
    | [] => (false, s)
    end in
  if decide (digits = []) then None
  else match decimal digits 0 with
       | Some n => let v := if negative then (- n)%Z else n in if (int64 v =? v)%Z then Some v else None
       | None => None
       end.

(** ** Scenarios *)

Record TestScenario := mkScenario {
  MessageSize : Z;
  MessageRate : Z;
  SubscriberCount : Z;
  Duration : Z;
}.

Definition millisecond : Z := 1000000.

Definition scenario_named (scenario : gostring) : option TestScenario :=
  if decide (scenario = str "small") then Some (mkScenario 1024 millisecond 1 (10 * second))
  else if decide (scenario = str "medium") then Some (mkScenario (10 * 1024) (10 * millisecond) 1 (10 * second))
  else if decide (scenario = str "large") then Some (mkScenario (100 * 1024) (33 * millisecond) 1 (10 * second))
  else if decide (scenario = str "h264-720p") then Some (mkScenario (50 * 1024) (33 * millisecond) 5 (30 * second))
  else if decide (scenario = str "h264-1080p") then Some (mkScenario (150 * 1024) (33 * millisecond) 10 (30 * second))
  else if decide (scenario = str "stress") then Some (mkScenario (50 * 1024) (10 * millisecond) 50 (20 * second))
  else None.

(** The optional third argument. *)
Definition override_count (arg : option gostring) (config : TestScenario) : TestScenario :=
  match arg ≫= Atoi with
  | Some count =>
      if (0 <? count)%Z then mkScenario (MessageSize config) (MessageRate config) count (Duration config)
      else config
  | None => config
  end.

Inductive perf_exit := Usage | UnknownScenario | PerfKey (e : key_error).

(** [main], and [runPerformanceTest] up to the key; [args] is [os.Args]. *)
Definition perf_main (e : system_env) (args : list gostring) :
    (TestScenario * gostring * list byte) + perf_exit :=
  match args with
  | _ :: scenario :: rest =>
      match scenario_named scenario with
      | None => inr UnknownScenario
      | Some config =>
          let config := override_count (head rest) config in
          let addr := getenv_or e "KCP_NATS_ADDR" (str "localhost:4000") in
          match startup_key [] (Getenv e (str "KCPQ_AES256_KEY_HEX")) with
          | inl key => inl (config, addr, key)
          | inr err => inr (PerfKey err)
          end
      end
  | _ => inr Usage
  end.

(** ** Frames *)

(** [frame[i] = b] *)
Definition store_byte (i : Z) (b : byte) (frame : list byte) : outcome (list byte) :=
  guard! ((0 <=? i)%Z && (i <? len frame)%Z); Ret (<[Z.to_nat i := b]> frame).

(** The loop from index [i], with [n] indices to go. *)
Fixpoint fill_frame (n : nat) (i : Z) (frame : list byte) : outcome (list byte) :=
  match n with
  | O => Ret frame
  | S n => do frame ← store_byte i (byte_of (Z.rem i 256)) frame; fill_frame n (i + 1) frame
  end.

Definition generateH264Frame (size frameNum : Z) : outcome (list byte) :=
  guard! (0 <=? size)%Z;
  do frame ← store_byte 0 Byte.x00 (replicate (Z.to_nat size) Byte.x00);
  do frame ← store_byte 1 Byte.x00 frame;
  do frame ← store_byte 2 Byte.x00 frame;
  do frame ← store_byte 3 Byte.x01 frame;
  do frame ← (if (Z.rem frameNum 30 =? 0)%Z
              then do frame ← store_byte 4 Byte.x67 frame; store_byte 5 Byte.x42 frame
              else store_byte 4 Byte.x41 frame);
  fill_frame (Z.to_nat (size - 6)) 6 frame.

(** ** The publisher *)

Definition video_subject : gostring := str "video.stream".

Record publisher := mkPublisher {
  frameNum : Z;
  pub_client : Client;
  pub_errors : Stats;            (** the shared [stats], of which it counts the errors *)
  PublishedCount : Z;
  PublishedBytes : Z;
}.

(** One tick of [startPublishing]: the clock and the outcome of the write. *)
Definition publish_tick (config : TestScenario) (p : publisher) (tick : Z * bool) : outcome publisher :=
  let n := int64 (frameNum p + 1) in
  do frame ← generateH264Frame (MessageSize config) n;
  let message := PutUint64 (uint64 tick.1) ++ frame in
  match Publish false tick.2 video_subject message (pub_client p) with
  | (Some _, cli) => Ret (mkPublisher n cli (RecordError (pub_errors p)) (PublishedCount p) (PublishedBytes p))
  | (None, cli) =>
      Ret (mkPublisher n cli (pub_errors p) (uint64 (PublishedCount p + 1))
             (uint64 (PublishedBytes p + len message)))
  end.

Fixpoint startPublishing (config : TestScenario) (ticks : list (Z * bool)) (p : publisher) : outcome publisher :=
  match ticks with
  | [] => Ret p
  | t :: ticks => do p ← publish_tick config p t; startPublishing config ticks p
  end.

Definition new_publisher (cli : Client) : publisher := mkPublisher 0 cli no_stats 0 0.

(** ** A subscriber *)

(** The callback at clock [now], up to its call of [RecordMessage]: the size and the latency
    it records. *)
Definition video_callback (now : Z) (data : slice) : outcome (Z * Z) :=
  do stamp ← sslice data 0 8;
  do u ← Uint64 stamp;
  let timestamp := int64 u in
  Ret (uint64 (len (elems data)), uint64 (int64 (now - timestamp))).

(** ** The frames in closed form *)

Definition frame_header (frameNum : Z) : list byte :=
  [Byte.x00; Byte.x00; Byte.x00; Byte.x01] ++
  (if (Z.rem frameNum 30 =? 0)%Z then [Byte.x67; Byte.x42] else [Byte.x41; Byte.x00]).
Definition video_data (n : nat) : list byte := map (λ k, byte_of (Z.of_nat k)) (seq 6 n).
Definition h264_frame (size frameNum : Z) : list byte := frame_header frameNum ++ video_data (Z.to_nat (size - 6)).

Lemma frame_header_length n : length (frame_header n) = 6%nat.
Proof. unfold frame_header. by destruct (_ =? _)%Z. Qed.

Lemma h264_frame_len size n : (6 <= size)%Z → len (h264_frame size n) = size.
Proof.
  intros H. unfold h264_frame, video_data. rewrite len_app. unfold len.
  rewrite frame_header_length, length_map, length_seq. lia.
Qed.

Lemma store_byte_at i b l : (0 <= i < len l)%Z → store_byte i b l = Ret (<[Z.to_nat i := b]> l).
Proof.
  intros H. unfold store_byte. rewrite (proj2 (Z.leb_le _ _)), (proj2 (Z.ltb_lt _ _)) by lia. done.
Qed.
Lemma store_byte_panics i b l : (len l <= i)%Z → store_byte i b l = Panic.
Proof. intros H. unfold store_byte. rewrite (proj2 (Z.ltb_ge _ _)) by lia. by rewrite andb_false_r. Qed.

(** The loop turns the zeros from its index on into the ramp. *)
Lemma fill_frame_ramp n pre :
  fill_frame n (len pre) (pre ++ replicate n Byte.x00)
  = Ret (pre ++ map (λ k, byte_of (Z.of_nat k)) (seq (length pre) n)).
Proof.
  revert pre. induction n as [|n IH]; intros pre; [done|]. cbn [fill_frame].
  rewrite store_byte_at by (rewrite len_app, len_replicate; pose proof (len_nonneg pre); lia).
  cbn [obind]. replace (Z.to_nat (len pre)) with (length pre) by (unfold len; lia).
  rewrite insert_app_r_alt, Nat.sub_diag by done. cbn [replicate insert list_insert].
  change (pre ++ ?b :: ?l) with (pre ++ [b] ++ l). rewrite app_assoc.
  replace (len pre + 1)%Z with (len (pre ++ [byte_of (Z.rem (len pre) 256)])) by (rewrite len_app; done).
  rewrite IH. f_equal. rewrite <-app_assoc. cbn [app seq map]. rewrite length_app, Nat.add_1_r. f_equal.
  f_equal.
  apply byte_val_inj. rewrite !byte_val_of. unfold len. rewrite Z.rem_mod_nonneg by lia. by rewrite Z.mod_mod.
Qed.

Lemma generateH264Frame_spec size n :
  generateH264Frame size n =
    if (6 <=? size)%Z then Ret (h264_frame size n)
    else if (size =? 5)%Z && negb (Z.rem n 30 =? 0)%Z then Ret (take 5 (frame_header n)) else Panic.
Proof.
  unfold generateH264Frame. destruct (Z.leb_spec 6 size) as [H|H].
  - rewrite (proj2 (Z.leb_le _ _)) by lia.
    replace (Z.to_nat size) with (6 + Z.to_nat (size - 6))%nat by lia. unfold h264_frame, video_data.
    set (k := Z.to_nat (size - 6)). cbn [replicate Nat.add].
    unfold frame_header.
    repeat (rewrite store_byte_at by (unfold len; rewrite ?length_insert; cbn [length]; lia); cbn [obind]).
    destruct (_ =? 0)%Z;
      repeat (rewrite store_byte_at by (unfold len; rewrite ?length_insert; cbn [length]; lia); cbn [obind]);
      [apply (fill_frame_ramp k [Byte.x00; Byte.x00; Byte.x00; Byte.x01; Byte.x67; Byte.x42])
      |apply (fill_frame_ramp k [Byte.x00; Byte.x00; Byte.x00; Byte.x01; Byte.x41; Byte.x00])].
  - destruct (Z.leb_spec 0 size); [|by rewrite (proj2 (Z.eqb_neq _ _)) by lia].
    assert (size = 0 ∨ size = 1 ∨ size = 2 ∨ size = 3 ∨ size = 4 ∨ size = 5)%Z as Hs by lia.
    unfold frame_header. destruct Hs as [->|[->|[->|[->|[->| ->]]]]];
      by destruct (Z.rem n 30 =? 0)%Z.
Qed.

(** ** What the table and the arguments give *)

Definition scenario_ok (config : TestScenario) : Prop :=
  (6 <= MessageSize config)%Z ∧ (MessageSize config <= 150 * 1024)%Z ∧ (0 < SubscriberCount config)%Z ∧
  (0 < MessageRate config)%Z.

Lemma scenario_named_ok scenario config : scenario_named scenario = Some config → scenario_ok config.
Proof. unfold scenario_named, scenario_ok. repeat case_decide; intros [= <-]; by vm_compute. Qed.

Lemma override_count_ok arg config :
  scenario_ok config → scenario_ok (override_count arg config) ∧
  MessageSize (override_count arg config) = MessageSize config.
Proof.
  intros Hc. unfold override_count. destruct (arg ≫= Atoi) as [n|]; [|done].
  destruct (Z.ltb_spec 0 n); [|done]. destruct Hc as (? & ? & ? & ?). split; [by split_and!|done].
Qed.

Lemma perf_main_ok e args config addr key :
  perf_main e args = inl (config, addr, key) → scenario_ok config ∧ len key = 32%Z.
Proof.
  unfold perf_main. destruct args as [|a0 [|sc rest]]; [done..|].
  destruct (scenario_named sc) as [c|] eqn:Hc; [|done].
  destruct (startup_key _ _) as [k|err] eqn:Hk; [|done]. intros [= <- _ <-].
  apply startup_key_spells in Hk as [Hl _]. split; [|done].
  by apply override_count_ok, (scenario_named_ok sc).
Qed.

(** ** The messages *)

Definition video_message (config : TestScenario) (n now : Z) : list byte :=
  PutUint64 (uint64 now) ++ h264_frame (MessageSize config) n.
Definition video_frame (config : TestScenario) (n now : Z) : list byte :=
  Encode (NewMessageCmd CmdPub video_subject (video_message config n now)).

Lemma video_message_len config n now :
  scenario_ok config → len (video_message config n now) = (8 + MessageSize config)%Z.
Proof. intros (Hs & _). unfold video_message. rewrite len_app, h264_frame_len by done. done. Qed.

Lemma video_message_wire config n now cmd :
  scenario_ok config → wire_ok (NewMessageCmd cmd video_subject (video_message config n now)).
Proof.
  intros Hc. pose proof (video_message_len config n now Hc) as Hl. destruct Hc as (_ & Hs & _).
  unfold wire_ok, body_len. cbn [Protocol.Subject Payload NewMessageCmd]. rewrite Hl.
  change (len video_subject) with 12%Z. unfold MaxSubjectLen, MaxBodyLen. lia.
Qed.

Lemma uint64_int64 v : uint64 (int64 v) = uint64 v.
Proof. unfold uint64, int64. rewrite Zminus_mod_idemp_l. f_equal. lia. Qed.
Lemma uint64_sub a b b' : uint64 b = uint64 b' → uint64 (a - b) = uint64 (a - b').
Proof. unfold uint64. intros E. by rewrite <-(Zminus_mod_idemp_r a b), E, Zminus_mod_idemp_r. Qed.

(** The callback takes the stamp off any message of the publisher. *)
Lemma video_callback_latency config n now now2 sp :
  scenario_ok config →
  video_callback now2 (mk_slice (video_message config n now) sp)
  = Ret ((8 + MessageSize config)%Z, uint64 (now2 - now)).
Proof.
  intros Hc. pose proof (video_message_len config n now Hc) as Hl. unfold video_callback.
  rewrite sslice_within by (cbn [elems]; rewrite Hl; destruct Hc; lia). cbn [obind elems].
  replace (take _ _) with (PutUint64 (uint64 now) ++ []) by done.
  rewrite Uint64_Put. cbn [obind elems]. rewrite Hl. f_equal. f_equal.
  - unfold uint64. apply Z.mod_small. destruct Hc as (? & ? & _). lia.
  - rewrite uint64_int64. apply uint64_sub. rewrite uint64_int64. unfold uint64. by rewrite !Z.mod_mod.
Qed.

(** ** The publisher's run *)

(** The messages of the ticks whose write succeeds, each with its own frame number. *)
Fixpoint sent_messages (config : TestScenario) (n : Z) (ticks : list (Z * bool)) : list (list byte) :=
  match ticks with
  | [] => []
  | (now, ok) :: ticks =>
      (if ok then [video_message config (n + 1) now] else []) ++ sent_messages config (n + 1) ticks
  end.
Definition failures (ticks : list (Z * bool)) : list (Z * bool) := filter (λ t, t.2 = false) ticks.

Lemma publish_tick_run config p l now ok :
  scenario_ok config → conn (pub_client p) = Some l → (- 2 ^ 63 <= frameNum p + 1 < 2 ^ 63)%Z →
  ∃ cli, publish_tick config p (now, ok) =
    Ret (if ok then mkPublisher (frameNum p + 1) cli (pub_errors p) (uint64 (PublishedCount p + 1))
                      (uint64 (PublishedBytes p + (8 + MessageSize config)))
         else mkPublisher (frameNum p + 1) cli (RecordError (pub_errors p)) (PublishedCount p) (PublishedBytes p)) ∧
    conn cli = Some (l ++ (if ok then [video_frame config (frameNum p + 1) now] else [])).
Proof.
  intros Hc Hl Hn. unfold publish_tick. rewrite int64_small by done.
  rewrite generateH264Frame_spec, (proj2 (Z.leb_le _ _)) by apply Hc. cbn [obind fst snd].
  fold (video_message config (frameNum p + 1) now). rewrite video_message_len by done. destruct ok.
  - rewrite (Publish_written _ _ _ l) by (done || by apply video_message_wire). eexists.
    split; [reflexivity|]. done.
  - destruct (video_message_wire config (frameNum p + 1) now CmdPub Hc) as [H1 H2].
    unfold Publish. unfold body_len in H2. cbn [Protocol.Subject Payload NewMessageCmd] in H1, H2.
    rewrite (proj2 (Z.ltb_ge _ _)), (proj2 (Z.ltb_ge _ _)), Hl by done. eexists. split; [reflexivity|].
    by rewrite app_nil_r.
Qed.

Lemma sent_messages_sizes config n ticks :
  scenario_ok config → Forall (λ m, len m = (8 + MessageSize config)%Z) (sent_messages config n ticks).
Proof.
  intros Hc. revert n. induction ticks as [|[now ok] ticks IH]; intros n; [constructor|]. cbn.
  destruct ok; [|apply IH]. constructor; [by apply video_message_len|apply IH].
Qed.

Definition pub_frame_of (m : list byte) : list byte := Encode (NewMessageCmd CmdPub video_subject m).

Lemma startPublishing_run config ticks p l a b e :
  scenario_ok config → conn (pub_client p) = Some l → (- 2 ^ 63 <= frameNum p)%Z →
  (frameNum p + len ticks < 2 ^ 63)%Z →
  PublishedCount p = uint64 a → PublishedBytes p = uint64 b → st_errors (pub_errors p) = uint64 e →
  let sent := sent_messages config (frameNum p) ticks in
  ∃ q, startPublishing config ticks p = Ret q ∧
    frameNum q = (frameNum p + len ticks)%Z ∧ conn (pub_client q) = Some (l ++ map pub_frame_of sent) ∧
    PublishedCount q = uint64 (a + len sent) ∧ PublishedBytes q = uint64 (b + total_len sent) ∧
    st_errors (pub_errors q) = uint64 (e + len (failures ticks)).
Proof.
  intros Hc. cbv zeta. revert p l a b e.
  induction ticks as [|[now ok] ticks IH]; intros p l a b e Hl Hlo Hhi Ha Hb He.
  - exists p. cbn. rewrite app_nil_r, !Z.add_0_r. done.
  - rewrite len_cons in *.
    destruct (publish_tick_run config p l now ok) as (cli & E & Hcli);
      [done..|pose proof (len_nonneg ticks); lia|].
    cbn [startPublishing]. rewrite E. cbn [obind].
    set (p1 := if ok then _ else _) in *.
    assert (frameNum p1 = frameNum p + 1 ∧ pub_client p1 = cli)%Z as [Hn1 Hc1] by (by destruct ok).
    destruct (IH p1 _ (a + if ok then 1 else 0)%Z (b + if ok then 8 + MessageSize config else 0)%Z
                (e + if ok then 0 else 1)%Z (eq_trans (f_equal conn Hc1) Hcli))
      as (q & Hq & H1 & H2 & H3 & H4 & H5).
    1, 2: rewrite Hn1; lia.
    1, 2, 3: unfold p1; destruct ok; cbn; rewrite ?Ha, ?Hb, ?He, ?Z.add_0_r; by rewrite ?uint64_add.
    exists q. rewrite Hn1 in H1, H2, H3, H4. split_and!; [done|lia|..]; cbn [sent_messages].
    + rewrite H2, <-app_assoc. f_equal. f_equal. rewrite map_app. f_equal. by destruct ok.
    + rewrite H3, len_app. f_equal. destruct ok; unfold len; cbn [length]; lia.
    + rewrite H4, total_len_app. f_equal.
      destruct ok; cbn [total_len foldr]; rewrite ?video_message_len by done; lia.
    + rewrite H5. f_equal. unfold failures.
      destruct ok; [rewrite filter_cons_False by done|rewrite filter_cons_True, len_cons by done]; lia.
Qed.

Lemma sent_messages_count config n ticks :
  (len (sent_messages config n ticks) + len (failures ticks) = len ticks)%Z.
Proof.
  revert n. induction ticks as [|[now ok] ticks IH]; intros n; [done|]. specialize (IH (n + 1)%Z).
  cbn [sent_messages]. unfold failures in *. rewrite len_app. destruct ok.
  - rewrite filter_cons_False by done. unfold len in *. cbn [length]. lia.
  - rewrite filter_cons_True by done. unfold len in *. cbn [length]. lia.
Qed.

Lemma sent_messages_at config n ticks i now :
  ticks !! i = Some (now, true) → video_message config (n + Z.of_nat i + 1) now ∈ sent_messages config n ticks.
Proof.
  revert n i. induction ticks as [|[t ok] ticks IH]; intros n [|i] Hi; simplify_eq/=.
  - rewrite Z.add_0_r. set_solver.
  - apply elem_of_app. right. replace (n + Z.of_nat (S i) + 1)%Z with (n + 1 + Z.of_nat i + 1)%Z by lia.
    by apply IH.
Qed.

Lemma total_len_same m l : Forall (λ x, len x = m) l → total_len l = (m * len l)%Z.
Proof. induction 1 as [|x l Hx _ IH]; [unfold len; cbn; lia|]. cbn [total_len foldr].
fold (total_len l). rewrite IH, len_cons. lia. Qed.

(** The performance test measures what it says. Whatever scenario, subscriber count and
    key [main] accepts, the publisher on a connected client never panics and never sends a
    message the protocol refuses; of its ticks, each is counted as published or as an error,
    exactly the published ones are written, in order, as PUB frames with the byte total
    reported; and the callback of any subscriber, given such a message as it comes out of a
    MSG frame delivered in any chunks, records its size and, modulo 2^64, the time between
    the tick and the callback, whatever the two clock readings are. *)
Theorem performance_test_accounts e args config addr key cli l ticks :
  perf_main e args = inl (config, addr, key) → conn cli = Some l → (len ticks < 2 ^ 63)%Z →
  let sent := sent_messages config 0 ticks in
  (∃ q, startPublishing config ticks (new_publisher cli) = Ret q ∧
     frameNum q = len ticks ∧ (len sent + len (failures ticks) = len ticks)%Z ∧
     conn (pub_client q) = Some (l ++ map pub_frame_of sent) ∧
     PublishedCount q = uint64 (len sent) ∧
     PublishedBytes q = uint64 ((8 + MessageSize config) * len sent) ∧
     st_errors (pub_errors q) = uint64 (len (failures ticks))) ∧
  (∀ i now, ticks !! i = Some (now, true) →
     let m := video_message config (Z.of_nat i + 1) now in
     m ∈ sent ∧
     (∀ r rest sub, stream r = Encode (NewMessageCmd CmdMsg video_subject m) ++ rest →
        ∃ r', receive_read r sub = Ret (handleMessage (NewMessageCmd CmdMsg video_subject m) sub, r', LoopTop)) ∧
     (∀ now2 sp, video_callback now2 (mk_slice m sp) = Ret ((8 + MessageSize config)%Z, uint64 (now2 - now)))).
Proof.
  intros [Hc _]%perf_main_ok Hl Hn. cbv zeta. split.
  - destruct (startPublishing_run config ticks (new_publisher cli) l 0 0 0 Hc Hl) as (q & Hq & H1 & H2 & H3 & H4 & H5);
      [done..|].
    cbn [frameNum new_publisher] in *. rewrite !Z.add_0_l in *.
    exists q. split_and!; try done; [apply sent_messages_count|].
    rewrite H4. f_equal. apply total_len_same. by apply sent_messages_sizes.
  - intros i now Hi. split_and!.
    + apply (sent_messages_at config 0) in Hi. by rewrite Z.add_0_l in Hi.
    + intros r rest sub Hr.
      destruct (receive_read_frame _ r rest sub (video_message_wire config _ now CmdMsg Hc) Hr) as (r' & H & _).
      by exists r'.
    + intros now2 sp. by apply video_callback_latency.
Qed.

Definition perf_env : system_env :=
  mkEnv (λ v, if decide (v = str "KCPQ_AES256_KEY_HEX") then mixed_case else []) (λ _, false) (λ _, None).

Lemma performance_test_accounts_witness :
  ∃ q, startPublishing (mkScenario 1024 millisecond 7 (10 * second)) [(5, true); (6, false)]%Z (new_publisher new_client)
       = Ret q ∧ frameNum q = 2%Z ∧ PublishedBytes q = 1032%Z ∧ st_errors (pub_errors q) = 1%Z.
Proof.
  destruct (performance_test_accounts perf_env [str "perf_test"; str "small"; str "7"]
              (mkScenario 1024 millisecond 7 (10 * second)) (str "localhost:4000") (replicate 32 Byte.xab)
              new_client [] [(5, true); (6, false)]%Z)
    as [(q & Hq & H1 & _ & _ & _ & H3 & H4) _]; [vm_compute; reflexivity|reflexivity|reflexivity|].
  exists q. split; [exact Hq|]. split; [exact H1|]. split; [exact H3|exact H4].
Defined.
