(* ===== verification/PingPong.v ===== *)
(** * The ping-pong test ([src/examples/ping_pong/main.go], [src/examples/ping_server/main.go])

    A client that publishes numbered pings and waits for each reply, a server that echoes them
    on the subject it derives from the request's, and the statistics printed at the end. *)

From S2P Require Import Prelude GoStrings GoIO Protocol Subject Router Session Server Broker.
From S2P Require Import Reconnect Client ClientLaws System Relay PerfStats.
From Stdlib Require Import Sorted.

(** ** The statistics *)

(** [if sorted[i] > sorted[j] { sorted[i], sorted[j] = sorted[j], sorted[i] }] *)
Definition exchange (i j : nat) (l : list Z) : outcome (list Z) :=
  match l !! i, l !! j with
  | Some a, Some b => Ret (if (b <? a)%Z then <[j := a]> (<[i := b]> l) else l)
  | _, _ => Panic
  end.

(** The inner loop from [j] on, [n] turns, and the outer loop from [i] on. *)
Fixpoint exchange_row (n i j : nat) (l : list Z) : outcome (list Z) :=
  match n with O => Ret l | S n => do l ← exchange i j l; exchange_row n i (S j) l end.
Fixpoint exchange_rows (n i : nat) (l : list Z) : outcome (list Z) :=
  match n with
  | O => Ret l
  | S n => do l ← exchange_row (length l - S i) i (S i) l; exchange_rows n (S i) l
  end.
Definition sort_results (l : list Z) : outcome (list Z) := exchange_rows (length l) 0 l.

Definition percentile (p : Z) (sorted : list Z) : outcome Z :=
  let i := Z.quot (len sorted * p) 100 in
  if decide (0 <= i)%Z then match sorted !! Z.to_nat i with Some v => Ret v | None => Panic end else Panic.

Record ping_report := mkReport { r_min : Z; r_max : Z; r_avg : Z; r_p50 : Z; r_p95 : Z; r_p99 : Z }.

(** [printStats]: what it prints of the round trips; [None]: no responses. *)
Definition printStats (results : list Z) : outcome (option ping_report) :=
  match results with
  | [] => Ret None
  | r0 :: _ =>
      let sum := foldl (λ s r, int64 (s + r)) 0%Z results in
      let min := foldl (λ m r, if (r <? m)%Z then r else m) r0 results in
      let max := foldl (λ m r, if (m <? r)%Z then r else m) r0 results in
      let avg := int64 (Z.quot sum (len results)) in
      do sorted ← sort_results results;
      do p50 ← percentile 50 sorted;
      do p95 ← percentile 95 sorted;
      do p99 ← percentile 99 sorted;
      Ret (Some (mkReport min max avg p50 p95 p99))
  end.

Example printStats_three : printStats [30; 10; 20]%Z = Ret (Some (mkReport 10 30 20 20 30 30)).
Proof. reflexivity. Qed.

(** ** Sorting by exchanges *)

(** A row moves the least element to the front and keeps the rest in some order. *)
Fixpoint row (x : Z) (l : list Z) : Z * list Z :=
  match l with
  | [] => (x, [])
  | y :: l =>
      if (y <? x)%Z then let r := row y l in (r.1, x :: r.2) else let r := row x l in (r.1, y :: r.2)
  end.
Fixpoint rows (n : nat) (l : list Z) : list Z :=
  match n, l with
  | S n, x :: l => (row x l).1 :: rows n (row x l).2
  | _, _ => []
  end.

Lemma row_length x l : length (row x l).2 = length l.
Proof. revert x. induction l as [|y l IH]; intros x; [done|]. cbn. case_match; cbn; by rewrite IH. Qed.

Lemma row_perm x l : (row x l).1 :: (row x l).2 ≡ₚ x :: l.
Proof.
  revert x. induction l as [|y l IH]; intros x; [done|]. cbn. case_match; cbn.
  - etrans; [apply Permutation_swap|]. by rewrite (IH y).
  - etrans; [apply Permutation_swap|]. rewrite (IH x). apply Permutation_swap.
Qed.

Lemma row_least x l : ((row x l).1 <= x)%Z ∧ Forall (λ y, ((row x l).1 <= y)%Z) (row x l).2.
Proof.
  revert x. induction l as [|y l IH]; intros x; [by cbn|]. cbn. destruct (Z.ltb_spec y x); cbn.
  - destruct (IH y) as [H1 H2]. split; [lia|]. constructor; [lia|done].
  - destruct (IH x) as [H1 H2]. split; [done|]. constructor; [lia|done].
Qed.

Lemma rows_perm n l : length l = n → rows n l ≡ₚ l.
Proof.
  revert l. induction n as [|n IH]; intros [|x l] Hl; try done. injection Hl as Hl. cbn [rows].
  rewrite IH by (by rewrite row_length). apply row_perm.
Qed.

Lemma rows_sorted n l : length l = n → StronglySorted Z.le (rows n l).
Proof.
  revert l. induction n as [|n IH]; intros [|x l] Hl; try done; [constructor|]. injection Hl as Hl.
  cbn [rows].
  constructor; [apply IH; by rewrite row_length|].
  rewrite (rows_perm n (row x l).2) by (by rewrite row_length). apply row_least.
Qed.

Lemma insert_here {A} (pre l : list A) x y : <[length pre := y]> (pre ++ x :: l) = pre ++ y :: l.
Proof. by rewrite insert_app_r_alt, Nat.sub_diag by done. Qed.

(** The loops on indices do that. *)
Lemma exchange_row_spec pre x mid l :
  exchange_row (length l) (length pre) (length pre + S (length mid)) (pre ++ x :: mid ++ l)
  = Ret (pre ++ (row x l).1 :: mid ++ (row x l).2).
Proof.
  revert x mid. induction l as [|y l IH]; intros x mid; [done|]. cbn [length exchange_row].
  assert ((pre ++ x :: mid ++ y :: l) !! length pre = Some x) as Hi by (by apply list_lookup_middle).
  assert ((pre ++ x :: mid ++ y :: l) !! (length pre + S (length mid))%nat = Some y) as Hj.
  { rewrite lookup_app_r by lia. replace (_ - _)%nat with (S (length mid)) by lia. cbn.
    by apply list_lookup_middle. }
  unfold exchange. rewrite Hi, Hj. cbn [obind row].
  replace (S (length pre + S (length mid))) with (length pre + S (length (mid ++ [if (y <? x)%Z then x else y])))%nat
    by (rewrite length_app; cbn; lia).
  destruct (y <? x)%Z; cbn [fst snd].
  - rewrite insert_here.
    replace (length pre + S (length mid))%nat with (length (pre ++ y :: mid)) by (by rewrite length_app).
    replace (pre ++ y :: mid ++ y :: l) with ((pre ++ y :: mid) ++ y :: l) by (by rewrite <-app_assoc).
    rewrite insert_here, <-app_assoc.
    specialize (IH y (mid ++ [x])). rewrite <-!app_assoc in IH. exact IH.
  - specialize (IH x (mid ++ [y])). rewrite <-!app_assoc in IH. exact IH.
Qed.

Lemma exchange_rows_spec pre l :
  exchange_rows (length l) (length pre) (pre ++ l) = Ret (pre ++ rows (length l) l).
Proof.
  remember (length l) as n eqn:Hn. revert pre l Hn.
  induction n as [|n IH]; intros pre [|x l] Hn; try done. injection Hn as Hn. cbn [exchange_rows].
  replace (length (pre ++ x :: l) - S (length pre))%nat with (length l) by (rewrite length_app; cbn; lia).
  pose proof (exchange_row_spec pre x [] l) as E. cbn [length app] in E.
  rewrite Nat.add_1_r in E. rewrite E. cbn [obind rows].
  specialize (IH (pre ++ [(row x l).1]) (row x l).2). rewrite row_length, length_app, <-!app_assoc in IH.
  rewrite Nat.add_1_r in IH. by apply IH.
Qed.

Lemma sort_results_spec l :
  ∃ s, sort_results l = Ret s ∧ s ≡ₚ l ∧ StronglySorted Z.le s.
Proof.
  exists (rows (length l) l). split_and!; [apply (exchange_rows_spec [] l)|by apply rows_perm|by apply rows_sorted].
Qed.

(** ** What is printed *)

Lemma sorted_at s i j a b :
  StronglySorted Z.le s → (i <= j)%nat → s !! i = Some a → s !! j = Some b → (a <= b)%Z.
Proof.
  intros Hs. revert i j. induction Hs as [|x s _ IH Hx]; intros [|i] [|j] Hij Hi Hj; try (done || lia);
    cbn [lookup list_lookup] in *.
  - simplify_eq. lia.
  - injection Hi as <-. rewrite Forall_forall in Hx. apply Hx. by eapply list_elem_of_lookup_2.
  - apply (IH i j); [lia|done|done].
Qed.

Lemma percentile_at p s :
  (0 <= p < 100)%Z → s ≠ [] →
  ∃ v, percentile p s = Ret v ∧ s !! Z.to_nat (len s * p / 100) = Some v ∧
    (Z.to_nat (len s * p / 100) < length s)%nat.
Proof.
  intros Hp Hs. unfold percentile. pose proof (len_nonneg s).
  assert (0 < len s)%Z as Hl by (destruct s; [done|]; unfold len; cbn; lia).
  rewrite Z.quot_div_nonneg by lia. assert (0 <= len s * p / 100 < len s)%Z as Hi.
  { split; [apply Z.div_pos; lia|]. apply Z.div_lt_upper_bound; nia. }
  assert (Z.to_nat (len s * p / 100) < length s)%nat as Hlt by (unfold len in *; lia).
  rewrite decide_True by lia. destruct (lookup_lt_is_Some_2 s _ Hlt) as [v Hv].
  exists v. by rewrite Hv.
Qed.

(** The two loops find the extremes. *)
Definition least_of (m : Z) (l : list Z) : Prop := m ∈ l ∧ ∀ x, x ∈ l → (m <= x)%Z.
Definition greatest_of (m : Z) (l : list Z) : Prop := m ∈ l ∧ ∀ x, x ∈ l → (x <= m)%Z.

Lemma min_loop r0 l : least_of (foldl (λ m r, if (r <? m)%Z then r else m) r0 l) (r0 :: l).
Proof.
  revert r0. induction l as [|r l IH]; intros r0.
  - split; [left|]. intros x ->%list_elem_of_singleton. done.
  - cbn [foldl]. destruct (IH (if (r <? r0)%Z then r else r0)) as [Hin Hle].
    set (m := foldl _ _ l) in *. assert (m <= if (r <? r0)%Z then r else r0)%Z as Hm by (apply Hle; left).
    split.
    + apply elem_of_cons in Hin as [->|Hin]; [destruct (r <? r0)%Z; set_solver|set_solver].
    + intros x. rewrite !elem_of_cons. destruct (Z.ltb_spec r r0).
      * intros [->|[->|Hx]]; [lia|done|apply Hle; by right].
      * intros [->|[->|Hx]]; [done|lia|apply Hle; by right].
Qed.

Lemma max_loop r0 l : greatest_of (foldl (λ m r, if (m <? r)%Z then r else m) r0 l) (r0 :: l).
Proof.
  revert r0. induction l as [|r l IH]; intros r0.
  - split; [left|]. intros x ->%list_elem_of_singleton. done.
  - cbn [foldl]. destruct (IH (if (r0 <? r)%Z then r else r0)) as [Hin Hle].
    set (m := foldl _ _ l) in *. assert ((if (r0 <? r)%Z then r else r0) <= m)%Z as Hm by (apply Hle; left).
    split.
    + apply elem_of_cons in Hin as [->|Hin]; [destruct (r0 <? r)%Z; set_solver|set_solver].
    + intros x. rewrite !elem_of_cons. destruct (Z.ltb_spec r0 r).
      * intros [->|[->|Hx]]; [lia|done|apply Hle; by right].
      * intros [->|[->|Hx]]; [done|lia|apply Hle; by right].
Qed.

(** They are the ends of the sorted list. *)
Lemma sorted_ends s l m M :
  s ≡ₚ l → StronglySorted Z.le s → least_of m l → greatest_of M l →
  s !! 0%nat = Some m ∧ s !! pred (length s) = Some M.
Proof.
  intros Hp Hs [Hm Hle] [HM Hge]. rewrite <-Hp in Hm, HM.
  apply list_elem_of_lookup in Hm as [i Hi]. apply list_elem_of_lookup in HM as [j Hj].
  pose proof (lookup_lt_Some _ _ _ Hi). pose proof (lookup_lt_Some _ _ _ Hj).
  destruct (lookup_lt_is_Some_2 s 0) as [a Ha]; [lia|].
  destruct (lookup_lt_is_Some_2 s (pred (length s))) as [b Hb]; [lia|].
  assert (a <= m)%Z by (apply (sorted_at s 0 i); [done|lia|done|done]).
  assert (M <= b)%Z by (apply (sorted_at s j (pred (length s))); [done|lia|done|done]).
  assert (m <= a)%Z by (apply Hle; rewrite <-Hp; by eapply list_elem_of_lookup_2).
  assert (b <= M)%Z by (apply Hge; rewrite <-Hp; by eapply list_elem_of_lookup_2).
  rewrite Ha, Hb. split; f_equal; lia.
Qed.

(** The mean lies between them. *)
Lemma total_nonneg l : Forall (λ r, (0 <= r)%Z) l → (0 <= total l)%Z.
Proof. induction 1 as [|r l Hr _ IH]; [done|]. cbn [total foldr]. fold (total l). lia. Qed.

Lemma sum_loop l acc :
  (0 <= acc)%Z → Forall (λ r, (0 <= r)%Z) l → (acc + total l < 2 ^ 63)%Z →
  foldl (λ s r, int64 (s + r)) acc l = (acc + total l)%Z.
Proof.
  intros Hacc Hl. revert acc Hacc. induction Hl as [|r l Hr Hl IH]; intros acc Hacc Hb; cbn [foldl total foldr] in *.
  - lia.
  - fold (total l) in *. pose proof (total_nonneg l Hl).
    rewrite int64_small by lia. rewrite IH by lia. lia.
Qed.

Lemma total_between l m M :
  (∀ x, x ∈ l → (m <= x)%Z) → (∀ x, x ∈ l → (x <= M)%Z) → (m * len l <= total l <= M * len l)%Z.
Proof.
  induction l as [|x l IH]; intros Hm HM; [unfold len; cbn; lia|]. cbn [total foldr]. fold (total l).
  rewrite len_cons.
  specialize (Hm x) as H1. specialize (HM x) as H2. destruct IH; [set_solver..|].
  specialize (H1 ltac:(left)). specialize (H2 ltac:(left)). lia.
Qed.

(** the statistics of the ping test. For any non-empty list of round trips [printStats]
    does not panic; the exchange loops sort a permutation of the list; minimum and maximum are
    its ends; the percentiles are the entries at the 50, 95 and 99 hundredths and are ordered
    between them; and for durations whose sum fits in 63 bits the average is their quotient
    and lies between minimum and maximum. *)
Theorem ping_statistics results :
  results ≠ [] →
  ∃ rep s, printStats results = Ret (Some rep) ∧ s ≡ₚ results ∧ StronglySorted Z.le s ∧
    s !! 0%nat = Some (r_min rep) ∧ s !! pred (length s) = Some (r_max rep) ∧
    s !! Z.to_nat (len s * 50 / 100) = Some (r_p50 rep) ∧
    s !! Z.to_nat (len s * 95 / 100) = Some (r_p95 rep) ∧
    s !! Z.to_nat (len s * 99 / 100) = Some (r_p99 rep) ∧
    (r_min rep <= r_p50 rep <= r_p95 rep)%Z ∧ (r_p95 rep <= r_p99 rep <= r_max rep)%Z ∧
    (Forall (λ r, (0 <= r)%Z) results → (total results < 2 ^ 63)%Z →
     r_avg rep = (total results / len results)%Z ∧ (r_min rep <= r_avg rep <= r_max rep)%Z).
Proof.
  intros Hne. destruct results as [|r0 l]; [done|].
  destruct (sort_results_spec (r0 :: l)) as (s & Es & Hp & Hs).
  assert (s ≠ []) as Hsne by (intros ->; by apply Permutation_nil_l in Hp).
  destruct (percentile_at 50 s) as (a & Ea & Ha & La); [lia|done|].
  destruct (percentile_at 95 s) as (b & Eb & Hb & Lb); [lia|done|].
  destruct (percentile_at 99 s) as (c & Ec & Hc & Lc); [lia|done|].
  assert (least_of (foldl (λ m r, if (r <? m)%Z then r else m) r0 (r0 :: l)) (r0 :: l)) as Hmin
    by (cbn [foldl]; rewrite Z.ltb_irrefl; apply min_loop).
  assert (greatest_of (foldl (λ m r, if (m <? r)%Z then r else m) r0 (r0 :: l)) (r0 :: l)) as Hmax
    by (cbn [foldl]; rewrite Z.ltb_irrefl; apply max_loop).
  destruct (sorted_ends s _ _ _ Hp Hs Hmin Hmax) as [H0 Hlast].
  unfold printStats. rewrite Es. cbn [obind]. rewrite Ea, Eb, Ec. cbn [obind].
  eexists _, s. split; [reflexivity|]. cbn [r_min r_max r_avg r_p50 r_p95 r_p99].
  assert (∀ p q, (0 <= p <= q)%Z → (Z.to_nat (len s * p / 100) <= Z.to_nat (len s * q / 100))%nat) as Hmono.
  { intros p q Hpq. pose proof (len_nonneg s).
    apply Z2Nat.inj_le; [apply Z.div_pos; nia|apply Z.div_pos; nia|].
    apply Z.div_le_mono; nia. }
  split_and!; try done.
  - eapply (sorted_at s 0); [done| |exact H0|exact Ha]; lia.
  - eapply (sorted_at s); [done| |exact Ha|exact Hb]. apply Hmono; lia.
  - eapply (sorted_at s); [done| |exact Hb|exact Hc]. apply Hmono; lia.
  - eapply (sorted_at s); [done| |exact Hc|exact Hlast]. lia.
  - intros Hpos Htot.
    pose proof (total_between (r0 :: l) _ _ (proj2 Hmin) (proj2 Hmax)) as Hb2.
    assert (0 < len (r0 :: l))%Z as Hlen by (unfold len; cbn; lia).
    rewrite sum_loop by (done || lia). rewrite Z.add_0_l.
    pose proof (total_nonneg _ Hpos) as Htot0.
    rewrite Z.quot_div_nonneg by lia.
    assert (0 <= total (r0 :: l) / len (r0 :: l) <= total (r0 :: l))%Z as Hq.
    { split; [by apply Z.div_pos|]. apply Z.div_le_upper_bound; nia. }
    rewrite int64_small by lia. split; [done|].
    split; [apply Z.div_le_lower_bound; lia|apply Z.div_le_upper_bound; lia].
Qed.

Lemma ping_statistics_witness :
  ∃ rep, printStats [30; 10; 20]%Z = Ret (Some rep) ∧ (r_min rep <= r_p50 rep <= r_p95 rep)%Z.
Proof.
  destruct (ping_statistics [30; 10; 20]%Z ltac:(discriminate)) as (rep & s & H & _ & _ & _ & _ & _ & _ & _ & H2 & _).
  exists rep. split; [exact H|exact H2].
Defined.

(** ** The client's run *)

Record PingPongTest := mkPing {
  ClientID : gostring;
  MessageCount : Z;
  MessageSize : Z;
  Results : list Z;
  ReceivedCount : Z;
}.
Definition NewPingPongTest (clientID : gostring) (messageCount messageSize : Z) : PingPongTest :=
  mkPing clientID messageCount messageSize [] 0.

Definition request_subject (id : gostring) : gostring := str "ping." ++ id ++ str ".request".
Definition response_subject (id : gostring) : gostring := str "ping." ++ id ++ str ".response".

(** The message of turn [i] at clock [now]: the two [Put]s and the copy are into slices of it.
    *)
Definition ping_message (id : gostring) (size now i : Z) : outcome (list byte) :=
  guard! (0 <=? size)%Z;
  let m := replicate (Z.to_nat size) Byte.x00 in
  do _ ← sslice (fresh_slice m) 0 8;
  let m := copy_at m 0 (PutUint64 (uint64 now)) in
  do _ ← sslice (fresh_slice m) 8 12;
  let m := copy_at m 8 (PutUint32 (uint32 i)) in
  do _ ← sfrom (fresh_slice m) 12;
  Ret (copy_at m 12 id).

(** Where the loop of [Run] is: at the top with [i]; in its [select] with the time of sending;
    after the loop. *)
Inductive ping_pc := PTop (i : Z) | PWait (i sent : Z) | PPrinted.

Record ping_run := mkRun {
  test : PingPongTest;
  ping_client : Client;
  respChan : list Delivery;       (** capacity 100 *)
  ping_at : ping_pc;
}.

Definition respCap : Z := 100.

(** The turn up to its [select]; an error of [Publish] goes on with the next turn. *)
Definition send_ping (now : Z) (write_ok : bool) (i : Z) (r : ping_run) : outcome ping_run :=
  let t := test r in
  do m ← ping_message (ClientID t) (MessageSize t) now i;
  match Publish false write_ok (request_subject (ClientID t)) m (ping_client r) with
  | (Some _, cli) => Ret (mkRun t cli (respChan r) (PTop (i + 1)))
  | (None, cli) => Ret (mkRun t cli (respChan r) (PWait i now))
  end.

(** The reply's case of the [select]: what is received is not looked at. *)
Definition receive_reply (now i sent : Z) (q : list Delivery) (r : ping_run) : ping_run :=
  let t := test r in
  mkRun (mkPing (ClientID t) (MessageCount t) (MessageSize t) (Results t ++ [now - sent]%Z)
           (ReceivedCount t + 1)) (ping_client r) q (PTop (i + 1)).

Inductive ping_step : ping_run → ping_run → Prop :=
| pp_send i now write_ok r r' :
    ping_at r = PTop i → (i < MessageCount (test r))%Z → send_ping now write_ok i r = Ret r' →
    ping_step r r'
| pp_reply i sent now m q r :
    ping_at r = PWait i sent → respChan r = m :: q → ping_step r (receive_reply now i sent q r)
| pp_timeout i sent r :
    ping_at r = PWait i sent →
    ping_step r (mkRun (test r) (ping_client r) (respChan r) (PTop (i + 1)))
| pp_callback m r :
    (len (respChan r) < respCap)%Z →
    ping_step r (mkRun (test r) (ping_client r) (respChan r ++ [m]) (ping_at r))
| pp_print i r :
    ping_at r = PTop i → (MessageCount (test r) <= i)%Z →
    ping_step r (mkRun (test r) (ping_client r) (respChan r) PPrinted).

Definition start_run (t : PingPongTest) (cli : Client) : ping_run := mkRun t cli [] (PTop 0).

(** ** The server's callback *)

(** The callback on [ping.>]: the error of [Publish] is logged. *)
Definition serve_ping (write_ok : bool) (msg : Delivery) (cli : Client) : Client :=
  if HasSuffix (msgSubject msg) (str ".request") then
    match segments_of (msgSubject msg) with
    | _ :: clientID :: _ :: _ => (Publish false write_ok (response_subject clientID) (msgData msg) cli).2
    | _ => cli
    end
  else cli.

(** ** The message *)

Definition ping_body (id : gostring) (size now i : Z) : list byte :=
  PutUint64 (uint64 now) ++ PutUint32 (uint32 i) ++
  take (Z.to_nat (size - 12)) id ++ replicate (Z.to_nat (size - 12) - length id) Byte.x00.

Lemma ping_body_len id size now i : (12 <= size)%Z → len (ping_body id size now i) = size.
Proof.
  intros H. unfold ping_body, len. rewrite !length_app, length_take, length_replicate.
  cbn [PutUint64 PutUint32 length]. lia.
Qed.

Lemma ping_message_spec id size now i :
  ping_message id size now i = if (12 <=? size)%Z then Ret (ping_body id size now i) else Panic.
Proof.
  unfold ping_message. destruct (Z.leb_spec 0 size) as [H0|H0]; [|by rewrite (proj2 (Z.leb_gt _ _)) by lia].
  destruct (Z.leb_spec 12 size) as [H|H].
  - replace (Z.to_nat size) with (8 + (4 + Z.to_nat (size - 12)))%nat by lia.
    set (k := Z.to_nat (size - 12)).
    assert (∀ l : list byte, length l = (12 + k)%nat → ∃ s1 s2 s3, sslice (fresh_slice l) 0 8 = Ret s1 ∧
      sslice (fresh_slice l) 8 12 = Ret s2 ∧ sfrom (fresh_slice l) 12 = Ret s3) as Hok.
    { intros l Hl. rewrite !sslice_within, sfrom_within by (cbn [elems fresh_slice]; unfold len; lia).
      by eexists _, _, _. }
    destruct (Hok (replicate (8 + (4 + k)) Byte.x00)) as (s1 & _ & _ & E1 & _); [by rewrite length_replicate|].
    rewrite E1. cbn [obind].
    rewrite (copy_at_app [] (replicate (8 + (4 + k)) Byte.x00)) by (done || rewrite length_replicate; cbn; lia).
    rewrite drop_replicate. cbn [app]. replace (8 + (4 + k) - length (PutUint64 (uint64 now)))%nat with (4 + k)%nat by (cbn; lia).
    set (m1 := PutUint64 (uint64 now) ++ replicate (4 + k) Byte.x00).
    destruct (Hok m1) as (_ & s2 & _ & _ & E2 & _); [unfold m1; rewrite length_app, length_replicate; done|].
    rewrite E2. cbn [obind]. unfold m1.
    rewrite (copy_at_app (PutUint64 (uint64 now)) (replicate (4 + k) Byte.x00)) by (done || rewrite length_replicate; cbn; lia).
    rewrite drop_replicate. replace (4 + k - length (PutUint32 (uint32 i)))%nat with k by (cbn; lia).
    set (m2 := PutUint64 (uint64 now) ++ PutUint32 (uint32 i) ++ replicate k Byte.x00).
    destruct (Hok m2) as (_ & _ & s3 & _ & _ & E3); [unfold m2; rewrite !length_app, length_replicate; done|].
    rewrite E3. cbn [obind]. f_equal. unfold copy_at, ping_body. fold k.
    assert (m2 = (PutUint64 (uint64 now) ++ PutUint32 (uint32 i)) ++ replicate k Byte.x00) as -> by (unfold m2; by rewrite <-app_assoc).
    rewrite take_app_len by done. rewrite drop_app_ge by (cbn; lia). rewrite drop_replicate, <-app_assoc.
    rewrite !length_app, length_replicate. f_equal. f_equal. f_equal; [f_equal; cbn; lia|f_equal; cbn; lia].
  - destruct (Z.leb_spec 8 size) as [H8|H8].
    + rewrite sslice_within by (cbn [elems fresh_slice]; rewrite len_replicate; lia). cbn [obind].
      unfold sslice at 1. rewrite decide_False; [done|]. unfold backing. cbn [elems fresh_slice spare].
      rewrite app_nil_r. unfold len, copy_at.
      rewrite !length_app, length_take, length_take, length_drop, length_replicate. cbn [PutUint64 length]. lia.
    + unfold sslice at 1. rewrite decide_False; [done|]. unfold backing. cbn [elems fresh_slice spare].
      rewrite app_nil_r, len_replicate. lia.
Qed.

(** ** The accounts of a run *)

Lemma Publish_conn ctx ok subj data c l e c' :
  Publish ctx ok subj data c = (e, c') → conn c = Some l →
  match e with
  | None => conn c' = Some (l ++ [Encode (NewMessageCmd CmdPub subj data)])
  | Some _ => conn c' = Some l
  end.
Proof.
  unfold Publish. intros Hp Hl. rewrite Hl in Hp. repeat case_match; simplify_eq; try done.
  cbn. by rewrite Hl.
Qed.

Definition ping_frame (t : PingPongTest) (p : Z * Z) : list byte :=
  Encode (NewMessageCmd CmdPub (request_subject (ClientID t)) (ping_body (ClientID t) (MessageSize t) p.2 p.1)).

(** How many turns have begun, and whether one waits. *)
Definition turns_begun (t : PingPongTest) (at_ : ping_pc) : Z :=
  match at_ with PTop i => i | PWait i _ => i + 1 | PPrinted => Z.max 0 (MessageCount t) end.
Definition waiting_now (at_ : ping_pc) : Z := match at_ with PWait _ _ => 1 | _ => 0 end.

Record ping_ok (t : PingPongTest) (l : list (list byte)) (sent : list (Z * Z)) (r : ping_run) : Prop := {
  po_id : ClientID (test r) = ClientID t;
  po_count : MessageCount (test r) = MessageCount t;
  po_size : MessageSize (test r) = MessageSize t;
  po_conn : conn (ping_client r) = Some (l ++ map (ping_frame t) sent);
  po_order : Forall (λ p, 0 <= p.1 < turns_begun t (ping_at r))%Z sent;
  po_sorted : StronglySorted Z.lt (map fst sent);
  po_turns : (0 <= turns_begun t (ping_at r) <= Z.max 0 (MessageCount t))%Z;
  po_received : ReceivedCount (test r) = len (Results (test r));
  po_replies : (len (Results (test r)) + waiting_now (ping_at r) <= len sent)%Z;
  po_sent : (len sent <= turns_begun t (ping_at r))%Z;
  po_chan : (len (respChan r) <= respCap)%Z;
}.

Lemma len_snoc {A} (l : list A) x : len (l ++ [x]) = (len l + 1)%Z.
Proof. rewrite len_app. done. Qed.

Lemma StronglySorted_snoc l x :
  StronglySorted Z.lt l → Forall (λ y, (y < x)%Z) l → StronglySorted Z.lt (l ++ [x]).
Proof.
  induction 1 as [|y l _ IH Hy]; intros Hx; cbn; [by repeat constructor|].
  apply Forall_cons in Hx as [Hyx Hx]. constructor; [by apply IH|].
  apply Forall_app. split; [done|]. by constructor.
Qed.

Lemma ping_step_ok t l sent r r' :
  ping_step r r' → ping_ok t l sent r → ∃ sent', ping_ok t l sent' r'.
Proof.
  intros Hstep [H1 H2 H3 H4 H5 H6 H7 H8 H9 H10 H11].
  destruct Hstep as [i now ok r r' Hat Hi Hs|i at_ now m q r Hat Hq|i at_ r Hat|m r Hroom|i r Hat Hi];
    try (rewrite Hat in H5, H7, H9, H10; cbn [turns_begun waiting_now] in H5, H7, H9, H10).
  - unfold send_ping in Hs. rewrite ping_message_spec in Hs.
    destruct (12 <=? _)%Z; [|done]. cbn [obind] in Hs.
    destruct (Publish _ _ _ _ _) as [e cli] eqn:Hp. pose proof (Publish_conn _ _ _ _ _ _ _ _ Hp H4) as Hc.
    assert (Forall (λ p, 0 <= p.1 < i + 1)%Z sent) as H5'
      by (eapply Forall_impl; [exact H5|]; cbn; intros p; lia).
    destruct e; injection Hs as <-.
    + exists sent. by constructor; cbn [test ping_client respChan ping_at turns_begun waiting_now]; try done; lia.
    + exists (sent ++ [(i, now)]). rewrite H1, H3 in Hc.
      constructor; cbn [test ping_client respChan ping_at turns_begun waiting_now]; try done; try lia;
        try (rewrite len_snoc; lia).
      * rewrite Hc, map_app, <-app_assoc. done.
      * apply Forall_app. split; [done|]. constructor; [|done]. cbn. lia.
      * rewrite map_app. apply StronglySorted_snoc; [done|]. apply Forall_map.
        eapply Forall_impl; [exact H5|]. cbn. intros p. lia.
  - exists sent. unfold receive_reply. rewrite Hq, len_cons in H11.
    constructor; cbn [test ping_client respChan ping_at turns_begun waiting_now ClientID MessageCount MessageSize Results ReceivedCount]; try done; rewrite ?len_snoc; lia.
  - exists sent. by constructor; cbn [test ping_client respChan ping_at turns_begun waiting_now]; try done; lia.
  - exists sent. constructor; cbn [test ping_client respChan ping_at]; try done.
    rewrite len_snoc. lia.
  - exists sent. constructor; cbn [test ping_client respChan ping_at turns_begun waiting_now]; try done; try lia.
    eapply Forall_impl; [exact H5|]. cbn. intros p. lia.
Qed.

Lemma ping_run_ok t cli l r :
  conn cli = Some l → ReceivedCount t = len (Results t) → Results t = [] →
  rtc ping_step (start_run t cli) r → ∃ sent, ping_ok t l sent r.
Proof.
  intros Hl Hrc Hres Hr. revert Hr.
  apply (rtc_invariant ping_step (λ r, ∃ sent, ping_ok t l sent r)).
  - intros x y [sent Hx] Hxy. by eapply ping_step_ok.
  - exists []. constructor; cbn; try done.
    + by rewrite app_nil_r.
    + constructor.
    + lia.
    + by rewrite Hres.
Qed.

(** The ping client keeps its books. Whatever the clock, the outcomes of the writes, the
    arrivals and the time-outs, in every state of a run: what it has written is, in order, one
    request frame per published ping, with strictly increasing numbers below [MessageCount];
    it has counted as many replies as it has results, at most one per published ping, so that
    the loss it prints is never negative; and the loop never panics if a message has room for
    its twelve bytes of header, and panics on its first turn if it has not. *)
Theorem ping_run_accounts id count size cli l r :
  conn cli = Some l → rtc ping_step (start_run (NewPingPongTest id count size) cli) r →
  (∃ sent, conn (ping_client r) = Some (l ++ map (ping_frame (NewPingPongTest id count size)) sent) ∧
     StronglySorted Z.lt (map fst sent) ∧ Forall (λ p, 0 <= p.1 < Z.max 0 count)%Z sent ∧
     ReceivedCount (test r) = len (Results (test r)) ∧
     (len (Results (test r)) <= len sent <= Z.max 0 count)%Z) ∧
  (len (respChan r) <= respCap)%Z ∧
  (∀ now ok i, ping_at r = PTop i → (send_ping now ok i r = Panic ↔ (size < 12)%Z)).
Proof.
  intros Hl Hr. destruct (ping_run_ok (NewPingPongTest id count size) cli l r Hl eq_refl eq_refl Hr)
    as [sent [H1 H2 H3 H4 H5 H6 H7 H8 H9 H10 H11]]. cbn [MessageCount NewPingPongTest] in *. split_and!.
  - exists sent. split_and!; try done.
    + eapply Forall_impl; [exact H5|]. cbn. intros p. lia.
    + destruct (ping_at r); cbn [waiting_now] in H9; lia.
    + lia.
  - done.
  - intros now ok i _. unfold send_ping. rewrite ping_message_spec, H3. cbn [MessageSize NewPingPongTest].
    destruct (Z.leb_spec 12 size); cbn [obind]; [|by split].
    destruct (Publish _ _ _ _ _) as [[e|] c]; (split; [done|lia]).
Qed.

(** A run of two pings: the reply to the first comes after its time-out and is taken for the
    reply to the second. *)
Definition late_reply : Delivery := mkDelivery (response_subject (str "a")) (ping_body (str "a") 12 5 0).
Definition two_pings : PingPongTest := NewPingPongTest (str "a") 2 12.
Definition first_sent : ping_run :=
  match send_ping 5 true 0 (start_run two_pings new_client) with Ret r => r | _ => start_run two_pings new_client end.
Definition first_lost : ping_run := mkRun (test first_sent) (ping_client first_sent) (respChan first_sent) (PTop 1).
Definition second_sent : ping_run :=
  match send_ping 70 true 1 first_lost with Ret r => r | _ => first_lost end.
Definition late_arrived : ping_run :=
  mkRun (test second_sent) (ping_client second_sent) (respChan second_sent ++ [late_reply]) (ping_at second_sent).
Definition late_counted : ping_run := receive_reply 71 1 70 [] late_arrived.

Lemma late_reply_run : rtc ping_step (start_run two_pings new_client) late_counted.
Proof.
  eapply rtc_l; [by apply (pp_send 0 5 true _ first_sent)|].
  eapply rtc_l; [by apply (pp_timeout 0 5)|]. fold first_lost.
  eapply rtc_l; [by apply (pp_send 1 70 true _ second_sent)|].
  eapply rtc_l; [by apply (pp_callback late_reply)|]. fold late_arrived.
  apply rtc_once. by apply (pp_reply 1 70 71 late_reply []).
Qed.

(** The only reply received is to ping 0, sent at 5; the result, 1, is for ping 1. *)
Lemma late_reply_counted :
  rtc ping_step (start_run two_pings new_client) late_counted ∧ respChan late_arrived = [late_reply] ∧
  msgData late_reply = ping_body (str "a") 12 5 0 ∧ Results (test late_counted) = [1]%Z.
Proof. split; [exact late_reply_run|]. by vm_compute. Qed.

Lemma ping_run_accounts_witness :
  ReceivedCount (test late_counted) = len (Results (test late_counted)) ∧
  (len (respChan late_counted) <= respCap)%Z.
Proof.
  destruct (ping_run_accounts (str "a") 2 12 new_client [] late_counted eq_refl late_reply_run)
    as ((sent & _ & _ & _ & H & _) & H2 & _).
  split; [exact H|exact H2].
Defined.

(** ** The server's replies *)

Lemma ping_segments id (kind : gostring) :
  dot ∉ kind → segments_of (str "ping." ++ id ++ dot :: kind) = str "ping" :: segments_of id ++ [kind].
Proof.
  intros Hk. change (str "ping." ++ ?r) with (str "ping" ++ dot :: r). rewrite Split_app.
  rewrite (Split_app dot id kind), (Split_nosep dot kind) by done. done.
Qed.

Lemma no_dot (kind : gostring) : existsb (λ b, bool_decide (b = dot)) kind = false → dot ∉ kind.
Proof.
  intros H Hin. assert (existsb (λ b, bool_decide (b = dot)) kind = true) as Ht; [|congruence].
  apply existsb_exists. exists dot. split; [by apply list_elem_of_In|by apply bool_decide_eq_true].
Qed.

Lemma request_segments id : segments_of (request_subject id) = str "ping" :: segments_of id ++ [str "request"].
Proof. apply (ping_segments id (str "request")). by apply no_dot. Qed.
Lemma response_segments id : segments_of (response_subject id) = str "ping" :: segments_of id ++ [str "response"].
Proof. apply (ping_segments id (str "response")). by apply no_dot. Qed.

Lemma suffix_last (s t p : gostring) x y : HasSuffix (s ++ [x]) (p ++ [y]) = true → x = y.
Proof.
  intros [u E]%HasSuffix_spec. rewrite app_assoc in E. by apply app_inj_tail in E as [_ ->].
Qed.

Lemma response_suffix id (p : gostring) y : y ≠ Byte.x65 → HasSuffix (response_subject id) (p ++ [y]) = false.
Proof.
  intros Hy. destruct (HasSuffix _ _) eqn:E; [|done]. exfalso. apply Hy.
  assert (response_subject id = (str "ping." ++ id ++ str ".respons") ++ [Byte.x65]) as Hs
    by (unfold response_subject; rewrite <-!app_assoc; done).
  rewrite Hs in E. symmetry. by eapply suffix_last.
Qed.

(** Without a [*] segment the client's own subscription matches one subject only. *)
Lemma response_match id s :
  star ∉ segments_of id → Match (response_subject id) s = bool_decide (response_subject id = s).
Proof.
  intros Hs. rewrite Match_closed. unfold gt_branch.
  assert (HasSuffix (response_subject id) dot_gt = false) as -> by (by apply (response_suffix id (str ".") Byte.x3e)).
  cbn [andb negb].
  rewrite (bool_decide_false (star ∈ _)), andb_false_l, !orb_false_r; [done|].
  rewrite response_segments, elem_of_cons, elem_of_app, list_elem_of_singleton. by intros [?|[?|?]].
Qed.

Lemma response_inj id id2 : response_subject id = response_subject id2 → id = id2.
Proof. unfold response_subject. intros E. apply app_inv_head in E. by apply app_inv_tail in E. Qed.

(** The ping server. The request of every client reaches its subscription [ping.>]. If the
    client's identifier has no dot, the server echoes the payload, in one frame, on exactly
    the subject the client subscribed to, which (unless the identifier is a wildcard) no other
    client's reply has. If it has one, the server replies on a subject made of the part before
    the first dot, which that subscription does not match: every ping times out. No reply is
    ever answered, so that the server, which receives its own replies, does not loop. *)
Theorem ping_pong_round id m srv l :
  conn srv = Some l →
  Match (str "ping.>") (request_subject id) = true ∧
  (dot ∉ id → wire_ok (NewMessageCmd CmdPub (response_subject id) m) →
   conn (serve_ping true (mkDelivery (request_subject id) m) srv)
   = Some (l ++ [Encode (NewMessageCmd CmdPub (response_subject id) m)])) ∧
  (star ∉ segments_of id → ∀ id2, Match (response_subject id) (response_subject id2) = true ↔ id2 = id) ∧
  (∀ a b, id = a ++ dot :: b → dot ∉ a → star ∉ segments_of id →
     wire_ok (NewMessageCmd CmdPub (response_subject a) m) →
     conn (serve_ping true (mkDelivery (request_subject id) m) srv)
     = Some (l ++ [Encode (NewMessageCmd CmdPub (response_subject a) m)]) ∧
     Match (response_subject id) (response_subject a) = false) ∧
  (∀ id2 m2 ok, serve_ping ok (mkDelivery (response_subject id2) m2) srv = srv).
Proof.
  intros Hl.
  assert (∀ a rest, segments_of id = a :: rest → wire_ok (NewMessageCmd CmdPub (response_subject a) m) →
    conn (serve_ping true (mkDelivery (request_subject id) m) srv)
    = Some (l ++ [Encode (NewMessageCmd CmdPub (response_subject a) m)])) as Hserve.
  { intros a rest Hseg Hw. unfold serve_ping. cbn [msgSubject msgData].
    assert (HasSuffix (request_subject id) (str ".request") = true) as ->
      by (apply HasSuffix_spec; exists (str "ping." ++ id); unfold request_subject; by rewrite <-app_assoc).
    rewrite request_segments, Hseg. cbn [app].
    destruct (rest ++ [str "request"]) as [|x xs] eqn:E; [by destruct rest|].
    by rewrite (Publish_written _ _ srv l). }
  split_and!.
  - apply Match_segments. right. left. exists (str "ping"). split; [done|].
    rewrite request_segments. by exists (segments_of id ++ [str "request"]).
  - intros Hd Hw. apply (Hserve id []); [by apply Split_nosep|done].
  - intros Hs id2. rewrite response_match, bool_decide_eq_true by done. split; [|by intros ->].
    intros E. symmetry. by apply response_inj.
  - intros a b -> Ha Hs Hw. split.
    + apply (Hserve a (segments_of b)); [|done]. by rewrite Split_app, (Split_nosep _ a).
    + rewrite response_match, bool_decide_eq_false by done. intros E%response_inj.
      apply (f_equal length) in E. rewrite length_app in E. cbn in E. lia.
  - intros id2 m2 ok. unfold serve_ping. cbn [msgSubject].
    assert (HasSuffix (response_subject id2) (str ".request") = false) as -> by (by apply (response_suffix id2 (str ".reques") Byte.x74)).
    done.
Qed.

Lemma ping_pong_round_witness :
  conn (serve_ping true (mkDelivery (request_subject (str "client-7")) (str "hello")) new_client)
  = Some [Encode (NewMessageCmd CmdPub (response_subject (str "client-7")) (str "hello"))] ∧
  Match (response_subject (str "a.b")) (response_subject (str "a")) = false.
Proof.
  destruct (ping_pong_round (str "client-7") (str "hello") new_client [] eq_refl) as (_ & H & _).
  destruct (ping_pong_round (str "a.b") (str "hello") new_client [] eq_refl) as (_ & _ & _ & H2 & _).
  split.
  - apply H; [by apply no_dot|split; by vm_compute].
  - apply (H2 (str "a") (str "b")); [reflexivity|by apply no_dot| |split; by vm_compute].
    vm_compute. intros Hin. apply elem_of_cons in Hin as [Hin|Hin]; [discriminate|].
    apply elem_of_cons in Hin as [Hin|Hin]; [discriminate|by apply elem_of_nil in Hin].
Defined.
