(* ===== verification/Programs.v ===== *)
(** * Starting and stopping the relay programs ([src/examples/h264-relay/main.go],
    [src/examples/kcpq-to-nats/main.go])

    [Start] and [Stop] of both programs on top of [Relay], with the configurations of
    [Config]. The NATS client, the socket and the network are parameters. *)

From S2P Require Import Prelude GoStrings GoIO Protocol Subject Session RingBuffer.
From S2P Require Import Reconnect Client ClientLaws Crypto ClientAPI Relay Config.

(** How a subscriber of the forwarder gets its messages. *)
Inductive delivery_mode := NotSubscribed | ChannelMode (ch : user_chan) | CallbackMode.

(** The pointers of [Forwarder] that [Start] sets and [Stop] uses. *)
Record ForwarderRun := mkForwarderRun {
  fconfig : ForwarderConfig;
  fclient : option Client;
  natsConn : bool;                   (** connected and not closed *)
  fsubscription : option subid;
  fmode : delivery_mode;
  fcancelled : bool;
}.

Definition NewForwarder (config : ForwarderConfig) : ForwarderRun :=
  mkForwarderRun config None false None NotSubscribed false.

Definition set_fclient (c : option Client) (f : ForwarderRun) : ForwarderRun :=
  mkForwarderRun (fconfig f) c (natsConn f) (fsubscription f) (fmode f) (fcancelled f).

Section programs.
Context {BC CipherError DialError NatsError : Type}.
Context (NewAESBlockCrypt : list byte → BC + CipherError) (Dial : gostring → option DialError).
Context (NatsConnect : gostring → option NatsError).

Inductive forwarder_error :=
| FConnect (e : relay_error (CipherError := CipherError) (DialError := DialError))
| FNats (e : NatsError)
| FSubscribe (e : client_error).

(** [Forwarder.connectToKCPQ]: the same lines as the relay's, on the forwarder's fields. *)
Definition fconnectToKCPQ (f : ForwarderRun) : ForwarderRun * option forwarder_error :=
  let cfg := fconfig f in
  if negb (len (fc_AES256Key cfg) =? 32)%Z then (f, Some (FConnect (RelayKeyLength (len (fc_AES256Key cfg)))))
  else match ConnectWithContext NewAESBlockCrypt Dial (fcancelled f) (fc_KCPQServer cfg) (fc_AES256Key cfg) with
       | inr e => (f, Some (FConnect (RelayConnect e)))
       | inl c =>
           let cli := Crypto.client c in
           let cli := match reconnect_interval (fc_AutoReconnect cfg) (fc_ReconnectInterval cfg) with
                      | Some d => set_link (EnableAutoReconnect d (link cli)) cli
                      | None => cli
                      end in
           (set_fclient (Some cli) f, None)
       end.

Definition connectToNATS (f : ForwarderRun) : ForwarderRun * option forwarder_error :=
  match NatsConnect (fc_NATSServer (fconfig f)) with
  | Some e => (f, Some (FNats e))
  | None => (mkForwarderRun (fconfig f) (fclient f) true (fsubscription f) (fmode f) (fcancelled f), None)
  end.

(** [subscribeKCPQ], on the client [connectToKCPQ] has made; [env] is the environment of the
    subscribing call. *)
Definition subscribeKCPQ (env : Z → round) (f : ForwarderRun) : outcome (ForwarderRun * option forwarder_error) :=
  match fclient f with
  | None => Panic
  | Some c =>
      let cfg := fconfig f in
      if fc_UseChannelMode cfg then
        do r ← SubscribeChan (fc_KCPQSubject cfg) 1000 env c;
        match r with
        | (inl (ch, id), c) =>
            Ret (mkForwarderRun cfg (Some c) (natsConn f) (Some id) (ChannelMode ch) (fcancelled f), None)
        | (inr e, c) => Ret (set_fclient (Some c) f, Some (FSubscribe e))
        end
      else
        do r ← SubscribeWithContext (fcancelled f) (fc_KCPQSubject cfg) env c;
        match r with
        | (inl id, c) =>
            Ret (mkForwarderRun cfg (Some c) (natsConn f) (Some id) CallbackMode (fcancelled f), None)
        | (inr e, c) => Ret (set_fclient (Some c) f, Some (FSubscribe e))
        end
  end.

(** [Forwarder.Start]: the ticker of [statsPrinter] panics, in its own goroutine, on an interval
    that is not positive, which ends the program. *)
Definition Start (env : Z → round) (f : ForwarderRun) : outcome (ForwarderRun * option forwarder_error) :=
  match fconnectToKCPQ f with
  | (f, Some e) => Ret (f, Some e)
  | (f, None) =>
      match connectToNATS f with
      | (f, Some e) => Ret (f, Some e)
      | (f, None) =>
          do r ← subscribeKCPQ env f;
          match r with
          | (f, Some e) => Ret (f, Some e)
          | (f, None) => do _ ← NewTicker (fc_StatsInterval (fconfig f)); Ret (f, None)
          end
      end
  end.

(** [Forwarder.Stop]; [write_ok] is the outcome of writing [UNSUB], whose error is ignored. *)
Definition Stop (write_ok : bool) (f : ForwarderRun) : outcome ForwarderRun :=
  do cli ←
    (match fclient f, fsubscription f with
     | Some c, Some id => do r ← Unsubscribe id false write_ok c; Ret (Some r.2)
     | c, None => Ret c
     | None, Some _ => Panic
     end);
  Ret (mkForwarderRun (fconfig f) (client_Close <$> cli) false (fsubscription f) (fmode f) true).

(** The relay's [Start], up to the two goroutines it starts, and [Stop]. *)
Definition relay_Start (config : RelayConfig) (r : H264Relay) :
    outcome (H264Relay * option (relay_error (CipherError := CipherError) (DialError := DialError))) :=
  match connectToKCPQ NewAESBlockCrypt Dial (rc_KCPServerAddr config) (rc_AES256Key config)
          (rc_AutoReconnect config) (rc_ReconnectInterval config) r with
  | (r, Some e) => Ret (r, Some e)
  | (r, None) => do _ ← NewTicker (rc_StatsInterval config); Ret (r, None)
  end.

Definition relay_Stop (r : H264Relay) : H264Relay :=
  mkRelay (topic r) (stats r) (client_Close <$> kcpClient r) (initialized r) true.

(** ** Connecting *)

Lemma fconnect_result f f' err :
  fclient f = None → fconnectToKCPQ f = (f', err) →
  match err with
  | None => ∃ c, f' = set_fclient (Some c) f ∧ client_ok c ∧ conn c = Some [] ∧
              autoReconnect (link c) = fc_AutoReconnect (fconfig f) ∧ subscriptions c = []
  | Some e => f' = f ∧ (len (fc_AES256Key (fconfig f)) = 32%Z → ∀ n, e ≠ FConnect (RelayKeyLength n))
  end.
Proof.
  intros Hc. unfold fconnectToKCPQ. destruct (Z.eqb_spec (len (fc_AES256Key (fconfig f))) 32); cbn [negb]; [|by intros [= <- <-]].
  unfold ConnectWithContext. destruct (fcancelled f); [by intros [= <- <-]|].
  destruct (newAES256BlockCrypt NewAESBlockCrypt _); [|by intros [= <- <-]].
  destruct (Dial _); [by intros [= <- <-]|]. intros [= <- <-].
  unfold reconnect_interval. destruct (fc_AutoReconnect (fconfig f)); eexists; (split; [reflexivity|]);
    split_and!; try done; [apply client_ok_link, new_client_ok|apply new_client_ok].
Qed.

(** What a started forwarder has. *)
Record forwarding (cfg : ForwarderConfig) (f : ForwarderRun) (c : Client) (id : subid) (s : Subscription) : Prop := {
  fw_config : fconfig f = cfg;
  fw_client : fclient f = Some c;
  fw_nats : natsConn f = true;
  fw_sub : fsubscription f = Some id;
  fw_ok : client_ok c;
  fw_conn : is_Some (conn c);
  fw_listed : id ∈ subscriptions c;
  fw_entry : subs c !! id = Some s;
  fw_subject : subject s = fc_KCPQSubject cfg;
  fw_active : active s = true;
}.

Definition mode_of (cfg : ForwarderConfig) (m : delivery_mode) : Prop :=
  if fc_UseChannelMode cfg
  then ∃ ch, m = ChannelMode ch ∧ pending ch = [] ∧ (0 < capacity ch)%Z ∧ lost ch = 0%nat
  else m = CallbackMode.

Lemma subscribeKCPQ_result env f c :
  fclient f = Some c → client_ok c → is_Some (conn c) →
  ∃ f' err, subscribeKCPQ env f = Ret (f', err) ∧
    match err with
    | None => ∃ c' id s, natsConn f = true → forwarding (fconfig f) f' c' id s ∧ mode_of (fconfig f) (fmode f')
    | Some e => (∃ e', e = FSubscribe e') ∧ fsubscription f' = fsubscription f
    end.
Proof.
  intros Hcl Hc Hconn. unfold subscribeKCPQ, mode_of. rewrite Hcl.
  destruct (fc_UseChannelMode (fconfig f)) eqn:Hmode.
  - destruct (SubscribeChan_returns c (fc_KCPQSubject (fconfig f)) 1000 env Hc Hconn) as (res & c' & E & Hc' & Hconn' & Hres).
    rewrite E. cbn [obind]. destruct res as [[ch id]|e]; eexists _, _; (split; [reflexivity|]); [|by split; [eexists|]].
    destruct Hres as (H1 & H2 & H3 & H4 & s & H5 & H6 & H7). exists c', id, s. intros Hn.
    split; [by constructor|]. cbn. by exists ch.
  - destruct (SubscribeWithContext_returns (fcancelled f) (fc_KCPQSubject (fconfig f)) env c Hc Hconn)
      as (res & c' & E & Hc' & Hconn' & Hres).
    rewrite E. cbn [obind]. destruct res as [id|e]; eexists _, _; (split; [reflexivity|]); [|by split; [eexists|]].
    destruct Hres as (H4 & s & H5 & H6 & H7 & _). exists c', id, s. intros Hn. by split; [constructor|].
Qed.
End programs.

(** ** Stopping *)

Lemma Unsubscribe_keeps_once id cb ok c e c' :
  Unsubscribe id cb ok c = Ret (e, c') → clientCloseOnce c' = clientCloseOnce c.
Proof. unfold Unsubscribe. intros Hu. by repeat case_match; simplify_eq. Qed.

(** C29: the forwarder starts and stops cleanly. With a key of 32 bytes and a positive
    interval [Start] returns: it either reports why it could not connect (never the key), or
    subscribe, and then holds no subscription, or it runs with an active subscription to the
    configured subject, in the configured mode. [Stop], in any later state of the client in
    which that subscription is still active, returns; it sends UNSUB, lets the callback finish
    every queued message, closes the channel, the client and the NATS connection, and leaves
    no active subscription. *)
Theorem forwarder_lifecycle {BC CE DE NE} (aes : list byte → BC + CE) (Dial : gostring → option DE)
    (Nats : gostring → option NE) cfg env :
  len (fc_AES256Key cfg) = 32%Z → (0 < fc_StatsInterval cfg)%Z →
  (∃ f err, Start aes Dial Nats env (NewForwarder cfg) = Ret (f, err) ∧
     match err with
     | None => (∃ c id s, forwarding cfg f c id s) ∧ mode_of cfg (fmode f)
     | Some e => fsubscription f = None ∧ ∀ n, e ≠ FConnect (RelayKeyLength n)
     end) ∧
  (∀ f c id s l write_ok,
     forwarding cfg f c id s → conn c = Some l → closeOnce s = false → clientCloseOnce c = false →
     ∃ f' c' s', Stop write_ok f = Ret f' ∧ fcancelled f' = true ∧ natsConn f' = false ∧
       fclient f' = Some c' ∧ client_ok c' ∧ done (link c') = true ∧ ActiveSubscriptions c' = 0%Z ∧
       conn c' = Some (l ++ if write_ok then [Encode (NewMessageCmd CmdUnsub (fc_KCPQSubject cfg) [])] else []) ∧
       subs c' !! id = Some s' ∧ handled s' = handled s ++ msgChan s ∧ msgChan s' = [] ∧ chanClosed s' = true).
Proof.
  intros Hkey Hint. split.
  - unfold Start. destruct (fconnectToKCPQ aes Dial (NewForwarder cfg)) as [f1 [e|]] eqn:E1.
    { destruct (fconnect_result aes Dial (NewForwarder cfg) _ _ eq_refl E1) as [-> He].
      eexists _, _. split; [reflexivity|].
      split; [done|]. intros n. by apply (He Hkey). }
    destruct (fconnect_result aes Dial (NewForwarder cfg) _ _ eq_refl E1) as (c & -> & Hc & Hconn & _).
    unfold connectToNATS. cbn [fconfig set_fclient NewForwarder].
    destruct (Nats _); [eexists _, _; split; [reflexivity|done]|].
    destruct (subscribeKCPQ_result (CipherError := CE) (DialError := DE) (NatsError := NE) env
                (mkForwarderRun cfg (Some c) true None NotSubscribed false) c eq_refl Hc)
      as (f2 & err & E2 & H2); [by exists []|].
    cbn [NewForwarder fconfig natsConn fclient set_fclient fsubscription fmode fcancelled]. rewrite E2.
    cbn [obind]. destruct err as [e|].
    + destruct H2 as ((e' & ->) & Hs). eexists _, _. split; [reflexivity|]. split; [by rewrite Hs|done].
    + destruct H2 as (c' & id & s & H2). destruct (H2 eq_refl) as [Hf Hm].
      cbn [fconfig set_fclient] in Hf, Hm.
      rewrite (fw_config _ _ _ _ _ Hf). unfold NewTicker. rewrite (proj2 (Z.ltb_lt _ _)) by done.
      eexists _, _. split; [reflexivity|]. split; [by eexists _, _, _|done].
  - intros f c id s l write_ok [F1 F2 F3 F4 F5 F6 F7 F8 F9 F10] Hl Ho Hco.
    destruct (Unsubscribe_run c id s l write_ok F5 F8 Ho F10 Hl)
      as (c1 & s1 & E & Hc1 & Hs1 & _ & Hh & Hq & Ha & Hcl & _ & Hl1 & _).
    pose proof (Unsubscribe_keeps_once _ _ _ _ _ _ E) as Hco1. rewrite Hco in Hco1.
    destruct (client_Close_run c1 Hc1 Hco1) as (Hok & _ & Hsubs & _ & Hdone & _).
    unfold Stop. rewrite F2, F4, E. cbn [obind snd].
    eexists _, (client_Close c1), (if decide (id ∈ subscriptions c1) then set_active false s1 else s1).
    split; [reflexivity|]. cbn [fcancelled natsConn fclient fmap option_fmap option_map].
    split_and!; try done.
    + unfold ActiveSubscriptions. by rewrite Hsubs.
    + by rewrite client_Close_conn, Hl1, F9.
    + by apply client_Close_sub.
    + by case_decide.
    + by case_decide.
    + by case_decide.
Qed.

Definition demo_config : ForwarderConfig :=
  mkForwarderConfig (str "a:1") (str "h264.stream") (str "n:2") (str "out") [] (replicate 32 Byte.x00) 0
    (10 * second) true (5 * second) true.
Definition demo_client : Client := registered 0 (str "h264.stream") 1000 new_client.
Definition demo_run : ForwarderRun :=
  mkForwarderRun demo_config (Some demo_client) true (Some 0%nat) (ChannelMode (mkChan [] 1000 0)) false.

Lemma forwarder_lifecycle_witness :
  ∃ f', Stop true demo_run = Ret f' ∧ natsConn f' = false.
Proof.
  destruct (forwarder_lifecycle (λ k, inl k : list byte + unit) (λ _, None : option unit) (λ _, None : option unit)
              demo_config (λ _, mkRound false true [] WokenAck)) as [_ H].
  - reflexivity.
  - reflexivity.
  - destruct (H demo_run demo_client 0%nat (mkSub (str "h264.stream") true [] 1000 false [] 0 0 false) [] true)
      as (f' & _ & _ & H1 & _ & H3 & _).
    + constructor; try reflexivity; [|by exists []|by left].
      apply (registered_spec 0 (str "h264.stream") 1000 new_client); [lia|apply new_client_ok].
    + reflexivity.
    + reflexivity.
    + reflexivity.
    + exists f'. split; [exact H1|exact H3].
Defined.

(** The relay starts and stops cleanly. With a key of 32 bytes and a positive interval [Start]
    returns a relay that is ready to publish, or the reason why it could not connect, which is
    never the key, with the relay as it was. After [Stop] nothing that arrives on the socket
    is published or counted any more, the client is closed, and nothing more was written on
    its connection. *)
Theorem relay_lifecycle {BC CE DE} (aes : list byte → BC + CE) (Dial : gostring → option DE) (cfg : RelayConfig) :
  len (rc_AES256Key cfg) = 32%Z → (0 < rc_StatsInterval cfg)%Z → (len (rc_Subject cfg) <= MaxSubjectLen)%Z →
  (∃ r err, relay_Start aes Dial cfg (NewH264Relay (rc_Subject cfg)) = Ret (r, err) ∧
     match err with
     | None => ∃ c, relay_ready c [] r ∧ topic r = rc_Subject cfg ∧ stats r = no_counts ∧
                 autoReconnect (link c) = rc_AutoReconnect cfg
     | Some e => r = NewH264Relay (rc_Subject cfg) ∧ ∀ n, e ≠ RelayKeyLength n
     end) ∧
  (∀ r c l, relay_ready c l r → client_ok c → clientCloseOnce c = false →
     let r' := relay_Stop r in
     (∀ events, UDPReceiver events r' = r') ∧ stats r' = stats r ∧
     ∃ c', kcpClient r' = Some c' ∧ client_ok c' ∧ conn c' = Some l ∧ done (link c') = true ∧
       ctxDone (link c') = true ∧ subscriptions c' = [] ∧ client_Close c' = c').
Proof.
  intros Hkey Hint Hs. split.
  - unfold relay_Start. destruct (connectToKCPQ _ _ _ _ _ _ _) as [r1 err] eqn:E.
    pose proof (connectToKCPQ_ready aes Dial _ _ _ _ _ _ _ Hs E) as H. destruct err as [e|].
    + destruct H as [-> He]. eexists _, _. split; [reflexivity|]. split; [done|]. intros n. by apply He.
    + unfold NewTicker. rewrite (proj2 (Z.ltb_lt _ _)) by done. by eexists _, _.
  - intros r c l [_ Hk _ Hl _] Hc Ho. cbv zeta.
    destruct (client_Close_run c Hc Ho) as (Hok & Hagain & Hsubs & _ & Hdone & Hctx & _).
    split; [by intros [|e es]|]. split; [done|]. exists (client_Close c). unfold relay_Stop. cbn [kcpClient].
    rewrite Hk. split_and!; try done. by rewrite client_Close_conn.
Qed.

Definition demo_relay_config : RelayConfig :=
  mkRelayConfig (str ":22345") (str "a:1") (str "h264.stream") [] (replicate 32 Byte.x00) 0 (10 * second) 65536
    true (5 * second).

Lemma relay_lifecycle_witness :
  ∃ c', kcpClient (relay_Stop demo_relay) = Some c' ∧ conn c' = Some [].
Proof.
  destruct (relay_lifecycle (λ k, inl k : list byte + unit) (λ _, None : option unit) demo_relay_config) as [_ H].
  - reflexivity.
  - reflexivity.
  - by vm_compute.
  - destruct (H demo_relay new_client []) as (_ & _ & c' & H1 & _ & H2 & _).
    + by constructor.
    + apply new_client_ok.
    + reflexivity.
    + exists c'. split; [exact H1|exact H2].
Defined.
