(* ===== verification/Reports.v ===== *)
(** * The figures the programs print

    The reports of the relay programs, of the performance test, of the ping test and of the
    subscribers, and the two rates of the client's statistics, computed in [float64] as
    the programs do. Time is measured in nanoseconds; [elapsed] is what [time.Since]
    returned. *)

From Stdlib Require Import SpecFloat.
From S2P Require Import Prelude GoStrings GoIO Protocol Subject Reconnect Client ClientLaws.
From S2P Require Import RingBuffer ClientAPI Relay PerfStats PerfTest GoFloat.

Open Scope float_scope.

(** A count, and the divisors and factors of the reports. *)
Abbreviation count := float_of_int.
Definition hundred : float64 := float_of_int 100.
Definition kilo : float64 := float_of_int 1024.
Definition million : float64 := float_of_int 1000000.

(** ** The relay programs *)

Record frame_report := mkFrameReport {
  fr_runtime : float64;
  fr_frames : Z;
  fr_rate : float64;
  fr_total_mb : float64;
  fr_mb_rate : float64;
  fr_bitrate : float64;
  fr_avg_size : float64;
  fr_errors : Z;
  fr_error_rate : option float64;
  fr_client : option ClientStats;
}.

(** [H264Relay.printStats]; [cli] is the client with its meters. *)
Definition printStats (n : counters) (cli : option (Meters * Client)) (elapsed : Z) : outcome (option frame_report) :=
  let seconds := Seconds elapsed in
  if feqb seconds fzero then Ret None
  else
    let frameRate := count (TotalFrames n) / seconds in
    let byteRate := count (TotalBytes n) / seconds in
    let mbps := byteRate * float_of_int 8 / million in
    let avgFrameSize := count (TotalBytes n) / count (TotalFrames n) / kilo in
    do stats ← (match cli with Some (m, c) => do s ← GetStats m c; Ret (Some s) | None => Ret None end);
    Ret (Some (mkFrameReport seconds (TotalFrames n) frameRate (count (TotalBytes n) / kilo / kilo)
                 (byteRate / kilo / kilo) mbps avgFrameSize (ErrorCount n)
                 (if (0 <? TotalFrames n)%Z then Some (count (ErrorCount n) / count (TotalFrames n) * hundred) else None)
                 stats)).

(** [Forwarder.printStats] computes the same figures from its own counters. *)
Definition forwarder_printStats (n : counters) (cli : option (Meters * Client)) (elapsed : Z) : outcome (option frame_report) :=
  printStats n cli elapsed.

(** ** The performance test *)

Record interval_report := mkIntervalReport {
  ir_messages : Z;
  ir_rate : float64;
  ir_throughput : float64;
  ir_min : float64;
  ir_max : float64;
  ir_avg : float64;
  ir_errors : Z;
}.

(** [printStats] of the performance test. *)
Definition perf_printStats (s : Stats) (elapsed : Z) : option interval_report :=
  let seconds := Seconds elapsed in
  if feqb seconds fzero then None
  else Some (mkIntervalReport (st_messages s) (count (st_messages s) / seconds)
               (count (st_bytes s) / seconds / kilo / kilo)
               (count (st_min s) / million) (count (st_max s) / million)
               (count (st_latency s) / count (st_messages s) / million) (st_errors s)).

Record latency_report := mkLatencyReport { lr_min : float64; lr_max : float64; lr_avg : float64; lr_p99 : float64 }.
Record final_report := mkFinalReport {
  fin_duration : float64;
  fin_published : Z;
  fin_received : Z;
  fin_published_mb : float64;
  fin_publish_rate : float64;
  fin_publish_throughput : float64;
  fin_received_mb : float64;
  fin_message_rate : float64;
  fin_throughput : float64;
  fin_latency : option latency_report;
  fin_errors : option (Z * float64);    (** the number and its percentage, when there are errors *)
  fin_per_subscriber : option (float64 * float64);
  fin_delivery_rate : float64;
}.

(** [printFinalStats] *)
Definition printFinalStats (s : Stats) (publishedCount publishedBytes : Z) (config : TestScenario) (elapsed : Z) : final_report :=
  let seconds := Seconds elapsed in
  let perSubMsg := count (st_messages s) / count (SubscriberCount config) in
  {| fin_duration := seconds; fin_published := publishedCount; fin_received := st_messages s;
     fin_published_mb := count publishedBytes / kilo / kilo;
     fin_publish_rate := count publishedCount / seconds;
     fin_publish_throughput := count publishedBytes / seconds / kilo / kilo;
     fin_received_mb := count (st_bytes s) / kilo / kilo;
     fin_message_rate := count (st_messages s) / seconds;
     fin_throughput := count (st_bytes s) / seconds / kilo / kilo;
     fin_latency :=
       if (0 <? st_messages s)%Z
       then Some (mkLatencyReport (count (st_min s) / million) (count (st_max s) / million)
                    (count (st_latency s) / count (st_messages s) / million)
                    (count (st_max s) * (float_of_int 99 / hundred) / million))
       else None;
     fin_errors :=
       if (0 <? st_errors s)%Z then Some (st_errors s, count (st_errors s) / count publishedCount * hundred) else None;
     fin_per_subscriber :=
       if (0 <? SubscriberCount config)%Z then Some (perSubMsg, perSubMsg / seconds) else None;
     fin_delivery_rate :=
       count (st_messages s) / count publishedCount / count (SubscriberCount config) * hundred |}.

(** ** The ping test *)

(** One turn of the loop of [calculateJitter]. *)
Definition jitter_diff (prev cur : Z) : float64 :=
  let diff := count (Microseconds cur - Microseconds prev) / float_of_int 1000 in
  if fltb diff fzero then fopp diff else diff.

Fixpoint jitter_loop (prev : Z) (results : list Z) (jitterSum : float64) : float64 :=
  match results with
  | [] => jitterSum
  | cur :: results => jitter_loop cur results (jitterSum + jitter_diff prev cur)
  end.

Definition calculateJitter (results : list Z) : float64 :=
  match results with
  | first :: ((_ :: _) as rest) => jitter_loop first rest fzero / count (len results - 1)
  | _ => fzero
  end.

(** The loss rate and the milliseconds of [printStats]. *)
Definition lossRate (messageCount received : Z) : float64 :=
  count (messageCount - received) / count messageCount * hundred.
Definition in_ms (d : Z) : float64 := count (Microseconds d) / float_of_int 1000.

(** ** Subscribers *)

(** The line [h264_subscriber] prints: frames per second, megabytes, megabits per second. *)
Definition subscriber_stats (frameCount totalBytes elapsed : Z) : float64 * float64 * float64 :=
  let seconds := Seconds elapsed in
  (count frameCount / seconds, count totalBytes / kilo / kilo,
   count totalBytes * float_of_int 8 / seconds / million).

(** The line [test-udp-receiver] prints. *)
Definition receiver_stats (totalPackets totalBytes elapsed : Z) : float64 * float64 * float64 :=
  let duration := Seconds elapsed in
  let packetsPerSec := count totalPackets / duration in
  let bytesPerSec := count totalBytes / duration in
  (packetsPerSec, bytesPerSec / kilo, bytesPerSec * float_of_int 8 / million).

(** ** The client's rates *)

(** The two rates of [Client.GetStats]; [uptime] is zero before the first connection. *)
Definition message_rates (m : Meters) (uptime : Z) : float64 * float64 :=
  if fltb fzero (Seconds uptime)
  then (count (messagesSent m) / Seconds uptime, count (messagesReceived m) / Seconds uptime)
  else (fzero, fzero).

(** ** Numbers *)

(** Zero or a positive finite number. *)
Definition number (x : float64) : Prop := ranged (-900) 800 x.

Lemma number_spec x : number x → is_nan x = false ∧ fltb x fzero = false ∧ (x = fzero ∨ ∃ m e, x = S754_finite false m e).
Proof.
  intros H. split_and!; [by eapply ranged_not_nan|by eapply ranged_nonneg|].
  destruct H as [->|H]; [by left|right; by eapply between_finite].
Qed.

(** A counter of 64 bits, and one that is not zero. *)
Definition word (n : Z) : Prop := (0 <= n < 2 ^ 64)%Z.

Ltac positive :=
  lazymatch goal with
  | H : between _ _ ?x |- between _ _ ?x => exact H
  | |- between _ _ (float_of_int ?n) => apply (float_of_int_between n 64); [unfold word in *; lia|lia]
  | |- between _ _ hundred => apply (float_of_int_between 100 64); lia
  | |- between _ _ kilo => apply (float_of_int_between 1024 64); lia
  | |- between _ _ million => apply (float_of_int_between 1000000 64); lia
  | |- between _ _ (fdiv _ _) => eapply fdiv_between; [positive|positive|lia|lia]
  end.
Ltac in_range :=
  lazymatch goal with
  | H : ranged _ _ ?x |- ranged _ _ ?x => exact H
  | |- ranged _ _ (fdiv _ _) => eapply fdiv_ranged; [in_range|positive|lia|lia]
  | |- ranged _ _ (fmul _ _) => eapply fmul_ranged; [in_range|positive|lia|lia]
  | |- ranged _ _ (float_of_int ?n) => apply (float_of_int_ranged n 64); [unfold word in *; lia|lia]
  | |- ranged _ _ _ => right; positive
  end.
Ltac is_number := unfold number; eapply ranged_weaken; [in_range|lia|lia].

(** A quotient by a count that may be zero. *)
Lemma over_zero : fzero / count 0 = S754_nan.
Proof. done. Qed.
Lemma over_zero_positive a b x : between a b x → x / count 0 = S754_infinity false.
Proof. intros H. by apply between_finite in H as (m & e & ->). Qed.

(** ** What the reports contain *)

(** The relay and the forwarder: once there is time elapsed a report is printed, and every
    figure of it is a number, zero or positive and finite, except the average frame size before the
    first frame: zero bytes over zero frames are not a number, while the error rate, which
    has the same divisor, is left out then. *)
Theorem frame_report_numbers n cli elapsed rep :
  word (TotalFrames n) → word (TotalBytes n) → word (ErrorCount n) → (0 < elapsed < 2 ^ 63)%Z →
  printStats n cli elapsed = Ret rep →
  ∃ r, rep = Some r ∧ number (fr_runtime r) ∧ number (fr_rate r) ∧ number (fr_total_mb r) ∧
    number (fr_mb_rate r) ∧ number (fr_bitrate r) ∧
    ((0 < TotalFrames n)%Z → number (fr_avg_size r) ∧ ∃ e, fr_error_rate r = Some e ∧ number e) ∧
    (TotalFrames n = 0%Z → fr_error_rate r = None ∧
       fr_avg_size r = if (TotalBytes n =? 0)%Z then S754_nan else S754_infinity false).
Proof.
  intros Hf Hb He Hel. unfold printStats. pose proof (Seconds_between elapsed Hel) as Hs.
  rewrite (between_not_zero _ _ _ Hs). intros Hrun.
  destruct (match cli with Some _ => _ | None => _ end) as [stats| |]; [|done..]. injection Hrun as <-.
  eexists. split; [done|]. cbn [fr_runtime fr_rate fr_total_mb fr_mb_rate fr_bitrate fr_avg_size fr_error_rate].
  split_and!; [is_number..| |].
  - intros Hpos. split; [is_number|]. rewrite (proj2 (Z.ltb_lt _ _)) by done. eexists. split; [done|]. is_number.
  - intros ->. split; [done|]. destruct (Z.eqb_spec (TotalBytes n) 0) as [->|Hne]; [done|].
    rewrite (over_zero_positive 1 65); [done|]. apply (float_of_int_between _ 64); unfold word in *; lia.
Qed.

Lemma frame_report_numbers_witness :
  ∃ r, printStats (mkCounters 300 307200 0) None (10 ^ 10) = Ret (Some r) ∧ fr_rate r = count 30 ∧ fr_avg_size r = count 1.
Proof.
  destruct (frame_report_numbers (mkCounters 300 307200 0) None (10 ^ 10)
              (match printStats (mkCounters 300 307200 0) None (10 ^ 10) with Ret x => x | _ => None end))
    as (r & E & _); [unfold word; cbn; lia..|lia|reflexivity|].
  exists r. rewrite <-E. split; [reflexivity|]. revert E. vm_compute. intros [= <-]. done.
Defined.

(** C33: The performance test: the interval report has an average only once a message has come;
    the final report divides by the number of publications without a test, so that with
    subscribers but no publication the delivery rate is not a number when nothing came
    and infinite when something did; the error rate, guarded by the number of errors, is
    infinite when every publication failed. Otherwise all figures are numbers. *)
Theorem final_report_numbers s published bytes config elapsed :
  word (st_messages s) → word (st_bytes s) → word (st_latency s) → word (st_min s) → word (st_max s) →
  word (st_errors s) → word published → word bytes → (0 < SubscriberCount config < 2 ^ 63)%Z → (0 < elapsed < 2 ^ 63)%Z →
  let r := printFinalStats s published bytes config elapsed in
  Forall number [fin_duration r; fin_published_mb r; fin_publish_rate r; fin_publish_throughput r; fin_received_mb r;
                 fin_message_rate r; fin_throughput r] ∧
  (∀ l, fin_latency r = Some l → Forall number [lr_min l; lr_max l; lr_avg l; lr_p99 l]) ∧
  (∃ a b, fin_per_subscriber r = Some (a, b) ∧ number a ∧ number b) ∧
  ((0 < published)%Z → number (fin_delivery_rate r) ∧ ∀ n e, fin_errors r = Some (n, e) → number e) ∧
  (published = 0%Z →
    fin_delivery_rate r = (if (st_messages s =? 0)%Z then S754_nan else S754_infinity false) ∧
    fin_errors r = (if (0 <? st_errors s)%Z then Some (st_errors s, S754_infinity false) else None)).
Proof.
  intros Hm Hb Hl Hmin Hmax He Hp Hpb Hc Hel. pose proof (Seconds_between elapsed Hel) as Hs. cbv zeta.
  unfold printFinalStats. cbn [fin_duration fin_published_mb fin_publish_rate fin_publish_throughput fin_received_mb fin_message_rate
    fin_throughput fin_latency fin_errors fin_per_subscriber fin_delivery_rate].
  assert (0 < SubscriberCount config < 2 ^ 64)%Z as Hc' by lia. split_and!.
  - rewrite !Forall_cons. split_and!; [is_number..|constructor].
  - intros l. destruct (Z.ltb_spec 0 (st_messages s)) as [Hpos|]; [|done]. intros [= <-].
    cbn [lr_min lr_max lr_avg lr_p99]. rewrite !Forall_cons. split_and!; [is_number..|constructor].
  - rewrite (proj2 (Z.ltb_lt _ _)) by lia. eexists _, _. split; [done|]. split; is_number.
  - intros Hpos. split; [is_number|]. intros n e. case_match; [|done]. intros [= _ <-]. is_number.
  - intros ->. split.
    + destruct (Z.eqb_spec (st_messages s) 0) as [->|Hne]; [done|].
      rewrite (over_zero_positive 1 65) by (apply (float_of_int_between _ 64); unfold word in *; lia).
      assert (between 1 65 (count (SubscriberCount config))) as Hb' by positive.
      by apply between_finite in Hb' as (m & e & ->).
    + destruct (Z.ltb_spec 0 (st_errors s)) as [Hpos|]; [|done]. do 2 f_equal.
      by rewrite (over_zero_positive 1 65) by (apply (float_of_int_between _ 64); unfold word in *; lia).
Qed.

Lemma final_report_numbers_witness :
  number (fin_delivery_rate (printFinalStats (mkStats 10 10240 100 5 20 0) 10 10240 (mkScenario 1024 1 1 1) (10 ^ 9))).
Proof.
  destruct (final_report_numbers (mkStats 10 10240 100 5 20 0) 10 10240 (mkScenario 1024 1 1 1) (10 ^ 9))
    as (_ & _ & _ & H & _); [unfold word; cbn; lia..|lia|].
  exact (proj1 (H ltac:(lia))).
Defined.

(** *** Jitter *)

Definition microseconds_of (d : Z) : Prop := (- 2 ^ 60 < Microseconds d < 2 ^ 60)%Z.

Lemma jitter_diff_number prev cur :
  microseconds_of prev → microseconds_of cur → ranged (-70) 70 (jitter_diff prev cur).
Proof.
  intros Hp Hc. unfold microseconds_of in *. unfold jitter_diff. set (d := (Microseconds cur - Microseconds prev)%Z).
  assert (- 2 ^ 62 < d < 2 ^ 62)%Z as Hd by lia.
  assert (∀ n, (1 <= n < 2 ^ 62)%Z → between (-70) 70 (count n / float_of_int 1000)) as Hq.
  { intros n Hn. eapply between_weaken; [eapply (fdiv_between 1 63 1 11)|..];
      [apply (float_of_int_between n 62); lia|apply (float_of_int_between 1000 10); lia|lia..]. }
  destruct (Z.lt_trichotomy d 0) as [Hneg|[->|Hpos]].
  - replace d with (- (- d))%Z by lia. rewrite float_of_int_opp, fdiv_opp by lia.
    specialize (Hq (- d)%Z ltac:(lia)). rewrite (between_negated _ _ _ Hq). right.
    by apply between_finite in Hq as Hf; destruct Hf as (m & e & E); rewrite E in Hq |- *.
  - left. done.
  - specialize (Hq d ltac:(lia)). rewrite (ranged_nonneg (-70) 70) by by right. by right.
Qed.

Lemma jitter_loop_number prev l acc b :
  microseconds_of prev → Forall microseconds_of l → ranged (-70) b acc → (70 <= b)%Z → (b + 2 * len l <= 800)%Z →
  ranged (-70) (b + 2 * len l) (jitter_loop prev l acc).
Proof.
  intros Hp Hl. revert prev acc b Hp. induction Hl as [|cur l Hc _ IH]; intros prev acc b Hp Hacc Hb Hlen; cbn [jitter_loop].
  - rewrite (len_nil (A:=Z)). eapply ranged_weaken; [done|lia|lia].
  - rewrite len_cons in Hlen |- *. pose proof (len_nonneg l).
    replace (b + 2 * (1 + len l))%Z with (b + 2 + 2 * len l)%Z by lia. apply IH; [done| |lia|lia].
    eapply ranged_weaken; [apply (fadd_ranged (-70) b (-70) 70); [done|by apply jitter_diff_number|lia|lia]|lia|lia].
Qed.

Lemma jitter_loop_constant prev l acc :
  Forall (λ r, r = prev) l → acc = fzero → jitter_loop prev l acc = fzero.
Proof.
  intros Hl. revert acc. induction Hl as [|x l -> _ IH]; intros acc ->; [done|]. cbn [jitter_loop]. apply IH.
  unfold jitter_diff. by rewrite Z.sub_diag.
Qed.

(** The ping test: for up to 300 round trips (the program sends 100) the jitter is a number,
    never negative, although it is summed up from differences of either sign; it is zero
    for fewer than two round trips and for round trips that are all the same. The loss rate is
    a number whenever at least one ping was sent and no more replies were counted than
    pings were sent. *)
Theorem ping_figures results sent :
  Forall microseconds_of results → (len results <= 300)%Z →
  number (calculateJitter results) ∧
  ((len results < 2)%Z → calculateJitter results = fzero) ∧
  (∀ r, Forall (λ x, x = r) results → calculateJitter results = fzero) ∧
  ((0 < sent < 2 ^ 63)%Z → (len results <= sent)%Z → number (lossRate sent (len results))).
Proof.
  intros Hr Hlen. split_and!.
  - destruct Hr as [|first rest Hf Hrest]; [by left|]. destruct Hrest as [|second rest Hs Hrest]; [by left|].
    unfold calculateJitter. rewrite !len_cons in *. pose proof (len_nonneg rest) as Hnn.
    unfold number. eapply ranged_weaken; [eapply fdiv_ranged|..];
      [apply (jitter_loop_number first (second :: rest) fzero 70)|
       apply (float_of_int_between _ 10); lia|..]; rewrite ?len_cons; try lia; [done|by constructor|by left].
  - intros Hshort. destruct results as [|a [|b l]]; [done|done|]. rewrite !len_cons in Hshort. pose proof (len_nonneg l). lia.
  - intros r Hall. destruct Hall as [|first rest -> Hrest]; [done|]. destruct rest as [|b l]; [done|].
    unfold calculateJitter. rewrite jitter_loop_constant by done. rewrite !len_cons. pose proof (len_nonneg l).
    assert (between 1 11 (count (1 + (1 + len l) - 1))) as Hb.
    { apply (float_of_int_between _ 10); [|lia]. rewrite !len_cons in Hlen. lia. }
    by apply between_finite in Hb as (m & e & ->).
  - intros Hs Hle. unfold lossRate. pose proof (len_nonneg results). is_number.
Qed.

Lemma ping_figures_witness : number (calculateJitter [10000000; 12000000; 11000000]%Z).
Proof.
  destruct (ping_figures [10000000; 12000000; 11000000]%Z 3) as [H _]; [|by vm_compute|exact H].
  repeat constructor.
Defined.

Example jitter_of_three : calculateJitter [10000000; 12000000; 11000000]%Z = float_of_int 3 / float_of_int 2.
Proof. by vm_compute. Qed.

(** *** Rates of the client *)

(** The counters of messages are never written, so both rates are zero at any time. *)
Theorem message_rates_zero now m uptime :
  new_meters now = Ret m → (0 <= uptime < 2 ^ 63)%Z → message_rates m uptime = (fzero, fzero).
Proof.
  unfold new_meters. destruct (newRingBuffer 1000) as [rb| |]; [|done..]. intros [= <-] Hu.
  unfold message_rates. cbn [messagesSent messagesReceived]. destruct (fltb fzero (Seconds uptime)) eqn:E; [|done].
  destruct (decide (uptime = 0%Z)) as [->|Hne]; [done|].
  pose proof (Seconds_between uptime ltac:(lia)) as Hs. by apply between_finite in Hs as (x & e & ->).
Qed.

Lemma message_rates_zero_witness :
  ∃ m, new_meters 0 = Ret m ∧ message_rates m (10 ^ 9) = (fzero, fzero).
Proof.
  destruct (new_meters 0) as [m| |] eqn:E; [|by vm_compute in E..]. exists m. split; [reflexivity|].
  apply (message_rates_zero 0 m (10 ^ 9) E). lia.
Defined.
