(* ===== verification/Scripts.v ===== *)
(** * Programs that use the client

    A small language for the example programs: a program runs against one client, calls its
    entry points, waits while the client's goroutines run, ends early with [log.Fatal] or an
    error, and has [defer]red calls. A program is a function on the state of the process that
    can fail, with a total-correctness predicate [wp] and one rule per construct; what the
    network and the scheduler do is in the arguments of each call. *)

From S2P Require Import Prelude GoStrings GoIO Protocol Subject RingBuffer Reconnect.
From S2P Require Import Client ClientLaws Crypto ClientAPI Relay.

(** ** The process *)

(** The client, and the channel of the program's [SubscribeChan] with the subscription whose
    callback fills it. *)
Record Proc := mkProc { cli : Client; chan : option (subid * user_chan) }.
Definition set_cli (c : Client) (p : Proc) : Proc := mkProc c (chan p).

(** What the client's goroutines do while the program waits: the receive loop dispatches a
    message, the processing goroutine of a subscription runs the callback, the heartbeat
    writes, the flags of the connection change. A lost connection is not re-dialled. *)
Inductive happening :=
| Incoming (msg : Protocol.Message)
| CallbackTurn (id : subid)
| HeartbeatTick (write_ok : bool)
| LinkChanges (l : Link).

(** The callback that belongs to the channel, on the oldest message of its subscription. *)
Definition fill_channel (id : subid) (p : Proc) : option (subid * user_chan) :=
  match chan p, subs (cli p) !! id with
  | Some (x, ch), Some s =>
      Some (x, match msgChan s with m :: _ => if decide (x = id) then chan_callback m ch else ch | [] => ch end)
  | o, _ => o
  end.

Definition happen (p : Proc) (e : happening) : Proc :=
  match e with
  | Incoming msg => set_cli (handleMessage msg (cli p)) p
  | CallbackTurn id => mkProc (upd_sub id process_one (cli p)) (fill_channel id p)
  | HeartbeatTick ok => set_cli (heartbeat_tick ok (cli p)) p
  | LinkChanges l => set_cli (set_link l (cli p)) p
  end.

(** ** Programs *)

Section language.
Context {CipherError DialError : Type}.

Inductive reason :=
| NoKey (e : key_error)
| NotConnected (e : connect_error (CipherError := CipherError) (DialError := DialError))
| NotSubscribed (e : client_error).

(** [log.Fatal] ends the process at once; a function that returns an error runs what it has
    deferred; [Running]: the program waits for something that has not happened yet. *)
Inductive stop := Fatal (r : reason) | ErrorReturn (r : reason) | Running.

Definition prog (A : Type) : Type := Proc → outcome ((A + stop) * Proc).

#[global] Instance prog_ret : MRet prog := λ A a p, Ret (inl a, p).
#[global] Instance prog_bind : MBind prog := λ A B f m p,
  do r ← m p;
  match r with (inl a, p) => f a p | (inr s, p) => Ret (inr s, p) end.

Definition throw {A} (s : stop) : prog A := λ p, Ret (inr s, p).
Definition or_stop {A} (abort : reason → stop) (x : A + client_error) : prog A :=
  match x with inl a => mret a | inr e => throw (abort (NotSubscribed e)) end.

(** [defer d], in front of the rest of its function. *)
Definition deferring {A} (d : Client → outcome Client) (body : prog A) : prog A := λ p,
  do r ← body p;
  match r with
  | (inr (Fatal why), p) => Ret (inr (Fatal why), p)
  | (inr Running, p) => Ret (inr Running, p)
  | (a, p) => do c ← d (cli p); Ret (a, set_cli c p)
  end.

(** [for i := i0; i < i0 + n; i++ { body }] *)
Fixpoint times (n : nat) (i : Z) (body : Z → prog unit) : prog unit :=
  match n with O => mret tt | S n => body i;; times n (i + 1) body end.

Definition wait (es : list happening) : prog unit := λ p, Ret (inl tt, foldl happen p es).
Definition the_client : prog Client := λ p, Ret (inl (cli p), p).

(** ** The calls *)

Definition publish (ctx_done write_ok : bool) (subj : gostring) (data : list byte) : prog (option client_error) :=
  λ p, let r := Publish ctx_done write_ok subj data (cli p) in Ret (inl r.1, set_cli r.2 p).

Definition subscribe (ctx_done : bool) (subj : gostring) (env : Z → round) : prog (subid + client_error) :=
  λ p, do r ← SubscribeWithContext ctx_done subj env (cli p); Ret (inl r.1, set_cli r.2 p).

Definition subscribe_chan (subj : gostring) (cap : Z) (env : Z → round) : prog (subid + client_error) :=
  λ p, do r ← SubscribeChan subj cap env (cli p);
       match r with
       | (inl (ch, id), c) => Ret (inl (inl id), mkProc c (Some (id, ch)))
       | (inr e, c) => Ret (inl (inr e), set_cli c p)
       end.

(** [case msg := <-msgChan]; [None]: the case is not ready. *)
Definition receive : prog (option Delivery) := λ p,
  match chan p with
  | Some (id, ch) =>
      match pending ch with
      | m :: q => Ret (inl (Some m), mkProc (cli p) (Some (id, mkChan q (capacity ch) (lost ch))))
      | [] => Ret (inl None, p)
      end
  | None => Ret (inl None, p)
  end.

(** [sub.Unsubscribe()], whose error is dropped, and [cli.Close()]. *)
Definition unsubscribing (id : subid) (write_ok : bool) (c : Client) : outcome Client :=
  do r ← Unsubscribe id false write_ok c; Ret r.2.
Definition closing (c : Client) : outcome Client := Ret (client_Close c).
Definition call (d : Client → outcome Client) : prog unit := λ p, do c ← d (cli p); Ret (inl tt, set_cli c p).

(** A function from the key on: [ConnectWithContext], the deferred [Close], the rest. *)
Definition connected_prog {A} (NewAESBlockCrypt : list byte → A + CipherError) (Dial : gostring → option DialError)
    {B} (abort : reason → stop) (key : list byte + key_error) (ctx_done : bool) (addr : gostring) (body : prog B) :
    outcome ((B + stop) * option Proc) :=
  match key with
  | inr e => Ret (inr (abort (NoKey e)), None)
  | inl key =>
      match ConnectWithContext NewAESBlockCrypt Dial ctx_done addr key with
      | inr e => Ret (inr (abort (NotConnected e)), None)
      | inl c =>
          do r ← deferring closing body (mkProc (Crypto.client c) None); Ret (r.1, Some r.2)
      end
  end.
End language.
Arguments reason : clear implicits.
Arguments stop : clear implicits.
Arguments prog : clear implicits.

(** The key of the programs without a configuration: from the environment; only
    [mustAES256Key] checks its length, which for the others [ConnectWithContext] does. *)
Definition environment_key (keyHex : gostring) : list byte + key_error :=
  if decide (keyHex = []) then inr KeyMissing
  else match DecodeString keyHex with inr e => inr (KeyInvalid e) | inl key => inl key end.
Definition mustAES256Key (keyHex : gostring) : list byte + key_error :=
  if decide (keyHex = []) then inr KeyMissing
  else match DecodeString keyHex with
       | inr e => inr (KeyInvalid e)
       | inl key => if negb (len key =? 32)%Z then inr (KeyLength (len key)) else inl key
       end.
