(* ===== verification/ScriptLaws.v ===== *)
(** * What the calls of a program do

    The rules of [wp], and for every call of [Scripts] what it writes and what becomes of the
    subscriptions the program holds: which messages each of them has taken. *)

From S2P Require Import Prelude GoStrings GoIO Protocol Subject RingBuffer Reconnect.
From S2P Require Import Client ClientLaws ClientSteps ClientFrames Crypto ClientAPI Relay Scripts.

(** ** Frames *)

Definition ping_frame : list byte := Encode (NewMessageCmd CmdPing [] []).
Definition sub_frame (subj : gostring) : list byte := Encode (NewMessageCmd CmdSub subj []).
Definition unsub_frame (subj : gostring) : list byte := Encode (NewMessageCmd CmdUnsub subj []).
Definition pub_frame (subj : gostring) (data : list byte) : list byte := Encode (NewMessageCmd CmdPub subj data).

(** Everything written but the heartbeats. *)
Definition talk (w : list (list byte)) : list (list byte) := filter (λ f, f ≠ ping_frame) w.

Lemma talk_app w1 w2 : talk (w1 ++ w2) = talk w1 ++ talk w2.
Proof. apply filter_app. Qed.
Lemma talk_ping : talk [ping_frame] = [].
Proof. done. Qed.
Lemma talk_frame cmd subj data : cmd ≠ CmdPing → talk [Encode (NewMessageCmd cmd subj data)] = [Encode (NewMessageCmd cmd subj data)].
Proof.
  intros Hc. unfold talk. rewrite filter_cons_True; [done|]. intros E. apply Hc.
  apply (f_equal (lookup 4%nat)) in E. unfold ping_frame in E. rewrite !Encode_layout in E. by injection E.
Qed.

(** ** Subscriptions a program holds *)

(** A subscription and the messages it has taken so far, handled or queued. *)
Record Held := mkHeld { h_id : subid; h_subject : gostring; h_cap : Z; h_got : list Delivery }.

Definition holds (c : Client) (h : Held) : Prop :=
  h_id h ∈ subscriptions c ∧
  ∃ s, subs c !! h_id h = Some s ∧ subject s = h_subject h ∧ chanCap s = h_cap h ∧ active s = true ∧
    closeOnce s = false ∧ handled s ++ msgChan s = h_got h.

(** The messages among those received that a subscription to [subj] is offered. *)
Definition matching (subj : gostring) (ms : list Protocol.Message) : list Delivery :=
  omap (λ m, if decide (Command m = CmdMsg) then
               if matchSubject subj (Protocol.Subject m) then Some (mkDelivery (Protocol.Subject m) (Payload m)) else None
             else None) ms.

Lemma matching_app subj ms1 ms2 : matching subj (ms1 ++ ms2) = matching subj ms1 ++ matching subj ms2.
Proof. apply omap_app. Qed.

(** [h] after [ms] were received: some of the matching ones were added, in order; all of
    them if there was room in any case. *)
Definition advanced (ms : list Protocol.Message) (h h' : Held) : Prop :=
  h_id h' = h_id h ∧ h_subject h' = h_subject h ∧ h_cap h' = h_cap h ∧
  ∃ acc, h_got h' = h_got h ++ acc ∧ acc `sublist_of` matching (h_subject h) ms ∧
    ((len (h_got h) + len (matching (h_subject h) ms) <= h_cap h)%Z → acc = matching (h_subject h) ms).

Lemma advanced_refl h : advanced [] h h.
Proof. split_and!; try done. exists []. by rewrite app_nil_r. Qed.

Lemma advanced_trans ms1 ms2 h h1 h2 : advanced ms1 h h1 → advanced ms2 h1 h2 → advanced (ms1 ++ ms2) h h2.
Proof.
  intros (E1 & E2 & E3 & acc1 & G1 & S1 & A1) (F1 & F2 & F3 & acc2 & G2 & S2 & A2).
  split_and!; [congruence..|]. exists (acc1 ++ acc2). rewrite matching_app. rewrite E2 in S2, A2.
  split_and!; [by rewrite G2, G1, <-app_assoc|by apply sublist_app|].
  rewrite len_app. intros Hroom. pose proof (len_nonneg (matching (h_subject h) ms2)).
  rewrite A1 in * by lia. rewrite A2; [done|]. rewrite G1, len_app, E3. lia.
Qed.

(** What a part of a program does to the client: [fs] is written besides heartbeats, [ms]
    are received meanwhile, and the subscriptions held are still held. *)
Record goes (ms : list Protocol.Message) (fs : list (list byte)) (c c' : Client) : Prop := {
  go_ok : client_ok c';
  go_conn : ∀ w, conn c = Some w → ∃ w', conn c' = Some w' ∧ talk w' = talk w ++ fs;
  go_once : clientCloseOnce c' = clientCloseOnce c;
  go_held : ∀ h, holds c h → ∃ h', holds c' h' ∧ advanced ms h h';
}.

Lemma goes_refl c : client_ok c → goes [] [] c c.
Proof.
  constructor; [done| |done|].
  - intros w Hw. exists w. by rewrite app_nil_r.
  - intros h Hh. exists h. by split; [|apply advanced_refl].
Qed.

Lemma goes_trans ms1 ms2 fs1 fs2 c1 c2 c3 :
  goes ms1 fs1 c1 c2 → goes ms2 fs2 c2 c3 → goes (ms1 ++ ms2) (fs1 ++ fs2) c1 c3.
Proof.
  intros [A1 A2 A3 A4] [B1 B2 B3 B4]. constructor; [done| |congruence|].
  - intros w Hw. destruct (A2 w Hw) as (w1 & Hw1 & E1). destruct (B2 w1 Hw1) as (w2 & Hw2 & E2).
    exists w2. split; [done|]. by rewrite E2, E1, app_assoc.
  - intros h Hh. destruct (A4 h Hh) as (h1 & Hh1 & D1). destruct (B4 h1 Hh1) as (h2 & Hh2 & D2).
    exists h2. split; [done|]. by eapply advanced_trans.
Qed.

(** A part that touches no subscription. *)
Lemma goes_apart fs c c' :
  client_ok c' → subs c' = subs c → subscriptions c' = subscriptions c → clientCloseOnce c' = clientCloseOnce c →
  (∀ w, conn c = Some w → ∃ w', conn c' = Some w' ∧ talk w' = talk w ++ fs) → goes [] fs c c'.
Proof.
  intros Hok Hs Hl Ho Hw. constructor; try done. intros h Hh. exists h. split; [|apply advanced_refl].
  unfold holds. by rewrite Hs, Hl.
Qed.

(** ** Receiving *)

Lemma holds_keep c c' h h' ms :
  subscriptions c' = subscriptions c → holds c h → advanced ms h h' →
  (∀ s, subs c !! h_id h = Some s → subject s = h_subject h → chanCap s = h_cap h → active s = true → closeOnce s = false →
     handled s ++ msgChan s = h_got h → ∃ s', subs c' !! h_id h = Some s' ∧ subject s' = subject s ∧ chanCap s' = chanCap s ∧
       active s' = true ∧ closeOnce s' = false ∧ handled s' ++ msgChan s' = h_got h') → holds c' h'.
Proof.
  intros Hl (Hin & s & Hs & H1 & H2 & H3 & H4 & H5) (E1 & E2 & E3 & _) Hk.
  destruct (Hk s) as (s' & Hs' & F1 & F2 & F3 & F4 & F5); [done..|].
  split; [by rewrite E1, Hl|]. exists s'. rewrite E1, E2, E3. split_and!; congruence.
Qed.

Lemma offered_got m s :
  active s = true → chanClosed s = false →
  let s' := offered m s in
  subject s' = subject s ∧ chanCap s' = chanCap s ∧ active s' = true ∧ closeOnce s' = closeOnce s ∧
  handled s' ++ msgChan s' = handled s ++ msgChan s ++
    (if matchSubject (subject s) (msgSubject m) && (len (msgChan s) <? chanCap s)%Z then [m] else []).
Proof.
  intros Ha Hc. unfold offered. rewrite Ha. cbn [andb]. destruct (matchSubject _ _); cbn [andb]; [|by rewrite app_nil_r].
  rewrite (TryEnqueue_open m s Ha Hc). destruct (_ <? _)%Z; cbn; [done|]. by rewrite app_nil_r.
Qed.

Lemma handleMessage_goes msg c : client_ok c → goes [msg] [] c (handleMessage msg c).
Proof.
  intros Hc. pose proof (handleMessage_ok msg c Hc) as Hok. unfold handleMessage in *.
  assert (∀ p, goes [msg] [] c (confirm p c) ∨ Command msg = CmdMsg) as Hconfirm.
  { intros p. destruct (decide (Command msg = CmdMsg)) as [|Hno]; [by right|left].
    constructor; [by apply client_ok_confirm|intros w Hw; exists w; by rewrite confirm_conn, app_nil_r| |].
    - unfold confirm. by destruct (pendingSubs c !! p).
    - intros h Hh. exists h. split; [unfold holds; rewrite confirm_subs; unfold confirm; by destruct (pendingSubs c !! p)|].
      split_and!; try done. exists []. cbn. rewrite decide_False by done. by rewrite app_nil_r. }
  destruct (decide (Command msg = CmdMsg)) as [Hmsg|Hno].
  - set (d := mkDelivery _ _) in *. destruct (deliver_all_spec d _ c (cl_nodup c Hc)) as [Hs E].
    rewrite E in Hok |- *. set (m := subs _) in *.
    constructor; [done|intros w Hw; exists w; by rewrite app_nil_r|done|].
    intros h Hh. pose proof Hh as (Hin & s & Hl & H1 & H2 & H3 & H4 & H5).
    pose proof (active_open c _ s Hc Hl H3) as Hcl.
    destruct (offered_got d s H3 Hcl) as (F1 & F2 & F3 & F4 & F5).
    assert (handled (offered d s) ++ msgChan (offered d s) = h_got h ++
      (if matchSubject (subject s) (msgSubject d) && (len (msgChan s) <? chanCap s)%Z then [d] else [])) as Hgot
      by (rewrite F5, app_assoc; by f_equal).
    exists (mkHeld (h_id h) (h_subject h) (h_cap h) (handled (offered d s) ++ msgChan (offered d s))).
    assert (advanced [msg] h (mkHeld (h_id h) (h_subject h) (h_cap h) (handled (offered d s) ++ msgChan (offered d s)))) as Hadv.
    { split_and!; try done. eexists. split; [exact Hgot|]. unfold matching. cbn [omap list_omap].
      rewrite decide_True by done. fold d. rewrite <-H1. cbn [msgSubject d].
      destruct (matchSubject (subject s) (Protocol.Subject msg)); cbn [andb]; [|by split; [apply sublist_nil_l|]].
      destruct (Z.ltb_spec (len (msgChan s)) (chanCap s)) as [|Hfull]; [by split|]. split; [apply sublist_nil_l|].
      rewrite <-H5, H2 in *. rewrite len_app, len_cons, len_nil. pose proof (len_nonneg (handled s)). lia. }
    split; [|exact Hadv]. eapply (holds_keep c); [done|exact Hh|exact Hadv|].
    intros s0 Hs0 ? ? ? ? ?. rewrite Hl in Hs0. injection Hs0 as <-. exists (offered d s). cbn [subs set_subs h_got].
    split_and!; try done; [|congruence]. unfold m. rewrite Hs, decide_True by done. by rewrite Hl.
  - assert (∀ p, goes [msg] [] c (confirm p c)) as Hcf by (intros p; by destruct (Hconfirm p)).
    assert (goes [msg] [] c c) as Hsame.
    { constructor; [done|intros w Hw; exists w; by rewrite app_nil_r|done|]. intros h Hh. exists h. split; [done|].
      split_and!; try done. exists []. cbn. rewrite decide_False by done. by rewrite app_nil_r. }
    repeat case_match; done.
Qed.

Lemma receive_all_goes ms c : client_ok c → goes ms [] c (receive_all ms c).
Proof.
  revert c. induction ms as [|m ms IH]; intros c Hc; [by apply goes_refl|].
  apply (goes_trans [m] ms [] [] _ (handleMessage m c)); [by apply handleMessage_goes|].
  apply IH. by apply handleMessage_ok.
Qed.

(** ** Waiting *)

Lemma process_one_once s : closeOnce (process_one s) = closeOnce s.
Proof. unfold process_one. by destruct (msgChan s). Qed.

Lemma process_goes id c : client_ok c → goes [] [] c (upd_sub id process_one c).
Proof.
  intros Hc. constructor.
  - apply client_ok_upd; [|done]. intros s _ Hs. unfold process_one. destruct (msgChan s) eqn:E; [done|].
    destruct Hs as [H1 H2]. rewrite E, len_cons in H1. constructor; cbn; [lia|done].
  - intros w Hw. exists w. by rewrite app_nil_r.
  - done.
  - intros h Hh. exists h. split; [|apply advanced_refl].
    apply (holds_keep c _ h h []); [done|done|apply advanced_refl|].
    intros s Hs H1 H2 H3 H4 H5. cbn [subs upd_sub set_subs]. destruct (decide (id = h_id h)) as [->|Hne].
    + rewrite lookup_alter_eq, Hs. destruct (process_one_keeps s) as (E & Esh & _ & Ecap). injection Esh as E1 E2 _.
      exists (process_one s). rewrite process_one_once. split_and!; [done|congruence..].
    + rewrite lookup_alter_ne by done. by exists s.
Qed.

Lemma heartbeat_goes ok c : client_ok c → goes [] [] c (heartbeat_tick ok c).
Proof.
  intros Hc. unfold heartbeat_tick. destruct (conn c) as [l|] eqn:Hl; [destruct ok|];
    (apply goes_apart; [by auto with client|done|done|done|]); rewrite Hl; intros w [= <-].
  - cbn. rewrite Hl. eexists. split; [reflexivity|]. by rewrite talk_app.
  - exists l. cbn. by rewrite app_nil_r.
Qed.

Lemma link_goes l c : client_ok c → goes [] [] c (set_link l c).
Proof.
  intros Hc. apply goes_apart; [by auto with client|done..|]. intros w Hw. exists w. by rewrite app_nil_r.
Qed.

(** The messages that arrive while a program waits. *)
Definition arriving (es : list happening) : list Protocol.Message :=
  omap (λ e, match e with Incoming m => Some m | _ => None end) es.

Lemma happen_goes e p : client_ok (cli p) → goes (arriving [e]) [] (cli p) (cli (happen p e)).
Proof.
  intros Hc. destruct e; cbn; [by apply handleMessage_goes|by apply process_goes|by apply heartbeat_goes|by apply link_goes].
Qed.

Lemma wait_goes es p : client_ok (cli p) → goes (arriving es) [] (cli p) (cli (foldl happen p es)).
Proof.
  revert p. induction es as [|e es IH]; intros p Hc; [by apply goes_refl|]. cbn [foldl].
  pose proof (happen_goes e p Hc) as He.
  change (e :: es) with ([e] ++ es). unfold arriving. rewrite omap_app.
  eapply (goes_trans _ _ [] []); [exact He|]. apply IH. apply He.
Qed.

(** ** Publishing *)

(** Whether a publication goes out. *)
Definition publishes (ctx_done write_ok : bool) (subj : gostring) (data : list byte) : bool :=
  negb ctx_done && write_ok && (len subj <=? MaxSubjectLen)%Z && (1 + 2 + len subj + len data <=? MaxBodyLen)%Z.

Lemma Publish_goes ctx ok subj data c :
  client_ok c → is_Some (conn c) →
  goes [] (if publishes ctx ok subj data then [pub_frame subj data] else []) c (Publish ctx ok subj data c).2 ∧
  ((Publish ctx ok subj data c).1 = None ↔ publishes ctx ok subj data = true) ∧
  ((Publish ctx ok subj data c).1 = Some ErrContext ↔ ctx = true).
Proof.
  intros Hc [l Hl]. unfold publishes, Publish.
  assert (∀ l' e n, goes [] [] c (set_link l' (set_errors e n c)) ∧ goes [] [] c (set_errors e n c)) as Hquiet.
  { intros l' e n. split; (apply goes_apart; [by auto with client|done..|]); intros w Hw; exists w; by rewrite app_nil_r. }
  destruct ctx; cbn [negb andb]; [split; [by apply goes_refl|by split_and!]|].
  rewrite !Z.leb_antisym, Hl.
  destruct (MaxSubjectLen <? len subj)%Z; cbn [negb andb]; rewrite ?andb_false_r; cbn [fst snd andb];
    [split; [exact (proj2 (Hquiet (link c) _ _))|by split_and!]|].
  destruct (MaxBodyLen <? _)%Z; cbn [negb andb]; rewrite ?andb_false_r; cbn [fst snd andb];
    [split; [exact (proj2 (Hquiet (link c) _ _))|by split_and!]|].
  destruct ok; cbn [fst snd andb]; (split; [|by split_and!]); [|exact (proj1 (Hquiet _ _ _))].
  apply goes_apart; [by auto with client|done..|]. intros w Hw. cbn. rewrite Hw. eexists. split; [reflexivity|].
  rewrite talk_app. f_equal. by apply talk_frame.
Qed.

(** ** Unsubscribing and closing *)

Lemma Unsubscribe_same_subjects id cb ok c e c' : Unsubscribe id cb ok c = Ret (e, c') → same_subjects c c'.
Proof.
  unfold Unsubscribe. intros Hu. destruct (subs c !! id) as [s|]; [|done].
  destruct (closeOnce s); [by injection Hu as <- <-|].
  assert (∀ f g, (∀ s, subject (f s) = subject s) → (∀ s, subject (g s) = subject s) →
    same_subjects c (upd_sub id f (upd_sub id g (upd_sub id set_once c)))) as Hall.
  { intros f g Hf Hg. repeat (eapply same_subjects_trans; [|by apply same_subjects_upd]). by apply same_subjects_refl. }
  destruct (active s); cbn [negb] in Hu; [|injection Hu as <- <-; by apply same_subjects_upd].
  destruct (chanClosed s); [done|]. destruct cb; [done|]. cbv zeta in Hu.
  specialize (Hall (λ s, drain (close_chan s)) (set_active false) (λ s, drain_subject (close_chan s)) (λ s, eq_refl)).
  destruct (conn _); [destruct ok|]; injection Hu as <- <-; exact Hall.
Qed.

Lemma unsubscribing_goes h w ok c :
  client_ok c → holds c h → conn c = Some w →
  ∃ c', unsubscribing (h_id h) ok c = Ret c' ∧ client_ok c' ∧ clientCloseOnce c' = clientCloseOnce c ∧
    conn c' = Some (w ++ (if ok then [unsub_frame (h_subject h)] else [])) ∧
    (∀ g, holds c g → h_id g ≠ h_id h → holds c' g) ∧
    ∃ s, subs c' !! h_id h = Some s ∧ subject s = h_subject h ∧ handled s = h_got h ∧ msgChan s = [] ∧ active s = false ∧ chanClosed s = true.
Proof.
  intros Hc (Hin & s & Hs & H1 & H2 & H3 & H4 & H5) Hw. unfold unsubscribing.
  destruct (Unsubscribe_run c _ s w ok Hc Hs H4 H3 Hw) as (c' & s' & E & Hc' & Hs' & Hoth & F1 & F2 & F3 & F4 & F5 & F6 & _).
  rewrite E. cbn [obind snd]. exists c'. split_and!; try done.
  - unfold Unsubscribe in E. repeat case_match; simplify_eq; done.
  - rewrite F6. unfold unsub_frame. by rewrite H1.
  - intros g (Gin & x & Hx & Hg) Hne. split; [|exists x; by rewrite Hoth].
    rewrite F5. destruct ok; [|done]. apply elem_of_remove_id; [apply (cl_nodup c Hc)|done].
  - exists s'. split_and!; try done; [|by rewrite F1].
    apply Unsubscribe_same_subjects in E. specialize (E (h_id h)). rewrite Hs, Hs' in E. cbn in E. congruence.
Qed.

(** ** Subscribing *)

Lemma discard_once id c c' : discard id c = Ret c' → clientCloseOnce c' = clientCloseOnce c.
Proof. unfold discard. intros Hd. cbv zeta in Hd. repeat case_match; by simplify_eq. Qed.

Lemma begin_once attempt subj cap ok c b c' :
  subscribe_begin attempt subj cap ok c = Ret (b, c') → clientCloseOnce c' = clientCloseOnce c.
Proof.
  intros Hb. unfold subscribe_begin in Hb. cbv zeta in Hb.
  set (c0 := if (0 <? attempt)%Z then drop_old_ack subj c else c) in *.
  assert (clientCloseOnce c0 = clientCloseOnce c) as <-.
  { unfold c0, drop_old_ack, confirm. destruct (0 <? attempt)%Z; [by destruct (pendingSubs c !! subj)|done]. }
  clearbody c0. cbn [new_subscription register_ack] in Hb.
  destruct (conn _); [destruct ok|]; [by injection Hb as <- <-| |by injection Hb as <- <-].
  destruct (discard _ _) as [d| |] eqn:Hd; [|done..]. injection Hb as <- <-. by apply discard_once in Hd as ->.
Qed.

Lemma begin_goes attempt subj cap ok c b c' :
  (0 < cap)%Z → client_ok c → is_Some (conn c) → subscribe_begin attempt subj cap ok c = Ret (b, c') →
  match b with
  | Waiting id _ => id = fresh c ∧ goes [] [sub_frame subj] c c' ∧ holds c' (mkHeld id subj cap [])
  | Failed _ => goes [] [] c c'
  end.
Proof.
  intros Hcap Hc [l Hl] Hb.
  pose proof (begin_once _ _ _ _ _ _ _ Hb) as Hcl.
  destruct (subscribe_begin_spec attempt subj cap ok c Hcap Hc) as (b' & d & E & Hd & Hspec).
  rewrite Hb in E. injection E as <- <-. pose proof (subscribe_begin_others attempt subj cap ok c b c') as Hoth.
  assert (∀ h x, subscriptions c' = subscriptions c ++ x → holds c h → holds c' h) as Hold.
  { intros h x Hx (Hin & s & Hs & H). pose proof (cl_subs c Hc _ _ Hs) as [Hlt _].
    split; [rewrite Hx; set_solver|]. exists s. rewrite Hoth by (done || lia). done. }
  destruct b as [id ack|e].
  - destruct Hspec as (_ & -> & _ & (l' & Hl' & Hw) & Hlist & Hs & _). rewrite Hl in Hl'. injection Hl' as <-.
    split_and!; [done| |].
    + constructor; [done| |done|].
      * rewrite Hl. intros w [= <-]. eexists. split; [exact Hw|]. rewrite talk_app. f_equal. by apply talk_frame.
      * intros h Hh. exists h. split; [by eapply Hold|apply advanced_refl].
    + split; [cbn; rewrite Hlist; set_solver|]. eexists. split; [exact Hs|]. done.
  - destruct Hspec as (Hw & [(E & _)|(_ & _ & _ & Hlist & _)]); [congruence|].
    constructor; [done| |done|].
    + rewrite Hw. intros w Hw'. exists w. by rewrite app_nil_r.
    + intros h Hh. exists h. split; [|apply advanced_refl]. apply (Hold h []); [by rewrite app_nil_r|done].
Qed.

Lemma end_goes subj id w c e c' :
  client_ok c → subs c !! id ≠ None → subscribe_end subj id w c = Ret (e, c') →
  client_ok c' →
  match e with
  | inl id' => id' = id ∧ c' = c
  | inr _ => conn c' = conn c ∧ clientCloseOnce c' = clientCloseOnce c ∧ ∀ h, holds c h → h_id h ≠ id → holds c' h
  end.
Proof.
  intros Hc Hid He Hc'.
  assert (∀ d, discard id (forget_pending subj c) = Ret d → conn d = conn c ∧ clientCloseOnce d = clientCloseOnce c ∧
    ∀ h, holds c h → h_id h ≠ id → holds d h) as Hdisc.
  { intros d Hd. destruct (subs c !! id) as [s|] eqn:Hs; [|done].
    assert (∀ x, x ≠ id → subs d !! x = subs c !! x) as Hsub by (intros x Hx; by rewrite (discard_others _ _ _ x Hd)).
    unfold discard in Hd. cbv zeta in Hd. repeat case_match; simplify_eq. split_and!; [done..|].
    intros h (Hin & y & Hy & Hrest) Hne. split; [|exists y; by rewrite Hsub].
    cbn. apply elem_of_remove_id; [apply (cl_nodup c Hc)|done]. }
  destruct w; cbn [subscribe_end] in He; [by injection He as <- <-|..|by injection He as <- <-];
    (destruct (discard _ _) as [d| |] eqn:Hd; [|done..]; injection He as <- <-; by apply Hdisc).
Qed.

Lemma attempts_goes n k subj cap env e c :
  (0 < cap)%Z → client_ok c → is_Some (conn c) →
  ∃ res c' j ms, subscribe_attempts n k subj cap env e c = Ret (res, c') ∧ (j <= n)%nat ∧
    goes ms (replicate j (sub_frame subj)) c c' ∧
    match res with
    | inl id => (1 <= j)%nat ∧ (∃ got, holds c' (mkHeld id subj cap got)) ∧ (∀ h, holds c h → h_id h ≠ id)
    | inr _ => True
    end.
Proof.
  intros Hcap. revert k e c. induction n as [|n IH]; intros k e c Hc Hconn; cbn [subscribe_attempts].
  { eexists _, _, 0%nat, []. split; [reflexivity|]. split_and!; [lia|by apply goes_refl|done]. }
  destruct (r_ctx (env k)).
  { eexists _, _, 0%nat, []. split; [reflexivity|]. split_and!; [lia|by apply goes_refl|done]. }
  destruct (subscribe_begin_spec k subj cap (r_write (env k)) c Hcap Hc) as (b & c1 & Eb & Hc1 & Hb).
  pose proof (begin_goes _ _ _ _ _ _ _ Hcap Hc Hconn Eb) as Hgo. rewrite Eb. cbn [obind].
  assert (∀ h, holds c h → h_id h ≠ fresh c) as Hfresh.
  { intros h (_ & s & Hs & _). pose proof (cl_subs c Hc _ _ Hs) as [Hlt _]. lia. }
  destruct b as [id ack|e1].
  - destruct Hgo as (-> & Hgo & Hnew). set (ms := r_received (env k)).
    pose proof (receive_all_goes ms c1 Hc1) as Hrec. pose proof (goes_trans _ _ _ _ _ _ _ Hgo Hrec) as Hgo2. cbn [app] in Hgo2.
    destruct (go_held _ _ _ _ Hrec _ Hnew) as (hn & Hhn & Hadv).
    set (c2 := receive_all ms c1) in *. pose proof Hhn as (_ & s & Hs & Hs1 & _ & Hs3 & _).
    destruct Hadv as (Ei & Es & Ec & _). cbn in Ei, Es, Ec. rewrite Ei in Hs.
    pose proof (go_ok _ _ _ _ Hrec) as Hc2.
    destruct (subscribe_end_spec subj (fresh c) (r_wake (env k)) c2 s Hc2 Hs) as (r & c3 & Er & Hc3 & Hconn3 & _).
    { unfold shape. by rewrite (active_open c2 _ s Hc2 Hs Hs3), Hs1, Es, Hs3. }
    rewrite Er. cbn [obind]. pose proof (end_goes _ _ _ _ _ _ Hc2 ltac:(by rewrite Hs) Er Hc3) as Hend.
    assert (r = inl (fresh c) ∧ c3 = c2 ∨ goes ms [sub_frame subj] c c3) as [[-> ->]|Hgo3].
    { destruct r as [id'|r]; [left; destruct Hend as [-> ->]; done|right]. destruct Hend as (D1 & D2 & D3).
      constructor; [done|by rewrite D1; apply Hgo2|rewrite D2; apply Hgo2|]. intros h Hh.
      destruct (go_held _ _ _ _ Hgo2 h Hh) as (h' & Hh' & Hadv'). exists h'. split; [|done]. apply D3; [done|].
      rewrite (proj1 Hadv'). by apply Hfresh. }
    + eexists _, _, 1%nat, ms. split; [reflexivity|]. split_and!; [lia|exact Hgo2|lia| |exact Hfresh].
      exists (h_got hn). destruct hn; cbn in *; by subst.
    + assert (is_Some (conn c3)) as Hsome.
      { destruct Hconn as [w Hw]. destruct (go_conn _ _ _ _ Hgo3 w Hw) as (w' & Hw' & _). by exists w'. }
      destruct r as [id'|[e1|]].
      * destruct Hend as [-> ->]. eexists _, _, 1%nat, ms. split; [reflexivity|].
        split_and!; [lia|exact Hgo2|lia| |exact Hfresh]. exists (h_got hn). destruct hn; cbn in *; by subst.
      * eexists _, _, 1%nat, ms. split; [reflexivity|]. split_and!; [lia|exact Hgo3|done].
      * destruct (IH (k + 1)%Z ErrAckTimeout c3 Hc3 Hsome) as (res & c4 & j & ms2 & E4 & Hj & Hgo4 & Hres).
        exists res, c4, (S j), (ms ++ ms2). split; [done|]. split_and!; [lia|by apply (goes_trans _ _ _ _ _ _ _ Hgo3 Hgo4)|].
        destruct res as [id|]; [|done]. destruct Hres as (_ & Hg & Hne). split_and!; [lia|done|].
        intros h Hh. destruct (go_held _ _ _ _ Hgo3 h Hh) as (h' & Hh' & Hadv'). rewrite <-(proj1 Hadv'). by apply Hne.
  - assert (is_Some (conn c1)) as Hsome.
    { destruct Hconn as [w Hw]. destruct (go_conn _ _ _ _ Hgo w Hw) as (w' & Hw' & _). by exists w'. }
    destruct (IH (k + 1)%Z e1 c1 Hc1 Hsome) as (res & c4 & j & ms2 & E4 & Hj & Hgo4 & Hres).
    exists res, c4, j, ms2. split; [done|]. split_and!; [lia|by apply (goes_trans _ _ _ _ _ _ _ Hgo Hgo4)|].
    destruct res as [id|]; [|done]. destruct Hres as (Hj1 & Hg & Hne). split_and!; [lia|done|].
    intros h Hh. destruct (go_held _ _ _ _ Hgo h Hh) as (h' & Hh' & Hadv'). rewrite <-(proj1 Hadv'). by apply Hne.
Qed.

(** ** A program at work *)

(** A subscription that was ended: its callback has had every message it took. *)
Definition finished (c : Client) (h : Held) : Prop :=
  ∃ s, subs c !! h_id h = Some s ∧ subject s = h_subject h ∧ handled s = h_got h ∧ msgChan s = [] ∧
    active s = false ∧ chanClosed s = true.

(** [l]: what the program has written; [held]: its subscriptions, oldest first; [fin]: those
    it has ended. *)
Record at_work (l : list (list byte)) (held fin : list Held) (p : Proc) : Prop := {
  aw_ok : client_ok (cli p);
  aw_conn : ∃ w, conn (cli p) = Some w ∧ talk w = l;
  aw_open : clientCloseOnce (cli p) = false;
  aw_nodup : NoDup (map h_id held);
  aw_held : Forall (holds (cli p)) held;
  aw_fin : Forall (finished (cli p)) fin;
}.

Lemma new_at_work o : at_work [] [] [] (mkProc new_client o).
Proof. constructor; try done; [apply new_client_ok|by exists []|constructor]. Qed.

Lemma at_work_conn l held fin p : at_work l held fin p → is_Some (conn (cli p)).
Proof. intros [_ (w & Hw & _) _ _ _ _]. by exists w. Qed.

(** An ended subscription is not touched by what leaves ended subscriptions alone. *)
Definition spares (c c' : Client) : Prop :=
  ∀ id s, subs c !! id = Some s → active s = false → msgChan s = [] → subs c' !! id = Some s.
Lemma spares_finished c c' fin : spares c c' → Forall (finished c) fin → Forall (finished c') fin.
Proof.
  intros Hsp Hf. eapply Forall_impl; [exact Hf|]. intros h (s & Hs & H1 & H2 & H3 & H4 & H5).
  exists s. by rewrite (Hsp _ s).
Qed.
Lemma spares_same c c' : subs c' = subs c → spares c c'.
Proof. by intros E id s; rewrite E. Qed.
Lemma spares_trans c1 c2 c3 : spares c1 c2 → spares c2 c3 → spares c1 c3.
Proof. intros H1 H2 id s Hs Ha Hm. by apply H2; [apply H1| |]. Qed.

Lemma handleMessage_spares msg c : client_ok c → spares c (handleMessage msg c).
Proof.
  intros Hc. unfold handleMessage. destruct (decide (Command msg = CmdMsg)).
  - destruct (deliver_all_spec (mkDelivery (Protocol.Subject msg) (Payload msg)) _ c (cl_nodup c Hc)) as [Hs _].
    intros id s Hid Ha _. rewrite Hs, Hid. case_decide; [|done]. cbn. unfold offered. by rewrite Ha.
  - repeat case_match; apply spares_same; rewrite ?confirm_subs; done.
Qed.

Lemma happen_spares e p : client_ok (cli p) → spares (cli p) (cli (happen p e)).
Proof.
  intros Hc. destruct e; cbn; [by apply handleMessage_spares| |apply spares_same|by apply spares_same].
  - intros x s Hs Ha Hm. cbn [subs upd_sub set_subs]. destruct (decide (id = x)) as [->|]; [|by rewrite lookup_alter_ne].
    rewrite lookup_alter_eq, Hs. cbn. unfold process_one. by rewrite Hm.
  - unfold heartbeat_tick. destruct (conn (cli p)); [by destruct write_ok|done].
Qed.

Lemma at_work_goes l held fin ms fs p c o :
  at_work l held fin p → goes ms fs (cli p) c → spares (cli p) c →
  ∃ held', at_work (l ++ fs) held' fin (mkProc c o) ∧ Forall2 (advanced ms) held held'.
Proof.
  intros [Hok (w & Hw & Hl) Ho Hn Hh Hf] Hgo Hsp.
  assert (∃ held', Forall2 (advanced ms) held held' ∧ Forall (holds c) held') as (held' & Hadv & Hh').
  { clear Hn. induction Hh as [|h held Hx _ IH]; [by exists []|]. destruct IH as (held' & H1 & H2).
    destruct (go_held _ _ _ _ Hgo h Hx) as (h' & Hh' & Ha). exists (h' :: held'). by split; constructor. }
  exists held'. split; [|done]. constructor; cbn [cli]; [apply Hgo| |by rewrite (go_once _ _ _ _ Hgo)| |done|].
  - destruct (go_conn _ _ _ _ Hgo w Hw) as (w' & Hw' & E). exists w'. by rewrite E, Hl.
  - replace (map h_id held') with (map h_id held); [done|]. clear -Hadv. induction Hadv as [|h h' ? ? [E _] _ IH]; [done|].
    cbn. by rewrite E, IH.
  - by eapply spares_finished.
Qed.

Lemma at_work_wait es l held fin p :
  at_work l held fin p →
  ∃ held', at_work l held' fin (foldl happen p es) ∧ Forall2 (advanced (arriving es)) held held'.
Proof.
  intros Hp. pose proof (wait_goes es p (aw_ok _ _ _ _ Hp)) as Hgo.
  assert (∀ p, client_ok (cli p) → spares (cli p) (cli (foldl happen p es))) as Hsp.
  { clear. induction es as [|e es IH]; intros p Hc; [by apply spares_same|]. cbn [foldl].
    eapply spares_trans; [by apply happen_spares|]. apply IH. by apply (go_ok _ _ _ _ (happen_goes e p Hc)). }
  destruct (at_work_goes _ _ _ _ _ p _ (chan (foldl happen p es)) Hp Hgo (Hsp p (aw_ok _ _ _ _ Hp))) as (held' & H1 & H2).
  exists held'. rewrite app_nil_r in H1. split; [|done]. by destruct (foldl happen p es).
Qed.

Lemma at_work_publish ctx ok subj data l held fin p :
  at_work l held fin p →
  let r := Publish ctx ok subj data (cli p) in
  at_work (l ++ if publishes ctx ok subj data then [pub_frame subj data] else []) held fin (set_cli r.2 p) ∧
  (r.1 = None ↔ publishes ctx ok subj data = true) ∧ (r.1 = Some ErrContext ↔ ctx = true).
Proof.
  intros Hp. cbv zeta. destruct (Publish_goes ctx ok subj data _ (aw_ok _ _ _ _ Hp) (at_work_conn _ _ _ _ Hp)) as (Hgo & Hres).
  split; [|exact Hres]. destruct Hp as [Hok (w & Hw & Hl) Ho Hn Hh Hf]. constructor; cbn [cli set_cli]; [apply Hgo| |by rewrite (go_once _ _ _ _ Hgo)|done| |].
  - destruct (go_conn _ _ _ _ Hgo w Hw) as (w' & Hw' & E). exists w'. by rewrite E, Hl.
  - eapply Forall_impl; [exact Hh|]. intros h Hx. unfold holds. rewrite Publish_subs. unfold Publish. by repeat case_match.
  - eapply spares_finished; [|exact Hf]. apply spares_same, Publish_subs.
Qed.

Lemma receive_all_spares ms c : client_ok c → spares c (receive_all ms c).
Proof.
  revert c. induction ms as [|m ms IH]; intros c Hc; [by apply spares_same|].
  eapply spares_trans; [by apply (handleMessage_spares m)|]. apply IH. by apply handleMessage_ok.
Qed.

Lemma discard_client_ok id c c' : client_ok c → discard id c = Ret c' → client_ok c'.
Proof.
  intros Hc Hd. destruct (subs c !! id) as [s|] eqn:Hs; [destruct (chanClosed s) eqn:Hcl|].
  - unfold discard in Hd. cbv zeta in Hd. cbn [subs upd_sub set_subs removeSubscription set_sub_list] in Hd.
    rewrite lookup_alter_eq, Hs in Hd. cbn in Hd. by rewrite Hcl in Hd.
  - destruct (discard_run id s c Hc Hs Hcl) as (d & E & Hok & _). congruence.
  - unfold discard in Hd. cbv zeta in Hd. cbn [subs upd_sub set_subs removeSubscription set_sub_list] in Hd.
    rewrite lookup_alter_eq, Hs in Hd. done.
Qed.

Lemma end_spares subj id w c e c' :
  subscribe_end subj id w c = Ret (e, c') → ∀ x, x ≠ id → subs c' !! x = subs c !! x.
Proof.
  intros He x Hx. destruct w; cbn [subscribe_end] in He; try (by injection He as <- <-);
    (destruct (discard _ _) as [d| |] eqn:Hd; [|done..]; injection He as <- <-; by rewrite (discard_others _ _ _ x Hd)).
Qed.

Lemma attempts_spares n k subj cap env e c res c' :
  (0 < cap)%Z → client_ok c → subscribe_attempts n k subj cap env e c = Ret (res, c') → spares c c'.
Proof.
  intros Hcap. revert k e c. induction n as [|n IH]; intros k e c Hc; cbn [subscribe_attempts]; [by intros [= <- <-]; apply spares_same|].
  destruct (r_ctx (env k)); [by intros [= <- <-]; apply spares_same|].
  destruct (subscribe_begin_spec k subj cap (r_write (env k)) c Hcap Hc) as (b & c1 & Eb & Hc1 & Hb). rewrite Eb. cbn [obind].
  assert (spares c c1 ∧ ∀ c2, (∀ x, x ≠ fresh c → subs c2 !! x = subs c !! x) → spares c c2) as [Hsp1 Hsp].
  { assert (∀ c2, (∀ x, x ≠ fresh c → subs c2 !! x = subs c !! x) → spares c c2) as Hsp.
    { intros c2 H2 x s Hs _ _. rewrite H2; [done|]. pose proof (cl_subs c Hc _ _ Hs) as [? _]. lia. }
    split; [|exact Hsp]. apply Hsp. intros x Hx. by apply (subscribe_begin_others _ _ _ _ _ _ _ _ Eb). }
  destruct b as [id ack|e1]; [|intros Hr; eapply spares_trans; [exact Hsp1|by eapply IH]].
  destruct Hb as (_ & -> & _). destruct (receive_all_ok (r_received (env k)) c1 Hc1) as [Hc2 _].
  set (c2 := receive_all _ c1) in *. pose proof (receive_all_spares (r_received (env k)) c1 Hc1) as Hsp2. fold c2 in Hsp2.
  destruct (subscribe_end subj (fresh c) (r_wake (env k)) c2) as [[r c3]| |] eqn:Er; [|done..]. cbn [obind].
  assert (spares c c3) as Hsp3.
  { intros x s Hs Ha Hm. pose proof (cl_subs c Hc _ _ Hs) as [Hlt _].
    rewrite (end_spares _ _ _ _ _ _ Er) by lia. apply Hsp2; [by apply Hsp1|done|done]. }
  assert (client_ok c3) as Hc3.
  { destruct (r_wake (env k)) eqn:Ew; cbn [subscribe_end] in Er; try (by injection Er as <- <-);
      (destruct (discard _ _) as [d| |] eqn:Hd; [|done..]; injection Er as <- <-;
       by apply (discard_client_ok _ _ _ (client_ok_forget subj _ Hc2) Hd)). }
  destruct r as [id'|[e1|]]; [by intros [= <- <-]..|]. intros Hr. eapply spares_trans; [exact Hsp3|by eapply IH].
Qed.

Lemma options_goes subj cap env l held fin p :
  (0 < cap)%Z → at_work l held fin p →
  ∃ res c', SubscribeWithOptions subj cap env (cli p) = Ret (res, c') ∧
  ∃ j held' ms, (j <= 3)%nat ∧ Forall2 (advanced ms) held held' ∧
    match res with
    | inl id => (1 <= j)%nat ∧ ∃ got, ∀ o, at_work (l ++ replicate j (sub_frame subj)) (held' ++ [mkHeld id subj cap got]) fin (mkProc c' o)
    | inr _ => ∀ o, at_work (l ++ replicate j (sub_frame subj)) held' fin (mkProc c' o)
    end.
Proof.
  intros Hcap Hp. unfold SubscribeWithOptions. rewrite (proj2 (Z.leb_gt _ _)) by done.
  assert (Forall2 (advanced []) held held) as Hrefl.
  { clear. induction held as [|h held IH]; constructor; [apply advanced_refl|done]. }
  destruct (MaxSubjectLen <? len subj)%Z.
  { eexists _, _. split; [reflexivity|]. exists 0%nat, held, []. split_and!; [lia|done|]. intros o. rewrite app_nil_r. by destruct Hp. }
  pose proof Hp as [Hok _ _ Hn Hh _].
  destruct (attempts_goes 3 0 subj cap env ErrNoConnection (cli p) Hcap Hok (at_work_conn _ _ _ _ Hp)) as (res & c' & j & ms & E & Hj & Hgo & Hres).
  pose proof (attempts_spares _ _ _ _ _ _ _ _ _ Hcap Hok E) as Hsp.
  exists res, c'. split; [done|].
  destruct (at_work_goes _ _ _ _ _ p c' None Hp Hgo Hsp) as (held' & Hw & Hadv).
  exists j, held', ms. split_and!; [done..|]. destruct res as [id|e]; [|by intros o; destruct Hw].
  destruct Hres as (Hj1 & (got & Hg) & Hne). split; [done|]. exists got. intros o. destruct Hw as [H1 H2 H3 H4 H5 H6].
  constructor; try done; [|by apply Forall_app_2; [|constructor]].
  rewrite map_app. apply NoDup_snoc; [done|]. cbn. intros (h' & Eh & Hin)%list_elem_of_fmap.
  apply list_elem_of_lookup in Hin as [i Hi]. destruct (Forall2_lookup_r _ _ _ _ _ Hadv Hi) as (h & Hi' & Ha & _).
  rewrite Forall_lookup in Hh. apply (Hne h); [by eapply Hh|congruence].
Qed.

Lemma at_work_subscribe ctx subj env l held fin p :
  at_work l held fin p →
  ∃ res c', SubscribeWithContext ctx subj env (cli p) = Ret (res, c') ∧
  ∃ j held' ms, (j <= 3)%nat ∧ Forall2 (advanced ms) held held' ∧
    match res with
    | inl id => (1 <= j)%nat ∧ ∃ got, at_work (l ++ replicate j (sub_frame subj)) (held' ++ [mkHeld id subj 100 got]) fin (set_cli c' p)
    | inr _ => at_work (l ++ replicate j (sub_frame subj)) held' fin (set_cli c' p)
    end.
Proof.
  intros Hp. unfold SubscribeWithContext. destruct ctx.
  - eexists _, _. split; [reflexivity|]. exists 0%nat, held, []. split_and!; [lia| |].
    + clear. induction held as [|h held IH]; constructor; [apply advanced_refl|done].
    + rewrite app_nil_r. by destruct p.
  - destruct (options_goes subj 100 env l held fin p ltac:(lia) Hp) as (res & c' & E & j & held' & ms & Hj & Hadv & Hres).
    exists res, c'. split; [done|]. exists j, held', ms. split_and!; [done..|]. destruct res as [id|e]; [|apply Hres].
    destruct Hres as (H1 & got & H2). split; [done|]. exists got. apply H2.
Qed.

Lemma at_work_subscribe_chan subj cap env l held fin p :
  (0 < cap)%Z → at_work l held fin p →
  ∃ res c', SubscribeChan subj cap env (cli p) = Ret (res, c') ∧
  ∃ j held' ms, (j <= 3)%nat ∧ Forall2 (advanced ms) held held' ∧
    match res with
    | inl (ch, id) => ch = mkChan [] cap 0 ∧ (1 <= j)%nat ∧
        ∃ got, ∀ o, at_work (l ++ replicate j (sub_frame subj)) (held' ++ [mkHeld id subj cap got]) fin (mkProc c' o)
    | inr _ => ∀ o, at_work (l ++ replicate j (sub_frame subj)) held' fin (mkProc c' o)
    end.
Proof.
  intros Hcap Hp. unfold SubscribeChan. rewrite (proj2 (Z.leb_gt _ _)) by done.
  destruct (options_goes subj cap env l held fin p Hcap Hp) as (res & c' & E & j & held' & ms & Hj & Hadv & Hres).
  rewrite E. cbn [obind]. destruct res as [id|e].
  - destruct Hres as (H1 & got & H2). eexists _, _. split; [reflexivity|]. exists j, held', ms. split_and!; eauto.
  - eexists _, _. split; [reflexivity|]. exists j, held', ms. by split_and!.
Qed.

Lemma at_work_unsubscribe ok l held1 h held2 fin p :
  at_work l (held1 ++ h :: held2) fin p →
  ∃ c, unsubscribing (h_id h) ok (cli p) = Ret c ∧ ∀ o,
    at_work (l ++ if ok then [unsub_frame (h_subject h)] else []) (held1 ++ held2) (h :: fin) (mkProc c o).
Proof.
  intros [Hok (w & Hw & Hl) Ho Hn Hh Hf]. apply Forall_app in Hh as [Hh1 [Hx Hh2]%Forall_cons].
  destruct (unsubscribing_goes h w ok (cli p) Hok Hx Hw) as (c & E & Hc & Hco & Hcw & Hoth & Hfin).
  rewrite map_app in Hn. cbn [map] in Hn. apply NoDup_app in Hn as (Hn1 & Hd & [Hx2 Hn2]%NoDup_cons).
  exists c. split; [done|]. intros o. constructor; cbn [cli]; [done| |congruence| | |].
  - eexists. split; [exact Hcw|]. rewrite talk_app, Hl. f_equal. destruct ok; [by apply talk_frame|done].
  - rewrite map_app. apply NoDup_app. split_and!; [done| |done]. intros x Hx1 Hx3. apply (Hd x Hx1). by right.
  - rewrite Forall_app, !Forall_forall in *. split; intros g Hg; (apply Hoth; [by auto|]); intros E'.
    + apply (Hd (h_id g)); [by apply list_elem_of_fmap_2|]. rewrite E'. left.
    + apply Hx2. rewrite <-E'. by apply list_elem_of_fmap_2.
  - constructor; [done|]. eapply spares_finished; [|exact Hf]. intros x s Hs Ha Hm.
    unfold unsubscribing in E. destruct (Unsubscribe _ _ _ _) as [[e d]| |] eqn:Eu; [|done..]. injection E as <-.
    rewrite (Unsubscribe_others _ _ _ _ _ _ x Eu); [done|]. intros ->.
    destruct Hx as (_ & y & Hy & _ & _ & Hya & _). rewrite Hs in Hy. injection Hy as <-. congruence.
Qed.

(** Closing the client under a program: the subscriptions it still holds are not ended, and
    nothing is written for them. *)
Definition closed_client (l : list (list byte)) (fin : list Held) (c : Client) : Prop :=
  client_ok c ∧ (∃ w, conn c = Some w ∧ talk w = l) ∧ clientCloseOnce c = true ∧ subscriptions c = [] ∧
  Forall (finished c) fin.

Lemma client_Close_lists c : clientCloseOnce c = false → subscriptions (client_Close c) = [] ∧ clientCloseOnce (client_Close c) = true.
Proof.
  intros Ho. unfold client_Close. rewrite Ho. split; [done|]. cbn.
  by rewrite client_close_rest.
Qed.

Lemma at_work_close l held fin p :
  at_work l held fin p → closed_client l fin (client_Close (cli p)) ∧
  (∀ h ok, h ∈ held → ∃ c, unsubscribing (h_id h) ok (client_Close (cli p)) = Ret c ∧ closed_client l fin c).
Proof.
  intros [Hok (w & Hw & Hl) Ho Hn Hh Hf]. set (c := client_Close (cli p)).
  assert (client_ok c) as Hc by (by apply client_Close_client).
  destruct (client_Close_lists (cli p) Ho) as [Hlist Honce]. fold c in Hlist, Honce.
  assert (conn c = Some w) as Hcw by (by unfold c; rewrite client_Close_conn).
  assert (Forall (finished c) fin) as Hfin.
  { eapply spares_finished; [|exact Hf]. intros id s Hs Ha _. unfold c. rewrite (client_Close_sub _ _ s) by done.
    case_decide; [|done]. f_equal. destruct s; cbn in *. by rewrite Ha. }
  split; [by split_and!; eauto|]. intros h ok Hin. rewrite Forall_forall in Hh.
  destruct (Hh h Hin) as (Hl' & s & Hs & H1 & H2 & H3 & H4 & H5).
  assert (subs c !! h_id h = Some (set_active false s)) as Hs'.
  { unfold c. rewrite (client_Close_sub _ _ s) by done. by rewrite decide_True. }
  unfold unsubscribing, Unsubscribe. rewrite Hs'. cbn [closeOnce set_active active negb]. rewrite H4. cbn [obind snd].
  eexists. split; [reflexivity|]. split_and!; try done; [|by exists w|].
  - apply client_ok_upd; [|done]. intros x _ []. by constructor.
  - eapply Forall_impl; [exact Hfin|]. intros g (x & Hx & Hg). destruct (decide (h_id h = h_id g)) as [Eq|Hne].
    + exfalso. rewrite <-Eq, Hs' in Hx. injection Hx as <-. destruct Hg as (_ & _ & _ & _ & Hcl).
      cbn in Hcl. pose proof (active_open _ _ _ Hok Hs H3). congruence.
    + exists x. cbn [subs upd_sub set_subs]. by rewrite lookup_alter_ne.
Qed.

(** ** Total correctness *)

Section rules.
Context {CE DE : Type}.
Implicit Types (p : Proc) (l : list (list byte)) (held fin : list Held).

(** The part [m] of a program neither panics nor blocks, and ends as [Q] says. *)
Definition wp {A} (m : prog CE DE A) (Q : A + stop CE DE → Proc → Prop) (p : Proc) : Prop :=
  match m p with Ret (r, p') => Q r p' | _ => False end.

(** What follows a part that has ended normally. *)
Definition next {A B} (f : A → prog CE DE B) (Q : B + stop CE DE → Proc → Prop) (r : A + stop CE DE) (p : Proc) : Prop :=
  match r with inl a => wp (f a) Q p | inr s => Q (inr s) p end.

Lemma wp_ret {A} (a : A) (Q : A + stop CE DE → Proc → Prop) p : Q (inl a) p → wp (mret a) Q p.
Proof. done. Qed.
Lemma wp_throw {A} s (Q : A + stop CE DE → Proc → Prop) p : Q (inr s) p → wp (throw s) Q p.
Proof. done. Qed.
Lemma wp_bind {A B} (m : prog CE DE A) (f : A → prog CE DE B) Q p : wp m (next f Q) p → wp (m ≫= f) Q p.
Proof. unfold wp, mbind, prog_bind. destruct (m p) as [[[a|s] p']| |]; done. Qed.
Lemma wp_mono {A} (m : prog CE DE A) (Q Q' : A + stop CE DE → Proc → Prop) p :
  wp m Q p → (∀ r p, Q r p → Q' r p) → wp m Q' p.
Proof. unfold wp. destruct (m p) as [[r p']| |]; [|done..]. intros H H'. by apply H'. Qed.

(** What a deferred call has to establish once the function's body is over. *)
Definition afterwards {A} (d : Client → outcome Client) (Q : A + stop CE DE → Proc → Prop) (r : A + stop CE DE) (p : Proc) : Prop :=
  match r with
  | inr (Fatal _) | inr Running => Q r p
  | _ => ∃ c, d (cli p) = Ret c ∧ Q r (set_cli c p)
  end.
Lemma wp_deferring {A} d (m : prog CE DE A) Q p : wp m (afterwards d Q) p → wp (deferring d m) Q p.
Proof.
  unfold wp, deferring. destruct (m p) as [[[a|[w|w|]] p']| |]; cbn; try done; intros (c & E & H); rewrite E; done.
Qed.

(** A loop, with an invariant. *)
Lemma wp_times (I : Z → Proc → Prop) (Q : unit + stop CE DE → Proc → Prop) n i body p :
  I i p →
  (∀ k p, (i <= k < i + Z.of_nat n)%Z → I k p → wp (body k) (λ r p', match r with inl _ => I (k + 1)%Z p' | inr s => Q (inr s) p' end) p) →
  (∀ p, I (i + Z.of_nat n)%Z p → Q (inl tt) p) → wp (times n i body) Q p.
Proof.
  revert i p. induction n as [|n IH]; intros i p Hi Hbody Hq; cbn [times].
  - apply wp_ret, Hq. by rewrite Z.add_0_r.
  - apply wp_bind. eapply wp_mono; [apply Hbody; [lia|done]|]. intros [[]|s] p' Hr; [|exact Hr]. cbn [next].
    apply IH; [done| |].
    + intros k q Hk. apply Hbody. lia.
    + intros q Hq'. apply Hq. by replace (i + Z.of_nat (S n))%Z with (i + 1 + Z.of_nat n)%Z by lia.
Qed.

(** ** The calls *)

Lemma wp_wait es l held fin (Q : unit + stop CE DE → Proc → Prop) p :
  at_work l held fin p →
  (∀ held' p', at_work l held' fin p' → Forall2 (advanced (arriving es)) held held' → Q (inl tt) p') →
  wp (wait es) Q p.
Proof.
  intros Hp HQ. destruct (at_work_wait es _ _ _ _ Hp) as (held' & H1 & H2). by apply (HQ held').
Qed.

Lemma wp_publish ctx ok subj data l held fin (Q : option client_error + stop CE DE → Proc → Prop) p :
  at_work l held fin p →
  (∀ e p', at_work (l ++ if publishes ctx ok subj data then [pub_frame subj data] else []) held fin p' → chan p' = chan p →
     (e = None ↔ publishes ctx ok subj data = true) → (e = Some ErrContext ↔ ctx = true) → Q (inl e) p') →
  wp (publish ctx ok subj data) Q p.
Proof.
  intros Hp HQ. destruct (at_work_publish ctx ok subj data _ _ _ _ Hp) as (H1 & H2 & H3). by apply HQ.
Qed.

Lemma wp_subscribe ctx subj env l held fin (Q : (subid + client_error) + stop CE DE → Proc → Prop) p :
  at_work l held fin p →
  (∀ id got held' ms j p', (1 <= j <= 3)%nat → Forall2 (advanced ms) held held' →
     at_work (l ++ replicate j (sub_frame subj)) (held' ++ [mkHeld id subj 100 got]) fin p' → Q (inl (inl id)) p') →
  (∀ e held' ms j p', (j <= 3)%nat → Forall2 (advanced ms) held held' →
     at_work (l ++ replicate j (sub_frame subj)) held' fin p' → Q (inl (inr e)) p') →
  wp (subscribe ctx subj env) Q p.
Proof.
  intros Hp H1 H2. unfold wp, subscribe.
  destruct (at_work_subscribe ctx subj env _ _ _ _ Hp) as (res & c & E & j & held' & ms & Hj & Hadv & Hres).
  rewrite E. cbn. destruct res as [id|e]; [|by eapply H2].
  destruct Hres as (Hj1 & got & Hw). eapply (H1 id got held' ms j); [lia|done|exact Hw].
Qed.

Lemma wp_subscribe_chan subj cap env l held fin (Q : (subid + client_error) + stop CE DE → Proc → Prop) p :
  (0 < cap)%Z → at_work l held fin p →
  (∀ id got held' ms j p', (1 <= j <= 3)%nat → Forall2 (advanced ms) held held' → chan p' = Some (id, mkChan [] cap 0) →
     at_work (l ++ replicate j (sub_frame subj)) (held' ++ [mkHeld id subj cap got]) fin p' → Q (inl (inl id)) p') →
  (∀ e held' ms j p', (j <= 3)%nat → Forall2 (advanced ms) held held' →
     at_work (l ++ replicate j (sub_frame subj)) held' fin p' → Q (inl (inr e)) p') →
  wp (subscribe_chan subj cap env) Q p.
Proof.
  intros Hcap Hp H1 H2. unfold wp, subscribe_chan.
  destruct (at_work_subscribe_chan subj cap env _ _ _ _ Hcap Hp) as (res & c & E & j & held' & ms & Hj & Hadv & Hres).
  rewrite E. cbn. destruct res as [[ch id]|e]; [|by eapply (H2 _ _ _ _ _ Hj Hadv), Hres].
  destruct Hres as (-> & Hj1 & got & Hw). eapply (H1 id got held' ms j); [lia|done|done|apply Hw].
Qed.

Lemma wp_receive l held fin (Q : option Delivery + stop CE DE → Proc → Prop) p :
  at_work l held fin p → (∀ m p', at_work l held fin p' → Q (inl m) p') → wp receive Q p.
Proof.
  intros Hp HQ. unfold wp, receive. destruct (chan p) as [[id ch]|]; [|by apply HQ].
  destruct (pending ch); apply HQ; [done|]. by destruct Hp.
Qed.

Lemma wp_unsubscribe (ok : bool) l held1 h held2 fin (Q : unit + stop CE DE → Proc → Prop) p :
  at_work l (held1 ++ h :: held2) fin p →
  (∀ p', at_work (l ++ if ok then [unsub_frame (h_subject h)] else []) (held1 ++ held2) (h :: fin) p' → Q (inl tt) p') →
  wp (call (unsubscribing (h_id h) ok)) Q p.
Proof.
  intros Hp HQ. destruct (at_work_unsubscribe ok _ _ _ _ _ _ Hp) as (c & E & Hw).
  unfold wp, call. rewrite E. apply HQ, Hw.
Qed.

(** The key of an environment: unless it is one of 32 bytes, no program connects. *)
Lemma mustAES256Key_startup keyHex : mustAES256Key keyHex = startup_key [] keyHex.
Proof. unfold mustAES256Key, startup_key. by case_decide as E; [rewrite decide_True|rewrite decide_False]. Qed.

Lemma wp_connected {BC} (aes : list byte → BC + CE) (Dial : gostring → option DE) {A} abort key ctx addr
    (body : prog CE DE A) (Q : A + stop CE DE → Proc → Prop) :
  (wp body (afterwards closing Q) (mkProc new_client None)) →
  (∃ why, connected_prog aes Dial abort key ctx addr body = Ret (inr (abort why), None)) ∨
  (∃ k r p, key = inl k ∧ len k = 32%Z ∧ connected_prog aes Dial abort key ctx addr body = Ret (r, Some p) ∧ Q r p).
Proof.
  intros Hbody. unfold connected_prog. destruct key as [k|e]; [|left; by eexists].
  unfold ConnectWithContext. destruct ctx; [left; by eexists|].
  destruct (newAES256BlockCrypt aes k) as [b|e] eqn:Ek; [|left; by eexists].
  destruct (Dial addr) as [e|]; [left; by eexists|]. right.
  apply wp_deferring in Hbody. unfold wp in Hbody. cbn [Crypto.client].
  destruct (deferring closing body (mkProc new_client None)) as [[r p]| |] eqn:E; [|done..].
  exists k, r, p. cbn. split_and!; [done|by apply (newAES256_key _ _ _ Ek)|done|done].
Qed.
End rules.
