(* ===== verification/Examples.v ===== *)
(** * The example programs ([src/examples])

    The publisher, the subscriber, [debug_sub] and the demonstration of contexts, as programs
    in the sense of [Scripts]. A record per program says what its environment does: whether contexts are done, which
    writes succeed, what the client's goroutines do while it waits. *)

From S2P Require Import Prelude GoStrings GoIO Protocol Subject RingBuffer Reconnect.
From S2P Require Import Client ClientLaws ClientSteps ClientFrames Crypto ClientAPI Relay Scripts ScriptLaws.

Section programs.
Context {BC CE DE : Type} (NewAESBlockCrypt : list byte → BC + CE) (Dial : gostring → option DE).
Abbreviation script := (prog CE DE).
Abbreviation ending A := (outcome ((A + stop CE DE) * option Proc)).

(** The start of most programs: the key of the environment, [client.Connect], which has no
    deadline, [defer cli.Close()]. *)
Definition connected_main {A} (keyHex : gostring) (addr : string) (body : script A) : ending A :=
  connected_prog NewAESBlockCrypt Dial Fatal (environment_key keyHex) false (str addr) body.

(** [sub, err := ...; if err != nil { log.Fatal }; defer sub.Unsubscribe()] and the rest. *)
Definition subscribed {A} (subscribing : script (subid + client_error)) (unsub_ok : bool) (rest : subid → script A) : script A :=
  r ← subscribing;
  id ← or_stop Fatal r;
  deferring (unsubscribing id unsub_ok) (rest id).

(** ** [publisher] *)

(** A tick: the clock's text, the outcomes of the two writes, and what happened before it. *)
Record tick := mkTick { t_before : list happening; t_now : gostring; t_ok : bool; t_foo_ok : bool }.

Definition hello_message (n : Z) (now : gostring) : gostring := str "Message #" ++ itoa n ++ str " at " ++ now.
Definition foo_message (n : Z) : gostring := str "Foo message #" ++ itoa n.

Definition publisher_turn (messageCount : Z) (t : tick) : script unit :=
  wait (t_before t);;
  err ← publish false (t_ok t) (str "test.hello") (hello_message messageCount (t_now t));
  match err with
  | Some _ => mret tt
  | None =>
      if (Z.rem messageCount 10 =? 0)%Z
      then _ ← publish false (t_foo_ok t) (str "foo.bar") (foo_message messageCount); mret tt
      else mret tt
  end.

(** [for range ticker.C]: it never ends. *)
Fixpoint publisher_loop (messageCount : Z) (ticks : list tick) : script unit :=
  match ticks with
  | [] => throw Running
  | t :: ticks =>
      let messageCount := int64 (messageCount + 1) in
      publisher_turn messageCount t;; publisher_loop messageCount ticks
  end.

Definition publisher_main (keyHex : gostring) (ticks : list tick) : ending unit :=
  connected_main keyHex "localhost:4000" (publisher_loop 0 ticks).

(** ** [subscriber] *)

(** The environments of the three subscribing calls, what happens until the signal, and the
    outcomes of the three writes at the end. *)
Record subscriber_env := mkSubscriberEnv {
  se_test : Z → round; se_foo : Z → round; se_all : Z → round;
  se_signal : option (list happening);     (** [None]: the signal does not come *)
  se_unsub_test : bool; se_unsub_foo : bool; se_unsub_all : bool;
}.

Definition wait_for (o : option (list happening)) : script unit :=
  match o with Some es => wait es | None => throw Running end.

Definition subscriber_main (keyHex : gostring) (env : subscriber_env) : ending (subid * subid * subid) :=
  connected_main keyHex "localhost:4000"
    (subscribed (subscribe false (str "test.hello") (background (se_test env))) (se_unsub_test env) (λ testSub,
     subscribed (subscribe false (str "foo.*") (background (se_foo env))) (se_unsub_foo env) (λ fooSub,
     subscribed (subscribe false (str "test.>") (background (se_all env))) (se_unsub_all env) (λ allTestSub,
     wait_for (se_signal env);; mret (testSub, fooSub, allTestSub))))).

(** ** [debug_sub] *)

Record debug_env := mkDebugEnv {
  de_sub : Z → round; de_before : list happening; de_ok : bool; de_after : list happening; de_unsub : bool;
}.

(** The result is what is printed: the outcome of publishing and the number of active
    subscriptions. *)
Definition debug_main (keyHex : gostring) (env : debug_env) : ending (subid * option client_error * Z) :=
  connected_main keyHex "localhost:4000"
    (subscribed (subscribe false (str "video.stream") (background (de_sub env))) (de_unsub env) (λ sub,
     wait (de_before env);;
     err ← publish false (de_ok env) (str "video.stream") (str "test message");
     wait (de_after env);;
     c ← the_client;
     mret (sub, err, ActiveSubscriptions c))).

(** ** [context_usage] *)

Record context_env := mkContextEnv {
  ce_connect_done : bool;                  (** the first context has expired *)
  ce_sub_done : bool; ce_sub : Z → round;
  ce_settle : list happening;
  ce_pub_done : Z → bool; ce_pub_ok : Z → bool; ce_pause : Z → list happening;
  ce_process : list happening;
  ce_cancel : Z → round;                   (** of the subscription that may be cancelled *)
  ce_unsub2 : bool; ce_unsub : bool;
}.

Definition demo_text (i : Z) : gostring := str "消息 " ++ itoa i.

Definition context_publish (env : context_env) (i : Z) : script unit :=
  _ ← publish (ce_pub_done env i) (ce_pub_ok env i) (str "demo.hello") (demo_text i);
  wait (ce_pause env i).

(** The result: whether the cancelled publication was refused with the context's error. *)
Definition context_main (keyHex : gostring) (env : context_env) : ending (subid * bool) :=
  connected_prog NewAESBlockCrypt Dial Fatal (environment_key keyHex) (ce_connect_done env) (str "localhost:4000")
    (subscribed (subscribe (ce_sub_done env) (str "demo.*") (ce_sub env)) (ce_unsub env) (λ sub,
     wait (ce_settle env);;
     times 5 1 (context_publish env);;
     wait (ce_process env);;
     r ← subscribe false (str "cancel.*") (ce_cancel env);
     match r with inl sub2 => call (unsubscribing sub2 (ce_unsub2 env)) | inr _ => mret tt end;;
     err ← publish true true (str "fast.fail") (str "不会被发送");
     call closing;;
     mret (sub, bool_decide (err = Some ErrContext)))).
End programs.

(** ** Rules for these programs *)

Section rules.
Context {CE DE : Type}.
Abbreviation post A := (A + stop CE DE → Proc → Prop).

Lemma wp_subscribed {A} ctx subj env ok (rest : subid → prog CE DE A) l held fin (Q : post A) p :
  at_work l held fin p →
  (∀ id got held' ms j p', (1 <= j <= 3)%nat → Forall2 (advanced ms) held held' →
     at_work (l ++ replicate j (sub_frame subj)) (held' ++ [mkHeld id subj 100 got]) fin p' →
     wp (rest id) (afterwards (unsubscribing id ok) Q) p') →
  (∀ e held' j p', (j <= 3)%nat → at_work (l ++ replicate j (sub_frame subj)) held' fin p' →
     Q (inr (Fatal (NotSubscribed e))) p') →
  wp (subscribed (subscribe ctx subj env) ok rest) Q p.
Proof.
  intros Hp H1 H2. unfold subscribed. apply wp_bind. eapply wp_subscribe; [exact Hp|..].
  - intros id got held' ms j p' Hj Hadv Hw. cbn [next or_stop]. apply wp_bind, wp_ret. cbn [next].
    apply wp_deferring. by eapply H1.
  - intros e held' ms j p' Hj _ Hw. cbn [next or_stop]. apply wp_bind, wp_throw. cbn [next]. by eapply H2.
Qed.

Lemma wp_subscribed_chan {A} subj cap env ok (rest : subid → prog CE DE A) l held fin (Q : post A) p :
  (0 < cap)%Z → at_work l held fin p →
  (∀ id got held' ms j p', (1 <= j <= 3)%nat → Forall2 (advanced ms) held held' → chan p' = Some (id, mkChan [] cap 0) →
     at_work (l ++ replicate j (sub_frame subj)) (held' ++ [mkHeld id subj cap got]) fin p' →
     wp (rest id) (afterwards (unsubscribing id ok) Q) p') →
  (∀ e held' j p', (j <= 3)%nat → at_work (l ++ replicate j (sub_frame subj)) held' fin p' →
     Q (inr (Fatal (NotSubscribed e))) p') →
  wp (subscribed (subscribe_chan subj cap env) ok rest) Q p.
Proof.
  intros Hcap Hp H1 H2. unfold subscribed. apply wp_bind. eapply wp_subscribe_chan; [exact Hcap|exact Hp|..].
  - intros id got held' ms j p' Hj Hadv Hch Hw. cbn [next or_stop]. apply wp_bind, wp_ret. cbn [next].
    apply wp_deferring. by eapply H1.
  - intros e held' ms j p' Hj _ Hw. cbn [next or_stop]. apply wp_bind, wp_throw. cbn [next]. by eapply H2.
Qed.

(** The deferred calls of a function that has come to its end. *)
Lemma end_unsubscribe {A} (ok : bool) l held1 h held2 fin (Q : post A) (a : A) p :
  at_work l (held1 ++ h :: held2) fin p →
  (∀ p', at_work (l ++ if ok then [unsub_frame (h_subject h)] else []) (held1 ++ held2) (h :: fin) p' → Q (inl a) p') →
  afterwards (unsubscribing (h_id h) ok) Q (inl a) p.
Proof.
  intros Hp HQ. destruct (at_work_unsubscribe ok _ _ _ _ _ _ Hp) as (c & E & Hw). exists c. split; [done|]. apply HQ, Hw.
Qed.

Lemma end_close {A} l held fin (Q : post A) (a : A) p :
  at_work l held fin p → (∀ p', closed_client l fin (cli p') → Q (inl a) p') → afterwards closing Q (inl a) p.
Proof.
  intros Hp HQ. eexists. split; [reflexivity|]. apply HQ. cbn [cli set_cli].
  exact (proj1 (at_work_close _ _ _ _ Hp)).
Qed.
End rules.

(** ** The publisher *)

Definition hello_frame (n : Z) (now : gostring) : list byte := pub_frame (str "test.hello") (hello_message n now).
Definition foo_frame (n : Z) : list byte := pub_frame (str "foo.bar") (foo_message n).

(** What tick [n] puts on the wire. *)
Definition tick_frames (n : Z) (t : tick) : list (list byte) :=
  if t_ok t then
    hello_frame n (t_now t) :: (if bool_decide (n mod 10 = 0)%Z && t_foo_ok t then [foo_frame n] else [])
  else [].

Lemma hello_publishes n now ok :
  (1 <= n < 2 ^ 63)%Z → (len now <= 1000)%Z → publishes false ok (str "test.hello") (hello_message n now) = ok.
Proof.
  intros Hn Hnow. unfold publishes. cbn [negb andb]. pose proof (itoa_length 63 n ltac:(lia) ltac:(lia)).
  assert (len (hello_message n now) <= 2000)%Z as Hl.
  { unfold hello_message. rewrite !len_app. change (len (str "Message #")) with 9%Z. change (len (str " at ")) with 4%Z.
    unfold len at 1. lia. }
  rewrite !(proj2 (Z.leb_le _ _)); [by rewrite !andb_true_r|..]; change (len (str "test.hello")) with 10%Z;
    unfold MaxSubjectLen, MaxBodyLen; lia.
Qed.
Lemma foo_publishes n ok : (1 <= n < 2 ^ 63)%Z → publishes false ok (str "foo.bar") (foo_message n) = ok.
Proof.
  intros Hn. unfold publishes. cbn [negb andb]. pose proof (itoa_length 63 n ltac:(lia) ltac:(lia)).
  assert (len (foo_message n) <= 2000)%Z as Hl.
  { unfold foo_message. rewrite !len_app. change (len (str "Foo message #")) with 13%Z. unfold len. lia. }
  rewrite !(proj2 (Z.leb_le _ _)); [by rewrite !andb_true_r|..]; change (len (str "foo.bar")) with 7%Z;
    unfold MaxSubjectLen, MaxBodyLen; lia.
Qed.

Section publisher.
Context {CE DE : Type}.

Lemma wp_publisher_turn n t l p :
  (1 <= n < 2 ^ 63)%Z → (len (t_now t) <= 1000)%Z → at_work l [] [] p →
  wp (CE := CE) (DE := DE) (publisher_turn n t) (λ r p', r = inl tt ∧ at_work (l ++ tick_frames n t) [] [] p') p.
Proof.
  intros Hn Hnow Hp. unfold publisher_turn, tick_frames. apply wp_bind. eapply wp_wait; [exact Hp|].
  intros held' p1 H1 Hadv. inversion Hadv; subst. cbn [next]. apply wp_bind. eapply wp_publish; [exact H1|].
  intros e p2 H2 _ He _. cbn [next]. rewrite hello_publishes in H2, He by done.
  rewrite Z.rem_mod_nonneg by lia. destruct e as [e|], (t_ok t); try (exfalso; naive_solver).
  - by apply wp_ret.
  - destruct (Z.eqb_spec (n mod 10) 0) as [E|E]; [rewrite bool_decide_true by done|rewrite bool_decide_false by done]; cbn [andb].
    + apply wp_bind. eapply wp_publish; [exact H2|]. intros e2 p3 H3 _ _ _. cbn [next]. apply wp_ret. split; [done|].
      rewrite foo_publishes, <-app_assoc in H3 by done. exact H3.
    + by apply wp_ret.
Qed.

Lemma wp_publisher_loop n ticks l p :
  (0 <= n)%Z → (n + len ticks < 2 ^ 63)%Z → Forall (λ t, (len (t_now t) <= 1000)%Z) ticks → at_work l [] [] p →
  wp (CE := CE) (DE := DE) (publisher_loop n ticks)
    (λ r p', r = inr Running ∧ at_work (l ++ concat (imap (λ i t, tick_frames (n + Z.of_nat i + 1) t) ticks)) [] [] p') p.
Proof.
  intros Hn Hlen Hnow. revert n l p Hn Hlen. induction Hnow as [|t ticks Ht _ IH]; intros n l p Hn Hlen Hp; cbn [publisher_loop].
  - apply wp_throw. cbn. by rewrite app_nil_r.
  - rewrite len_cons in Hlen. pose proof (len_nonneg ticks). rewrite int64_small by lia.
    apply wp_bind. eapply wp_mono; [apply (wp_publisher_turn (n + 1)); [lia|done|exact Hp]|].
    intros r p1 [-> H1]. cbn [next]. eapply wp_mono; [apply (IH (n + 1)%Z); [lia|lia|exact H1]|].
    intros r p2 [-> H2]. split; [done|]. cbn [imap concat]. rewrite <-app_assoc in H2.
    replace (n + Z.of_nat 0 + 1)%Z with (n + 1)%Z by lia.
    rewrite (imap_ext _ (λ i t, tick_frames (n + 1 + Z.of_nat i + 1) t)); [exact H2|]. intros i x _. cbn. f_equal. lia.
Qed.
End publisher.

(** The publisher: either it ends with an error before it has a client, or it runs for ever.
    Its key has 32 bytes then, and after any number of ticks it has written, besides
    heartbeats, for every tick whose first write succeeded the numbered message on
    [test.hello] and, if the number is a multiple of ten and its write succeeds too, the one on
    [foo.bar], in this order; a failed write skips the second message of its tick, and
    nothing is sent twice. *)
Theorem publisher_writes {BC CE DE} (aes : list byte → BC + CE) (Dial : gostring → option DE) keyHex ticks :
  Forall (λ t, (len (t_now t) <= 1000)%Z) ticks → (len ticks < 2 ^ 63)%Z →
  (∃ why, publisher_main aes Dial keyHex ticks = Ret (inr (Fatal why), None)) ∨
  (∃ key p w, environment_key keyHex = inl key ∧ len key = 32%Z ∧
     publisher_main aes Dial keyHex ticks = Ret (inr Running, Some p) ∧
     clientCloseOnce (cli p) = false ∧ conn (cli p) = Some w ∧
     talk w = concat (imap (λ i t, tick_frames (Z.of_nat i + 1) t) ticks)).
Proof.
  intros Hnow Hlen. unfold publisher_main, connected_main.
  destruct (wp_connected aes Dial Fatal (environment_key keyHex) false (str "localhost:4000") (publisher_loop 0 ticks)
    (λ r p, r = inr Running ∧ at_work (concat (imap (λ i t, tick_frames (Z.of_nat i + 1) t) ticks)) [] [] p))
    as [Hno|(key & r & p & Hk & Hkl & E & -> & Hw)].
  - eapply wp_mono; [apply (wp_publisher_loop 0 ticks []); [done|by rewrite Z.add_0_l|done|apply new_at_work]|].
    intros r p [-> Hp]. by split.
  - by left.
  - right. destruct (aw_conn _ _ _ _ Hw) as (w & Hcw & Htalk). exists key, p, w. split_and!; try done. apply (aw_open _ _ _ _ Hw).
Qed.

Lemma publisher_writes_witness :
  ∃ key, environment_key mixed_case = inl key ∧ len key = 32%Z ∧
  ∃ p w, publisher_main (λ k, inl k : list byte + unit) (λ _, None : option unit) mixed_case
           [mkTick [] (str "now") true true; mkTick [HeartbeatTick true] (str "then") false true] = Ret (inr Running, Some p) ∧
    conn (cli p) = Some w ∧ talk w = [hello_frame 1 (str "now")].
Proof.
  destruct (publisher_writes (λ k, inl k : list byte + unit) (λ _, None : option unit) mixed_case
              [mkTick [] (str "now") true true; mkTick [HeartbeatTick true] (str "then") false true])
    as [(why & E)|(key & p & w & Hk & Hl & E & _ & Hw & Ht)]; [by repeat constructor|done|by vm_compute in E|].
  exists key. split; [exact Hk|]. split; [exact Hl|]. exists p, w. split; [exact E|]. split; [exact Hw|]. exact Ht.
Defined.

(** ** The subscriber *)

Definition subscriber_subjects : list gostring := [str "test.hello"; str "foo.*"; str "test.>"].

(** What the subscriber writes: its requests, each up to three times, and at the end the
    cancellations, the last subscription first. *)
Definition subscriber_talk (env : subscriber_env) (j1 j2 j3 : nat) : list (list byte) :=
  replicate j1 (sub_frame (str "test.hello")) ++ replicate j2 (sub_frame (str "foo.*")) ++
  replicate j3 (sub_frame (str "test.>")) ++
  (if se_unsub_all env then [unsub_frame (str "test.>")] else []) ++
  (if se_unsub_foo env then [unsub_frame (str "foo.*")] else []) ++
  (if se_unsub_test env then [unsub_frame (str "test.hello")] else []).

(** The three subscriptions, [h]s when the program starts to wait, [h']s at its end. *)
Definition subscriber_done (env : subscriber_env) (es : list happening) (r : subid * subid * subid) (c : Client) : Prop :=
  ∃ j1 j2 j3 h1 h2 h3 h1' h2' h3',
    (1 <= j1 <= 3)%nat ∧ (1 <= j2 <= 3)%nat ∧ (1 <= j3 <= 3)%nat ∧
    r = (h_id h1, h_id h2, h_id h3) ∧ map h_subject [h1; h2; h3] = subscriber_subjects ∧
    Forall (λ h, h_cap h = 100%Z) [h1; h2; h3] ∧
    advanced (arriving es) h1 h1' ∧ advanced (arriving es) h2 h2' ∧ advanced (arriving es) h3 h3' ∧
    closed_client (subscriber_talk env j1 j2 j3) [h1'; h2'; h3'] c.

Lemma Forall2_advanced_app ms held1 held2 held' :
  Forall2 (advanced ms) (held1 ++ held2) held' →
  ∃ held1' held2', held' = held1' ++ held2' ∧ Forall2 (advanced ms) held1 held1' ∧ Forall2 (advanced ms) held2 held2'.
Proof. intros (k1 & k2 & ? & ? & ->)%Forall2_app_inv_l. by exists k1, k2. Qed.


Section subscriber.
Context {CE DE : Type}.

Lemma wp_subscriber env (Q : (subid * subid * subid) + stop CE DE → Proc → Prop) p :
  at_work [] [] [] p →
  (∀ e p', Q (inr (Fatal (NotSubscribed e))) p') →
  (∀ p', se_signal env = None → Q (inr Running) p') →
  (∀ es r p', se_signal env = Some es → subscriber_done env es r (cli p') → Q (inl r) p') →
  wp (subscribed (subscribe false (str "test.hello") (background (se_test env))) (se_unsub_test env) (λ testSub,
      subscribed (subscribe false (str "foo.*") (background (se_foo env))) (se_unsub_foo env) (λ fooSub,
      subscribed (subscribe false (str "test.>") (background (se_all env))) (se_unsub_all env) (λ allTestSub,
      wait_for (se_signal env);; mret (testSub, fooSub, allTestSub))))) (afterwards closing Q) p.
Proof.
  intros Hp Hfatal Hrun Hend.
  eapply wp_subscribed; [exact Hp| |intros e held' j p' _ _; apply Hfatal].
  intros id1 got1 held1 ms1 j1 p1 Hj1 Hadv1 H1. inversion Hadv1; subst; clear Hadv1. cbn [app] in H1.
  eapply wp_subscribed; [exact H1| |intros e held' j p' _ _; apply Hfatal].
  intros id2 got2 held2 ms2 j2 p2 Hj2 Hadv2 H2.
  eapply wp_subscribed; [exact H2| |intros e held' j p' _ _; apply Hfatal].
  intros id3 got3 held3 ms3 j3 p3 Hj3 Hadv3 H3. unfold wait_for.
  destruct (se_signal env) as [es|] eqn:Hs; [|by apply wp_bind, wp_throw; apply Hrun].
  apply wp_bind. eapply wp_wait; [exact H3|]. intros held4 p4 H4 Hadv4. cbn [next]. apply wp_ret.
  (* the three subscriptions, at the start and at the end of the wait *)
  apply Forall2_cons_inv_l in Hadv2 as (k1 & ? & Ha2 & Hnil & ->). apply Forall2_nil_inv_l in Hnil as ->.
  cbn [app] in Hadv3. apply Forall2_cons_inv_l in Hadv3 as (m1 & ? & Ha3 & Hadv3 & ->).
  apply Forall2_cons_inv_l in Hadv3 as (m2 & ? & Hb3 & Hnil & ->). apply Forall2_nil_inv_l in Hnil as ->.
  cbn [app] in Hadv4, H3. apply Forall2_cons_inv_l in Hadv4 as (n1 & ? & Ha4 & Hadv4 & ->).
  apply Forall2_cons_inv_l in Hadv4 as (n2 & ? & Hb4 & Hadv4 & ->).
  apply Forall2_cons_inv_l in Hadv4 as (n3 & ? & Hc4 & Hnil & ->). apply Forall2_nil_inv_l in Hnil as ->.
  pose proof (proj1 Ha2) as E1. pose proof (proj1 Ha3) as E2. pose proof (proj1 Hb3) as E3.
  pose proof (proj1 Ha4) as E4. pose proof (proj1 Hb4) as E5. pose proof (proj1 Hc4) as E6. cbn [h_id] in *.
  assert (id1 = h_id n1) as -> by congruence. assert (id2 = h_id n2) as -> by congruence. subst id3.
  destruct Ha2 as (_ & F1 & G1 & _), Ha3 as (_ & F2 & G2 & _), Hb3 as (_ & F3 & G3 & _). cbn [h_subject h_cap] in *.
  eapply (end_unsubscribe _ _ [n1; n2] n3 []); [exact H4|]. intros p5 H5. cbn [app] in H5.
  eapply (end_unsubscribe _ _ [n1] n2 []); [exact H5|]. intros p6 H6. cbn [app] in H6.
  eapply (end_unsubscribe _ _ [] n1 []); [exact H6|]. intros p7 H7. cbn [app] in H7.
  eapply end_close; [exact H7|]. intros p8 H8. apply (Hend es); [done|].
  exists j1, j2, j3, m1, m2, (mkHeld (h_id n3) (str "test.>") 100 got3), n1, n2, n3. split_and!; try (done || lia).
  - cbn. congruence.
  - cbn. rewrite F2, F1, F3. done.
  - repeat constructor; cbn; congruence.
  - unfold subscriber_talk. destruct Ha4 as (_ & F4 & _), Hb4 as (_ & F5 & _), Hc4 as (_ & F6 & _). cbn [h_subject] in *.
    rewrite F4, F2, F1, F5, F3, F6, <-!app_assoc in H8. exact H8.
Qed.
End subscriber.


(** A publication on [test.hello] reaches two of the callbacks, one on [foo.bar] the third. *)
Definition acknowledged (subj : string) (_ : Z) : round :=
  mkRound false true [NewMessageCmd CmdOk (subscribed_to ++ str subj) []] WokenAck.
Definition demo_subscriber : subscriber_env :=
  mkSubscriberEnv (acknowledged "test.hello") (acknowledged "foo.*") (acknowledged "test.>")
    (Some [Incoming (NewMessageCmd CmdMsg (str "test.hello") (str "hi")); CallbackTurn 4;
           Incoming (NewMessageCmd CmdMsg (str "foo.bar") (str "foo"))])
    true true true.

Example subscriber_example :
  match subscriber_main (λ k, inl k : list byte + unit) (λ _, None : option unit) mixed_case demo_subscriber with
  | Ret (inl (t, f, a), Some p) =>
      map (λ id, handled <$> subs (cli p) !! id) [t; f; a] =
        [Some [mkDelivery (str "test.hello") (str "hi")]; Some [mkDelivery (str "foo.bar") (str "foo")];
         Some [mkDelivery (str "test.hello") (str "hi")]]
  | _ => False
  end.
Proof. by vm_compute. Qed.

(** ** [debug_sub] and [context_usage] *)

Definition demo_frames (env : context_env) : list (list byte) :=
  concat (map (λ i, if negb (ce_pub_done env i) && ce_pub_ok env i then [pub_frame (str "demo.hello") (demo_text i)] else [])
            [1; 2; 3; 4; 5]%Z).

(** What [context_usage] has written at its end: [sub2] says whether the subscription that may
    be cancelled was made. *)
Definition context_talk (env : context_env) (j1 j2 : nat) (sub2 : bool) : list (list byte) :=
  replicate j1 (sub_frame (str "demo.*")) ++ demo_frames env ++ replicate j2 (sub_frame (str "cancel.*")) ++
  (if sub2 && ce_unsub2 env then [unsub_frame (str "cancel.*")] else []).

Section context.
Context {CE DE : Type}.

(** The state between two turns of the publishing loop: [k] is the next number. *)
Definition demo_upto (env : context_env) (l : list (list byte)) (sub : subid) (k : Z) (p : Proc) : Prop :=
  ∃ h, h_id h = sub ∧ h_subject h = str "demo.*" ∧
    at_work (l ++ concat (map (λ i, if negb (ce_pub_done env i) && ce_pub_ok env i then [pub_frame (str "demo.hello") (demo_text i)] else [])
                             (seqZ 1 (k - 1)))) [h] [] p.

Lemma wp_context_publish env l sub k p :
  (1 <= k <= 5)%Z → demo_upto env l sub k p →
  wp (CE := CE) (DE := DE) (context_publish env k) (λ r p', r = inl tt ∧ demo_upto env l sub (k + 1) p') p.
Proof.
  intros Hk (h & H1 & H2 & Hp). unfold context_publish. apply wp_bind. eapply wp_publish; [exact Hp|].
  intros e p1 Hp1 _ _ _. cbn [next]. eapply wp_wait; [exact Hp1|]. intros held' p2 Hp2 Hadv. split; [done|].
  apply Forall2_cons_inv_l in Hadv as (h' & ? & Ha & Hnil & ->). apply Forall2_nil_inv_l in Hnil as ->.
  destruct Ha as (E1 & E2 & _). exists h'. split_and!; [congruence..|].
  replace (k + 1 - 1)%Z with (k - 1 + 1)%Z by lia. rewrite seqZ_app, (seqZ_cons _ 1), (seqZ_nil _ (Z.pred 1)), map_app, concat_app by lia. cbn [map concat].
  replace (1 + (k - 1))%Z with k by lia. rewrite app_nil_r, app_assoc.
  assert (publishes (ce_pub_done env k) (ce_pub_ok env k) (str "demo.hello") (demo_text k)
          = negb (ce_pub_done env k) && ce_pub_ok env k) as E; [|by rewrite <-E].
  unfold publishes. assert (k = 1 ∨ k = 2 ∨ k = 3 ∨ k = 4 ∨ k = 5)%Z as [->|[->|[->|[->| ->]]]] by lia;
    (rewrite !(proj2 (Z.leb_le _ _)); [by rewrite !andb_true_r|by vm_compute..]).
Qed.
End context.

Lemma closed_again l fin c : closed_client l fin c → client_Close c = c.
Proof. intros (_ & _ & H & _). unfold client_Close. by rewrite H. Qed.

(** Closing the client in the function's body, with [sub.Unsubscribe] deferred. *)
Lemma end_closed {CE DE A} (ok : bool) l h fin (Q : A + stop CE DE → Proc → Prop) (a : A) p :
  at_work l [h] fin p →
  (∀ p', closed_client l fin (cli p') → Q (inl a) p') →
  afterwards (unsubscribing (h_id h) ok) (afterwards closing Q) (inl a) (set_cli (client_Close (cli p)) p).
Proof.
  intros Hp HQ. destruct (at_work_close _ _ _ _ Hp) as [_ Hun].
  destruct (Hun h ok ltac:(left)) as (c & E & Hc). exists c. split; [done|].
  eexists. split; [reflexivity|]. apply HQ. cbn [cli set_cli]. by rewrite (closed_again _ _ _ Hc).
Qed.

Section context_run.
Context {CE DE : Type}.

Lemma wp_context env (Q : (subid * bool) + stop CE DE → Proc → Prop) p :
  at_work [] [] [] p →
  (∀ e p', Q (inr (Fatal (NotSubscribed e))) p') →
  (∀ sub j1 j2 sub2 fin p', (1 <= j1 <= 3)%nat → (j2 <= 3)%nat → (sub2 = true → (1 <= j2)%nat) →
     closed_client (context_talk env j1 j2 sub2) fin (cli p') → Q (inl (sub, true)) p') →
  wp (subscribed (subscribe (ce_sub_done env) (str "demo.*") (ce_sub env)) (ce_unsub env) (λ sub,
      wait (ce_settle env);;
      times 5 1 (context_publish env);;
      wait (ce_process env);;
      r ← subscribe false (str "cancel.*") (ce_cancel env);
      match r with inl sub2 => call (unsubscribing sub2 (ce_unsub2 env)) | inr _ => mret tt end;;
      err ← publish true true (str "fast.fail") (str "不会被发送");
      call closing;;
      mret (sub, bool_decide (err = Some ErrContext)))) (afterwards closing Q) p.
Proof.
  intros Hp Hfatal Hend. eapply wp_subscribed; [exact Hp| |intros e held' j p' _ _; apply Hfatal].
  intros id got held1 ms1 j1 p1 Hj1 Hadv1 H1. inversion Hadv1; subst; clear Hadv1. cbn [app] in H1.
  apply wp_bind. eapply wp_wait; [exact H1|]. intros held2 p2 H2 Hadv2. cbn [next].
  apply Forall2_cons_inv_l in Hadv2 as (h2 & ? & (E2 & F2 & _) & Hnil & ->). apply Forall2_nil_inv_l in Hnil as ->. cbn [h_id h_subject] in *.
  set (l1 := replicate j1 (sub_frame (str "demo.*"))) in *.
  apply wp_bind. eapply (wp_times (demo_upto env l1 id)).
  { exists h2. split_and!; [done..|]. cbn. by rewrite app_nil_r. }
  { intros k p' Hk Hinv. eapply wp_mono; [apply (wp_context_publish env l1 id k p'); [lia|done]|]. intros r p'' [-> H]. exact H. }
  intros p3 (h3 & E3 & F3 & H3). cbn [next]. apply wp_bind. eapply wp_wait; [exact H3|]. intros held4 p4 H4 Hadv4. cbn [next].
  apply Forall2_cons_inv_l in Hadv4 as (h4 & ? & (E4 & F4 & _) & Hnil & ->). apply Forall2_nil_inv_l in Hnil as ->.
  set (l2 := l1 ++ concat _) in *. assert (l2 = l1 ++ demo_frames env) as El2 by done. clearbody l2.
  assert (∀ j2 sub2 h fin q, h_id h = id → (j2 <= 3)%nat → (sub2 = true → (1 <= j2)%nat) →
    at_work (l2 ++ replicate j2 (sub_frame (str "cancel.*")) ++ (if sub2 && ce_unsub2 env then [unsub_frame (str "cancel.*")] else [])) [h] fin q →
    wp (err ← publish true true (str "fast.fail") (str "不会被发送"); call closing;; mret (id, bool_decide (err = Some ErrContext)))
      (afterwards (unsubscribing id (ce_unsub env)) (afterwards closing Q)) q) as Htail.
  { intros j2 sub2 h fin q <- Hj2 Hs2 Hq. apply wp_bind. eapply wp_publish; [exact Hq|]. intros e q1 Hq1 _ _ [_ He]. cbn [next].
    unfold publishes in Hq1. cbn [negb andb] in Hq1. rewrite app_nil_r in Hq1. rewrite He by done.
    apply wp_bind. change (wp (call closing) ?R q1) with (R (inl tt) (set_cli (client_Close (cli q1)) q1)). cbn [next].
    apply wp_ret. rewrite bool_decide_true by done. eapply end_closed; [exact Hq1|]. intros q2 Hq2.
    apply (Hend (h_id h) j1 j2 sub2 fin); [done..|]. unfold context_talk. rewrite El2, <-!app_assoc in Hq2. exact Hq2. }
  apply wp_bind. eapply wp_subscribe; [exact H4|..].
  - intros id2 got2 held5 ms5 j2 p5 Hj2 Hadv5 H5. cbn [next].
    apply Forall2_cons_inv_l in Hadv5 as (h5 & ? & (E5 & F5 & _) & Hnil & ->). apply Forall2_nil_inv_l in Hnil as ->. cbn [app] in H5.
    apply wp_bind. eapply (wp_unsubscribe (ce_unsub2 env) _ [h5] (mkHeld id2 (str "cancel.*") 100 got2) [] []); [exact H5|].
    intros p6 H6. cbn [next app h_subject] in *. eapply (Htail j2 true h5); [congruence|lia|lia|]. rewrite <-app_assoc in H6. exact H6.
  - intros e held5 ms5 j2 p5 Hj2 Hadv5 H5. cbn [next].
    apply Forall2_cons_inv_l in Hadv5 as (h5 & ? & (E5 & F5 & _) & Hnil & ->). apply Forall2_nil_inv_l in Hnil as ->.
    apply wp_bind, wp_ret. cbn [next]. eapply (Htail j2 false h5); [congruence|lia|done|]. cbn [andb]. by rewrite app_nil_r.
Qed.
End context_run.

(** C32: [context_usage]: if it can connect and subscribe it runs to its end. It has then written,
    besides heartbeats, its requests for [demo.*], those of its five messages whose context
    was alive and whose write succeeded, in order, and its requests for [cancel.*] with their
    cancellation if that subscription was made; the publication with the cancelled
    context was refused for that reason and not written. The subscription to [demo.*] is
    never cancelled at the server: the program closes the client before its deferred
    [Unsubscribe], which then does nothing. *)
Theorem context_usage_runs {BC CE DE} (aes : list byte → BC + CE) (Dial : gostring → option DE) keyHex env :
  (∃ why, context_main aes Dial keyHex env = Ret (inr (Fatal why), None)) ∨
  (∃ key r p, environment_key keyHex = inl key ∧ len key = 32%Z ∧
     context_main aes Dial keyHex env = Ret (r, Some p) ∧
     match r with
     | inl (_, refused) =>
         refused = true ∧ ∃ j1 j2 sub2 fin, (1 <= j1 <= 3)%nat ∧ (j2 <= 3)%nat ∧ (sub2 = true → (1 <= j2)%nat) ∧
           closed_client (context_talk env j1 j2 sub2) fin (cli p)
     | inr (Fatal (NotSubscribed _)) => True
     | inr _ => False
     end).
Proof.
  unfold context_main.
  match goal with |- context [connected_prog _ _ _ _ _ _ ?b] => set (body := b) end.
  destruct (wp_connected aes Dial Fatal (environment_key keyHex) (ce_connect_done env) (str "localhost:4000") body
    (λ r p, match r with
     | inl (_, refused) =>
         refused = true ∧ ∃ j1 j2 sub2 fin, (1 <= j1 <= 3)%nat ∧ (j2 <= 3)%nat ∧ (sub2 = true → (1 <= j2)%nat) ∧
           closed_client (context_talk env j1 j2 sub2) fin (cli p)
     | inr (Fatal (NotSubscribed _)) => True
     | inr _ => False
     end)) as [Hno|(key & r & p & Hk & Hkl & E & Hr)]; [|by left|].
  - apply wp_context; [apply new_at_work|done|]. intros sub j1 j2 sub2 fin p' H1 H2 H3 H4. split; [done|].
    by exists j1, j2, sub2, fin.
  - right. by exists key, r, p.
Qed.
