(* ===== verification/ExampleTests.v ===== *)
(** * The test programs among the examples ([src/examples])

    [comprehensive_test], [robustness_test], [h264_subscriber], the [main] of [ping_server] and
    [Run] of [ping_pong], in the language of [Scripts]; the loop of [test-udp-receiver]. The
    end of [debug_sub] is proved here as well. *)

From S2P Require Import Prelude GoStrings GoIO Protocol Subject RingBuffer Reconnect.
From S2P Require Import Client ClientLaws ClientSteps ClientFrames Crypto ClientAPI Relay.
From S2P Require Import GoFloat Reports Scripts ScriptLaws Examples.

Section tests.
Context {BC CE DE : Type} (NewAESBlockCrypt : list byte → BC + CE) (Dial : gostring → option DE).
Abbreviation script := (prog CE DE).
Abbreviation ending A := (outcome ((A + stop CE DE) * option Proc)).

Definition test_main {A} (keyHex : gostring) (ctx_done : bool) (body : script A) : ending A :=
  connected_prog NewAESBlockCrypt Dial Fatal (mustAES256Key keyHex) ctx_done (str "localhost:4000") body.

(** ** [comprehensive_test] *)

(** A callback that offers its message to a channel of capacity 1: the channel has one as
    soon as the callback has run. *)
Definition callback_ran (id : subid) : script bool := λ p,
  Ret (inl (match subs (cli p) !! id with Some s => bool_decide (handled s ≠ []) | None => false end), p).

Record context_test := mkContextTest {
  ct_connect_done : bool; ct_sub_done : bool; ct_sub : Z → round; ct_pub_done : bool; ct_pub_ok : bool;
  ct_meanwhile : list happening;      (** until the message is there or two seconds are over *)
  ct_unsub : bool;
}.
Definition testContextSupport (keyHex : gostring) (t : context_test) : ending (subid * bool * bool) :=
  test_main keyHex (ct_connect_done t)
    (subscribed (subscribe (ct_sub_done t) (str "test.context.*") (ct_sub t)) (ct_unsub t) (λ sub,
     err ← publish (ct_pub_done t) (ct_pub_ok t) (str "test.context.hello") (str "world");
     wait (ct_meanwhile t);;
     received ← callback_ran sub;
     mret (sub, bool_decide (err = None), received))).

(** While the test waits on its channel the goroutine that publishes makes its turns. *)
Inductive moment := Background (e : happening) | PublisherTurn (ctx_done write_ok : bool).

Definition channel_text (i : Z) : gostring := str "消息 " ++ itoa (i + 1).

Fixpoint meanwhile (ms : list moment) (i : Z) : script Z :=
  match ms with
  | [] => mret i
  | Background e :: ms => wait [e];; meanwhile ms i
  | PublisherTurn ctx_done ok :: ms =>
      if (i <? 3)%Z
      then _ ← publish ctx_done ok (str "test.channel.msg") (channel_text i); meanwhile ms (i + 1)
      else meanwhile ms i
  end.

(** The loop labelled [loop]: [turns] are what happens before each turn of [select] in the
    two seconds; the time-out follows. The result is [count], with the number of
    publications made. *)
Fixpoint channel_loop (turns : list (list moment)) (count i : Z) : script (Z * Z) :=
  match turns with
  | [] => mret (count, i)
  | ms :: turns =>
      i ← meanwhile ms i;
      msg ← receive;
      match msg with
      | None => channel_loop turns count i
      | Some _ => if (3 <=? count + 1)%Z then mret (count + 1, i)%Z else channel_loop turns (count + 1) i
      end
  end.

Record channel_test := mkChannelTest {
  ch_connect_done : bool; ch_sub : Z → round; ch_turns : list (list moment); ch_unsub : bool;
}.
Definition testChannelSubscription (keyHex : gostring) (t : channel_test) : ending (Z * Z) :=
  test_main keyHex (ch_connect_done t)
    (subscribed (subscribe_chan (str "test.channel.*") 10 (background (ch_sub t))) (ch_unsub t) (λ _,
     channel_loop (ch_turns t) 0 0)).

(** The two tests that publish in a loop. *)
Definition publish_turn (subj : gostring) (text : Z → gostring) (ok : Z → bool) (es : Z → list happening) (i : Z) : script unit :=
  _ ← publish false (ok i) subj (text i); wait (es i).

Definition stats_of (m : Meters) : script ClientStats := λ p, do s ← GetStats m (cli p); Ret (inl s, p).

Record reconnect_test := mkReconnectTest {
  rt_now : Z; rt_sub : Z → round; rt_ok : Z → bool; rt_pause : Z → list happening; rt_unsub : bool;
}.
Definition testAutoReconnect (keyHex : gostring) (m : Meters) (t : reconnect_test) : ending ClientStats :=
  test_main keyHex false
    (call (λ c, Ret (set_link (EnableAutoReconnect (5 * second) (link c)) c));;
     subscribed (subscribe false (str "test.reconnect.*") (background (rt_sub t))) (rt_unsub t) (λ _,
     times 2 0 (publish_turn (str "test.reconnect.hello") channel_text (rt_ok t) (rt_pause t));;
     stats_of m)).

Record statistics_test := mkStatisticsTest {
  st_connect_done : bool; st_sub : Z → round; st_ok : Z → bool; st_pause : Z → list happening;
  st_process : list happening; st_unsub : bool;
}.
Definition testStatistics (keyHex : gostring) (m : Meters) (t : statistics_test) : ending ClientStats :=
  test_main keyHex (st_connect_done t)
    (subscribed (subscribe false (str "test.stats.*") (background (st_sub t))) (st_unsub t) (λ _,
     times 100 0 (publish_turn (str "test.stats.data") (λ _, str "message") (st_ok t) (st_pause t));;
     wait (st_process t);;
     stats_of m)).

(** [main]: the four tests; the first one that fails ends the program. *)
Definition followed {A} (x : ending A) (rest : outcome (option (stop CE DE))) : outcome (option (stop CE DE)) :=
  do r ← x; match r.1 with inl _ => rest | inr s => Ret (Some s) end.
Definition comprehensive_main (keyHex : gostring) (now : Z) (t1 : context_test) (t2 : channel_test)
    (t3 : reconnect_test) (t4 : statistics_test) : outcome (option (stop CE DE)) :=
  do m ← new_meters now;
  followed (testContextSupport keyHex t1)
    (followed (testChannelSubscription keyHex t2)
       (followed (testAutoReconnect keyHex m t3) (followed (testStatistics keyHex m t4) (Ret None)))).

(** ** [robustness_test] *)

(** The case the loop's [select] takes: the tick with its clock and the outcomes of the ten
    writes, the statistics, a message, [time.After]. *)
Inductive robust_case := RTick (now : gostring) (ok : Z → bool) | RStats | RMessage | RAfter.

Definition robust_subject (i : Z) : gostring := str "test.robustness.msg." ++ itoa i.
Definition robust_text (i : Z) (now : gostring) : gostring := str "Test message " ++ itoa i ++ str " at " ++ now.
Definition testDuration : Z := (3 * 60 * second)%Z.

Definition robust_turn (e : robust_case) : script bool :=
  match e with
  | RTick now ok =>
      times 10 0 (λ i, _ ← publish false (ok i) (robust_subject i) (robust_text i now); mret tt);; mret true
  | RStats => mret true
  | RMessage => _ ← receive; mret true
  | RAfter => mret false
  end.

(** [turns]: the time elapsed when the loop's condition is tested, what happens until a case
    is ready, the case. *)
Fixpoint robust_loop (turns : list (Z * list happening * robust_case)) : script unit :=
  match turns with
  | [] => throw Running
  | (elapsed, es, e) :: turns =>
      if (elapsed <? testDuration)%Z
      then wait es;; goes_on ← robust_turn e; if (goes_on : bool) then robust_loop turns else mret tt
      else mret tt
  end.

(** The verification at the end: the goroutines and the bytes allocated, before and after. *)
Definition no_goroutine_leak (initialGoroutines finalGoroutines : Z) : bool :=
  negb (5 <? finalGoroutines - initialGoroutines)%Z.
Definition memDeltaMB (initialAlloc finalAlloc : Z) : float64 :=
  ((float_of_int finalAlloc + fopp (float_of_int initialAlloc)) / kilo / kilo)%float.
Definition no_memory_leak (initialAlloc finalAlloc : Z) : bool :=
  negb (fltb (float_of_int 10) (memDeltaMB initialAlloc finalAlloc)).

Record robust_env := mkRobustEnv {
  ro_sub : Z → round; ro_turns : list (Z * list happening * robust_case); ro_unsub : bool;
  ro_goroutines : Z * Z; ro_alloc : Z * Z;
}.
Definition robustness_main (keyHex : gostring) (env : robust_env) : ending (bool * bool) :=
  connected_main NewAESBlockCrypt Dial keyHex "208.81.129.186:4000"
    (subscribed (subscribe_chan (str "test.robustness.>") 100 (background (ro_sub env))) (ro_unsub env) (λ _,
     robust_loop (ro_turns env);;
     mret (no_goroutine_leak (ro_goroutines env).1 (ro_goroutines env).2,
           no_memory_leak (ro_alloc env).1 (ro_alloc env).2))).

(** ** [h264_subscriber] *)

(** The frame and byte counters, and the frames that were reported. *)
Record tally := mkTally { frameCount : Z; totalBytes : Z; reported : list Z }.
Definition tally_message (msg : Delivery) (t : tally) : tally :=
  let n := int64 (frameCount t + 1) in
  mkTally n (int64 (totalBytes t + len (msgData msg)))
    (if (Z.rem n 100 =? 1)%Z then reported t ++ [n] else reported t).

(** The loop: the channel is never closed, so it never returns. *)
Fixpoint tally_loop (turns : list (list happening)) (t : tally) : script tally :=
  match turns with
  | [] => mret t
  | es :: turns =>
      wait es;;
      msg ← receive;
      tally_loop turns (match msg with Some m => tally_message m t | None => t end)
  end.
Definition h264_subscriber_main (keyHex : gostring) (sub : Z → round) (turns : list (list happening)) (ok : bool) : ending unit :=
  connected_main NewAESBlockCrypt Dial keyHex "208.81.129.186:4000"
    (subscribed (subscribe_chan (str "h264.stream") 1000 (background sub)) ok (λ _,
     _ ← tally_loop turns (mkTally 0 0 []); throw Running)).

(** ** [ping_server] and [ping_pong] *)

(** [main] of the server: it never ends; the callback is in [PingPong]. *)
Definition ping_server_main (addrEnv keyHex : gostring) (sub : Z → round) (es : list happening) (ok : bool) : ending unit :=
  connected_prog NewAESBlockCrypt Dial Fatal (environment_key keyHex) false
    (if decide (addrEnv = []) then str "localhost:4000" else addrEnv)
    (subscribed (subscribe false (str "ping.>") (background sub)) ok (λ _, wait es;; throw Running)).

(** [PingPongTest.Run] around its loop, which is the machine of [PingPong]. *)
Definition ping_Run {A} (clientID serverAddr keyHex : gostring) (sub : Z → round) (settle : list happening) (ok : bool)
    (loop : subid → script A) : ending A :=
  connected_prog NewAESBlockCrypt Dial ErrorReturn (environment_key keyHex) false serverAddr
    (r ← subscribe false (str "ping." ++ clientID ++ str ".response") (background sub);
     id ← or_stop ErrorReturn r;
     deferring (unsubscribing id ok) (wait settle;; loop id)).
End tests.

(** ** [test-udp-receiver] *)

(** What [ReadFromUDP] returns. *)
Inductive datagram := NoData | ReadError | Received (n : Z).
#[global] Instance datagram_eq_dec : EqDecision datagram.
Proof. solve_decision. Defined.
Record udp_counts := mkUdpCounts { packetCount : Z; totalPackets : Z; udp_bytes : Z; udp_shown : list Z }.

(** The loop of [main]; the flag says that it has returned. *)
Fixpoint udp_loop (l : list datagram) (c : udp_counts) : udp_counts * bool :=
  match l with
  | [] => (c, false)
  | NoData :: l => udp_loop l c
  | ReadError :: l => (c, true)
  | Received n :: l =>
      let packetCount := int64 (packetCount c + 1) in
      let totalPackets := int64 (totalPackets c + 1) in
      udp_loop l (mkUdpCounts packetCount totalPackets (int64 (udp_bytes c + n))
        (if (packetCount <=? 10)%Z || (Z.rem packetCount 100 =? 0)%Z then udp_shown c ++ [totalPackets] else udp_shown c))
  end.

(** ** Programs with one subscription *)

(** [l] is written and the subscription [id] to [subj] is the only one. *)
Definition one (l : list (list byte)) (id : subid) (subj : gostring) (p : Proc) : Prop :=
  ∃ h, h_id h = id ∧ h_subject h = subj ∧ at_work l [h] [] p.

Section one.
Context {CE DE : Type}.
Abbreviation post A := (A + stop CE DE → Proc → Prop).

Lemma one_advanced l fin id subj ms h held' p p' :
  h_id h = id → h_subject h = subj → Forall2 (advanced ms) [h] held' → at_work l held' [] p → p = p' → fin = @nil Held → one l id subj p'.
Proof.
  intros <- <- (h' & ? & (E1 & E2 & _) & Hnil & ->)%Forall2_cons_inv_l Hw <- _. apply Forall2_nil_inv_l in Hnil as ->.
  by exists h'.
Qed.

Lemma wp_wait_one es l id subj (Q : post unit) p :
  one l id subj p → (∀ p', one l id subj p' → Q (inl tt) p') → wp (wait es) Q p.
Proof.
  intros (h & E1 & E2 & Hp) HQ. eapply wp_wait; [exact Hp|]. intros held' p' Hw Hadv. apply HQ. by eapply (one_advanced l []).
Qed.

Lemma wp_publish_one ctx ok s data l id subj (Q : post (option client_error)) p :
  one l id subj p →
  (∀ e p', one (l ++ if publishes ctx ok s data then [pub_frame s data] else []) id subj p' →
     bool_decide (e = None) = publishes ctx ok s data → Q (inl e) p') →
  wp (publish ctx ok s data) Q p.
Proof.
  intros (h & E1 & E2 & Hp) HQ. eapply wp_publish; [exact Hp|]. intros e p' Hw _ He _. apply HQ; [by exists h|].
  destruct (publishes ctx ok s data); [by apply bool_decide_true, He|]. apply bool_decide_false. intros Hn. by apply He in Hn.
Qed.

Lemma wp_receive_one l id subj (Q : post (option Delivery)) p :
  one l id subj p → (∀ m p', one l id subj p' → Q (inl m) p') → wp receive Q p.
Proof. intros (h & E1 & E2 & Hp) HQ. eapply wp_receive; [exact Hp|]. intros m p' Hw. apply HQ. by exists h. Qed.

Lemma wp_subscribed_one {A} ctx subj env ok (rest : subid → prog CE DE A) (Q : post A) p :
  at_work [] [] [] p →
  (∀ id j p', (1 <= j <= 3)%nat → one (replicate j (sub_frame subj)) id subj p' → wp (rest id) (afterwards (unsubscribing id ok) Q) p') →
  (∀ e p', Q (inr (Fatal (NotSubscribed e))) p') →
  wp (subscribed (subscribe ctx subj env) ok rest) Q p.
Proof.
  intros Hp H1 H2. eapply wp_subscribed; [exact Hp| |intros e held' j p' _ _; apply H2].
  intros id got held' ms j p' Hj Hadv Hw. apply Forall2_nil_inv_l in Hadv as ->. apply (H1 id j); [done|].
  by exists (mkHeld id subj 100 got).
Qed.

Lemma wp_subscribed_chan_one {A} subj cap env ok (rest : subid → prog CE DE A) (Q : post A) p :
  (0 < cap)%Z → at_work [] [] [] p →
  (∀ id j p', (1 <= j <= 3)%nat → chan p' = Some (id, mkChan [] cap 0) → one (replicate j (sub_frame subj)) id subj p' →
     wp (rest id) (afterwards (unsubscribing id ok) Q) p') →
  (∀ e p', Q (inr (Fatal (NotSubscribed e))) p') →
  wp (subscribed (subscribe_chan subj cap env) ok rest) Q p.
Proof.
  intros Hcap Hp H1 H2. eapply wp_subscribed_chan; [exact Hcap|exact Hp| |intros e held' j p' _ _; apply H2].
  intros id got held' ms j p' Hj Hadv Hch Hw. apply Forall2_nil_inv_l in Hadv as ->. apply (H1 id j); [done..|].
  by exists (mkHeld id subj cap got).
Qed.

(** The two deferred calls. *)
Lemma end_one {A} (ok : bool) l id subj (Q : post A) (a : A) p :
  one l id subj p →
  (∀ p' h, h_subject h = subj → closed_client (l ++ if ok then [unsub_frame subj] else []) [h] (cli p') → Q (inl a) p') →
  afterwards (unsubscribing id ok) (afterwards closing Q) (inl a) p.
Proof.
  intros (h & <- & <- & Hp) HQ. eapply (end_unsubscribe ok _ [] h []); [exact Hp|]. intros p1 H1.
  eapply end_close; [exact H1|]. intros p2 H2. by apply (HQ p2 h).
Qed.

(** A loop of publications: those that go out are written, in order. *)
Definition sent_in (subj : gostring) (text : Z → gostring) (ok : Z → bool) (n : Z) : list (list byte) :=
  concat (map (λ i, if publishes false (ok i) subj (text i) then [pub_frame subj (text i)] else []) (seqZ 0 n)).

Lemma sent_in_S subj text ok k :
  (0 <= k)%Z → sent_in subj text ok (k + 1) =
    sent_in subj text ok k ++ if publishes false (ok k) subj (text k) then [pub_frame subj (text k)] else [].
Proof.
  intros Hk. unfold sent_in. rewrite seqZ_app, (seqZ_cons _ 1), (seqZ_nil _ (Z.pred 1)), map_app, concat_app by lia.
  cbn [map concat]. by rewrite app_nil_r, Z.add_0_l.
Qed.

Lemma wp_publish_loop n subj text ok es l id s (Q : post unit) p :
  one l id s p → (∀ p', one (l ++ sent_in subj text ok (Z.of_nat n)) id s p' → Q (inl tt) p') →
  wp (times n 0 (publish_turn subj text ok es)) Q p.
Proof.
  intros Hp HQ. apply (wp_times (λ k p, one (l ++ sent_in subj text ok k) id s p)).
  - unfold sent_in. rewrite seqZ_nil by lia. cbn. by rewrite app_nil_r.
  - intros k p' Hk Hk'. unfold publish_turn. apply wp_bind. eapply wp_publish_one; [exact Hk'|]. intros e p1 H1 _. cbn [next].
    eapply wp_wait_one; [exact H1|]. intros p2 H2. rewrite sent_in_S, app_assoc by lia. exact H2.
  - intros p'. by apply HQ.
Qed.

Lemma one_active l id s p : one l id s p → (1 <= ActiveSubscriptions (cli p))%Z.
Proof.
  intros (h & <- & _ & Hp). rewrite ActiveSubscriptions_filter.
  pose proof (aw_held _ _ _ _ Hp) as (Hin & s0 & Hs & _ & _ & Ha & _)%Forall_singleton.
  assert (h_id h ∈ filter (active_listed (cli p)) (subscriptions (cli p))) as Hf.
  { apply list_elem_of_filter. split; [|done]. unfold active_listed. rewrite Hs. cbn. by rewrite Ha. }
  destruct (filter _ _) as [|x rest]; [by apply not_elem_of_nil in Hf|]. rewrite len_cons. pose proof (len_nonneg rest). lia.
Qed.

Lemma wp_stats m l id s (Q : post ClientStats) p now :
  new_meters now = Ret m → one l id s p →
  (∀ st, MessagesSent st = 0%Z → MessagesReceived st = 0%Z → BytesSent st = 0%Z → BytesReceived st = 0%Z → (1 <= ActiveSubscriptionCount st)%Z →
     Q (inl st) p) → wp (stats_of m) Q p.
Proof.
  intros Hm Hp HQ. unfold wp, stats_of.
  destruct (GetStats_fresh now (cli p)) as (m' & st & Em & Es & H1 & H2 & H3 & H4 & _ & _ & H7).
  rewrite Em in Hm. injection Hm as ->. rewrite Es. apply HQ; try done. rewrite H7.
  rewrite <-ActiveSubscriptions_filter. by eapply one_active.
Qed.
End one.

(** ** [comprehensive_test] *)

(** How a test of one subscription ends: not at all, with a client that could not subscribe,
    or with [R] of its result and the closed client. *)
Definition test_ends {CE DE A} (key : list byte + key_error) (x : outcome ((A + stop CE DE) * option Proc))
    (R : A → Client → Prop) : Prop :=
  (∃ why, x = Ret (inr (Fatal why), None)) ∨
  (∃ k r p, key = inl k ∧ len k = 32%Z ∧ x = Ret (r, Some p) ∧
     match r with inl a => R a (cli p) | inr s => ∃ e, s = Fatal (NotSubscribed e) end).

(** What is written around the body of a test: [j] requests, one cancellation. *)
Definition around (subj : string) (ok : bool) (j : nat) (fs : list (list byte)) : list (list byte) :=
  (replicate j (sub_frame (str subj)) ++ fs) ++ (if ok then [unsub_frame (str subj)] else []).

Section comprehensive.
Context {BC CE DE : Type} (aes : list byte → BC + CE) (Dial : gostring → option DE).

Lemma test_ends_intro {A} key ctx addr (body : prog CE DE A) (R : A → Client → Prop) :
  (∀ Q : A + stop CE DE → Proc → Prop,
     (∀ e p, Q (inr (Fatal (NotSubscribed e))) p) → (∀ a p, R a (cli p) → Q (inl a) p) →
     wp body (afterwards closing Q) (mkProc new_client None)) →
  test_ends key (connected_prog aes Dial Fatal key ctx addr body) R.
Proof.
  intros Hbody.
  destruct (wp_connected aes Dial Fatal key ctx addr body
    (λ r p, match r with inl a => R a (cli p) | inr s => ∃ e, s = Fatal (NotSubscribed e) end)) as [Hno|(k & r & p & H)].
  - apply Hbody; [intros e p; by exists e|done].
  - by left.
  - right. exists k, r, p. destruct H as (H1 & H2 & H3 & H4). by split_and!.
Qed.

(** The message is published unless the context is done or the write fails. *)
Lemma testContextSupport_ends keyHex t :
  test_ends (mustAES256Key keyHex) (testContextSupport aes Dial keyHex t)
    (λ '(_, published, _) c, published = negb (ct_pub_done t) && ct_pub_ok t ∧ ∃ j h, (1 <= j <= 3)%nat ∧
       closed_client (around "test.context.*" (ct_unsub t) j
         (if published then [pub_frame (str "test.context.hello") (str "world")] else [])) [h] c).
Proof.
  apply test_ends_intro. intros Q HF HR. eapply wp_subscribed_one; [apply new_at_work| |intros; apply HF].
  intros id j p1 Hj H1. apply wp_bind. eapply wp_publish_one; [exact H1|]. intros e p2 H2 He. cbn [next].
  apply wp_bind. eapply wp_wait_one; [exact H2|]. intros p3 H3. cbn [next]. apply wp_bind.
  change (wp (callback_ran id) ?R p3) with (R (inl (match subs (cli p3) !! id with Some s => bool_decide (handled s ≠ []) | None => false end)) p3).
  cbn [next]. apply wp_ret. rewrite He. eapply end_one; [exact H3|]. intros p4 h _ H4. apply HR.
  replace (publishes _ _ _ _) with (negb (ct_pub_done t) && ct_pub_ok t) in *.
  - split; [done|]. by exists j, h.
  - unfold publishes. rewrite !(proj2 (Z.leb_le _ _)) by (by vm_compute). by rewrite !andb_true_r.
Qed.

Lemma stats_sent ok :
  sent_in (str "test.stats.data") (λ _, str "message") ok 100 =
    replicate (length (filter (λ i, ok i = true) (seqZ 0 100))) (pub_frame (str "test.stats.data") (str "message")).
Proof.
  unfold sent_in. induction (seqZ 0 100) as [|i l IH]; [done|]. cbn [map concat]. rewrite IH, filter_cons.
  replace (publishes false (ok i) _ _) with (ok i); [by destruct (ok i)|].
  unfold publishes. rewrite !(proj2 (Z.leb_le _ _)) by (by vm_compute). by rewrite !andb_true_r.
Qed.

Lemma testStatistics_ends keyHex t now m :
  new_meters now = Ret m →
  test_ends (mustAES256Key keyHex) (testStatistics aes Dial keyHex m t)
    (λ s c, MessagesSent s = 0%Z ∧ MessagesReceived s = 0%Z ∧ BytesSent s = 0%Z ∧ BytesReceived s = 0%Z ∧
       (1 <= ActiveSubscriptionCount s)%Z ∧ ∃ j h, (1 <= j <= 3)%nat ∧
       closed_client (around "test.stats.*" (st_unsub t) j
         (replicate (length (filter (λ i, st_ok t i = true) (seqZ 0 100))) (pub_frame (str "test.stats.data") (str "message")))) [h] c).
Proof.
  intros Hm. apply test_ends_intro. intros Q HF HR. eapply wp_subscribed_one; [apply new_at_work| |intros; apply HF].
  intros id j p1 Hj H1. apply wp_bind. eapply wp_publish_loop; [exact H1|]. intros p2 H2. cbn [next].
  apply wp_bind. eapply wp_wait_one; [exact H2|]. intros p3 H3. cbn [next]. eapply wp_stats; [exact Hm|exact H3|].
  intros s S1 S2 S3 S4 S5. eapply end_one; [exact H3|]. intros p4 h _ H4. apply HR. split_and!; try done. exists j, h.
  split; [done|]. rewrite <-stats_sent. exact H4.
Qed.

Lemma testAutoReconnect_ends keyHex t now m :
  new_meters now = Ret m →
  test_ends (mustAES256Key keyHex) (testAutoReconnect aes Dial keyHex m t)
    (λ s c, (1 <= ActiveSubscriptionCount s)%Z ∧ ∃ j h, (1 <= j <= 3)%nat ∧
       closed_client (around "test.reconnect.*" (rt_unsub t) j
         (sent_in (str "test.reconnect.hello") channel_text (rt_ok t) 2)) [h] c).
Proof.
  intros Hm. apply test_ends_intro. intros Q HF HR. apply wp_bind.
  set (f := λ c, Ret (set_link (EnableAutoReconnect (5 * second) (link c)) c)).
  change (wp (call f) ?R ?p) with (R (inl tt) (set_cli (set_link (EnableAutoReconnect (5 * second) (link (cli p))) (cli p)) p)). cbn [next].
  eapply wp_subscribed_one; [| |intros; apply HF].
  { constructor; cbn; try done; [apply client_ok_link, new_client_ok|by exists []|constructor]. }
  intros id j p1 Hj H1. apply wp_bind. eapply wp_publish_loop; [exact H1|]. intros p2 H2. cbn [next].
  eapply wp_stats; [exact Hm|exact H2|]. intros s _ _ _ _ S5. eapply end_one; [exact H2|]. intros p4 h _ H4. apply HR.
  split; [done|]. by exists j, h.
Qed.

(** The publications of the second test so far. *)
Definition channel_frames (i : Z) : list (list byte) := map (λ k, pub_frame (str "test.channel.msg") (channel_text k)) (seqZ 0 i).

Lemma wp_meanwhile ms i l fs id s p :
  (0 <= i <= 3)%Z → one (l ++ fs) id s p → fs `sublist_of` channel_frames i →
  wp (CE := CE) (DE := DE) (meanwhile ms i) (λ r p', ∃ i' fs', r = inl i' ∧ (0 <= i' <= 3)%Z ∧ one (l ++ fs') id s p' ∧
    fs' `sublist_of` channel_frames i') p.
Proof.
  revert i fs p. induction ms as [|[e|ctx ok] ms IH]; intros i fs p Hi Hp Hfs; cbn [meanwhile].
  - apply wp_ret. by exists i, fs.
  - apply wp_bind. eapply wp_wait_one; [exact Hp|]. intros p1 H1. cbn [next]. by eapply IH.
  - destruct (Z.ltb_spec i 3) as [Hlt|Hge]; [|by eapply IH].
    apply wp_bind. eapply wp_publish_one; [exact Hp|]. intros e p1 H1 _. cbn [next]. rewrite <-app_assoc in H1.
    eapply IH; [lia|exact H1|]. unfold channel_frames. rewrite seqZ_app, (seqZ_cons _ 1), (seqZ_nil _ (Z.pred 1)), map_app by lia.
    apply sublist_app; [exact Hfs|]. cbn [map]. destruct (publishes _ _ _ _); [done|apply sublist_nil_l].
Qed.

Lemma wp_channel_loop turns count i l fs id s p :
  (0 <= count < 3)%Z → (0 <= i <= 3)%Z → one (l ++ fs) id s p → fs `sublist_of` channel_frames i →
  wp (CE := CE) (DE := DE) (channel_loop turns count i) (λ r p', ∃ count' i' fs', r = inl (count', i') ∧ (0 <= count' <= 3)%Z ∧
    (0 <= i' <= 3)%Z ∧ one (l ++ fs') id s p' ∧ fs' `sublist_of` channel_frames i') p.
Proof.
  revert count i fs p. induction turns as [|ms turns IH]; intros count i fs p Hc Hi Hp Hfs; cbn [channel_loop].
  - apply wp_ret. exists count, i, fs. split_and!; (done || lia).
  - apply wp_bind. eapply wp_mono; [eapply (wp_meanwhile ms i l fs id s); done|].
    intros r p1 (i' & fs' & -> & Hi' & H1 & Hfs'). cbn [next]. apply wp_bind. eapply wp_receive_one; [exact H1|].
    intros m p2 H2. cbn [next]. destruct m as [m|]; [|by eapply IH].
    destruct (Z.leb_spec 3 (count + 1)); [|eapply IH; (done || lia)].
    apply wp_ret. exists (count + 1)%Z, i', fs'. split_and!; (done || lia).
Qed.

Lemma testChannelSubscription_ends keyHex t :
  test_ends (mustAES256Key keyHex) (testChannelSubscription aes Dial keyHex t)
    (λ '(count, i) c, (0 <= count <= 3)%Z ∧ (0 <= i <= 3)%Z ∧ ∃ j h fs, (1 <= j <= 3)%nat ∧ fs `sublist_of` channel_frames i ∧
       closed_client (around "test.channel.*" (ch_unsub t) j fs) [h] c).
Proof.
  apply test_ends_intro. intros Q HF HR. eapply wp_subscribed_chan_one; [lia|apply new_at_work| |intros; apply HF].
  intros id j p1 Hj _ H1. eapply wp_mono; [apply (wp_channel_loop (ch_turns t) 0 0 (replicate j (sub_frame (str "test.channel.*"))) [] id (str "test.channel.*")); try done|].
  { by rewrite app_nil_r. }
  intros r p2 (count & i & fs & -> & Hcount & Hi & H2 & Hfs). eapply end_one; [exact H2|]. intros p3 h _ H3. apply HR.
  split_and!; try lia. by exists j, h, fs.
Qed.

Lemma followed_ends {A} key (x : outcome ((A + stop CE DE) * option Proc)) R rest :
  test_ends key x R →
  (∃ o, rest = Ret o ∧ ∀ s, o = Some s → ∃ why, s = Fatal why) →
  ∃ o, followed x rest = Ret o ∧ (∀ s, o = Some s → ∃ why, s = Fatal why).
Proof.
  intros [(why & ->)|(k & r & p & _ & _ & -> & Hr)] Hrest; unfold followed; cbn.
  - eexists. split; [reflexivity|]. intros s [= <-]. by exists why.
  - destruct r as [a|s]; [done|]. destruct Hr as (e & ->). eexists. split; [reflexivity|]. intros s [= <-]. by eexists.
Qed.
End comprehensive.

(** The comprehensive test always comes to an end: it never panics and never blocks, whatever the
    network does, and if it stops early it says why. Its test of the statistics, once
    connected and subscribed, reads that nothing was ever sent or received, although it
    has written one message for each of the hundred writes that succeeded; it ends
    with the subscription cancelled and the client closed. *)
Theorem comprehensive_test_ends {BC CE DE} (aes : list byte → BC + CE) (Dial : gostring → option DE) keyHex now t1 t2 t3 t4 :
  (∃ o, comprehensive_main aes Dial keyHex now t1 t2 t3 t4 = Ret o ∧ ∀ s, o = Some s → ∃ why, s = Fatal why) ∧
  (∀ m s p, new_meters now = Ret m → testStatistics aes Dial keyHex m t4 = Ret (inl s, Some p) →
     MessagesSent s = 0%Z ∧ MessagesReceived s = 0%Z ∧ BytesSent s = 0%Z ∧ BytesReceived s = 0%Z ∧
     (1 <= ActiveSubscriptionCount s)%Z ∧ ∃ j h, (1 <= j <= 3)%nat ∧
     closed_client (around "test.stats.*" (st_unsub t4) j
       (replicate (length (filter (λ i, st_ok t4 i = true) (seqZ 0 100))) (pub_frame (str "test.stats.data") (str "message")))) [h] (cli p)).
Proof.
  split.
  - destruct (GetStats_fresh now new_client) as (m & _ & Hm & _). unfold comprehensive_main. rewrite Hm. cbn [obind].
    eapply followed_ends; [apply testContextSupport_ends|]. eapply followed_ends; [apply testChannelSubscription_ends|].
    eapply followed_ends; [by eapply testAutoReconnect_ends|]. eapply followed_ends; [by eapply testStatistics_ends|].
    eexists. split; [reflexivity|]. done.
  - intros m s p Hm Hrun. destruct (testStatistics_ends aes Dial keyHex t4 now m Hm) as [(why & E)|(k & r & p' & _ & _ & E & Hr)];
      rewrite Hrun in E; [done|]. injection E as <- <-. exact Hr.
Qed.

Definition quiet_round (subj : string) (_ : Z) : round := mkRound false true [NewMessageCmd CmdOk (subscribed_to ++ str subj) []] WokenAck.
Definition demo_statistics : statistics_test :=
  mkStatisticsTest false (quiet_round "test.stats.*") (λ i, (i <? 3)%Z) (λ _, []) [] true.

Lemma comprehensive_test_ends_witness :
  ∃ m s p, new_meters 0 = Ret m ∧
    testStatistics (λ k, inl k : list byte + unit) (λ _, None : option unit) mixed_case m demo_statistics = Ret (inl s, Some p) ∧
    MessagesSent s = 0%Z.
Proof.
  destruct (new_meters 0) as [m| |] eqn:Hm; [|by vm_compute in Hm..].
  destruct (testStatistics (λ k, inl k : list byte + unit) (λ _, None : option unit) mixed_case m demo_statistics)
    as [[[s|e] [p|]]| |] eqn:Hrun; [|vm_compute in Hm; injection Hm as <-; by vm_compute in Hrun..].
  exists m, s, p. split; [reflexivity|]. split; [exact Hrun|].
  refine (proj1 (proj2 (comprehensive_test_ends (λ k, inl k : list byte + unit) (λ _, None : option unit) mixed_case 0
    (mkContextTest false false (quiet_round "test.context.*") false true [] true)
    (mkChannelTest false (quiet_round "test.channel.*") [] true)
    (mkReconnectTest 0 (quiet_round "test.reconnect.*") (λ _, true) (λ _, []) true) demo_statistics) m s p Hm Hrun)).
Defined.

(** ** [debug_sub] and [ping_pong] *)

(** [debug_sub] prints at least one active subscription and the error of its publication if
    the write failed; it has published to the subject it is subscribed to. *)
Lemma debug_main_ends {BC CE DE} (aes : list byte → BC + CE) (Dial : gostring → option DE) keyHex env :
  test_ends (environment_key keyHex) (debug_main aes Dial keyHex env)
    (λ '(_, err, n) c, bool_decide (err = None) = de_ok env ∧ (1 <= n)%Z ∧ ∃ j h, (1 <= j <= 3)%nat ∧
       closed_client (around "video.stream" (de_unsub env) j
         (if de_ok env then [pub_frame (str "video.stream") (str "test message")] else [])) [h] c).
Proof.
  apply test_ends_intro. intros Q HF HR. eapply wp_subscribed_one; [apply new_at_work| |intros; apply HF].
  intros id j p1 Hj H1. apply wp_bind. eapply wp_wait_one; [exact H1|]. intros p2 H2. cbn [next].
  apply wp_bind. eapply wp_publish_one; [exact H2|]. intros e p3 H3 He. cbn [next].
  apply wp_bind. eapply wp_wait_one; [exact H3|]. intros p4 H4. cbn [next]. apply wp_bind.
  change (wp the_client ?R p4) with (R (inl (cli p4)) p4). cbn [next]. apply wp_ret.
  eapply end_one; [exact H4|]. intros p5 h _ H5. apply HR.
  replace (publishes _ _ _ _) with (de_ok env) in *.
  - split; [done|]. split; [by eapply one_active|]. by exists j, h.
  - unfold publishes. rewrite !(proj2 (Z.leb_le _ _)) by (by vm_compute). by rewrite !andb_true_r.
Qed.

(** [Run] of the ping test around any loop that leaves the subscription alone: whatever goes
    wrong is returned, never fatal, and once subscribed the subscription is cancelled and the
    client closed. *)
Lemma ping_Run_ends {BC CE DE A} (aes : list byte → BC + CE) (Dial : gostring → option DE) clientID addr keyHex sub settle ok
    (loop : subid → prog CE DE A) :
  let subj := str "ping." ++ clientID ++ str ".response" in
  (∀ l id p, one l id subj p → wp (loop id) (λ r p', ∃ a fs, r = inl a ∧ one (l ++ fs) id subj p') p) →
  (∃ why, ping_Run aes Dial clientID addr keyHex sub settle ok loop = Ret (inr (ErrorReturn why), None)) ∨
  (∃ r p, ping_Run aes Dial clientID addr keyHex sub settle ok loop = Ret (r, Some p) ∧ clientCloseOnce (cli p) = true ∧
     match r with
     | inl _ => ∃ j fs h, (1 <= j <= 3)%nat ∧
         closed_client ((replicate j (sub_frame subj) ++ fs) ++ (if ok then [unsub_frame subj] else [])) [h] (cli p)
     | inr s => ∃ e, s = ErrorReturn (NotSubscribed e)
     end).
Proof.
  intros subj Hloop. unfold ping_Run.
  match goal with |- context [connected_prog _ _ _ _ _ _ ?b] => set (body := b) end.
  destruct (wp_connected aes Dial ErrorReturn (environment_key keyHex) false addr body
    (λ r p, clientCloseOnce (cli p) = true ∧ match r with
     | inl _ => ∃ j fs h, (1 <= j <= 3)%nat ∧
         closed_client ((replicate j (sub_frame subj) ++ fs) ++ (if ok then [unsub_frame subj] else [])) [h] (cli p)
     | inr s => ∃ e, s = ErrorReturn (NotSubscribed e)
     end)) as [Hno|(k & r & p & _ & _ & E & Hr)]; [|by left|right; by exists r, p].
  apply wp_bind. eapply wp_subscribe; [apply new_at_work| |].
  - intros id got held' ms j p1 Hj Hadv H1. apply Forall2_nil_inv_l in Hadv as ->. cbn [next or_stop]. apply wp_bind, wp_ret. cbn [next].
    apply wp_deferring. apply wp_bind. eapply (wp_wait_one settle _ id subj); [by exists (mkHeld id subj 100 got)|].
    intros p2 H2. cbn [next]. eapply wp_mono; [by apply Hloop|]. intros r p3 (a & fs & -> & H3).
    eapply end_one; [exact H3|]. intros p4 h _ H4. split; [apply H4|]. by exists j, fs, h.
  - intros e held' ms j p1 Hj Hadv H1. cbn [next or_stop]. apply wp_bind, wp_throw. cbn [next].
    destruct (at_work_close _ _ _ _ H1) as [Hc _]. eexists. split; [reflexivity|]. split; [apply Hc|by exists e].
Qed.

(** ** [robustness_test] *)

Definition robust_frame (f : list byte) : Prop :=
  ∃ i now, (0 <= i < 10)%Z ∧ f = pub_frame (robust_subject i) (robust_text i now) ∧
    matchSubject (str "test.robustness.>") (robust_subject i) = true.

Lemma robust_subject_matches i : (0 <= i < 10)%Z → matchSubject (str "test.robustness.>") (robust_subject i) = true.
Proof.
  intros Hi. assert (i = 0 ∨ i = 1 ∨ i = 2 ∨ i = 3 ∨ i = 4 ∨ i = 5 ∨ i = 6 ∨ i = 7 ∨ i = 8 ∨ i = 9)%Z as Hc by lia.
  destruct_or!; subst; by vm_compute.
Qed.

Section robustness.
Context {CE DE : Type}.

Lemma wp_robust_turn e l fs id s p :
  one (l ++ fs) id s p → Forall robust_frame fs →
  wp (CE := CE) (DE := DE) (robust_turn e) (λ r p', ∃ b fs', r = inl b ∧ one (l ++ fs') id s p' ∧ Forall robust_frame fs') p.
Proof.
  intros Hp Hfs. destruct e as [now ok| | |]; cbn [robust_turn].
  - apply wp_bind. eapply (wp_times (λ _ p, ∃ fs', one (l ++ fs') id s p ∧ Forall robust_frame fs')).
    + by exists fs.
    + intros k p1 Hk (fs1 & H1 & Hf1). apply wp_bind. eapply wp_publish_one; [exact H1|]. intros e p2 H2 _. cbn [next].
      apply wp_ret. eexists. rewrite <-app_assoc in H2. split; [exact H2|]. apply Forall_app. split; [done|].
      destruct (publishes _ _ _ _); [|constructor]. apply Forall_singleton. exists k, now. split_and!; try lia; [done|].
      apply robust_subject_matches. lia.
    + intros p1 (fs1 & H1 & Hf1). cbn [next]. apply wp_ret. by exists true, fs1.
  - apply wp_ret. by exists true, fs.
  - apply wp_bind. eapply wp_receive_one; [exact Hp|]. intros m p1 H1. cbn [next]. apply wp_ret. by exists true, fs.
  - apply wp_ret. by exists false, fs.
Qed.

Lemma wp_robust_loop turns l fs id s p :
  one (l ++ fs) id s p → Forall robust_frame fs →
  wp (CE := CE) (DE := DE) (robust_loop turns) (λ r p', (r = inr Running ∧ Forall (λ t, (t.1.1 < testDuration)%Z) turns) ∨
    (r = inl tt ∧ ∃ fs', one (l ++ fs') id s p' ∧ Forall robust_frame fs')) p.
Proof.
  revert fs p. induction turns as [|[[elapsed es] e] turns IH]; intros fs p Hp Hfs; cbn [robust_loop].
  - apply wp_throw. by left.
  - destruct (Z.ltb_spec elapsed testDuration) as [Hlt|Hge]; [|apply wp_ret; right; split; [done|]; by exists fs].
    apply wp_bind. eapply wp_wait_one; [exact Hp|]. intros p1 H1. cbn [next]. apply wp_bind.
    eapply wp_mono; [by eapply wp_robust_turn|]. intros r p2 (b & fs2 & -> & H2 & Hf2). cbn [next].
    destruct b; [|apply wp_ret; right; split; [done|]; by exists fs2].
    eapply wp_mono; [by eapply IH|]. intros r p3 [[-> Hall]|Hr]; [left|by right]. split; [done|]. by constructor.
Qed.
End robustness.

(** The robustness test neither panics nor blocks; it goes on exactly as long as its turns
    come within the three minutes and [time.After] does not fire, then cancels its
    subscription and closes the client. All it publishes matches its own subscription, so
    that the broker sends it back. It reports a leak of goroutines exactly from six more on,
    and ends successfully in either case. *)
Theorem robustness_test_ends {BC CE DE} (aes : list byte → BC + CE) (Dial : gostring → option DE) keyHex env :
  (∃ why, robustness_main aes Dial keyHex env = Ret (inr (Fatal why), None)) ∨
  (∃ r p, robustness_main aes Dial keyHex env = Ret (r, Some p) ∧
     match r with
     | inl (goroutines_ok, memory_ok) =>
         (goroutines_ok = true ↔ ((ro_goroutines env).2 - (ro_goroutines env).1 <= 5)%Z) ∧
         memory_ok = no_memory_leak (ro_alloc env).1 (ro_alloc env).2 ∧
         ∃ j h fs, (1 <= j <= 3)%nat ∧ Forall robust_frame fs ∧
           closed_client (around "test.robustness.>" (ro_unsub env) j fs) [h] (cli p)
     | inr Running => Forall (λ t, (t.1.1 < testDuration)%Z) (ro_turns env)
     | inr s => ∃ e, s = Fatal (NotSubscribed e)
     end).
Proof.
  unfold robustness_main, connected_main.
  match goal with |- context [connected_prog _ _ _ _ _ _ ?b] => set (body := b) end.
  destruct (wp_connected aes Dial Fatal (environment_key keyHex) false (str "208.81.129.186:4000") body
    (λ r p, match r with
     | inl (goroutines_ok, memory_ok) =>
         (goroutines_ok = true ↔ ((ro_goroutines env).2 - (ro_goroutines env).1 <= 5)%Z) ∧
         memory_ok = no_memory_leak (ro_alloc env).1 (ro_alloc env).2 ∧
         ∃ j h fs, (1 <= j <= 3)%nat ∧ Forall robust_frame fs ∧
           closed_client (around "test.robustness.>" (ro_unsub env) j fs) [h] (cli p)
     | inr Running => Forall (λ t, (t.1.1 < testDuration)%Z) (ro_turns env)
     | inr s => ∃ e, s = Fatal (NotSubscribed e)
     end)) as [Hno|(k & r & p & _ & _ & E & Hr)]; [|by left|right; by exists r, p].
  eapply wp_subscribed_chan_one; [lia|apply new_at_work| |intros e p; by exists e].
  intros id j p1 Hj _ H1. apply wp_bind.
  eapply wp_mono; [apply (wp_robust_loop (ro_turns env) (replicate j (sub_frame (str "test.robustness.>"))) [] id (str "test.robustness.>")); [by rewrite app_nil_r|done]|].
  intros r p2 [[-> Hall]|(-> & fs & H2 & Hfs)]; [done|]. cbn [next]. apply wp_ret. eapply end_one; [exact H2|].
  intros p3 h _ H3. split_and!; [|done|].
  - unfold no_goroutine_leak. destruct (Z.ltb_spec 5 ((ro_goroutines env).2 - (ro_goroutines env).1)); cbn; split; (done || lia).
  - by exists j, h, fs.
Qed.

(** Memory: ten megabytes are no leak, one byte more is. *)
Example memory_verdicts :
  no_memory_leak 1000 (1000 + 10 * 1024 * 1024) = true ∧ no_memory_leak 1000 (1001 + 10 * 1024 * 1024) = false ∧
  no_memory_leak 50000000 1000 = true.
Proof. by vm_compute. Qed.

(** ** The receivers *)

Definition total_data (ms : list Delivery) : Z := foldr (λ m n, len (msgData m) + n)%Z 0%Z ms.
Lemma total_data_nonneg ms : (0 <= total_data ms)%Z.
Proof.
  induction ms as [|m ms IH]; [done|]. cbn [total_data foldr]. fold (total_data ms). pose proof (len_nonneg (msgData m)). lia.
Qed.

(** Counting from [k] on. *)
Lemma numbered_snoc (P : Z → Prop) `{∀ n, Decision (P n)} k :
  (0 <= k)%Z → filter P (seqZ 1 (k + 1)) = filter P (seqZ 1 k) ++ (if decide (P (k + 1)%Z) then [(k + 1)%Z] else []).
Proof.
  intros Hk. rewrite seqZ_app by lia. rewrite filter_app. rewrite (seqZ_cons _ 1), (seqZ_nil _ (Z.pred 1)) by lia. rewrite filter_cons.
  replace (1 + k)%Z with (k + 1)%Z by lia. by case_decide.
Qed.

Section tally.
Context {CE DE : Type}.

Lemma tally_messages ms n b :
  (0 <= n)%Z → (0 <= b)%Z → (n + len ms < 2 ^ 63)%Z → (b + total_data ms < 2 ^ 63)%Z →
  foldl (λ t m, tally_message m t) (mkTally n b (filter (λ k, k mod 100 = 1)%Z (seqZ 1 n))) ms =
  mkTally (n + len ms) (b + total_data ms) (filter (λ k, k mod 100 = 1)%Z (seqZ 1 (n + len ms))).
Proof.
  revert n b. induction ms as [|m ms IH]; intros n b Hn Hb Hl Ht.
  - rewrite len_nil. cbn. by rewrite !Z.add_0_r.
  - rewrite len_cons in *. cbn [total_data foldr] in Ht. fold (total_data ms) in Ht. cbn [foldl].
    pose proof (len_nonneg ms). pose proof (len_nonneg (msgData m)). pose proof (total_data_nonneg ms).
    unfold tally_message at 2. cbn [frameCount totalBytes reported]. rewrite !int64_small by lia.
    rewrite Z.rem_mod_nonneg by lia.
    replace (if ((n + 1) mod 100 =? 1)%Z then _ else _) with (filter (λ k, k mod 100 = 1)%Z (seqZ 1 (n + 1))).
    + rewrite IH by lia. f_equal; [lia|cbn [total_data foldr]; fold (total_data ms); lia|do 2 f_equal; lia].
    + rewrite numbered_snoc by done. destruct (Z.eqb_spec ((n + 1) mod 100) 1); [by rewrite decide_True|].
      rewrite decide_False by done. by rewrite app_nil_r.
Qed.

Lemma wp_tally_loop turns t l id s p :
  one l id s p →
  wp (CE := CE) (DE := DE) (tally_loop turns t) (λ r p', ∃ ms, r = inl (foldl (λ t m, tally_message m t) t ms) ∧
    (len ms <= len turns)%Z ∧ one l id s p') p.
Proof.
  revert t p. induction turns as [|es turns IH]; intros t p Hp; cbn [tally_loop].
  - apply wp_ret. by exists [].
  - apply wp_bind. eapply wp_wait_one; [exact Hp|]. intros p1 H1. cbn [next]. apply wp_bind. eapply wp_receive_one; [exact H1|].
    intros m p2 H2. cbn [next]. eapply wp_mono; [by eapply IH|]. intros r p3 (ms & -> & Hl & H3). rewrite len_cons. destruct m as [m|].
    + exists (m :: ms). rewrite len_cons. split_and!; (done || lia).
    + exists ms. split_and!; (done || lia).
Qed.
End tally.

(** The subscriber of frames runs for ever: its loop has no way out, since the channel is
    never closed. After [k] turns it has counted some [n <= k] messages and the bytes of
    exactly these, and has reported the first, the 101st, the 201st of them and so on. *)
Theorem frames_tallied {CE DE} turns l id s p :
  one l id s p → (len turns < 2 ^ 63)%Z →
  ∃ ms p', tally_loop (CE := CE) (DE := DE) turns (mkTally 0 0 []) p = Ret (inl (foldl (λ t m, tally_message m t) (mkTally 0 0 []) ms), p') ∧
    (len ms <= len turns)%Z ∧ one l id s p' ∧
    ((total_data ms < 2 ^ 63)%Z →
     foldl (λ t m, tally_message m t) (mkTally 0 0 []) ms =
       mkTally (len ms) (total_data ms) (filter (λ k, k mod 100 = 1)%Z (seqZ 1 (len ms)))).
Proof.
  intros Hp Hl. pose proof (wp_tally_loop (CE := CE) (DE := DE) turns (mkTally 0 0 []) l id s p Hp) as Hw. unfold wp in Hw.
  destruct (tally_loop turns (mkTally 0 0 []) p) as [[r p']| |]; [|done..]. destruct Hw as (ms & -> & Hms & H1).
  exists ms, p'. split_and!; [done..|]. intros Ht.
  pose proof (tally_messages ms 0 0 ltac:(lia) ltac:(lia) ltac:(lia) ltac:(lia)) as E. rewrite !Z.add_0_l in E. exact E.
Qed.

(** The packets before the first error that is no time-out. *)
Fixpoint packets (l : list datagram) : list Z :=
  match l with
  | [] | ReadError :: _ => []
  | NoData :: l => packets l
  | Received n :: l => n :: packets l
  end.
Definition sum (l : list Z) : Z := foldr Z.add 0%Z l.
Definition shown_packet (k : Z) : Prop := (k <= 10)%Z ∨ (k mod 100 = 0)%Z.
#[global] Instance shown_packet_dec k : Decision (shown_packet k).
Proof. unfold shown_packet. apply _. Defined.

Lemma udp_loop_run l n b :
  (0 <= n)%Z → (0 <= b)%Z → Forall (λ k, (0 <= k)%Z) (packets l) → (n + len (packets l) < 2 ^ 63)%Z → (b + sum (packets l) < 2 ^ 63)%Z →
  udp_loop l (mkUdpCounts n n b (filter shown_packet (seqZ 1 n))) =
    (mkUdpCounts (n + len (packets l)) (n + len (packets l)) (b + sum (packets l))
       (filter shown_packet (seqZ 1 (n + len (packets l)))), bool_decide (ReadError ∈ l)).
Proof.
  revert n b. induction l as [|[| |k] l IH]; intros n b Hn Hb Hf Hl Hs; cbn [udp_loop packets] in *.
  - rewrite len_nil. cbn. by rewrite !Z.add_0_r, bool_decide_false by (by apply not_elem_of_nil).
  - rewrite IH by done. f_equal. apply bool_decide_ext. rewrite elem_of_cons. naive_solver.
  - rewrite len_nil. cbn. by rewrite !Z.add_0_r, bool_decide_true by left.
  - apply Forall_cons in Hf as [Hk Hf]. rewrite len_cons in *. cbn [sum foldr] in Hs |- *. fold (sum (packets l)) in *.
    pose proof (len_nonneg (packets l)). assert (0 <= sum (packets l))%Z as Hsum.
    { clear -Hf. induction Hf as [|x m Hx _ IH]; [done|]. cbn. fold (sum m). lia. }
    cbn [packetCount totalPackets udp_bytes udp_shown]. rewrite !int64_small by lia. rewrite Z.rem_mod_nonneg by lia.
    replace (if (n + 1 <=? 10)%Z || ((n + 1) mod 100 =? 0)%Z then _ else _) with (filter shown_packet (seqZ 1 (n + 1))).
    + rewrite IH by (done || lia). replace (n + 1 + len (packets l))%Z with (n + (1 + len (packets l)))%Z by lia.
      replace (b + k + sum (packets l))%Z with (b + (k + sum (packets l)))%Z by lia.
      f_equal. apply bool_decide_ext. rewrite elem_of_cons. naive_solver.
    + rewrite numbered_snoc by done. unfold shown_packet at 2.
      destruct (Z.leb_spec (n + 1) 10); cbn [orb]; [by rewrite decide_True by (by left)|].
      destruct (Z.eqb_spec ((n + 1) mod 100) 0); [by rewrite decide_True by (by right)|].
      rewrite decide_False by (intros [?|?]; [lia|done]). by rewrite app_nil_r.
Qed.

(** The receiver of datagrams: it survives any number of time-outs and returns at the first
    other error; up to there it has counted every packet and its bytes, and shown the
    first ten and every hundredth. *)
Theorem udp_receiver_counts l :
  Forall (λ k, (0 <= k)%Z) (packets l) → (len (packets l) < 2 ^ 63)%Z → (sum (packets l) < 2 ^ 63)%Z →
  udp_loop l (mkUdpCounts 0 0 0 []) =
    (mkUdpCounts (len (packets l)) (len (packets l)) (sum (packets l)) (filter shown_packet (seqZ 1 (len (packets l)))),
     bool_decide (ReadError ∈ l)).
Proof.
  intros Hf Hl Hs. pose proof (udp_loop_run l 0 0 ltac:(lia) ltac:(lia) Hf ltac:(lia) ltac:(lia)) as E.
  rewrite !Z.add_0_l in E. exact E.
Qed.
