(* ===== verification/ServerProgram.v ===== *)
(** * The server's program ([src/examples/server/main.go])

    [main] from the configuration to the end, on top of [Config], [Crypto] and [Server]. The
    profiling endpoint and the printing of statistics run beside it. *)

From S2P Require Import Prelude GoStrings GoIO Protocol Subject Router Session Server Broker.
From S2P Require Import Reconnect Client Crypto Relay Config.

(** ** The server's [main] *)

Section server.
Context {R : Type} `{SubscriptionStore R} {BC CE YamlError : Type}.
Context (NewAESBlockCrypt : list byte → BC + CE) (Unmarshal : list byte → ServerFile + YamlError).

Inductive server_failure :=
| SConfig (e : config_error YamlError)
| SCreate (e : crypt_error (CipherError := CE))
| SStart.

(** Up to the wait for the signal; every failure is a [log.Fatal]. *)
Definition server_boot (flag : gostring) (e : system_env) (listen_ok : bool) : outcome ((ServerFile * World R) + server_failure) :=
  match server_main Unmarshal flag e with
  | inr err => Ret (inr (SConfig err))
  | inl (cfg, key) =>
      match NewServer NewAESBlockCrypt (sf_ListenAddr cfg) key with
      | inr err => Ret (inr (SCreate err))
      | inl (_, _, w) =>
          do r ← server_Start listen_ok w;
          Ret (if r.1 then inl (cfg, r.2) else inr SStart)
      end
  end.

(** The signal: [srv.Close], then the program returns. *)
Definition server_shutdown (o : order) (w : World R) : outcome (World R) :=
  do r ← server_Close o w; Ret r.2.
End server.

Lemma server_main_key {YE} (U : list byte → ServerFile + YE) flag e cfg key :
  server_main U flag e = inl (cfg, key) → ∃ configured env, startup_key configured env = inl key.
Proof.
  unfold server_main. cbv zeta. intros Hm. destruct (if decide _ then _ else _) as [c|err]; [|done].
  destruct (startup_key _ _) as [k|err] eqn:E; [|done]. injection Hm as _ <-. by eexists _, _.
Qed.

(** The server's program: it serves exactly if its configuration resolves, the library accepts
    the key and the address can be listened on (never failing for the key's length, which
    [main] has checked), and starts without any session. Whatever has happened by the time
    of the signal, it returns if no session is registered then; with one it hangs in [Close]
    and never reports that it stopped. *)
Theorem server_program_lifecycle {R} `{SubscriptionStoreLaws R} {BC CE YE} (aes : list byte → BC + CE)
    (U : list byte → ServerFile + YE) flag e listen_ok :
  (∀ cfg w, server_boot aes U flag e listen_ok = Ret (inl (cfg, w)) ↔
     listen_ok = true ∧ w = set_listening true new_world ∧ ∃ key b, server_main U flag e = inl (cfg, key) ∧ aes key = inl b) ∧
  (∃ r, server_boot (R := R) aes U flag e listen_ok = Ret r ∧ ∀ n, r ≠ inr (SCreate (ErrKeyLength n))) ∧
  (∀ o w, rtc step (set_listening true new_world) w → srv_closeOnce w = false →
     (sessions w = ∅ → ∃ w' : World R, server_shutdown o w = Ret w' ∧ listening w' = false) ∧
     (sessions w ≠ ∅ → server_shutdown o w = Block)).
Proof.
  assert (∀ cfg key, server_main U flag e = inl (cfg, key) → len key = 32%Z) as Hlen.
  { intros cfg key Hm. destruct (server_main_key U flag e cfg key Hm) as (configured & env & Hk).
    by apply startup_key_spells in Hk as [Hl _]. }
  split_and!.
  - intros cfg w. unfold server_boot, NewServer, newAES256BlockCrypt.
    destruct (server_main U flag e) as [[c key]|err] eqn:Em; [|split; [done|]; intros (_ & _ & key & b & Hx & _); done].
    rewrite (Hlen c key) by done. cbn [negb Z.eqb Pos.eqb].
    destruct (aes key) as [b|ce] eqn:Ea; [|split; [done|]; intros (_ & _ & key' & b & [= _ <-] & Hb); congruence].
    destruct listen_ok; cbn; [|split; [done|by intros [? _]]]. split.
    + intros [= <- <-]. split_and!; [done..|]. by exists key, b.
    + intros (_ & -> & key' & b' & [= <- _] & _). done.
  - unfold server_boot, NewServer, newAES256BlockCrypt.
    destruct (server_main U flag e) as [[c key]|err] eqn:Em; [|by eexists]. rewrite (Hlen c key) by done. cbn [negb Z.eqb Pos.eqb].
    destruct (aes key) as [b|ce]; [|by eexists]. destruct listen_ok; by eexists.
  - intros o w Hw Hcl.
    assert (world_ok w) as Hok.
    { apply reachable_ok. unfold reachable. eapply rtc_l; [|exact Hw]. apply step_turn.
      by eapply (turn_server_start true true). }
    unfold server_shutdown. split.
    + intros He. rewrite server_Close_idle by (done || apply Hok). by eexists.
    + intros Hne. by rewrite server_Close_live.
Qed.

(** A server that has accepted one connection. *)
Definition one_session : World Router := accept_world 1 [] (set_listening true new_world).

Lemma server_program_lifecycle_witness :
  rtc step (set_listening true new_world) one_session ∧ server_shutdown in_order one_session = Block.
Proof.
  assert (rtc step (set_listening true new_world) one_session) as Hr.
  { apply rtc_once, (step_accept 1 []); [reflexivity|]. by apply accept_one_run. }
  split; [exact Hr|].
  apply (proj2 (proj2 (server_program_lifecycle (λ k, inl k : list byte + unit) (λ _, inr tt : ServerFile + unit) []
    (mkEnv (λ _, []) (λ _, false) (λ _, None)) true)) in_order one_session Hr eq_refl).
  vm_compute. discriminate.
Defined.
