(* ===== verification/ChannelMode.v ===== *)
(** * Channel mode when subscribing fails ([SubscribeChanWithContext])

    The callback of a subscription in channel mode sends on the channel handed to the caller.
    If subscribing fails the channel is closed, while the goroutines of the attempts that
    were given up still hand their queued messages to the callback. A send on a closed
    channel panics, in a [select] with a [default] as well. *)

From S2P Require Import Prelude GoStrings GoIO Protocol Subject Reconnect Client ClientLaws ClientAPI Relay.

(** ** State *)

(** The caller's channel. *)
Record shared_chan := mkShared { contents : user_chan; chan_closed : bool }.

(** A client whose callers use channel mode for some of their subscriptions: [on_chan] has the
    subscriptions whose callback sends on a channel, with its address, all others have a
    callback of the caller's own; [made] is the number of channels made so far. *)
Record chan_client := mkChanClient {
  inner : Client;
  on_chan : gmap subid nat;
  chans : gmap nat shared_chan;
  made : nat;
}.

(** ** Operations *)

(** The callback of a subscription in channel mode. *)
Definition chan_send (msg : Delivery) (sc : shared_chan) : outcome shared_chan :=
  if chan_closed sc then Panic else Ret (mkShared (chan_callback msg (contents sc)) false).

(** The call: every subscription it makes, one per attempt, has the callback that sends on
    its channel. *)
Definition SubscribeChanWithContext (subj : gostring) (cap : Z) (env : Z → round) (st : chan_client) :
    outcome ((nat * subid + client_error) * chan_client) :=
  let cap := if (cap <=? 0)%Z then 100%Z else cap in
  let ch := made st in
  do r ← SubscribeWithOptions subj cap env (inner st);
  let attempted := dom (subs r.2) ∖ dom (subs (inner st)) in
  let st' (failed : bool) :=
    mkChanClient r.2 (gset_to_gmap ch attempted ∪ on_chan st)
      (<[ch := mkShared (mkChan [] cap 0) failed]> (chans st)) (S ch) in
  match r.1 with
  | inl id => Ret (inl (ch, id), st' false)
  | inr e => Ret (inr e, st' true)
  end.

(** One turn of the goroutine of a subscription, given up or not: it ranges over the queue,
    closed or not, and runs the callback. *)
Definition processing_turn (id : subid) (st : chan_client) : outcome chan_client :=
  match subs (inner st) !! id with
  | Some s =>
      match msgChan s with
      | [] => Ret st
      | m :: _ =>
          let c := upd_sub id process_one (inner st) in
          match on_chan st !! id with
          | None => Ret (mkChanClient c (on_chan st) (chans st) (made st))
          | Some ch =>
              match chans st !! ch with
              | Some sc =>
                  do sc ← chan_send m sc;
                  Ret (mkChanClient c (on_chan st) (<[ch := sc]> (chans st)) (made st))
              | None => Panic
              end
          end
      end
  | None => Ret st
  end.

Fixpoint processing_turns (ids : list subid) (st : chan_client) : outcome chan_client :=
  match ids with [] => Ret st | id :: ids => do st ← processing_turn id st; processing_turns ids st end.

(** The receive loop dispatches a message. *)
Definition chan_receive (m : Protocol.Message) (st : chan_client) : chan_client :=
  mkChanClient (handleMessage m (inner st)) (on_chan st) (chans st) (made st).

Definition new_chan_client : chan_client := mkChanClient new_client ∅ ∅ 0.

(** It is the call of [Relay], which has no use for the channel of a call that failed. *)
Lemma SubscribeChan_same subj cap env st :
  SubscribeChan subj cap env (inner st) =
    (do r ← SubscribeChanWithContext subj cap env st;
     match r with
     | (inl (ch, id), st) =>
         Ret (inl (from_option contents (mkChan [] 0 0) (chans st !! ch), id), inner st)
     | (inr e, st) => Ret (inr e, inner st)
     end).
Proof.
  unfold SubscribeChan, SubscribeChanWithContext.
  destruct (SubscribeWithOptions _ _ _ _) as [[[id|e] c']| |]; [|done..]. cbn. by rewrite lookup_insert_eq.
Qed.

(** ** No panic without a failure *)

(** Callbacks send on channels that were made. *)
Definition wired (st : chan_client) : Prop :=
  (∀ id ch, on_chan st !! id = Some ch → is_Some (chans st !! ch)) ∧
  (∀ ch, is_Some (chans st !! ch) → (ch < made st)%nat).

Definition all_open (st : chan_client) : Prop := map_Forall (λ _ sc, chan_closed sc = false) (chans st).

Lemma turn_open id st :
  wired st → all_open st → ∃ st', processing_turn id st = Ret st' ∧ wired st' ∧ all_open st'.
Proof.
  intros [Hw Hm] Ho. unfold processing_turn. destruct (subs (inner st) !! id) as [s|]; [|by exists st].
  destruct (msgChan s) as [|m q]; [by exists st|]. destruct (on_chan st !! id) as [ch|] eqn:Hc; [|by eexists].
  destruct (Hw id ch Hc) as [sc Hsc]. rewrite Hsc. unfold chan_send. rewrite (Ho ch sc Hsc).
  eexists. split; [reflexivity|]. split; [split|].
  - intros id' ch' Hc'. cbn. rewrite lookup_insert_is_Some'. right. by eapply Hw.
  - intros ch'. cbn. rewrite lookup_insert_is_Some'. intros [<-|?]; apply Hm; [by eexists|done].
  - by apply map_Forall_insert_2.
Qed.

Lemma turns_open ids st :
  wired st → all_open st → ∃ st', processing_turns ids st = Ret st' ∧ wired st' ∧ all_open st'.
Proof.
  revert st. induction ids as [|id ids IH]; intros st Hw Ho; [by exists st|]. cbn [processing_turns].
  destruct (turn_open id st Hw Ho) as (st1 & -> & Hw1 & Ho1). by apply IH.
Qed.

(** What the call leaves. *)
Lemma call_effect subj cap env st res st' :
  wired st → SubscribeChanWithContext subj cap env st = Ret (res, st') →
  wired st' ∧
  (∃ sc, chans st' = <[made st := sc]> (chans st) ∧ chan_closed sc = match res with inl _ => false | inr _ => true end) ∧
  (∀ id, is_Some (subs (inner st') !! id) → on_chan st' !! id =
     if decide (subs (inner st) !! id = None) then Some (made st) else on_chan st !! id).
Proof.
  intros [Hw Hm] Hcall. unfold SubscribeChanWithContext in Hcall.
  destruct (SubscribeWithOptions _ _ _ _) as [[r c]| |]; [|done..]. cbn [obind fst snd] in Hcall.
  set (new := dom (subs c) ∖ dom (subs (inner st))) in Hcall.
  assert (inner st' = c ∧ on_chan st' = gset_to_gmap (made st) new ∪ on_chan st ∧ made st' = S (made st) ∧
    ∃ sc, chans st' = <[made st := sc]> (chans st) ∧ chan_closed sc = match res with inl _ => false | inr _ => true end)
    as (Ei & Eo & Em & sc & Ec & Hsc) by (destruct r; injection Hcall as <- <-; split_and!; try done; by eexists).
  split; [split|split; [by exists sc|]].
  - intros id ch. rewrite Eo, Ec, lookup_insert_is_Some', lookup_union_Some_raw.
    intros [[_ ->]%lookup_gset_to_gmap_Some|[_ Hc]]; [by left|right; by eapply Hw].
  - intros ch. rewrite Ec, Em, lookup_insert_is_Some'. intros [<-|Hc%Hm]; lia.
  - intros id Hid. rewrite Ei in Hid. rewrite Eo. case_decide as Hn.
    + apply lookup_union_Some_l, lookup_gset_to_gmap_Some. split; [|done].
      apply elem_of_difference. rewrite !elem_of_dom, Hn. split; [done|by intros [??]].
    + rewrite lookup_union_r; [done|]. apply lookup_gset_to_gmap_None. unfold new.
      rewrite elem_of_difference, !elem_of_dom. intros [_ Hno]. apply Hno. by destruct (subs (inner st) !! id).
Qed.

(** ** Properties *)

(** A subscriber that is sent a message but no acknowledgement in any of its attempts. *)
Definition unlucky (_ : Z) : round :=
  mkRound false true [NewMessageCmd CmdMsg (str "a.b") (str "x")] WokenTimeout.

(** A subscriber whose connection is lost while it waits. *)
Definition cut_off (_ : Z) : round := mkRound false true [] WokenDone.

(** C27: channel mode is safe as long as every call succeeds: whatever the state and the
    environment, after a success no turn of any subscription's goroutine, in channel mode or
    not, in any order, panics. After a failure exactly the goroutines of the attempts this call
    made panic at their next turn if they have a message queued, which ends the whole
    program, and no other subscription's does. Such states occur: a message for the subject arrives
    while the last attempt waits for its acknowledgement; and when the connection is lost
    while the call waits, its subscription stays active and the next message for the subject,
    after the reconnection, ends the program. *)
Theorem late_callback_panics :
  (∀ subj cap env st r st' ids, wired st → all_open st →
     SubscribeChanWithContext subj cap env st = Ret (inl r, st') →
     ∃ st'', processing_turns ids st' = Ret st'' ∧ wired st'' ∧ all_open st'') ∧
  (∀ subj cap env st e st' id s, wired st → all_open st →
     SubscribeChanWithContext subj cap env st = Ret (inr e, st') → subs (inner st') !! id = Some s →
     (processing_turn id st' = Panic ↔ msgChan s ≠ [] ∧ subs (inner st) !! id = None)) ∧
  (∃ e st' id, SubscribeChanWithContext (str "a.*") 10 unlucky new_chan_client = Ret (inr e, st') ∧
     subs new_client !! id = None ∧ processing_turn id st' = Panic) ∧
  (∃ st' id, SubscribeChanWithContext (str "a.*") 10 cut_off new_chan_client = Ret (inr ErrConnectionClosed, st') ∧
     processing_turn id st' = Ret st' ∧
     processing_turn id (chan_receive (NewMessageCmd CmdMsg (str "a.b") (str "x")) st') = Panic).
Proof.
  split_and!.
  - intros subj cap env st r st' ids Hw Ho Hcall.
    destruct (call_effect _ _ _ _ _ _ Hw Hcall) as (Hw' & (sc & Ec & Hsc) & _).
    apply turns_open; [done|]. unfold all_open. rewrite Ec. by apply map_Forall_insert_2.
  - intros subj cap env st e st' id s Hw Ho Hcall Hs.
    destruct (call_effect _ _ _ _ _ _ Hw Hcall) as ([Hw' _] & (sc & Ec & Hsc) & Hon).
    specialize (Hon id (ex_intro _ s Hs)). unfold processing_turn. rewrite Hs, Hon.
    destruct (msgChan s) as [|m q]; [naive_solver|]. case_decide as Hn.
    + rewrite Ec, lookup_insert_eq. unfold chan_send. rewrite Hsc. naive_solver.
    + split; [|by intros [_ ?]]. destruct (on_chan st !! id) as [ch|] eqn:Hch; [|done].
      destruct Hw as [Hw Hm]. destruct (Hw id ch Hch) as [sc' Hsc'].
      rewrite Ec, lookup_insert_ne, Hsc' by (specialize (Hm ch (ex_intro _ sc' Hsc')); lia).
      unfold chan_send. by rewrite (Ho ch sc' Hsc').
  - destruct (SubscribeChanWithContext (str "a.*") 10 unlucky new_chan_client) as [[[r|e] st']| |] eqn:E;
      [by vm_compute in E| |by vm_compute in E..].
    exists e, st', 4%nat. split; [done|]. split; [done|]. vm_compute in E. injection E as _ <-. by vm_compute.
  - destruct (SubscribeChanWithContext (str "a.*") 10 cut_off new_chan_client) as [[[r|e] st']| |] eqn:E;
      [by vm_compute in E| |by vm_compute in E..].
    exists st', 0%nat. vm_compute in E. injection E as <- <-. by vm_compute.
Qed.

(** A subscriber that is acknowledged at once, and its client with a message queued for an
    ordinary callback. *)
Definition lucky (subj : gostring) (_ : Z) : round :=
  mkRound false true [NewMessageCmd CmdOk (str "subscribed to " ++ subj) []] WokenAck.

Definition mixed_client : chan_client :=
  match SubscribeWithOptions (str "a.b") 10 (lucky (str "a.b")) new_client with
  | Ret (_, c) => chan_receive (NewMessageCmd CmdMsg (str "a.b") (str "x")) (mkChanClient c ∅ ∅ 0)
  | _ => new_chan_client
  end.

Definition after_call (env : Z → round) : (nat * subid + client_error) * chan_client :=
  match SubscribeChanWithContext (str "a.*") 10 env mixed_client with
  | Ret r => r
  | _ => (inr ErrContext, mixed_client)
  end.

(** One client, an ordinary subscription with a queued message and a call that succeeds: no
    turn panics. If the call fails instead, the ordinary one is still safe and the last
    attempt of the call is not. *)
Lemma late_callback_panics_witness :
  (∃ st, processing_turns [0; 2]%nat (after_call (lucky (str "a.*"))).2 = Ret st) ∧
  ¬ (processing_turn 0 (after_call unlucky).2 = Panic) ∧
  processing_turn 6 (after_call unlucky).2 = Panic.
Proof.
  destruct late_callback_panics as (Hok & Hfail & _).
  assert (wired mixed_client ∧ all_open mixed_client) as [Hw Ho].
  { assert (on_chan mixed_client = ∅ ∧ chans mixed_client = ∅) as [E1 E2] by (split; vm_compute; reflexivity).
    split; [split|unfold all_open; rewrite E2; apply map_Forall_empty].
    - intros id ch. by rewrite E1.
    - intros ch. rewrite E2. by intros []. }
  split; [|split].
  - destruct (Hok (str "a.*") 10%Z (lucky (str "a.*")) mixed_client (0, 2)%nat (after_call (lucky (str "a.*"))).2 [0; 2]%nat Hw Ho)
      as (st & Hst & _); [vm_compute; reflexivity|by exists st].
  - destruct (after_call unlucky) as [[r|e] st'] eqn:E; [vm_compute in E; discriminate|].
    assert (SubscribeChanWithContext (str "a.*") 10 unlucky mixed_client = Ret (inr e, st')) as Hcall
      by (rewrite <-E; vm_compute; reflexivity).
    cbn [snd]. destruct (subs (inner st') !! 0%nat) as [s|] eqn:Hs.
    + rewrite (Hfail _ _ _ _ _ _ 0%nat s Hw Ho Hcall Hs). intros [_ Hn]. vm_compute in Hn. discriminate.
    + unfold processing_turn. rewrite Hs. discriminate.
  - vm_compute. reflexivity.
Defined.
