(* ===== verification/Echo.v ===== *)
(** * The echo pair ([src/test_simple])

    Two programs on the bare transport, without the protocol: the server writes back what it
    reads, piece by piece; the client sends three texts and takes the next piece it reads for
    the echo of the text it sent last. *)

From S2P Require Import Prelude GoStrings GoIO.

(** ** Programs *)

(** [conn.Read(buf)] with a buffer of [n] bytes: one piece, whose rest stays. *)
Definition conn_Read (n : nat) (r : reader) : (list byte + io_error) * reader :=
  match r with
  | [] => (inr EOF, [])
  | RErr e :: r => (inr e, r)
  | RChunk c :: r => (inl (take n c), if decide (length c <= n)%nat then r else RChunk (drop n c) :: r)
  end.

Definition buffer_size : nat := 4096.

(** [handleConnection]: [oks] are the outcomes of the writes, all further ones succeed. The
    result is what was written and whether the function has returned, which closes the
    connection. *)
Fixpoint handleConnection (fuel : nat) (oks : list bool) (r : reader) : list (list byte) * bool :=
  match fuel with
  | O => ([], false)
  | S fuel =>
      match conn_Read buffer_size r with
      | (inr _, _) => ([], true)
      | (inl data, r) =>
          match oks with
          | false :: _ => ([], true)
          | _ =>
              let '(l, b) := handleConnection fuel (tail oks) r in (data :: l, b)
          end
      end
  end.

(** [main] of the client after dialling: what it writes, the echoes it has printed and the
    error it returned with. *)
Inductive echo_error := WriteError | ReadError (e : io_error).

Definition messages : list gostring := [str "Hello KCP!"; str "Test message 2"; str "Test message 3"].

Fixpoint echo_texts (l : list gostring) (oks : list bool) (r : reader) : list (list byte) * list (list byte) * option echo_error :=
  match l with
  | [] => ([], [], None)
  | msg :: l =>
      match oks with
      | false :: _ => ([], [], Some WriteError)
      | _ =>
          match conn_Read buffer_size r with
          | (inr e, _) => ([msg], [], Some (ReadError e))
          | (inl data, r) =>
              let '(ws, es, e) := echo_texts l (tail oks) r in (msg :: ws, data :: es, e)
          end
      end
  end.

Definition echo_client (oks : list bool) (r : reader) : list (list byte) * list (list byte) * option echo_error :=
  echo_texts messages oks r.

(** ** The server returns what it gets *)

(** Pieces yet to be read. *)
Fixpoint pieces (r : reader) : nat :=
  match r with RChunk c :: r => S (length c + pieces r) | _ => 1 end.

Lemma conn_Read_spec n r :
  (0 < n)%nat →
  match conn_Read n r with
  | (inl data, r') => stream r = data ++ stream r' ∧ stream_error r' = stream_error r ∧
                      (length data <= n)%nat ∧ (pieces r' < pieces r)%nat
  | (inr e, _) => stream r = [] ∧ e = stream_error r
  end.
Proof.
  intros Hn. destruct r as [|[c|e] r]; cbn; [done| |done]. rewrite length_take.
  case_decide.
  - rewrite take_ge by lia. split_and!; [done..|lia|lia].
  - cbn. rewrite length_drop, app_assoc, take_drop. split_and!; [done..|lia|lia].
Qed.

(** Everything up to the first error is written back, in pieces that fit the buffer, and
    the function returns. *)
Lemma handleConnection_echoes r fuel :
  (pieces r <= fuel)%nat →
  ∃ l, handleConnection fuel [] r = (l, true) ∧ concat l = stream r ∧
    Forall (λ d, (length d <= buffer_size)%nat) l.
Proof.
  revert r. induction fuel as [|fuel IH]; intros r Hf.
  - destruct r as [|[|]]; cbn in Hf; lia.
  - cbn [handleConnection tail]. pose proof (conn_Read_spec buffer_size r ltac:(unfold buffer_size; lia)) as Hr.
    destruct (conn_Read buffer_size r) as [[data|e] r'].
    + destruct Hr as (-> & _ & Hlen & Hp). destruct (IH r') as (l & -> & <- & Hl); [lia|].
      exists (data :: l). split_and!; [done..|by constructor].
    + destruct Hr as [-> _]. exists []. split_and!; [done..|constructor].
Qed.

(** With a failing write it returns as well, having written a prefix. *)
Lemma handleConnection_returns r oks fuel :
  (pieces r <= fuel)%nat → ∃ l rest, handleConnection fuel oks r = (l, true) ∧ stream r = concat l ++ rest.
Proof.
  revert r oks. induction fuel as [|fuel IH]; intros r oks Hf.
  - destruct r as [|[|]]; cbn in Hf; lia.
  - cbn [handleConnection]. pose proof (conn_Read_spec buffer_size r ltac:(unfold buffer_size; lia)) as Hr.
    destruct (conn_Read buffer_size r) as [[data|e] r'].
    + destruct Hr as (-> & _ & _ & Hp). destruct oks as [|[] oks]; cbn [tail].
      3: by eexists [], _.
      1: destruct (IH r' []) as (l & rest & -> & ->); [lia|].
      2: destruct (IH r' oks) as (l & rest & -> & ->); [lia|].
      all: exists (data :: l), rest; split; [done|]; cbn; by rewrite <-app_assoc.
    + destruct Hr as [-> _]. by exists [], [].
Qed.

(** ** The two together *)

(** When every piece arrives as it was written, each text is followed by its echo. *)
Example echo_pair :
  handleConnection 60 [] (RChunk <$> messages) = (messages, true) ∧
  echo_client [] (RChunk <$> (handleConnection 60 [] (RChunk <$> messages)).1) = (messages, messages, None).
Proof. by vm_compute. Qed.

(** When the first echo arrives in two pieces, the second of them is taken for the echo of
    the second text. *)
Example echo_split :
  echo_client [] [RChunk (str "Hello "); RChunk (str "KCP!"); RChunk (str "Test message 2")]
  = (messages, [str "Hello "; str "KCP!"; str "Test message 2"], None).
Proof. by vm_compute. Qed.
